(** * sdc-docker image engine: resolution, ancestry walk and deletion

    A shallow embedding of [lib/backends/sdc/images.js] and of the
    [ImageV2] model ([lib/models/image-v2.js]).  The callback style of the
    source is kept: every [vasync.pipeline] stage is a function that
    reports the calls it makes to its continuation, closure variables are
    a record threaded through the stages, and Moray, IMGAPI and VMAPI are
    fields of an explicit [World]. *)

From Stdlib Require Import String Ascii List Bool ZArith Lia PeanoNat.
Import ListNotations.
Local Open Scope list_scope.
Local Open Scope string_scope.

(* ------------------------------------------------------------------ *)
(** ** JavaScript strings *)

(** [s.substr(0, n)]. *)
Definition substr0 (n : nat) (s : string) : string := String.substring 0 n s.

Definition is_hex_char (c : ascii) : bool :=
  let n := nat_of_ascii c in
  (Nat.leb 48 n && Nat.leb n 57) || (Nat.leb 97 n && Nat.leb n 102).

Fixpoint all_chars (p : ascii -> bool) (s : string) : bool :=
  match s with
  | EmptyString => true
  | String c r => p c && all_chars p r
  end.

(** [/^[0-9a-f]+$/.test(s)]. *)
Definition is_hex (s : string) : bool :=
  match s with
  | EmptyString => false
  | _ => all_chars is_hex_char s
  end.

(** [/^sha256:[0-9a-f]+$/.test(s)]. *)
Definition is_sha256_hex (s : string) : bool :=
  String.prefix "sha256:" s
  && is_hex (String.substring 7 (String.length s - 7) s).

(** [arr.join(sep)]. *)
Fixpoint join (sep : string) (l : list string) : string :=
  match l with
  | [] => ""
  | [x] => x
  | x :: r => x ++ sep ++ join sep r
  end.

(* ------------------------------------------------------------------ *)
(** ** Errors *)

(** Modelled from the spec: [lib/errors] is not among the sources; the
    constructors are the error classes that [images.js] instantiates
    (the taxonomy of the error handling design).  [AbortMarker] is the
    value [true] that the pipelines pass as [err] to stop early without
    failing.  [ServiceError] is an error object handed back by Moray,
    IMGAPI or VMAPI. *)
#[warnings="-register-all"]
Inductive Error : Type :=
| AbortMarker
| ResourceNotFoundError (msg : string)
| DockerError (cause : option Error) (msg : string)
| AmbiguousDockerImageIdError (name : string) (indexNames : list string)
| ServiceError (code : string) (status : Z).

(** Modelled from the spec: the [restCode] of an error of [lib/errors]
    is the name of its kind; [getImageAncestry] compares it with
    ['ResourceNotFound']. *)
Definition restCode (e : Error) : string :=
  match e with
  | AbortMarker => ""
  | ResourceNotFoundError _ => "ResourceNotFound"
  | DockerError _ _ => "DockerError"
  | AmbiguousDockerImageIdError _ _ => "AmbiguousDockerImageId"
  | ServiceError c _ => c
  end.

(** Modelled from the spec: the HTTP status of an error; the resolvers
    compare it with 404. *)
Definition statusCode (e : Error) : Z :=
  match e with
  | AbortMarker => 0
  | ResourceNotFoundError _ => 404
  | DockerError _ _ => 500
  | AmbiguousDockerImageIdError _ _ => 400
  | ServiceError _ s => s
  end.

(** [err === true]. *)
Definition is_abort (e : Error) : bool :=
  match e with AbortMarker => true | _ => false end.

(** What ends a run other than a call to the callback. *)
Inductive Crash : Type :=
| AssertionError (msg : string)
| TypeError (msg : string)
| CallbackInvokedTwice
| CallbackNeverInvoked
| OutOfFuel.

(** The outcome of an asynchronous function: the arguments of the one
    call it makes to its callback, or a crash. *)
Inductive Result (A : Type) : Type :=
| Called (err : option Error) (val : A)
| Crashed (c : Crash).
Arguments Called {A} err val.
Arguments Crashed {A} c.

(** The answer of an external service. *)
Inductive Reply (A : Type) : Type :=
| Failed (e : Error)
| Got (a : A).
Arguments Failed {A} e.
Arguments Got {A} a.

(* ------------------------------------------------------------------ *)
(** ** Records of the four buckets *)

Module Image.
(** Modelled from the spec: [lib/models/image.js] is not among the
    sources; the fields are those of the "V1 Image Record" of the data
    model that [images.js] reads. *)
Record t : Type := mk {
  owner_uuid : string;
  index_name : string;
  docker_id : string;
  head : bool;
  heads : list string;
  parent : string;
  refcount : Z;
  image_uuid : string;
  size : Z;
  created : Z;
  container_config_Cmd : option (list string)
}.
End Image.

Module ImageTag.
(** Modelled from the spec: "V1 Tag Record",
    (owner, index_host, repo, tag) -> docker_id. *)
Record t : Type := mk {
  owner_uuid : string;
  index_name : string;
  repo : string;
  tag : string;
  docker_id : string
}.
End ImageTag.

Module HistoryItem.
(** An element of [image.history] of a v2 image JSON. *)
Record t : Type := mk {
  comment : option string;
  created : string;
  created_by : string;
  size : option Z
}.
End HistoryItem.

Module ImageV2.
(** [lib/models/image-v2.js].  [parent] is [params.parent], which the
    constructor makes equal to [image.parent] or to the empty string. *)
Record t : Type := mk {
  digest : string;
  head : bool;
  image_uuid : string;
  manifest_digest : string;
  manifest_str : string;
  owner_uuid : string;
  parent : string;
  size : Z;
  created : Z;
  history : list HistoryItem.t;
  rootfs_diff_ids : list string;
  container_config_Cmd : option (list string)
}.

(** [objectKey]. *)
Definition objectKey (p : t) : string := owner_uuid p ++ "," ++ digest p.
End ImageV2.

Module ImageTagV2.
(** Modelled from the spec: "V2 Tag Record",
    (owner, repo, tag) -> digest. *)
Record t : Type := mk {
  owner_uuid : string;
  repo : string;
  tag : string;
  digest : string
}.
End ImageTagV2.

(** An [img] of [images.js]: an [Image], an [ImageV2], or the faux object
    [{image_uuid, os}] built for a SmartOS image. *)
Inductive Img : Type :=
| V1 (i : Image.t)
| V2 (i : ImageV2.t)
| Faux (image_uuid os : string).

Inductive ImgTag : Type :=
| TagV1 (t : ImageTag.t)
| TagV2 (t : ImageTagV2.t).

(** [isV1Image]: [!img.hasOwnProperty('manifest_str')].  Only the
    [ImageV2] constructor defines that property. *)
Definition isV1Image (img : Img) : bool :=
  match img with
  | V2 _ => false
  | V1 _ | Faux _ _ => true
  end.

Definition img_image_uuid (img : Img) : string :=
  match img with
  | V1 i => Image.image_uuid i
  | V2 i => ImageV2.image_uuid i
  | Faux u _ => u
  end.

Definition imgTag_owner_uuid (t : ImgTag) : string :=
  match t with
  | TagV1 t => ImageTag.owner_uuid t
  | TagV2 t => ImageTagV2.owner_uuid t
  end.

Definition imgTag_repo (t : ImgTag) : string :=
  match t with
  | TagV1 t => ImageTag.repo t
  | TagV2 t => ImageTagV2.repo t
  end.

Definition imgTag_tag (t : ImgTag) : string :=
  match t with
  | TagV1 t => ImageTag.tag t
  | TagV2 t => ImageTagV2.tag t
  end.

(** [it.digest]; a v1 tag record has none. *)
Definition imgTag_digest (t : ImgTag) : string :=
  match t with
  | TagV1 _ => "undefined"
  | TagV2 t => ImageTagV2.digest t
  end.

(** [it.repo + ':' + it.tag]. *)
Definition repoTag (t : ImgTag) : string := imgTag_repo t ++ ":" ++ imgTag_tag t.

(* ------------------------------------------------------------------ *)
(** ** The record store (Moray)

    [lib/moray.js] is not among the sources.  A bucket is the sequence
    of its objects, in the order in which a listing returns them. *)

(** A filter object such as [{repo: name, owner_uuid: uuid, tag: tag}]. *)
Definition Filter : Type := list (string * string).

Fixpoint strip_star (s : string) : option string :=
  match s with
  | EmptyString => None
  | String c EmptyString =>
      if Ascii.eqb c "*"%char then Some EmptyString else None
  | String c r => option_map (String c) (strip_star r)
  end.

(** Modelled from the spec: a constraint of a filter expression is an
    equality, or a prefix constraint when the value ends in [*]. *)
Definition ldap_match (pattern value : string) : bool :=
  match strip_star pattern with
  | Some p => String.prefix p value
  | None => String.eqb pattern value
  end.

(** What [lib/moray.js] needs of a model: the key of an object and its
    indexed fields. *)
Class MorayModel (R : Type) : Type := {
  key : R -> string;
  indexed : R -> string -> option string
}.

Definition bool_str (b : bool) : string := if b then "true" else "false".

(** Modelled from the spec: the identity of a v1 image record is
    [(owner, index_host, docker_id)]. *)
#[export] Instance Image_model : MorayModel Image.t := {|
  key r := Image.owner_uuid r ++ "," ++ Image.index_name r ++ ","
           ++ Image.docker_id r;
  indexed r f :=
    if String.eqb f "owner_uuid" then Some (Image.owner_uuid r)
    else if String.eqb f "index_name" then Some (Image.index_name r)
    else if String.eqb f "docker_id" then Some (Image.docker_id r)
    else if String.eqb f "head" then Some (bool_str (Image.head r))
    else if String.eqb f "image_uuid" then Some (Image.image_uuid r)
    else None
|}.

(** Modelled from the spec: a v1 tag record is stored under
    [(owner, index_host, repo, tag)]. *)
#[export] Instance ImageTag_model : MorayModel ImageTag.t := {|
  key r := ImageTag.owner_uuid r ++ "," ++ ImageTag.index_name r ++ ","
           ++ ImageTag.repo r ++ "," ++ ImageTag.tag r;
  indexed r f :=
    if String.eqb f "owner_uuid" then Some (ImageTag.owner_uuid r)
    else if String.eqb f "index_name" then Some (ImageTag.index_name r)
    else if String.eqb f "repo" then Some (ImageTag.repo r)
    else if String.eqb f "tag" then Some (ImageTag.tag r)
    else if String.eqb f "docker_id" then Some (ImageTag.docker_id r)
    else None
|}.

(** The [schema.index] of [BUCKET] in the ImageV2 model. *)
#[export] Instance ImageV2_model : MorayModel ImageV2.t := {|
  key := ImageV2.objectKey;
  indexed r f :=
    if String.eqb f "digest" then Some (ImageV2.digest r)
    else if String.eqb f "head" then Some (bool_str (ImageV2.head r))
    else if String.eqb f "image_uuid" then Some (ImageV2.image_uuid r)
    else if String.eqb f "manifest_digest"
      then Some (ImageV2.manifest_digest r)
    else if String.eqb f "owner_uuid" then Some (ImageV2.owner_uuid r)
    else if String.eqb f "parent" then Some (ImageV2.parent r)
    else None
|}.

(** Modelled from the spec: a v2 tag record is stored under
    [(owner, repo, tag)]. *)
#[export] Instance ImageTagV2_model : MorayModel ImageTagV2.t := {|
  key r := ImageTagV2.owner_uuid r ++ "," ++ ImageTagV2.repo r ++ ","
           ++ ImageTagV2.tag r;
  indexed r f :=
    if String.eqb f "owner_uuid" then Some (ImageTagV2.owner_uuid r)
    else if String.eqb f "repo" then Some (ImageTagV2.repo r)
    else if String.eqb f "tag" then Some (ImageTagV2.tag r)
    else if String.eqb f "digest" then Some (ImageTagV2.digest r)
    else None
|}.

Definition satisfies {R} `{MorayModel R} (flt : Filter) (r : R) : bool :=
  forallb (fun c => match indexed r (fst c) with
                    | Some v => ldap_match (snd c) v
                    | None => false
                    end) flt.

(** Modelled from the spec: [list(bucket, filterExpr)], the filter being
    a conjunction of constraints over the indexed fields. *)
Definition listObjs {R} `{MorayModel R} (bucket : list R) (flt : Filter)
  : list R :=
  List.filter (satisfies flt) bucket.

(** Modelled from the spec: [delete(bucket, key)]. *)
Definition delObj {R} `{MorayModel R} (k : string) (bucket : list R)
  : list R :=
  List.filter (fun r => negb (String.eqb (key r) k)) bucket.

(** Modelled from the spec: [put(bucket, key)]; the object stored under
    the key is replaced. *)
Definition putObject {R} `{MorayModel R} (r : R) (bucket : list R) : list R :=
  (delObj (key r) bucket ++ [r])%list.

(* ------------------------------------------------------------------ *)
(** ** The world: the four buckets, IMGAPI, VMAPI

    The external services are consumed through their calls only.  Each
    service has a script of faults: a call takes the next entry of the
    script of its service and fails with it when it is an error; with an
    empty script every call goes through. *)

Module ImgapiImage.
Record t : Type := mk { uuid : string; os : string; state : string }.
End ImgapiImage.

Module Vm.
Record t : Type := mk {
  uuid : string;
  state : string;
  image_uuid : string;
  owner_uuid : string
}.
End Vm.

Record World : Type := mkWorld {
  docker_images : list Image.t;
  docker_image_tags : list ImageTag.t;
  docker_images_v2 : list ImageV2.t;
  docker_image_tags_v2 : list ImageTagV2.t;
  imgapi_images : list ImgapiImage.t;
  (** every [imgapi.deleteImage] call made so far, with its answer *)
  imgapi_deleteImage_calls : list (string * option Error);
  vmapi_vms : list Vm.t;
  (** Modelled from the spec: the answer of [Image.datacenterRefcount]
      (the query is in [lib/models/image.js], not among the sources), by
      [index_name] and [docker_id]: the datacenter-wide count per
      docker_id. *)
  datacenterRefcount : string -> string -> list (string * Z);
  moray_faults : list (option Error);
  imgapi_faults : list (option Error);
  vmapi_faults : list (option Error)
}.

Definition set_docker_images (v : list Image.t) (w : World) : World :=
  mkWorld v (docker_image_tags w) (docker_images_v2 w)
    (docker_image_tags_v2 w) (imgapi_images w) (imgapi_deleteImage_calls w)
    (vmapi_vms w) (datacenterRefcount w) (moray_faults w) (imgapi_faults w)
    (vmapi_faults w).

Definition set_docker_image_tags (v : list ImageTag.t) (w : World) : World :=
  mkWorld (docker_images w) v (docker_images_v2 w)
    (docker_image_tags_v2 w) (imgapi_images w) (imgapi_deleteImage_calls w)
    (vmapi_vms w) (datacenterRefcount w) (moray_faults w) (imgapi_faults w)
    (vmapi_faults w).

Definition set_docker_images_v2 (v : list ImageV2.t) (w : World) : World :=
  mkWorld (docker_images w) (docker_image_tags w) v
    (docker_image_tags_v2 w) (imgapi_images w) (imgapi_deleteImage_calls w)
    (vmapi_vms w) (datacenterRefcount w) (moray_faults w) (imgapi_faults w)
    (vmapi_faults w).

Definition set_docker_image_tags_v2 (v : list ImageTagV2.t) (w : World)
  : World :=
  mkWorld (docker_images w) (docker_image_tags w) (docker_images_v2 w)
    v (imgapi_images w) (imgapi_deleteImage_calls w)
    (vmapi_vms w) (datacenterRefcount w) (moray_faults w) (imgapi_faults w)
    (vmapi_faults w).

Definition set_imgapi (imgs : list ImgapiImage.t)
  (calls : list (string * option Error)) (w : World) : World :=
  mkWorld (docker_images w) (docker_image_tags w) (docker_images_v2 w)
    (docker_image_tags_v2 w) imgs calls
    (vmapi_vms w) (datacenterRefcount w) (moray_faults w) (imgapi_faults w)
    (vmapi_faults w).

Definition set_moray_faults (v : list (option Error)) (w : World) : World :=
  mkWorld (docker_images w) (docker_image_tags w) (docker_images_v2 w)
    (docker_image_tags_v2 w) (imgapi_images w) (imgapi_deleteImage_calls w)
    (vmapi_vms w) (datacenterRefcount w) v (imgapi_faults w)
    (vmapi_faults w).

Definition set_imgapi_faults (v : list (option Error)) (w : World) : World :=
  mkWorld (docker_images w) (docker_image_tags w) (docker_images_v2 w)
    (docker_image_tags_v2 w) (imgapi_images w) (imgapi_deleteImage_calls w)
    (vmapi_vms w) (datacenterRefcount w) (moray_faults w) v
    (vmapi_faults w).

Definition set_vmapi_faults (v : list (option Error)) (w : World) : World :=
  mkWorld (docker_images w) (docker_image_tags w) (docker_images_v2 w)
    (docker_image_tags_v2 w) (imgapi_images w) (imgapi_deleteImage_calls w)
    (vmapi_vms w) (datacenterRefcount w) (moray_faults w) (imgapi_faults w)
    v.

(** The start of a call to Moray / IMGAPI / VMAPI: the fault, if any. *)
Definition moray_call (w : World) : option Error * World :=
  match moray_faults w with
  | [] => (None, w)
  | f :: r => (f, set_moray_faults r w)
  end.

Definition imgapi_call (w : World) : option Error * World :=
  match imgapi_faults w with
  | [] => (None, w)
  | f :: r => (f, set_imgapi_faults r w)
  end.

Definition vmapi_call (w : World) : option Error * World :=
  match vmapi_faults w with
  | [] => (None, w)
  | f :: r => (f, set_vmapi_faults r w)
  end.

(** *** Model functions: [list], [del], [update], [create] *)

(** Modelled from the spec: [Image.list], [ImageTag.list] and
    [ImageTagV2.list] are to their buckets what [listImages] of the
    ImageV2 model is to its own. *)
Definition Image_list (flt : Filter) (w : World)
  : Reply (list Image.t) * World :=
  match moray_call w with
  | (Some e, w') => (Failed e, w')
  | (None, w') => (Got (listObjs (docker_images w') flt), w')
  end.

Definition ImageTag_list (flt : Filter) (w : World)
  : Reply (list ImageTag.t) * World :=
  match moray_call w with
  | (Some e, w') => (Failed e, w')
  | (None, w') => (Got (listObjs (docker_image_tags w') flt), w')
  end.

(** [listImages] of the ImageV2 model. *)
Definition ImageV2_list (flt : Filter) (w : World)
  : Reply (list ImageV2.t) * World :=
  match moray_call w with
  | (Some e, w') => (Failed e, w')
  | (None, w') => (Got (listObjs (docker_images_v2 w') flt), w')
  end.

Definition ImageTagV2_list (flt : Filter) (w : World)
  : Reply (list ImageTagV2.t) * World :=
  match moray_call w with
  | (Some e, w') => (Failed e, w')
  | (None, w') => (Got (listObjs (docker_image_tags_v2 w') flt), w')
  end.

(** Modelled from the spec: [Image.del], [ImageTag.del] and
    [ImageTagV2.del] are to their buckets what [deleteImage] of the
    ImageV2 model is to its own. *)
Definition Image_del (img : Image.t) (w : World) : option Error * World :=
  match moray_call w with
  | (Some e, w') => (Some e, w')
  | (None, w') =>
      (None, set_docker_images (delObj (key img) (docker_images w')) w')
  end.

Definition ImageTag_del (t : ImageTag.t) (w : World) : option Error * World :=
  match moray_call w with
  | (Some e, w') => (Some e, w')
  | (None, w') =>
      (None, set_docker_image_tags (delObj (key t) (docker_image_tags w')) w')
  end.

(** [deleteImage] of the ImageV2 model: [moray.delObj] at [objectKey]. *)
Definition ImageV2_del (img : ImageV2.t) (w : World) : option Error * World :=
  match moray_call w with
  | (Some e, w') => (Some e, w')
  | (None, w') =>
      (None, set_docker_images_v2
               (delObj (ImageV2.objectKey img) (docker_images_v2 w')) w')
  end.

Definition ImageTagV2_del (t : ImageTagV2.t) (w : World)
  : option Error * World :=
  match moray_call w with
  | (Some e, w') => (Some e, w')
  | (None, w') =>
      (None, set_docker_image_tags_v2
               (delObj (key t) (docker_image_tags_v2 w')) w')
  end.

(** Modelled from the spec: [ImageTagV2.create] puts the tag record
    under its key, as [createImage] of the ImageV2 model does. *)
Definition ImageTagV2_create (t : ImageTagV2.t) (w : World)
  : Reply ImageTagV2.t * World :=
  match moray_call w with
  | (Some e, w') => (Failed e, w')
  | (None, w') =>
      (Got t, set_docker_image_tags_v2
                (putObject t (docker_image_tags_v2 w')) w')
  end.

(** The [update] object that [deleteOneImg] hands to [Image.update]. *)
Record ImageUpdate : Type := mkImageUpdate {
  u_owner_uuid : string;
  u_index_name : string;
  u_docker_id : string;
  u_heads : list string;
  u_head : option bool
}.

(** Modelled from the spec: the [refcount] of a v1 record is the count
    of its [heads], so that a record whose [heads] are rewritten has the
    [refcount] of the new list. *)
Definition apply_update (u : ImageUpdate) (r : Image.t) : Image.t :=
  if String.eqb (key r)
       (u_owner_uuid u ++ "," ++ u_index_name u ++ "," ++ u_docker_id u)
  then Image.mk (Image.owner_uuid r) (Image.index_name r) (Image.docker_id r)
         (match u_head u with Some h => h | None => Image.head r end)
         (u_heads u) (Image.parent r) (Z.of_nat (List.length (u_heads u)))
         (Image.image_uuid r) (Image.size r) (Image.created r)
         (Image.container_config_Cmd r)
  else r.

(** Modelled from the spec: [Image.update] writes the given fields of
    the record stored under the key, as [updateImage] of the ImageV2
    model does. *)
Definition Image_update (u : ImageUpdate) (w : World) : option Error * World :=
  match moray_call w with
  | (Some e, w') => (Some e, w')
  | (None, w') =>
      (None, set_docker_images (map (apply_update u) (docker_images w')) w')
  end.

(** Modelled from the spec: [Image.datacenterRefcount] answers with the
    datacenter-wide count per docker_id. *)
Definition Image_datacenterRefcount (index_name docker_id : string)
  (w : World) : Reply (list (string * Z)) * World :=
  match moray_call w with
  | (Some e, w') => (Failed e, w')
  | (None, w') => (Got (datacenterRefcount w' index_name docker_id), w')
  end.

(** *** IMGAPI and VMAPI

    The backing blob store and the fleet inventory are services outside
    the repository: [get(blobId) -> metadata | NotFound],
    [delete(blobId) -> OK | DependentBlobExists | NotFound] (the latter
    two arriving through the script of faults or for a blob that is not
    there), [listWorkloads]. *)

Definition imgapi_not_found : Error := ServiceError "ResourceNotFound" 404.

(** [imgapi.getImage(uuid, cb)]. *)
Definition imgapi_getImage (uuid : string) (w : World)
  : Reply ImgapiImage.t * World :=
  match imgapi_call w with
  | (Some e, w') => (Failed e, w')
  | (None, w') =>
      match find (fun i => String.eqb (ImgapiImage.uuid i) uuid)
                 (imgapi_images w') with
      | Some i => (Got i, w')
      | None => (Failed imgapi_not_found, w')
      end
  end.

(** [imgapi.getImage(uuid, account, {os: .., state: ..}, cb)]. *)
Definition imgapi_getImage_where (uuid os state : string) (w : World)
  : Reply ImgapiImage.t * World :=
  match imgapi_call w with
  | (Some e, w') => (Failed e, w')
  | (None, w') =>
      match find (fun i => String.eqb (ImgapiImage.uuid i) uuid
                           && String.eqb (ImgapiImage.os i) os
                           && String.eqb (ImgapiImage.state i) state)
                 (imgapi_images w') with
      | Some i => (Got i, w')
      | None => (Failed imgapi_not_found, w')
      end
  end.

(** [imgapi.deleteImage(uuid, .., cb)]: the call is recorded with its
    answer. *)
Definition imgapi_deleteImage (uuid : string) (w : World)
  : option Error * World :=
  let (fault, w') := imgapi_call w in
  let present := existsb (fun i => String.eqb (ImgapiImage.uuid i) uuid)
                         (imgapi_images w') in
  let answer := match fault with
                | Some e => Some e
                | None => if present then None else Some imgapi_not_found
                end in
  let images := match answer with
                | None => List.filter
                            (fun i => negb (String.eqb (ImgapiImage.uuid i) uuid))
                            (imgapi_images w')
                | Some _ => imgapi_images w'
                end in
  (answer,
   set_imgapi images
     (imgapi_deleteImage_calls w' ++ [(uuid, answer)])%list w').

(** [vmapi.listVms({docker: true, state: .., image_uuid: .., owner_uuid: ..})];
    state [active] selects the running and the stopped workloads. *)
Definition vm_in_state (st : string) (vm : Vm.t) : bool :=
  if String.eqb st "active"
  then String.eqb (Vm.state vm) "running" || String.eqb (Vm.state vm) "stopped"
  else String.eqb (Vm.state vm) st.

Definition vmapi_listVms (st image_uuid owner_uuid : string) (w : World)
  : Reply (list Vm.t) * World :=
  match vmapi_call w with
  | (Some e, w') => (Failed e, w')
  | (None, w') =>
      (Got (List.filter
              (fun vm => vm_in_state st vm
                         && String.eqb (Vm.image_uuid vm) image_uuid
                         && String.eqb (Vm.owner_uuid vm) owner_uuid)
              (vmapi_vms w')), w')
  end.

(* ------------------------------------------------------------------ *)
(** ** vasync

    A stage of a pipeline receives the closure variables and the world,
    and reports the calls it makes to its continuation, in order: [cb()]
    is [Calls [None]], [cb(err)] is [Calls [Some err]].  A pipeline runs
    its stages in order and stops at the first [err]; a stage that does
    not call its continuation exactly once breaks the contract of
    [vasync.pipeline], and the run stops there. *)

Inductive StageOut : Type :=
| Calls (cbs : list (option Error))
| Throw (c : Crash).

Definition Stage (L : Type) : Type := L -> World -> StageOut * L * World.

Fixpoint pipeline {L : Type} (funcs : list (Stage L)) (l : L) (w : World)
  : Result unit * L * World :=
  match funcs with
  | [] => (Called None tt, l, w)
  | f :: rest =>
      match f l w with
      | (Calls [None], l', w') => pipeline rest l' w'
      | (Calls [Some err], l', w') => (Called (Some err) tt, l', w')
      | (Calls [], l', w') => (Crashed CallbackNeverInvoked, l', w')
      | (Calls (_ :: _ :: _), l', w') => (Crashed CallbackInvokedTwice, l', w')
      | (Throw c, l', w') => (Crashed c, l', w')
      end
  end.

(** [vasync.forEachPipeline({inputs: .., func: ..}, cb)]. *)
Definition forEachPipeline {L I : Type} (func : I -> Stage L)
  (inputs : list I) (l : L) (w : World) : Result unit * L * World :=
  pipeline (map func inputs) l w.

(* ------------------------------------------------------------------ *)
(** ** What [images.js] takes from other packages *)

Module Rat.
(** The "repo and tag" object of [drc.parseRepoAndTag]. *)
Record t : Type := mk {
  localName : string;
  tag : string;
  digest : option string
}.
End Rat.

Record Externals : Type := mkExternals {
  (** [drc.parseRepoAndTag]; [inr msg] when it throws. *)
  parseRepoAndTag : string -> Rat.t + string;
  (** [common.isUUID] *)
  isUUID : string -> bool;
  (** [imgmanifest.shortDockerId(imgmanifest.dockerIdFromDigest(digest))] *)
  shortIdFromDigest : string -> string;
  (** [imgmanifest.imgUuidFromDockerDigests] *)
  imgUuidFromDockerDigests : list string -> string;
  (** [utils.vmUuidToShortDockerId] *)
  vmUuidToShortDockerId : string -> string;
  (** the [digest] of each of [JSON.parse(manifest_str).layers]; [None]
      when [JSON.parse] throws *)
  manifestLayerDigests : string -> option (list string);
  (** [Math.floor((new Date(s)).getTime() / 1000)] *)
  epochSeconds : string -> Z
}.

Module Opts.
(** The [opts] of [imgFromName], [inspectImage] and [deleteImage]. *)
Record t : Type := mk {
  name : string;
  account_uuid : string;
  index_name : option string;
  includeSmartos : bool;
  force : bool
}.
End Opts.

(** Truthiness of an optional string. *)
Definition truthy (s : option string) : bool :=
  match s with
  | Some EmptyString | None => false
  | Some _ => true
  end.

(** [if (opts.index_name) { filter[0].index_name = opts.index_name; }] *)
Definition scoped_to_index (index_name : option string) (flt : Filter)
  : Filter :=
  match index_name with
  | Some (String c r) => (flt ++ [("index_name", String c r)])%list
  | _ => flt
  end.

(** [tagsForImage]. *)
Definition tagsForImage (img : Img) (account_uuid : string)
  (index_name : option string) (w : World) : Reply (list ImgTag) * World :=
  match img with
  | V2 i =>
      match ImageTagV2_list
              [("owner_uuid", account_uuid); ("digest", ImageV2.digest i)] w with
      | (Failed e, w') => (Failed e, w')
      | (Got ts, w') => (Got (map TagV2 ts), w')
      end
  | V1 i =>
      match ImageTag_list
              (scoped_to_index index_name
                 [("owner_uuid", account_uuid);
                  ("docker_id", Image.docker_id i)]) w with
      | (Failed e, w') => (Failed e, w')
      | (Got ts, w') => (Got (map TagV1 ts), w')
      end
  | Faux _ _ =>
      (* [img.docker_id] is undefined *)
      match ImageTag_list
              (scoped_to_index index_name
                 [("owner_uuid", account_uuid); ("docker_id", "undefined")]) w
      with
      | (Failed e, w') => (Failed e, w')
      | (Got ts, w') => (Got (map TagV1 ts), w')
      end
  end.

(* ------------------------------------------------------------------ *)
(** ** Name resolution *)

(** [imgFromImgInfoV1]. *)
Definition imgFromImgInfoV1 (account_uuid indexName imgId : string)
  (w : World) : Result (option Img) * World :=
  match Image_list [("owner_uuid", account_uuid); ("index_name", indexName);
                    ("docker_id", imgId)] w with
  | (Failed err, w') => (Called (Some err) None, w')
  | (Got [], w') =>
      (Called (Some (ResourceNotFoundError
                       ("No such image id (from registry " ++ indexName
                        ++ "): " ++ imgId))) None, w')
  | (Got [i], w') => (Called None (Some (V1 i)), w')
  | (Got _, w') => (Crashed (AssertionError "imgs.length == 1"), w')
  end.

(** [imgFromImgInfoV2]. *)
Definition imgFromImgInfoV2 (account_uuid digest : string)
  (w : World) : Result (option Img) * World :=
  match ImageV2_list [("owner_uuid", account_uuid); ("digest", digest)] w with
  | (Failed err, w') => (Called (Some err) None, w')
  | (Got [], w') =>
      (Called (Some (ResourceNotFoundError ("No such image: " ++ digest)))
              None, w')
  | (Got [i], w') => (Called None (Some (V2 i)), w')
  | (Got _, w') => (Crashed (AssertionError "imgs.length == 1"), w')
  end.

(** The closure variables [imgTag], [img], [imgIsGone] of
    [_imgFromNameV2] and of [_imgFromNameV1]. *)
Record Found (I T : Type) : Type := mkFound {
  imgTag : option T;
  img : option I;
  imgIsGone : bool
}.
Arguments mkFound {I T} imgTag img imgIsGone.
Arguments imgTag {I T} f.
Arguments img {I T} f.
Arguments imgIsGone {I T} f.

(** The final callback shared by the two resolvers. *)
Definition resolved {I T : Type} (inI : I -> Img) (inT : T -> ImgTag)
  (out : Result unit * Found I T * World)
  : Result (option Img * option ImgTag) * World :=
  match out with
  | (Crashed c, _, w) => (Crashed c, w)
  | (Called err _, l, w) =>
      let err := match err with
                 | Some AbortMarker => None (* the signal for an early abort *)
                 | _ => err
                 end in
      match err with
      | Some e => (Called (Some e) (None, None), w)
      | None =>
          if imgIsGone l then (Called None (None, None), w)
          else (Called None (option_map inI (img l),
                             option_map inT (imgTag l)), w)
      end
  end.

Module ResolveV2.
Definition Vars : Type := Found ImageV2.t ImageTagV2.t.

Definition findByName (account_uuid name tag : string) : Stage Vars :=
  fun l w =>
    match ImageTagV2_list
            [("repo", name); ("owner_uuid", account_uuid); ("tag", tag)] w
    with
    | (Failed err, w') => (Calls [Some err], l, w')
    | (Got [], w') => (Calls [None], l, w')
    | (Got (t :: _), w') =>
        (Calls [None], mkFound (Some t) (img l) (imgIsGone l), w')
    end.

(** The [filter] that [findImage] builds; [None] when it calls [next()]
    without a search. *)
Definition findImage_filter (account_uuid name : string)
  (imgTag : option ImageTagV2.t) : option Filter :=
  match imgTag with
  | Some t =>
      Some [("digest", ImageTagV2.digest t); ("owner_uuid", account_uuid)]
  | None =>
      if is_sha256_hex name
      then Some [("digest", name ++ "*"); ("owner_uuid", account_uuid)]
      else if is_hex name
      then Some [("digest", "sha256:" ++ name ++ "*");
                 ("owner_uuid", account_uuid)]
      else None
  end.

Definition findImage (account_uuid name : string) : Stage Vars :=
  fun l w =>
    match findImage_filter account_uuid name (imgTag l) with
    | None => (Calls [None], l, w)
    | Some flt =>
        match ImageV2_list flt w with
        | (Failed err, w') => (Calls [Some err], l, w')
        | (Got [], w') => (Calls [None], l, w')
        | (Got [i], w') =>
            (Calls [None], mkFound (imgTag l) (Some i) (imgIsGone l), w')
        | (Got _, w') =>
            (* Docker gives a 404 if multiple images are matched. *)
            (Calls [Some AbortMarker], l, w')
        end
    end.

Definition isImageInImgapi : Stage Vars :=
  fun l w =>
    match img l with
    | None => (Calls [Some AbortMarker], l, w)
    | Some i =>
        match imgapi_getImage (ImageV2.image_uuid i) w with
        | (Failed err, w') =>
            if Z.eqb (statusCode err) 404
            then (Calls [None], mkFound (imgTag l) (img l) true, w')
            else (Calls [Some err], l, w')
        | (Got _, w') => (Calls [Some AbortMarker], l, w')
        end
    end.

Definition delImgRef : Stage Vars :=
  fun l w =>
    match img l, imgIsGone l with
    | Some i, true =>
        let (err, w') := ImageV2_del i w in (Calls [err], l, w')
    | _, _ => (Throw (AssertionError "assert.ok"), l, w)
    end.

Definition delImgTagRef : Stage Vars :=
  fun l w =>
    if imgIsGone l then
      match imgTag l with
      | None => (Calls [None], l, w)
      | Some t => let (err, w') := ImageTagV2_del t w in (Calls [err], l, w')
      end
    else (Throw (AssertionError "assert.ok"), l, w).

(** [_imgFromNameV2]. *)
Definition _imgFromNameV2 (opts : Opts.t) (rat : Rat.t) (w : World)
  : Result (option Img * option ImgTag) * World :=
  let name := Rat.localName rat in
  let tag := Rat.tag rat in
  resolved V2 TagV2
    (pipeline
       [findByName (Opts.account_uuid opts) name tag;
        findImage (Opts.account_uuid opts) name;
        isImageInImgapi;
        delImgRef;
        delImgTagRef]
       (mkFound None None false) w).
End ResolveV2.

Module ResolveV1.
Definition Vars : Type := Found Image.t ImageTag.t.

Definition findByName (opts : Opts.t) (name tag : string) : Stage Vars :=
  fun l w =>
    match ImageTag_list
            (scoped_to_index (Opts.index_name opts)
               [("repo", name); ("owner_uuid", Opts.account_uuid opts);
                ("tag", tag)]) w
    with
    | (Failed err, w') => (Calls [Some err], l, w')
    | (Got [], w') => (Calls [None], l, w')
    | (Got (t :: _), w') =>
        (Calls [None], mkFound (Some t) (img l) (imgIsGone l), w')
    end.

Definition findImage_filter (opts : Opts.t) (name : string)
  (imgTag : option ImageTag.t) : option Filter :=
  let scoped := scoped_to_index (Opts.index_name opts) in
  match imgTag with
  | Some t =>
      Some (scoped [("docker_id", ImageTag.docker_id t);
                    ("owner_uuid", Opts.account_uuid opts)])
  | None =>
      if is_hex name && Nat.leb (String.length name) 64
      then if Nat.eqb (String.length name) 64
           then Some (scoped [("docker_id", name);
                              ("owner_uuid", Opts.account_uuid opts)])
           else Some (scoped [("docker_id", name ++ "*");
                              ("owner_uuid", Opts.account_uuid opts)])
      else None
  end.

(** [Object.keys(imgIds).length === 1] for the [imgIds] collected from
    two or more [imgs]. *)
Definition single_docker_id (imgs : list Image.t) : bool :=
  match imgs with
  | [] => false
  | i :: r =>
      forallb (fun j => String.eqb (Image.docker_id j) (Image.docker_id i)) r
  end.

Definition findImage (opts : Opts.t) (name : string) : Stage Vars :=
  fun l w =>
    match findImage_filter opts name (imgTag l) with
    | None => (Calls [None], l, w)
    | Some flt =>
        match Image_list flt w with
        | (Failed err, w') => (Calls [Some err], l, w')
        | (Got [], w') => (Calls [None], l, w')
        | (Got [i], w') =>
            (Calls [None], mkFound (imgTag l) (Some i) (imgIsGone l), w')
        | (Got imgs, w') =>
            if single_docker_id imgs
            then (Calls [Some (AmbiguousDockerImageIdError name
                                 (map Image.index_name imgs))], l, w')
            else (Calls [None], l, w')
        end
    end.

Definition isImageInImgapi : Stage Vars :=
  fun l w =>
    match img l with
    | None => (Calls [Some AbortMarker], l, w)
    | Some i =>
        match imgapi_getImage (Image.image_uuid i) w with
        | (Failed err, w') =>
            if Z.eqb (statusCode err) 404
            then (Calls [None], mkFound (imgTag l) (img l) true, w')
            else (Calls [Some err], l, w')
        | (Got _, w') => (Calls [Some AbortMarker], l, w')
        end
    end.

Definition delImgRef : Stage Vars :=
  fun l w =>
    match img l, imgIsGone l with
    | Some i, true =>
        let (err, w') := Image_del i w in (Calls [err], l, w')
    | _, _ => (Throw (AssertionError "assert.ok"), l, w)
    end.

Definition delImgTagRef : Stage Vars :=
  fun l w =>
    if imgIsGone l then
      match imgTag l with
      | None => (Calls [None], l, w)
      | Some t => let (err, w') := ImageTag_del t w in (Calls [err], l, w')
      end
    else (Throw (AssertionError "assert.ok"), l, w).

(** [_imgFromNameV1]. *)
Definition _imgFromNameV1 (opts : Opts.t) (rat : Rat.t) (w : World)
  : Result (option Img * option ImgTag) * World :=
  let name := Rat.localName rat in
  let tag := Rat.tag rat in
  resolved V1 TagV1
    (pipeline
       [findByName opts name tag;
        findImage opts name;
        isImageInImgapi;
        delImgRef;
        delImgTagRef]
       (mkFound None None false) w).
End ResolveV1.

(** The pipeline shared by [imgFromManifestDigest] and [imgFromDigest]:
    [findImage] on one indexed field, then [checkImageInImgapi]. *)
Module ByDigest.
Definition findImage (field value account_uuid : string)
  (notFound multiple : string) : Stage (option ImageV2.t) :=
  fun l w =>
    match ImageV2_list [(field, value); ("owner_uuid", account_uuid)] w with
    | (Failed err, w') => (Calls [Some err], l, w')
    | (Got [], w') =>
        (Calls [Some (ResourceNotFoundError (notFound ++ value))], l, w')
    | (Got [i], w') => (Calls [None], Some i, w')
    | (Got _, w') =>
        (Calls [Some (DockerError None (multiple ++ value))], l, w')
    end.

(** Check that the image is also in imgapi. *)
Definition checkImageInImgapi : Stage (option ImageV2.t) :=
  fun l w =>
    match l with
    | None => (Throw (AssertionError "img (object) is required"), l, w)
    | Some i =>
        match imgapi_getImage (ImageV2.image_uuid i) w with
        | (Failed err, w') =>
            if Z.eqb (statusCode err) 404
            then (Calls [Some (ResourceNotFoundError
                                 ("No imgapi image with image_uuid: "
                                  ++ ImageV2.image_uuid i))], l, w')
            else (Calls [Some err], l, w')
        | (Got _, w') => (Calls [None], l, w')
        end
    end.

Definition finish (out : Result unit * option ImageV2.t * World)
  : Result (option Img) * World :=
  match out with
  | (Crashed c, _, w) => (Crashed c, w)
  | (Called (Some err) _, _, w) => (Called (Some err) None, w)
  | (Called None _, l, w) => (Called None (option_map V2 l), w)
  end.
End ByDigest.

(** [imgFromManifestDigest]. *)
Definition imgFromManifestDigest (account_uuid manifestDigest : string)
  (w : World) : Result (option Img) * World :=
  ByDigest.finish
    (pipeline
       [ByDigest.findImage "manifest_digest" manifestDigest account_uuid
          "No image with manifest digest: "
          "Error - multiple images with the same manifest digest: ";
        ByDigest.checkImageInImgapi]
       None w).

(** [imgFromDigest]. *)
Definition imgFromDigest (account_uuid digest : string)
  (w : World) : Result (option Img) * World :=
  ByDigest.finish
    (pipeline
       [ByDigest.findImage "digest" digest account_uuid
          "No image with digest: "
          "Error - multiple images found with the same digest: ";
        ByDigest.checkImageInImgapi]
       None w).

Module ImgFromName.
(** The closure variables [img] and [imgTag] of [imgFromName]. *)
Definition Vars : Type := (option Img * option ImgTag)%type.

Definition findUuidInImgapi (opts : Opts.t) (isUUID : string -> bool)
  (name : string) : Stage Vars :=
  fun l w =>
    if negb (Opts.includeSmartos opts) || negb (isUUID name)
    then (Calls [None], l, w)
    else
      match imgapi_getImage_where name "smartos" "active" w with
      | (Failed err, w') =>
          if Z.eqb (statusCode err) 404
          then (Calls [None], l, w')
          else (Calls [Some err], l, w')
      | (Got imgapiImg, w') =>
          (* A faux `Image` model object for this IMGAPI image. *)
          (Calls [Some AbortMarker],
           (Some (Faux (ImgapiImage.uuid imgapiImg)
                       (ImgapiImage.os imgapiImg)), snd l), w')
      end.

(** The callback [_imgFromDigestCb] of the two digest stages. *)
Definition _imgFromDigestCb (l : Vars)
  (r : Result (option Img) * World) : StageOut * Vars * World :=
  match r with
  | (Crashed c, w') => (Throw c, l, w')
  | (Called None (Some _img), w') =>
      (Calls [Some AbortMarker], (Some _img, snd l), w')
  | (Called err _, w') => (Calls [err], l, w')
  end.

Definition findByManifestDigest (opts : Opts.t) (rat : Rat.t) : Stage Vars :=
  fun l w =>
    match Rat.digest rat with
    | Some (String c r) =>
        _imgFromDigestCb l
          (imgFromManifestDigest (Opts.account_uuid opts) (String c r) w)
    | _ => (Calls [None], l, w)
    end.

Definition findByImageDigest (opts : Opts.t) : Stage Vars :=
  fun l w =>
    if negb (Nat.eqb (String.length (Opts.name opts)) (64 + 7))
       || negb (String.eqb (substr0 7 (Opts.name opts)) "sha256:")
    then (Calls [None], l, w)
    else _imgFromDigestCb l
           (imgFromDigest (Opts.account_uuid opts) (Opts.name opts) w).

Definition findByNameV2 (opts : Opts.t) (rat : Rat.t) : Stage Vars :=
  fun l w =>
    match ResolveV2._imgFromNameV2 opts rat w with
    | (Crashed c, w') => (Throw c, l, w')
    | (Called err (_img, _imgTag), w') =>
        match _img, err with
        | Some _, None => (Calls [Some AbortMarker], (_img, _imgTag), w')
        | _, _ => (Calls [err], (_img, _imgTag), w')
        end
    end.

Definition findByNameV1 (opts : Opts.t) (rat : Rat.t) : Stage Vars :=
  fun l w =>
    match ResolveV1._imgFromNameV1 opts rat w with
    | (Crashed c, w') => (Throw c, l, w')
    | (Called err (_img, _imgTag), w') =>
        (Calls [err], (_img, _imgTag), w')
    end.

Definition finish (out : Result unit * Vars * World)
  : Result (option Img * option ImgTag) * World :=
  match out with
  | (Crashed c, _, w) => (Crashed c, w)
  | (Called (Some AbortMarker) _, l, w) => (Called None l, w)
  | (Called (Some err) _, _, w) => (Called (Some err) (None, None), w)
  | (Called None _, l, w) => (Called None l, w)
  end.
End ImgFromName.

(** [imgFromName]: the callback receives [(err, img, imgTag)]. *)
Definition imgFromName (ext : Externals) (opts : Opts.t) (w : World)
  : Result (option Img * option ImgTag) * World :=
  match parseRepoAndTag ext (Opts.name opts) with
  | inr msg => (Called (Some (DockerError None msg)) (None, None), w)
  | inl rat =>
      ImgFromName.finish
        (pipeline
           [ImgFromName.findUuidInImgapi opts (isUUID ext) (Rat.localName rat);
            ImgFromName.findByManifestDigest opts rat;
            ImgFromName.findByImageDigest opts;
            ImgFromName.findByNameV2 opts rat;
            ImgFromName.findByNameV1 opts rat]
           (None, None) w)
  end.

(* ------------------------------------------------------------------ *)
(** ** Ancestry *)

(** [img.parent]; undefined on the faux image. *)
Definition img_parent (img : Img) : string :=
  match img with
  | V1 i => Image.parent i
  | V2 i => ImageV2.parent i
  | Faux _ _ => ""
  end.

(** [checkAndCallback] of [getImageAncestry]. *)
Definition checkAndCallback (ancestry : list Img) (err : option Error)
  : Result (list Img * bool) :=
  match err with
  | Some e =>
      if String.eqb (restCode e) "ResourceNotFound"
         && Nat.leb 1 (List.length ancestry)
      then
        (* It's okay, we didn't find a parent image, but we did find
           *some* images. *)
        Called None (ancestry, true)
      else Called (Some e) ([], false)
  | None => Called None (ancestry, false)
  end.

(** The look-up of the parent in [addAndGetNextItem]: by
    [imgFromImgInfoV1] for a v1 image, by [imgFromImgInfoV2] otherwise. *)
Definition lookupParent (account_uuid : string) (img : Img) (w : World)
  : Result (option Img) * World :=
  match img with
  | V2 _ => imgFromImgInfoV2 account_uuid (img_parent img) w
  | V1 i => imgFromImgInfoV1 account_uuid (Image.index_name i)
              (img_parent img) w
  | Faux _ _ => imgFromImgInfoV1 account_uuid "undefined" (img_parent img) w
  end.

(** [addAndGetNextItem] of [getImageAncestry].  The walk follows [parent]
    for as long as the look-ups succeed; [fuel] bounds the number of
    records visited. *)
Fixpoint addAndGetNextItem (fuel : nat) (account_uuid : string)
  (ancestry : list Img) (img : Img) (w : World)
  : Result (list Img * bool) * World :=
  match fuel with
  | O => (Crashed OutOfFuel, w)
  | S fuel' =>
      let ancestry := (ancestry ++ [img])%list in
      if String.eqb (img_parent img) ""
      then (checkAndCallback ancestry None, w)
      else
        match lookupParent account_uuid img w with
        | (Crashed c, w') => (Crashed c, w')
        | (Called None (Some parentImg), w') =>
            addAndGetNextItem fuel' account_uuid ancestry parentImg w'
        | (Called err _, w') => (checkAndCallback ancestry err, w')
        end
  end.

(** [getImageAncestry]: the callback receives
    [(err, ancestry, isPartialAncestry)]. *)
Definition getImageAncestry (fuel : nat) (account_uuid : string) (img : Img)
  (w : World) : Result (list Img * bool) * World :=
  addAndGetNextItem fuel account_uuid [] img w.

(* ------------------------------------------------------------------ *)
(** ** History *)

Inductive TagsField : Type :=
| TagsUnset
| TagsNull
| TagsOf (repoTags : list string).

Module HistoryEntry.
Record t : Type := mk {
  Id : string;
  Comment : option string;
  Created : Z;
  CreatedBy : string;
  Size : Z;
  Tags : TagsField
}.
End HistoryEntry.

(** [img.digest || img.docker_id] *)
Definition img_id (img : Img) : string :=
  match img with
  | V1 i => Image.docker_id i
  | V2 i => ImageV2.digest i
  | Faux _ _ => ""
  end.

Definition img_created (img : Img) : Z :=
  match img with
  | V1 i => Image.created i
  | V2 i => ImageV2.created i
  | Faux _ _ => 0
  end.

Definition img_size (img : Img) : Z :=
  match img with
  | V1 i => Image.size i
  | V2 i => ImageV2.size i
  | Faux _ _ => 0
  end.

Definition img_Cmd (img : Img) : option (list string) :=
  match img with
  | V1 i => Image.container_config_Cmd i
  | V2 i => ImageV2.container_config_Cmd i
  | Faux _ _ => None
  end.

Definition img_head (img : Img) : bool :=
  match img with
  | V1 i => Image.head i
  | V2 i => ImageV2.head i
  | Faux _ _ => false
  end.

(** [arr.slice(0, -k)] *)
Definition slice_0_neg {A : Type} (k : nat) (l : list A) : list A :=
  match k with
  | O => []
  | _ => firstn (List.length l - k) l
  end.

Module GetImageHistory.
(** [lookupAncestorTags]: the entry is pushed, then its tags are looked
    up; a failed look-up leaves the entry without [Tags]. *)
Definition lookupAncestorTags (account_uuid : string)
  (index_name : option string) (img : Img) : Stage (list HistoryEntry.t) :=
  fun history w =>
    let createdBy := match img_Cmd img with
                     | Some cmd => join " " cmd
                     | None => ""
                     end in
    let entry tags := HistoryEntry.mk (img_id img) None (img_created img)
                        createdBy (img_size img) tags in
    match tagsForImage img account_uuid index_name w with
    | (Got imgTags, w') =>
        (Calls [None],
         (history ++ [entry (TagsOf (map repoTag imgTags))])%list, w')
    | (Failed _, w') =>
        (Calls [None], (history ++ [entry TagsUnset])%list, w')
    end.

(** The entry pushed for an element [h] of the embedded history. *)
Definition missing (epochSeconds : string -> Z) (h : HistoryItem.t)
  : HistoryEntry.t :=
  HistoryEntry.mk "<missing>"
    (Some (match HistoryItem.comment h with Some c => c | None => "" end))
    (epochSeconds (HistoryItem.created h))
    (HistoryItem.created_by h)
    (match HistoryItem.size h with Some s => s | None => 0%Z end)
    TagsNull.

(** What follows the tag look-ups. *)
Definition fillBlanks (epochSeconds : string -> Z) (img : Img)
  (history : list HistoryEntry.t) : Result (list HistoryEntry.t) :=
  match img with
  | V2 i =>
      (* The V2 image has the full history on the ImageV2 instance, so
         use that history info to fill in any blanks (missing images). *)
      let imgHist := ImageV2.history i in
      let history :=
        if Nat.ltb (List.length history) (List.length imgHist)
        then (history
              ++ map (missing epochSeconds)
                   (rev (slice_0_neg (List.length history) imgHist)))%list
        else history in
      if Nat.eqb (List.length history) (List.length imgHist)
      then Called None history
      else Crashed (AssertionError "History length should be equal")
  | _ => Called None history
  end.
End GetImageHistory.

(** [getImageHistory]. *)
Definition getImageHistory (ext : Externals) (fuel : nat)
  (account_uuid : string) (index_name : option string) (img : Img)
  (w : World) : Result (list HistoryEntry.t) * World :=
  match getImageAncestry fuel account_uuid img w with
  | (Crashed c, w') => (Crashed c, w')
  | (Called (Some err) _, w') => (Called (Some err) [], w')
  | (Called None (ancestry, _), w') =>
      match forEachPipeline
              (GetImageHistory.lookupAncestorTags account_uuid index_name)
              ancestry [] w' with
      | (Crashed c, _, w'') => (Crashed c, w'')
      | (Called (Some pipeErr) _, _, w'') => (Called (Some pipeErr) [], w'')
      | (Called None _, history, w'') =>
          (GetImageHistory.fillBlanks (epochSeconds ext) img history, w'')
      end
  end.

(* ------------------------------------------------------------------ *)
(** ** Inspect and list *)

(** [inspectImage]: on success the callback receives the inspect object
    built from [img] and [imgTags], and [img]. *)
Definition inspectImage (ext : Externals) (opts : Opts.t) (w : World)
  : Result (option (Img * list ImgTag)) * World :=
  match imgFromName ext opts w with
  | (Crashed c, w') => (Crashed c, w')
  | (Called (Some err) _, w') => (Called (Some err) None, w')
  | (Called None (None, _), w') =>
      (Called (Some (ResourceNotFoundError
                       ("No such image: " ++ Opts.name opts))) None, w')
  | (Called None (Some img, _), w') =>
      match tagsForImage img (Opts.account_uuid opts) (Opts.index_name opts) w'
      with
      | (Failed err2, w'') => (Called (Some err2) None, w'')
      | (Got imgTags, w'') => (Called None (Some (img, imgTags)), w'')
      end
  end.

Module DockerImage.
(** A row of [listImages]; [Created] is a number of seconds, or [NaN]
    ([None]) when it was computed from a date that is not valid. *)
Record t : Type := mk {
  Id : string;
  ParentId : string;
  RepoTags : list string;
  RepoDigests : list string;
  Created : option Z;
  Size : Z
}.
End DockerImage.

(** [Math.floor((new Date(ms)).getTime() / 1000)] for a number [ms] of
    milliseconds: a date holds at most 8.64e15 milliseconds on either
    side of the epoch, and the time of a date outside of that range is
    [NaN]. *)
Definition secondsOfMillis (ms : Z) : option Z :=
  if Z.leb (Z.abs ms) 8640000000000000 then Some (ms / 1000)%Z else None.

(** [vasync.forEachParallel({func: .., inputs: ..}, ..)] on functions
    that call back at once for an input that is not a head image and
    after an answer of Moray for a head image: every call is started
    before an answer comes in, so that the inputs that are not head
    images are done with first, in their order; the answers for the
    head images are taken to come in the order of the requests. *)
Definition forEachParallel_order {A : Type} (head : A -> bool)
  (inputs : list A) : list A :=
  (List.filter (fun i => negb (head i)) inputs ++ List.filter head inputs)%list.

Module ListImages.
Definition head_filter (all : bool) (account_uuid : string) : Filter :=
  if all then [("owner_uuid", account_uuid)]
  else [("owner_uuid", account_uuid); ("head", "true")].

Definition _addImageV2 (img : ImageV2.t) (repoTags repoDigests : list string)
  : DockerImage.t :=
  DockerImage.mk (ImageV2.digest img) (ImageV2.parent img)
    (match repoTags with [] => ["<none>:<none>"] | _ => repoTags end)
    (match repoDigests with [] => ["<none>@<none>"] | _ => repoDigests end)
    (Some (ImageV2.created img)) (ImageV2.size img).

Definition getTagsV2 (account_uuid : string) (img : ImageV2.t)
  : Stage (list DockerImage.t) :=
  fun results w =>
    if negb (ImageV2.head img)
    then (* Intermediate layers don't have tags. *)
      (Calls [None], (results ++ [_addImageV2 img [] []])%list, w)
    else
      match tagsForImage (V2 img) account_uuid None w with
      | (Failed err, w') => (Calls [Some err], results, w')
      | (Got imgTags, w') =>
          let repoTags := map repoTag imgTags in
          let repoDigests :=
            map (fun it => imgTag_repo it ++ "@" ++ imgTag_digest it)
                imgTags in
          (Calls [None],
           (results ++ [_addImageV2 img repoTags repoDigests])%list, w')
      end.

(** [listDockerImagesV2] when no [filters] are given; the rows are
    collected in the order in which [vasync.forEachParallel] gets them.
    [imgs.length] is read for the log line before [err] is looked
    at. *)
Definition listDockerImagesV2 (all : bool) (account_uuid : string)
  (w : World) : Result (list DockerImage.t) * World :=
  match ImageV2_list (head_filter all account_uuid) w with
  | (Failed err, w') =>
      (Crashed (TypeError "Cannot read property 'length' of undefined"), w')
  | (Got imgs, w') =>
      match forEachPipeline (getTagsV2 account_uuid)
              (forEachParallel_order ImageV2.head imgs) [] w' with
      | (Crashed c, _, w'') => (Crashed c, w'')
      | (Called (Some getErr) _, _, w'') => (Called (Some getErr) [], w'')
      | (Called None _, results, w'') => (Called None results, w'')
      end
  end.

(** [pushImage]; [created] of a v1 record is in milliseconds. *)
Definition pushImage (img : Image.t) (repoTags : list string)
  : DockerImage.t :=
  DockerImage.mk (Image.docker_id img) (Image.parent img)
    (match repoTags with [] => ["<none>:<none>"] | _ => repoTags end)
    [] (secondsOfMillis (Image.created img)) (Image.size img).

Definition getTags (account_uuid : string) (img : Image.t)
  : Stage (list DockerImage.t) :=
  fun results w =>
    if negb (Image.head img)
    then (Calls [None], (results ++ [pushImage img []])%list, w)
    else
      match tagsForImage (V1 img) account_uuid None w with
      | (Failed err, w') => (Calls [Some err], results, w')
      | (Got imgTags, w') =>
          (Calls [None],
           (results ++ [pushImage img (map repoTag imgTags)])%list, w')
      end.

(** [listDockerImagesV1] when no [filters] are given. *)
Definition listDockerImagesV1 (all : bool) (account_uuid : string)
  (w : World) : Result (list DockerImage.t) * World :=
  match Image_list (head_filter all account_uuid) w with
  | (Failed err, w') => (Called (Some err) [], w')
  | (Got imgs, w') =>
      match forEachPipeline (getTags account_uuid)
              (forEachParallel_order Image.head imgs) [] w' with
      | (Crashed c, _, w'') => (Crashed c, w'')
      | (Called (Some getErr) _, _, w'') => (Called (Some getErr) [], w'')
      | (Called None _, results, w'') => (Called None results, w'')
      end
  end.
End ListImages.

(* ------------------------------------------------------------------ *)
(** ** Tagging *)

Module TagOpts.
(** The [opts] of [tagImage]; [account_uuid] is [opts.req.account.uuid]. *)
Record t : Type := mk {
  name : string;
  account_uuid : string;
  digest : option string;
  img : option Img;
  rat : option Rat.t
}.
End TagOpts.

(** [tagImage]: the callback receives [(err, imgTag)]. *)
Definition tagImage (ext : Externals) (opts : TagOpts.t) (w : World)
  : Result (option ImageTagV2.t) * World :=
  let parsed := match TagOpts.rat opts with
                | Some rat => inl rat
                | None => parseRepoAndTag ext (TagOpts.name opts)
                end in
  match parsed with
  | inr msg => (Called (Some (DockerError None msg)) None, w)
  | inl rat =>
      let create digest :=
        match ImageTagV2_create
                (ImageTagV2.mk (TagOpts.account_uuid opts) (Rat.localName rat)
                   (Rat.tag rat) digest) w with
        | (Failed err, w') => (Called (Some err) None, w')
        | (Got imgTag, w') => (Called None (Some imgTag), w')
        end in
      if truthy (TagOpts.digest opts)
      then create (match TagOpts.digest opts with Some d => d | None => "" end)
      else
        match TagOpts.img opts with
        | None =>
            (Crashed (AssertionError
                        "opts.img or opts.digest must be provided"), w)
        | Some (V2 i) => create (ImageV2.digest i)
        | Some _ =>
            (Called (Some (DockerError None
               "Cannot tag old v1 images - repull or rebuild the image"))
               None, w)
        end
  end.

(* ------------------------------------------------------------------ *)
(** ** Deletion *)

Inductive Change : Type :=
| Untagged (name : string)
| Deleted (id : string).

(** [ImageTag.del(app, log, imgTag, cb)] and
    [ImageTagV2.del(app, log, imgTag, cb)] on whatever tag object the
    resolver handed over: the key is built from the fields of the object,
    a field it lacks reading as [undefined]. *)
Definition ImageTag_del_obj (t : ImgTag) (w : World) : option Error * World :=
  match t with
  | TagV1 t => ImageTag_del t w
  | TagV2 t =>
      ImageTag_del (ImageTag.mk (ImageTagV2.owner_uuid t) "undefined"
                      (ImageTagV2.repo t) (ImageTagV2.tag t) "undefined") w
  end.

Definition ImageTagV2_del_obj (t : ImgTag) (w : World)
  : option Error * World :=
  match t with
  | TagV2 t => ImageTagV2_del t w
  | TagV1 t =>
      ImageTagV2_del (ImageTagV2.mk (ImageTag.owner_uuid t) (ImageTag.repo t)
                        (ImageTag.tag t) "undefined") w
  end.

(** The sort of [verifyNotInUse]: by [state], ascending. *)
Fixpoint insert_vm (vm : Vm.t) (l : list Vm.t) : list Vm.t :=
  match l with
  | [] => [vm]
  | x :: r =>
      if String.ltb (Vm.state x) (Vm.state vm) || String.eqb (Vm.state x) (Vm.state vm)
      then x :: insert_vm vm r
      else vm :: l
  end.

Definition sort_vms (l : list Vm.t) : list Vm.t :=
  fold_left (fun acc vm => insert_vm vm acc) l [].

(** The part of [verifyNotInUse] that the two schemas share word for
    word: the query to VMAPI and the error it leads to, if any.
    [errors.vmapiErrorWrap(err, msg)] is taken to be a [DockerError] with
    cause [err]. *)
Definition vmsUsingImage (ext : Externals) (opts : Opts.t)
  (image_uuid : string) (w : World) : option Error * World :=
  match vmapi_listVms (if Opts.force opts then "running" else "active")
          image_uuid (Opts.account_uuid opts) w with
  | (Failed vmapiErr, w') =>
      (Some (DockerError (Some vmapiErr) "could not delete image"), w')
  | (Got [], w') => (None, w')
  | (Got vms, w') =>
      match sort_vms vms with
      | [] => (None, w')
      | vm :: _ =>
          let forceStr := if Opts.force opts then "force " else "" in
          let sId := vmUuidToShortDockerId ext (Vm.uuid vm) in
          let message :=
            if String.eqb (Vm.state vm) "running"
            then "Conflict, cannot " ++ forceStr ++ "delete " ++ Opts.name opts
                 ++ " because the running container " ++ sId
                 ++ " is using it, stop it and use -f to force"
            else "Conflict, cannot " ++ forceStr ++ "delete " ++ Opts.name opts
                 ++ " because the container " ++ sId
                 ++ " is using it, use -f to force" in
          (Some (DockerError None message), w')
      end
  end.

Module DeleteV1.
(** [ctx] of [_deleteImageV1], with the closure variables
    [dontDeleteImages], [changes], [hitImageHasDependentImagesError]. *)
Record Ctx : Type := mkCtx {
  img : Image.t;
  imgTag : option ImgTag;
  imgTags : list ImgTag;
  imgsToDelete : list Img;
  dcRefcount : list (string * Z);
  dontDeleteImages : bool;
  changes : list Change;
  hitImageHasDependentImagesError : bool
}.

Definition set_imgTags (v : list ImgTag) (c : Ctx) : Ctx :=
  mkCtx (img c) (imgTag c) v (imgsToDelete c) (dcRefcount c)
    (dontDeleteImages c) (changes c) (hitImageHasDependentImagesError c).
Definition set_imgsToDelete (v : list Img) (c : Ctx) : Ctx :=
  mkCtx (img c) (imgTag c) (imgTags c) v (dcRefcount c)
    (dontDeleteImages c) (changes c) (hitImageHasDependentImagesError c).
Definition set_dcRefcount (v : list (string * Z)) (c : Ctx) : Ctx :=
  mkCtx (img c) (imgTag c) (imgTags c) (imgsToDelete c) v
    (dontDeleteImages c) (changes c) (hitImageHasDependentImagesError c).
Definition set_dontDeleteImages (v : bool) (c : Ctx) : Ctx :=
  mkCtx (img c) (imgTag c) (imgTags c) (imgsToDelete c) (dcRefcount c)
    v (changes c) (hitImageHasDependentImagesError c).
Definition push_change (v : Change) (c : Ctx) : Ctx :=
  mkCtx (img c) (imgTag c) (imgTags c) (imgsToDelete c) (dcRefcount c)
    (dontDeleteImages c) (changes c ++ [v])%list
    (hitImageHasDependentImagesError c).
Definition set_hit (v : bool) (c : Ctx) : Ctx :=
  mkCtx (img c) (imgTag c) (imgTags c) (imgsToDelete c) (dcRefcount c)
    (dontDeleteImages c) (changes c) v.

(** The error of [ensureIsHeadImage]. *)
Definition intermediateLayer (i : Image.t) : Error :=
  let heads := join ", " (map (substr0 12) (Image.heads i)) in
  DockerError None
    ("Conflict, " ++ substr0 12 (Image.docker_id i)
     ++ " wasn't deleted because it is an intermediate layer being "
     ++ "referenced by " ++ heads).

Definition ensureIsHeadImage : Stage Ctx :=
  fun ctx w =>
    if negb (Image.head (img ctx))
    then (Calls [Some (intermediateLayer (img ctx))], ctx, w)
    else (Calls [None], ctx, w).

Definition getImgTags (opts : Opts.t) : Stage Ctx :=
  fun ctx w =>
    match tagsForImage (V1 (img ctx)) (Opts.account_uuid opts) None w with
    | (Failed err, w') => (Calls [Some err], ctx, w')
    | (Got imgTags, w') => (Calls [None], set_imgTags imgTags ctx, w')
    end.

Definition checkTagReferences (opts : Opts.t) : Stage Ctx :=
  fun ctx w =>
    let givenName := Opts.name opts in
    if String.eqb (substr0 (String.length givenName)
                     (Image.docker_id (img ctx))) givenName
    then
      if negb (Opts.force opts) && Nat.ltb 1 (List.length (imgTags ctx))
      then (Calls [Some (DockerError None
              ("conflict: unable to delete " ++ givenName
               ++ " (must be forced) - image is referenced in one or "
               ++ "more repositories"))], ctx, w)
      else (Calls [None], ctx, w)
    else if Nat.ltb 1 (List.length (imgTags ctx))
    then
      match imgTag ctx with
      | None => (Throw (AssertionError "ctx.imgTag (object) is required"),
                 ctx, w)
      | Some t =>
          (Calls [None], set_imgTags [t] (set_dontDeleteImages true ctx), w)
      end
    else (Calls [None], ctx, w).

Definition verifyNotInUse (ext : Externals) (opts : Opts.t) : Stage Ctx :=
  fun ctx w =>
    if dontDeleteImages ctx then (Calls [None], ctx, w)
    else
      let (err, w') := vmsUsingImage ext opts (Image.image_uuid (img ctx)) w
      in (Calls [err], ctx, w').

(** [getImgsToDelete]: after a partial walk the first [cb()] is not
    followed by a [return]. *)
Definition getImgsToDelete (fuel : nat) (opts : Opts.t) : Stage Ctx :=
  fun ctx w =>
    match getImageAncestry fuel (Opts.account_uuid opts) (V1 (img ctx)) w with
    | (Crashed c, w') => (Throw c, ctx, w')
    | (Called (Some err) _, w') =>
        (Calls [Some (DockerError (Some err) "could not delete image")],
         ctx, w')
    | (Called None (history, isPartialHistory), w') =>
        if isPartialHistory then
          let ctx := push_change
                       (Deleted ("warning: " ++ Opts.name opts
                                 ++ " missing some history: null")) ctx in
          let ctx := set_imgsToDelete history ctx in
          (* cb(); *)
          let ctx := set_imgsToDelete history ctx in
          (* cb(); *)
          (Calls [None; None], ctx, w')
        else
          (Calls [None], set_imgsToDelete history ctx, w')
    end.

Definition getDatacenterRefcount : Stage Ctx :=
  fun ctx w =>
    match Image_datacenterRefcount (Image.index_name (img ctx))
            (Image.docker_id (img ctx)) w with
    | (Failed err, w') =>
        (Calls [Some (DockerError (Some err) "could not delete image")],
         ctx, w')
    | (Got count, w') => (Calls [None], set_dcRefcount count ctx, w')
    end.

Definition untagOne (imgTag : ImgTag) : Stage Ctx :=
  fun ctx w =>
    match ImageTag_del_obj imgTag w with
    | (Some err, w') => (Calls [Some err], ctx, w')
    | (None, w') =>
        (Calls [None], push_change (Untagged (repoTag imgTag)) ctx, w')
    end.

Definition untagHeads : Stage Ctx :=
  fun ctx w =>
    match forEachPipeline untagOne (imgTags ctx) ctx w with
    | (Crashed c, ctx', w') => (Throw c, ctx', w')
    | (Called err _, ctx', w') => (Calls [err], ctx', w')
    end.

(** [ctx.dcRefcount[img.docker_id] !== undefined] *)
Definition isLastRef (ctx : Ctx) (docker_id : string) : bool :=
  existsb (fun e => String.eqb (fst e) docker_id) (dcRefcount ctx).

Definition deleteOneImg (i : Img) : Stage Ctx :=
  fun ctx w =>
    match i with
    | V1 i =>
        if Z.ltb 1 (Image.refcount i) then
          let update :=
            mkImageUpdate (Image.owner_uuid i) (Image.index_name i)
              (Image.docker_id i)
              (List.filter
                 (fun id => negb (String.eqb id (Image.docker_id (img ctx))))
                 (Image.heads i))
              (if String.eqb (Image.docker_id i) (Image.docker_id (img ctx))
               then Some false else None) in
          let (err, w') := Image_update update w in
          (Calls [err], ctx, w')
        else
          match Image_del i w with
          | (Some delErr, w') => (Calls [Some delErr], ctx, w')
          | (None, w') =>
              let ctx := push_change (Deleted (Image.docker_id i)) ctx in
              if negb (isLastRef ctx (Image.docker_id i))
                 || hitImageHasDependentImagesError ctx
              then (Calls [None], ctx, w')
              else
                match imgapi_deleteImage (Image.image_uuid i) w' with
                | (Some err, w'') =>
                    if String.eqb (restCode err) "ImageHasDependentImages"
                    then (Calls [None], set_hit true ctx, w'')
                    else (Calls [Some err], ctx, w'')
                | (None, w'') => (Calls [None], ctx, w'')
                end
          end
    | _ => (Throw (TypeError "not an Image of the v1 bucket"), ctx, w)
    end.

Definition deleteImgs : Stage Ctx :=
  fun ctx w =>
    if dontDeleteImages ctx then (Calls [None], ctx, w)
    else
      match forEachPipeline deleteOneImg (imgsToDelete ctx) ctx w with
      | (Crashed c, ctx', w') => (Throw c, ctx', w')
      | (Called (Some err) _, ctx', w') =>
          (Calls [Some (DockerError (Some err) "could not delete image")],
           ctx', w')
      | (Called None _, ctx', w') => (Calls [None], ctx', w')
      end.

(** [_deleteImageV1]: the callback receives [(err, changes)]. *)
Definition _deleteImageV1 (ext : Externals) (fuel : nat) (opts : Opts.t)
  (i : Image.t) (t : option ImgTag) (w : World)
  : Result (list Change) * World :=
  match pipeline
          [ensureIsHeadImage;
           getImgTags opts;
           checkTagReferences opts;
           verifyNotInUse ext opts;
           getImgsToDelete fuel opts;
           getDatacenterRefcount;
           untagHeads;
           deleteImgs]
          (mkCtx i t [] [] [] false [] false) w with
  | (Crashed c, _, w') => (Crashed c, w')
  | (Called err _, ctx, w') => (Called err (changes ctx), w')
  end.
End DeleteV1.

Module LayerInfo.
Record t : Type := mk {
  layerDigest : string;
  diffId : string;
  uuid : string
}.
End LayerInfo.

Module DeleteV2.
(** [ctx] of [_deleteImageV2], with the closure variable [changes] and
    the variables [ownUuidRefCount] and
    [hitImageHasDependentImagesError] of [deleteImgapiLayers]. *)
Record Ctx : Type := mkCtx {
  img : ImageV2.t;
  imgTag : option ImgTag;
  imgTags : list ImgTag;
  imgsToDelete : list Img;
  changes : list Change;
  ownUuidRefCount : list (string * Z);
  hitImageHasDependentImagesError : bool
}.

Definition set_imgTags (v : list ImgTag) (c : Ctx) : Ctx :=
  mkCtx (img c) (imgTag c) v (imgsToDelete c) (changes c)
    (ownUuidRefCount c) (hitImageHasDependentImagesError c).
Definition set_imgsToDelete (v : list Img) (c : Ctx) : Ctx :=
  mkCtx (img c) (imgTag c) (imgTags c) v (changes c)
    (ownUuidRefCount c) (hitImageHasDependentImagesError c).
Definition push_change (v : Change) (c : Ctx) : Ctx :=
  mkCtx (img c) (imgTag c) (imgTags c) (imgsToDelete c)
    (changes c ++ [v])%list
    (ownUuidRefCount c) (hitImageHasDependentImagesError c).
Definition set_ownUuidRefCount (v : list (string * Z)) (c : Ctx) : Ctx :=
  mkCtx (img c) (imgTag c) (imgTags c) (imgsToDelete c) (changes c)
    v (hitImageHasDependentImagesError c).
Definition set_hit (v : bool) (c : Ctx) : Ctx :=
  mkCtx (img c) (imgTag c) (imgTags c) (imgsToDelete c) (changes c)
    (ownUuidRefCount c) v.

Definition getImgTags (opts : Opts.t) : Stage Ctx :=
  fun ctx w =>
    match tagsForImage (V2 (img ctx)) (Opts.account_uuid opts) None w with
    | (Failed err, w') => (Calls [Some err], ctx, w')
    | (Got imgTags, w') => (Calls [None], set_imgTags imgTags ctx, w')
    end.

(** The error of [checkTagReferences]. *)
Definition conflict (shortId : string) : Error :=
  DockerError None
    ("conflict: unable to delete " ++ shortId
     ++ " (must be forced) - image is referenced in one or "
     ++ "more repositories").

Definition checkTagReferences (ext : Externals) (opts : Opts.t)
  : Stage Ctx :=
  fun ctx w =>
    let shortId := shortIdFromDigest ext (ImageV2.digest (img ctx)) in
    match imgTag ctx with
    | None =>
        if negb (Opts.force opts) && Nat.ltb 1 (List.length (imgTags ctx))
        then (Calls [Some (conflict shortId)], ctx, w)
        else (Calls [None], ctx, w)
    | Some _ => (Calls [None], ctx, w)
    end.

Definition checkJustUntagImage : Stage Ctx :=
  fun ctx w =>
    match imgTag ctx with
    | Some t =>
        if Nat.ltb 1 (List.length (imgTags ctx)) then
          match ImageTagV2_del_obj t w with
          | (Some err, w') => (Calls [Some err], ctx, w')
          | (None, w') =>
              (* Early abort - nothing more to do here. *)
              (Calls [Some AbortMarker],
               push_change (Untagged (repoTag t)) ctx, w')
          end
        else (Calls [None], ctx, w)
    | None => (Calls [None], ctx, w)
    end.

Definition verifyNotInUse (ext : Externals) (opts : Opts.t) : Stage Ctx :=
  fun ctx w =>
    let (err, w') := vmsUsingImage ext opts (ImageV2.image_uuid (img ctx)) w
    in (Calls [err], ctx, w').

(** The filter of [getImgsToDelete]: once a head image is met, it and
    everything after it is kept out. *)
Fixpoint untilHead (ancestors : list Img) : list Img :=
  match ancestors with
  | [] => []
  | a :: r => if img_head a then [] else a :: untilHead r
  end.

Definition getImgsToDelete (fuel : nat) (opts : Opts.t) : Stage Ctx :=
  fun ctx w =>
    match getImageAncestry fuel (Opts.account_uuid opts) (V2 (img ctx)) w with
    | (Crashed c, w') => (Throw c, ctx, w')
    | (Called (Some err) _, w') =>
        (Calls [Some (DockerError (Some err) "could not delete image")],
         ctx, w')
    | (Called None (ancestry, _), w') =>
        (* Note: Don't delete an ancestor that is a head image. *)
        match ancestry with
        | [] => (Throw (TypeError "ancestry[0] is undefined"), ctx, w')
        | a0 :: rest =>
            (Calls [None], set_imgsToDelete (a0 :: untilHead rest) ctx, w')
        end
    end.

Definition untagOne (imgTag : ImgTag) : Stage Ctx :=
  fun ctx w =>
    match ImageTagV2_del_obj imgTag w with
    | (Some err, w') => (Calls [Some err], ctx, w')
    | (None, w') =>
        (Calls [None], push_change (Untagged (repoTag imgTag)) ctx, w')
    end.

Definition deleteDockerTags : Stage Ctx :=
  fun ctx w =>
    match forEachPipeline untagOne (imgTags ctx) ctx w with
    | (Crashed c, ctx', w') => (Throw c, ctx', w')
    | (Called err _, ctx', w') => (Calls [err], ctx', w')
    end.

(** [ownUuidRefCount[uuid]], zero when unset. *)
Definition refCount (m : list (string * Z)) (uuid : string) : Z :=
  match find (fun e => String.eqb (fst e) uuid) m with
  | Some e => snd e
  | None => 0%Z
  end.

Definition setRefCount (uuid : string) (n : Z) (m : list (string * Z))
  : list (string * Z) :=
  (uuid, n) :: List.filter (fun e => negb (String.eqb (fst e) uuid)) m.

(** [ownUuidRefCount] as built from [ctx.imgsToDelete]. *)
Definition countOwnUuids (imgs : list Img) : list (string * Z) :=
  fold_left
    (fun m i => setRefCount (img_image_uuid i)
                  (1 + refCount m (img_image_uuid i))%Z m)
    imgs [].

(** [layerInfos]: the uuid of a layer is derived from the digests of
    the layers up to and including it. *)
Fixpoint layerInfos (imgUuid : list string -> string)
  (seen layers diffIds : list string) : list LayerInfo.t :=
  match layers, diffIds with
  | d :: layers', diffId :: diffIds' =>
      let seen := (seen ++ [d])%list in
      LayerInfo.mk d diffId (imgUuid seen)
      :: layerInfos imgUuid seen layers' diffIds'
  | _, _ => []
  end.

Definition deleteLayer (layerInfo : LayerInfo.t) : Stage Ctx :=
  fun ctx w =>
    if hitImageHasDependentImagesError ctx then (Calls [None], ctx, w)
    else
      let uuid := LayerInfo.uuid layerInfo in
      (* Ensure no other docker image uses this *layer* in the *DC*. *)
      match ImageV2_list [("image_uuid", uuid)] w with
      | (Failed lookupErr, w') => (Calls [Some lookupErr], ctx, w')
      | (Got imgs, w') =>
          let own := refCount (ownUuidRefCount ctx) uuid in
          let imageRefCnt :=
            if Z.eqb own 0 then Z.of_nat (List.length imgs)
            else (Z.of_nat (List.length imgs) - 1)%Z in
          let ctx :=
            if Z.eqb own 0 then ctx
            else set_ownUuidRefCount
                   (setRefCount uuid (own - 1)%Z (ownUuidRefCount ctx)) ctx in
          if Z.leb 1 imageRefCnt
          then (* This image is referenced by another docker image. *)
            (Calls [None], set_hit true ctx, w')
          else
            match imgapi_deleteImage uuid w' with
            | (Some err, w'') =>
                if String.eqb (restCode err) "ImageHasDependentImages"
                then (* This origin is used by another IMGAPI image. *)
                  (Calls [None], set_hit true ctx, w'')
                else (Calls [Some err], ctx, w'')
            | (None, w'') =>
                (Calls [None],
                 push_change (Deleted (LayerInfo.diffId layerInfo)) ctx, w'')
            end
      end.

Definition deleteImgapiLayers (ext : Externals) : Stage Ctx :=
  fun ctx w =>
    match manifestLayerDigests ext (ImageV2.manifest_str (img ctx)) with
    | None =>
        (Calls [Some (DockerError None
                        ("Unable to parse image manifest_str for image "
                         ++ ImageV2.digest (img ctx)))], ctx, w)
    | Some layers =>
        let ctx := set_hit false
                     (set_ownUuidRefCount
                        (countOwnUuids (imgsToDelete ctx)) ctx) in
        let diffIds := ImageV2.rootfs_diff_ids (img ctx) in
        if negb (Nat.eqb (List.length diffIds) (List.length layers))
        then (Throw (AssertionError
                "diff_ids length and manifest.layers length must be equal"),
              ctx, w)
        else
          (* Delete the images in reverse order (i.e. base layer is
             deleted last). *)
          match forEachPipeline deleteLayer
                  (rev (layerInfos (imgUuidFromDockerDigests ext) []
                          layers diffIds)) ctx w with
          | (Crashed c, ctx', w') => (Throw c, ctx', w')
          | (Called err _, ctx', w') => (Calls [err], ctx', w')
          end
    end.

(** Delete up the ancestor chain. *)
Definition deleteOneImg (i : Img) : Stage Ctx :=
  fun ctx w =>
    if negb (String.eqb (img_id i) (ImageV2.digest (img ctx)))
       && img_head i
    then (Throw (AssertionError "img.head should be false"), ctx, w)
    else
      match i with
      | V2 i =>
          match ImageV2_del i w with
          | (Some delErr, w') => (Calls [Some delErr], ctx, w')
          | (None, w') =>
              (Calls [None], push_change (Deleted (ImageV2.digest i)) ctx, w')
          end
      | _ => (Throw (TypeError "not an ImageV2"), ctx, w)
      end.

Definition deleteDockerImages : Stage Ctx :=
  fun ctx w =>
    match forEachPipeline deleteOneImg (imgsToDelete ctx) ctx w with
    | (Crashed c, ctx', w') => (Throw c, ctx', w')
    | (Called (Some AbortMarker) _, ctx', w') => (Calls [None], ctx', w')
    | (Called (Some err) _, ctx', w') =>
        (Calls [Some (DockerError (Some err) "could not delete image")],
         ctx', w')
    | (Called None _, ctx', w') => (Calls [None], ctx', w')
    end.

(** [_deleteImageV2]: the callback receives [(err, changes)]. *)
Definition _deleteImageV2 (ext : Externals) (fuel : nat) (opts : Opts.t)
  (i : ImageV2.t) (t : option ImgTag) (w : World)
  : Result (list Change) * World :=
  match pipeline
          [getImgTags opts;
           checkTagReferences ext opts;
           checkJustUntagImage;
           verifyNotInUse ext opts;
           getImgsToDelete fuel opts;
           deleteDockerTags;
           deleteImgapiLayers ext;
           deleteDockerImages]
          (mkCtx i t [] [] [] [] false) w with
  | (Crashed c, _, w') => (Crashed c, w')
  | (Called (Some AbortMarker) _, ctx, w') => (Called None (changes ctx), w')
  | (Called err _, ctx, w') => (Called err (changes ctx), w')
  end.
End DeleteV2.

(** [deleteImage]: [getImg], then [doDeleteImage]; the callback receives
    [(err, changes)], [changes] being unset when [getImg] fails. *)
Definition deleteImage (ext : Externals) (fuel : nat) (opts : Opts.t)
  (w : World) : Result (option (list Change)) * World :=
  match imgFromName ext opts w with
  | (Crashed c, w') => (Crashed c, w')
  | (Called (Some err) _, w') => (Called (Some err) None, w')
  | (Called None (None, _), w') =>
      (Called (Some (ResourceNotFoundError
                       ("No such image: " ++ Opts.name opts))) None, w')
  | (Called None (Some img, imgTag), w') =>
      let doDeleteImage :=
        match img with
        | V2 i => DeleteV2._deleteImageV2 ext fuel opts i imgTag w'
        | V1 i => DeleteV1._deleteImageV1 ext fuel opts i imgTag w'
        | Faux _ _ =>
            (* [ensureIsHeadImage] reads [ctx.img.heads.map] *)
            (Crashed (TypeError "Cannot read property 'map' of undefined"), w')
        end in
      match doDeleteImage with
      | (Crashed c, w'') => (Crashed c, w'')
      | (Called err _changes, w'') => (Called err (Some _changes), w'')
      end
  end.


(* ------------------------------------------------------------------ *)
(** ** The ImageV2 model: construction and raw form

    [lib/models/image-v2.js].  The [assert-plus] checks on the type of a
    field are carried by the types below; a field that may be left out
    is an [option], and [assert.object] refuses [null]. *)

Module ImageConfig.
(** [image.config]; [Labels] may be left out. *)
Record t : Type := mk {
  Labels : option (list (string * string))
}.
End ImageConfig.

Module ImageJson.
(** The image JSON, [params.image].  [config] is [None] when it is
    [null], [parent] when it is left out. *)
Record t : Type := mk {
  config : option ImageConfig.t;
  created : string;
  history : list HistoryItem.t;
  os : string;
  rootfs_diff_ids : list string;
  parent : option string;
  container_config_Cmd : option (list string)
}.
End ImageJson.

Module ImageV2Params.
(** The [params] of the constructor, which are also the raw form of an
    object: [parent] and [owner_uuid] may be left out, [created] is set
    by the constructor. *)
Record t : Type := mk {
  digest : string;
  head : bool;
  image : ImageJson.t;
  image_uuid : string;
  manifest_digest : string;
  manifest_str : string;
  parent : option string;
  owner_uuid : option string;
  size : Z;
  created : option Z
}.
End ImageV2Params.

(** [s.indexOf(':') >= 0] *)
Fixpoint has_colon (s : string) : bool :=
  match s with
  | EmptyString => false
  | String c r => Ascii.eqb c ":"%char || has_colon r
  end.

(** [a || ''] on an optional string. *)
Definition or_empty (s : option string) : string :=
  match s with Some v => v | None => "" end.

(** The statements of the constructor on [params.parent]: it is taken
    from the image JSON when it is not given, and checked against the
    image JSON when it is ([assert.equal]). *)
Definition ImageV2_parent (params : ImageV2Params.t)
  : Crash + option string :=
  let image := ImageV2Params.image params in
  if negb (truthy (ImageV2Params.parent params))
     && truthy (ImageJson.parent image)
  then inr (ImageJson.parent image)
  else if truthy (ImageV2Params.parent params)
  then
    match ImageJson.parent image with
    | Some ip =>
        if String.eqb (or_empty (ImageV2Params.parent params)) ip
        then inr (ImageV2Params.parent params)
        else inl (AssertionError "image.parent should equal params.parent")
    | None => inl (AssertionError "image.parent should equal params.parent")
    end
  else inr (ImageV2Params.parent params).

(** [new ImageV2(params)]: the [params] that the object holds, or the
    assertion that stops the constructor. *)
Definition ImageV2_new (ext : Externals) (params : ImageV2Params.t)
  : Crash + ImageV2Params.t :=
  match ImageV2Params.owner_uuid params with
  | None => inl (AssertionError "params.owner_uuid (string) is required")
  | Some _ =>
      let image := ImageV2Params.image params in
      match ImageJson.config image with
      | None => inl (AssertionError "image.config (object) is required")
      | Some _ =>
          (* Params.parent must be set in order to get indexing on
             parent. *)
          match ImageV2_parent params with
          | inl c => inl c
          | inr parent =>
              (* Cleanup parent to ensure it's a string (not null or
                 undefined). *)
              let parent := if truthy parent then or_empty parent else "" in
              (* Validate digests. *)
              if negb (has_colon (ImageV2Params.digest params))
              then inl (AssertionError
                          ("digest must include a colon, got " ++ parent))
              else
                inr (ImageV2Params.mk
                       (ImageV2Params.digest params)
                       (ImageV2Params.head params)
                       image
                       (ImageV2Params.image_uuid params)
                       (ImageV2Params.manifest_digest params)
                       (ImageV2Params.manifest_str params)
                       (Some parent)
                       (ImageV2Params.owner_uuid params)
                       (ImageV2Params.size params)
                       (Some (epochSeconds ext (ImageJson.created image))))
          end
      end
  end.

(** [raw], [serialize], [toJSON]. *)
Definition ImageV2_raw (this : ImageV2Params.t) : ImageV2Params.t :=
  ImageV2Params.mk
    (ImageV2Params.digest this)
    (ImageV2Params.head this)
    (ImageV2Params.image this)
    (ImageV2Params.image_uuid this)
    (ImageV2Params.manifest_digest this)
    (ImageV2Params.manifest_str this)
    (ImageV2Params.parent this)
    (ImageV2Params.owner_uuid this)
    (ImageV2Params.size this)
    (ImageV2Params.created this).

(** The record of the bucket for an object: the fields that [images.js]
    reads through the getters. *)
Definition ImageV2_record (this : ImageV2Params.t) : ImageV2.t :=
  ImageV2.mk
    (ImageV2Params.digest this)
    (ImageV2Params.head this)
    (ImageV2Params.image_uuid this)
    (ImageV2Params.manifest_digest this)
    (ImageV2Params.manifest_str this)
    (or_empty (ImageV2Params.owner_uuid this))
    (or_empty (ImageV2Params.parent this))
    (ImageV2Params.size this)
    (match ImageV2Params.created this with Some c => c | None => 0%Z end)
    (ImageJson.history (ImageV2Params.image this))
    (ImageJson.rootfs_diff_ids (ImageV2Params.image this))
    (ImageJson.container_config_Cmd (ImageV2Params.image this)).

(** [createImage] of the model: the object is built, then put under its
    key. *)
Definition ImageV2_create (ext : Externals) (params : ImageV2Params.t)
  (w : World) : Result (option ImageV2.t) * World :=
  match ImageV2_new ext params with
  | inl c => (Crashed c, w)
  | inr image =>
      match moray_call w with
      | (Some err, w') => (Called (Some err) None, w')
      | (None, w') =>
          (Called None (Some (ImageV2_record image)),
           set_docker_images_v2
             (putObject (ImageV2_record image) (docker_images_v2 w')) w')
      end
  end.

Module ModelOpts.
(** The [opts] of [dockerImageJsonToModel]. *)
Record t : Type := mk {
  digest : string;
  head : option bool;
  image_uuid : string;
  manifest_str : string;
  manifest_digest : string;
  owner_uuid : option string;
  size : Z
}.
End ModelOpts.

(** [dockerImageJsonToModel]. *)
Definition dockerImageJsonToModel (imageJson : ImageJson.t)
  (opts : ModelOpts.t) : ImageV2Params.t :=
  ImageV2Params.mk
    (ModelOpts.digest opts)
    (match ModelOpts.head opts with Some h => h | None => false end)
    imageJson
    (ModelOpts.image_uuid opts)
    (ModelOpts.manifest_digest opts)
    (ModelOpts.manifest_str opts)
    None
    (ModelOpts.owner_uuid opts)
    (if Z.eqb (ModelOpts.size opts) 0 then 0%Z else ModelOpts.size opts)
    None.

(* ------------------------------------------------------------------ *)
(** ** Pulling: the job and the text of its errors *)

Module JobError.
(** An error of the pull job, or of its submission: [err.code] may be
    unset. *)
Record t : Type := mk {
  code : option string;
  message : string
}.
End JobError.

Module PullOpts.
(** The [opts] of [pullImage]: [opts.rat] with its [index.name] and its
    [canonicalName], and [opts.req_id]. *)
Record t : Type := mk {
  rat : Rat.t;
  index_name : string;
  canonicalName : string;
  req_id : string
}.
End PullOpts.

(** The workflow service as [pullImage] meets it, and [JSON.parse] on
    the message of an error. *)
Record PullEnv : Type := mkPullEnv {
  (** [opts.wfapi.createPullImageV2Job]: an error, or the uuid of the
      job *)
  createPullImageV2Job : JobError.t + string;
  (** [common.waitForJob(opts.wfapi, jobUuid, ..)], [jobUuid] being
      unset when no job was created *)
  waitForJob : option string -> option JobError.t;
  (** the [errors] of [JSON.parse(err.message)], each with its [code]
      and [message]; [None] when [JSON.parse] throws or when the parsed
      value has no [errors] *)
  registryErrors : string -> option (list (string * string))
}.

(** What [pullImage] does to the socket table and to the response. *)
Inductive PullEvent : Type :=
| SetSocket (canonicalName : string)
| ResWrite (errmsg : string)
| ResEnd.

(** [err.code === s] *)
Definition code_is (err : JobError.t) (s : string) : bool :=
  match JobError.code err with
  | Some c => String.eqb c s
  | None => false
  end.

Module ErrorAndEnd.
(** [imgName] of [errorAndEnd]. *)
Definition imgName (opts : PullOpts.t) : string :=
  let rat := PullOpts.rat opts in
  if truthy (Rat.digest rat)
  then Rat.localName rat ++ "@" ++ or_empty (Rat.digest rat)
  else if truthy (Some (Rat.tag rat))
  then Rat.localName rat ++ ":" ++ Rat.tag rat
  else Rat.localName rat.

(** [errmsg] of [errorAndEnd], before the request id is appended, and
    [recognized]. *)
Definition errmsg (env : PullEnv) (opts : PullOpts.t) (err : JobError.t)
  : string * bool :=
  if code_is err "RemoteSourceError" || code_is err "ENOTFOUND"
  then ("Error pulling image: (" ++ or_empty (JobError.code err) ++ ") "
        ++ PullOpts.index_name opts ++ " host not found", true)
  else if code_is err "UnauthorizedError" || code_is err "UNAUTHORIZED"
          || code_is err "ResourceNotFound" || code_is err "NotFoundError"
  then ("Error: image " ++ imgName opts ++ " not found", true)
  else if code_is err "Download" || code_is err "DownloadError"
  then ("Error downloading " ++ imgName opts ++ ": " ++ JobError.message err,
        true)
  else if code_is err "ConnectTimeoutError"
          || code_is err "RemoteSourceError"
  then ("Timeout connecting to host " ++ PullOpts.index_name opts, true)
  else if code_is err "NotImplemented"
  then ("Could not pull from registry " ++ PullOpts.index_name opts ++ ": "
        ++ JobError.message err, true)
  else
    match registryErrors env (JobError.message err) with
    | None => ("Error pulling image: Internal error", false)
    | Some [(code, message)] =>
        if String.eqb code "MANIFEST_UNKNOWN"
        then ("Error: image " ++ imgName opts ++ " not found", true)
        else ("Error pulling image: (" ++ code ++ ") " ++ message, true)
    | Some errors =>
        ("Error pulling image: "
         ++ join ", " (map (fun e => "(" ++ fst e ++ ") " ++ snd e) errors),
         true)
    end.

(** [errorAndEnd]: the payload is written to the response, which is
    ended. *)
Definition errorAndEnd (env : PullEnv) (opts : PullOpts.t)
  (err : JobError.t) : list PullEvent :=
  [ResWrite (fst (errmsg env opts err) ++ " (" ++ PullOpts.req_id opts ++ ")");
   ResEnd].
End ErrorAndEnd.

Module PullImage.
(** The closure variable [jobUuid], and what was done so far. *)
Definition Vars : Type := (option string * list PullEvent)%type.


End PullImage.


(* ------------------------------------------------------------------ *)
(** ** Listing: the three sources, the filters and the order

    [listImages] as a whole.  [vasync.parallel] starts the functions of
    [funcs] together and calls back once all of them have called back,
    with a [MultiError] of their errors if there are any; here they run
    one after the other, in the order of [funcs] (they share no variable
    but [dockerImages], which is sorted at the end). *)

Module SmartosImage.
(** An image of [imgapi.listImages], with what [listSmartOSImages] reads
    of it; [files] holds the [size] of each file. *)
Record t : Type := mk {
  uuid : string;
  origin : option string;
  published_at : string;
  files : list Z
}.
End SmartosImage.

Module ListOpts.
(** The [opts] of [listImages]. *)
Record t : Type := mk {
  account_uuid : string;
  all : bool;
  filters : option string;
  skip_v1_images : bool;
  skip_smartos : bool
}.
End ListOpts.

(** [utils.getNormalizedFilters(JSON.parse(s))]: [JSON.parse] throws, or
    the filters are refused (with the text of the [Error]), or they are
    an object that maps the name of a filter to an array of strings. *)
Inductive Filters : Type :=
| FiltersSyntaxError
| FiltersRefused (text : string)
| FiltersOf (imageFilters : list (string * list string)).

(** What [listImages] takes from elsewhere: the helpers of [utils] and
    [common], the [config] of a record (a field that the records above
    do not carry: [None] for a [config] that is [null], [Some None] for
    a [config] without [Labels]), and the active zone-dataset images
    that IMGAPI lists for an account. *)
Record ListEnv : Type := mkListEnv {
  normalizedFilters : string -> Filters;
  boolFromQueryParam : option string -> bool;
  v2_Labels : ImageV2.t -> option (list (string * string));
  v1_config : Image.t -> option (option (list (string * string)));
  smartos_images : string -> list SmartosImage.t
}.

(** What a [try] block catches: an error object, or a [TypeError]. *)
Inductive Thrown : Type :=
| ThrownError (e : Error)
| ThrownTypeError (msg : string).

(** [s.split('=', 2)]: [split[0]] and [split[1]]. *)
Fixpoint until_equals (s : string) : string * option string :=
  match s with
  | EmptyString => (EmptyString, None)
  | String c r =>
      if Ascii.eqb c "="%char then (EmptyString, Some r)
      else let (a, b) := until_equals r in (String c a, b)
  end.

Definition split_equals_2 (s : string) : string * option string :=
  let (wantedLabel, rest) := until_equals s in
  (wantedLabel, option_map (fun r => fst (until_equals r)) rest).

(** [s.replace(/-/g, '')] *)
Fixpoint without_dashes (s : string) : string :=
  match s with
  | EmptyString => EmptyString
  | String c r =>
      if Ascii.eqb c "-"%char then without_dashes r
      else String c (without_dashes r)
  end.

Module ListImagesAll.
(** The test of [imageFilter] on one wanted label, [wantedLabelData]
    being in format [key=value]. *)
Definition labelWanted (imgLabelsObj : list (string * string))
  (wantedLabelData : string) : bool :=
  let (wantedLabel, wantedValue) := split_equals_2 wantedLabelData in
  existsb
    (fun l => String.eqb (fst l) wantedLabel
              && match wantedValue with
                 | Some v => String.eqb (snd l) v
                 | None => false
                 end)
    imgLabelsObj.

(** [imageFilter]: the fields of [imageFilters] are gone through in
    order, [isMatch] being what was found so far; [config] is
    [img.config]. *)
Fixpoint imageFilter_from (env : ListEnv)
  (imageFilters : list (string * list string))
  (config : option (option (list (string * string)))) (isMatch : bool)
  : Thrown + bool :=
  match imageFilters with
  | [] => inr isMatch
  | (field, val) :: rest =>
      if String.eqb field "dangling" then
        (* Note: We currently don't have any dangling (untagged)
           images. *)
        imageFilter_from env rest config
          (if boolFromQueryParam env (List.last (map Some val) None)
           then false else isMatch)
      else if String.eqb field "label" then
        match config with
        | None =>
            inl (ThrownTypeError "Cannot read property 'Labels' of null")
        | Some Labels =>
            let imgLabelsObj :=
              match Labels with Some l => l | None => [] end in
            imageFilter_from env rest config
              (if negb (forallb (labelWanted imgLabelsObj) val)
               then false else isMatch)
        end
      else
        inl (ThrownError
               (DockerError None ("Invalid filter '" ++ field ++ "'")))
  end.

Definition imageFilter (env : ListEnv)
  (imageFilters : list (string * list string))
  (config : option (option (list (string * string)))) : Thrown + bool :=
  imageFilter_from env imageFilters config true.

(** [imgs.filter(imageFilter)] inside its [try] block, when
    [imageFilters] is not empty. *)
Fixpoint filtered {A : Type} (test : A -> Thrown + bool) (imgs : list A)
  : Thrown + list A :=
  match imgs with
  | [] => inr []
  | img :: rest =>
      match test img with
      | inl e => inl e
      | inr keep =>
          match filtered test rest with
          | inl e => inl e
          | inr kept => inr (if keep then img :: kept else kept)
          end
      end
  end.

(** What one of the functions of [funcs] does: it stops on an exception
    that nothing catches, or it calls [next], with an error or after it
    has added its rows to [dockerImages]. *)
Inductive SourceOut : Type :=
| SourceCrashed (c : Crash)
| SourceNext (err : option Thrown) (dockerImages : list DockerImage.t).

Definition Source : Type :=
  list DockerImage.t -> World -> SourceOut * World.

(** The row of a SmartOS image. *)
Definition smartosRow (ext : Externals) (img : SmartosImage.t) (size : Z)
  : DockerImage.t :=
  let origin := or_empty (SmartosImage.origin img) in
  DockerImage.mk
    (without_dashes (SmartosImage.uuid img ++ SmartosImage.uuid img))
    (without_dashes (origin ++ origin))
    [SmartosImage.uuid img] []
    (Some (epochSeconds ext (SmartosImage.published_at img))) size.

Fixpoint smartosRows (ext : Externals) (images : list SmartosImage.t)
  : Crash + list DockerImage.t :=
  match images with
  | [] => inr []
  | img :: rest =>
      match SmartosImage.files img with
      | [] => inl (TypeError "Cannot read property 'size' of undefined")
      | size :: _ =>
          match smartosRows ext rest with
          | inl c => inl c
          | inr rows => inr (smartosRow ext img size :: rows)
          end
      end
  end.

Definition listSmartOSImages (ext : Externals) (env : ListEnv)
  (opts : ListOpts.t) : Source :=
  fun dockerImages w =>
    match imgapi_call w with
    | (Some err, w') => (SourceNext (Some (ThrownError err)) dockerImages, w')
    | (None, w') =>
        match smartosRows ext
                (smartos_images env (ListOpts.account_uuid opts)) with
        | inl c => (SourceCrashed c, w')
        | inr results =>
            (SourceNext None (dockerImages ++ results)%list, w')
        end
    end.

(** [listDockerImagesV2]; [imgs.length] is read for the log line before
    [err] is looked at. *)
Definition listDockerImagesV2 (env : ListEnv)
  (imageFilters : list (string * list string)) (opts : ListOpts.t)
  : Source :=
  fun dockerImages w =>
    match ImageV2_list
            (ListImages.head_filter (ListOpts.all opts)
               (ListOpts.account_uuid opts)) w with
    | (Failed _, w') =>
        (SourceCrashed
           (TypeError "Cannot read property 'length' of undefined"), w')
    | (Got imgs, w') =>
        (* Filter images when requested by the client. *)
        let imgs :=
          match imageFilters with
          | [] => inr imgs
          | _ => filtered
                   (fun img => imageFilter env imageFilters
                                 (Some (v2_Labels env img))) imgs
          end in
        match imgs with
        | inl e => (SourceNext (Some e) dockerImages, w')
        | inr imgs =>
            match forEachPipeline
                    (ListImages.getTagsV2 (ListOpts.account_uuid opts))
                    (forEachParallel_order ImageV2.head imgs) [] w' with
            | (Crashed c, _, w'') => (SourceCrashed c, w'')
            | (Called (Some getErr) _, _, w'') =>
                (SourceNext (Some (ThrownError getErr)) dockerImages, w'')
            | (Called None _, results, w'') =>
                (SourceNext None (dockerImages ++ results)%list, w'')
            end
        end
    end.

(** [listDockerImagesV1]. *)
Definition listDockerImagesV1 (env : ListEnv)
  (imageFilters : list (string * list string)) (opts : ListOpts.t)
  : Source :=
  fun dockerImages w =>
    match Image_list
            (ListImages.head_filter (ListOpts.all opts)
               (ListOpts.account_uuid opts)) w with
    | (Failed err, w') =>
        (SourceNext (Some (ThrownError err)) dockerImages, w')
    | (Got imgs, w') =>
        let imgs :=
          match imageFilters with
          | [] => inr imgs
          | _ => filtered
                   (fun img => imageFilter env imageFilters
                                 (v1_config env img)) imgs
          end in
        match imgs with
        | inl e => (SourceNext (Some e) dockerImages, w')
        | inr imgs =>
            match forEachPipeline
                    (ListImages.getTags (ListOpts.account_uuid opts))
                    (forEachParallel_order Image.head imgs) [] w' with
            | (Crashed c, _, w'') => (SourceCrashed c, w'')
            | (Called (Some getErr) _, _, w'') =>
                (SourceNext (Some (ThrownError getErr)) dockerImages, w'')
            | (Called None _, results, w'') =>
                (SourceNext None (dockerImages ++ results)%list, w'')
            end
        end
    end.

(** [vasync.parallel({funcs: funcs}, ..)]: the errors of the functions,
    in the order of [funcs], and [dockerImages]. *)
Fixpoint parallel (funcs : list Source) (errors : list Thrown)
  (dockerImages : list DockerImage.t) (w : World)
  : (Crash + list Thrown * list DockerImage.t) * World :=
  match funcs with
  | [] => (inr (errors, dockerImages), w)
  | f :: rest =>
      match f dockerImages w with
      | (SourceCrashed c, w') => (inl c, w')
      | (SourceNext (Some err) dockerImages', w') =>
          parallel rest (errors ++ [err])%list dockerImages' w'
      | (SourceNext None dockerImages', w') =>
          parallel rest errors dockerImages' w'
      end
  end.

(** [opts.filters || '{}'] *)
Definition filters_or_default (opts : ListOpts.t) : string :=
  match ListOpts.filters opts with
  | Some (String c r) => String c r
  | _ => "{}"
  end.

(** The comparator of the sort, [entry2.Created - entry1.Created], is
    negative: [entry1] is to come before [entry2].  A difference with
    [NaN] is [NaN], which the sort takes for zero. *)
Definition newer (entry1 entry2 : DockerImage.t) : bool :=
  match DockerImage.Created entry1, DockerImage.Created entry2 with
  | Some c1, Some c2 => Z.ltb c2 c1
  | _, _ => false
  end.

(** [dockerImages.sort(function (entry1, entry2) { return entry2.Created
    - entry1.Created; })]: newest (0) to oldest (n); rows of the same
    [Created] stay in the order in which they were (a stable sort).
    When a [Created] is [NaN] the comparator is not consistent, and the
    order of the rows is left to the engine: the order below is then one
    of those that it may give. *)
Fixpoint insert_row (r : DockerImage.t) (l : list DockerImage.t)
  : list DockerImage.t :=
  match l with
  | [] => [r]
  | x :: t =>
      if newer r x then r :: l else x :: insert_row r t
  end.

Definition sort_rows (l : list DockerImage.t) : list DockerImage.t :=
  fold_left (fun acc r => insert_row r acc) l [].
End ListImagesAll.

(** The error that the callback of [listImages] receives: the
    [DockerError] for filters that are refused, or the [MultiError] of
    [vasync.parallel]. *)
Inductive ListError : Type :=
| InvalidFilters (e : Error)
| MultiError (errors : list Thrown).

Inductive Listing : Type :=
| ListSyntaxError
| ListCrashed (c : Crash)
| ListCalled (err : option ListError) (dockerImages : list DockerImage.t).

(** [listImages]. *)
Definition listImages (ext : Externals) (env : ListEnv) (opts : ListOpts.t)
  (w : World) : Listing * World :=
  match normalizedFilters env (ListImagesAll.filters_or_default opts) with
  | FiltersSyntaxError => (ListSyntaxError, w)
  | FiltersRefused text =>
      (ListCalled
         (Some (InvalidFilters
                  (DockerError None ("invalid filters: " ++ text)))) [], w)
  | FiltersOf imageFilters =>
      let funcs :=
        ((if ListOpts.skip_smartos opts then []
          else [ListImagesAll.listSmartOSImages ext env opts])
         ++ [ListImagesAll.listDockerImagesV2 env imageFilters opts]
         ++ (if ListOpts.skip_v1_images opts then []
             else [ListImagesAll.listDockerImagesV1 env imageFilters opts])
        )%list in
      match ListImagesAll.parallel funcs [] [] w with
      | (inl c, w') => (ListCrashed c, w')
      | (inr (err :: errors, _), w') =>
          (ListCalled (Some (MultiError (err :: errors))) [], w')
      | (inr ([], dockerImages), w') =>
          (* Images are sorted newest (0) to oldest (n). *)
          (ListCalled None (ListImagesAll.sort_rows dockerImages), w')
      end
  end.
(* ------------------------------------------------------------------ *)
(** ** Vocabulary of the properties *)

(** [Lineage acct w img rest w']: from [img] in the world [w], the
    look-ups of the parents succeed one after the other, they yield the
    records [rest], and they leave the world [w']. *)
Inductive Lineage (account_uuid : string)
  : World -> Img -> list Img -> World -> Prop :=
| Lineage_end (w : World) (img : Img) : Lineage account_uuid w img [] w
| Lineage_step (w w' w'' : World) (img p : Img) (rest : list Img) :
    img_parent img <> "" ->
    lookupParent account_uuid img w = (Called None (Some p), w') ->
    Lineage account_uuid w' p rest w'' ->
    Lineage account_uuid w img (p :: rest) w''.

(** The name goes to the two by-name resolvers of [imgFromName]: it
    parses to [rat] without a digest, it is not the UUID of a SmartOS
    image that is asked for, and it is not a full image digest. *)
Definition resolved_by_name (ext : Externals) (opts : Opts.t) (rat : Rat.t)
  : Prop :=
  parseRepoAndTag ext (Opts.name opts) = inl rat
  /\ negb (Opts.includeSmartos opts)
     || negb (isUUID ext (Rat.localName rat)) = true
  /\ truthy (Rat.digest rat) = false
  /\ negb (Nat.eqb (String.length (Opts.name opts)) (64 + 7))
     || negb (String.eqb (substr0 7 (Opts.name opts)) "sha256:") = true.

(** The blob [uuid] is, or is not, in IMGAPI, which answers. *)
Definition blob_present (uuid : string) (w : World) : Prop :=
  imgapi_faults w = []
  /\ existsb (fun i => String.eqb (ImgapiImage.uuid i) uuid)
       (imgapi_images w) = true.

Definition blob_absent (uuid : string) (w : World) : Prop :=
  imgapi_faults w = []
  /\ existsb (fun i => String.eqb (ImgapiImage.uuid i) uuid)
       (imgapi_images w) = false.

(** The image buckets of [w] hold no record that [w0] does not hold. *)
Definition shrinks (w0 w : World) : Prop :=
  incl (docker_images w) (docker_images w0)
  /\ incl (docker_images_v2 w) (docker_images_v2 w0).

(** [img] is a record of its bucket in [w] (or the faux image of a
    SmartOS image). *)
Definition stored (img : Img) (w : World) : Prop :=
  match img with
  | V1 i => In i (docker_images w)
  | V2 i => In i (docker_images_v2 w)
  | Faux _ _ => True
  end.

(** A stage keeps [P]. *)
Definition keeps {L : Type} (P : L -> World -> Prop) (f : Stage L) : Prop :=
  forall (l : L) (w : World) (out : StageOut) (l' : L) (w' : World),
    P l w -> f l w = (out, l', w') -> P l' w'.

(** The record [i] is not shown in the world [w]: no record of the
    bucket has its key, [inspectImage] never calls back with it, and the
    rows of a listing are rows of other records of the bucket. *)
Definition not_shown_v2 (i : ImageV2.t) (w : World) : Prop :=
  (forall r, In r (docker_images_v2 w) -> key r <> key i)
  /\ (forall ext opts found tags w',
         inspectImage ext opts w = (Called None (Some (found, tags)), w') ->
         found <> V2 i)
  /\ (forall all account_uuid rows w',
         ListImages.listDockerImagesV2 all account_uuid w
         = (Called None rows, w') ->
         exists recs,
           map DockerImage.Id rows = map ImageV2.digest recs
           /\ forall r, In r recs ->
                        In r (docker_images_v2 w) /\ key r <> key i).

Definition not_shown_v1 (i : Image.t) (w : World) : Prop :=
  (forall r, In r (docker_images w) -> key r <> key i)
  /\ (forall ext opts found tags w',
         inspectImage ext opts w = (Called None (Some (found, tags)), w') ->
         found <> V1 i)
  /\ (forall all account_uuid rows w',
         ListImages.listDockerImagesV1 all account_uuid w
         = (Called None rows, w') ->
         exists recs,
           map DockerImage.Id rows = map Image.docker_id recs
           /\ forall r, In r recs ->
                        In r (docker_images w) /\ key r <> key i).

(** [err.restCode === 'ImageHasDependentImages'] *)
Definition is_dependent (e : Error) : bool :=
  String.eqb (restCode e) "ImageHasDependentImages".

(** In a sequence of [imgapi.deleteImage] calls, an
    [ImageHasDependentImages] answer is given to the last call only. *)
Fixpoint dependent_only_last (calls : list (string * option Error)) : bool :=
  match calls with
  | [] => true
  | (_, None) :: r => dependent_only_last r
  | (_, Some e) :: r =>
      if is_dependent e
      then match r with [] => true | _ :: _ => false end
      else dependent_only_last r
  end.

(** What one stage of a cascade may do, [hit] being its
    [hitImageHasDependentImagesError] flag: make no call to
    [imgapi.deleteImage], and none at all once the flag is set; or make
    one call and go on when IMGAPI accepts it; or make one call, be
    answered [ImageHasDependentImages], set the flag and go on; or make
    one call and pass on any other error. *)
Definition cascade_step {L : Type} (hit : L -> bool) (f : Stage L) : Prop :=
  forall (l : L) (w : World) (out : StageOut) (l' : L) (w' : World),
    f l w = (out, l', w') ->
    (moray_faults w = [] -> moray_faults w' = [])
    /\ (hit l = true ->
        hit l' = true
        /\ imgapi_deleteImage_calls w' = imgapi_deleteImage_calls w)
    /\ ((imgapi_deleteImage_calls w' = imgapi_deleteImage_calls w
         /\ (moray_faults w = [] -> forall e, out <> Calls [Some e]))
        \/ (exists u,
               imgapi_deleteImage_calls w'
               = (imgapi_deleteImage_calls w ++ [(u, None)])%list
               /\ out = Calls [None])
        \/ (exists u e,
               imgapi_deleteImage_calls w'
               = (imgapi_deleteImage_calls w ++ [(u, Some e)])%list
               /\ is_dependent e = true
               /\ out = Calls [None] /\ hit l' = true)
        \/ (exists u e,
               imgapi_deleteImage_calls w'
               = (imgapi_deleteImage_calls w ++ [(u, Some e)])%list
               /\ is_dependent e = false
               /\ out = Calls [Some e])).

(** Among the calls to [imgapi.deleteImage], one was answered
    [ImageHasDependentImages]. *)
Definition answered_dependent (calls : list (string * option Error)) : Prop :=
  exists (u : string) (e : Error),
    In (u, Some e) calls /\ is_dependent e = true.

(** The stage calls back, once. *)
Definition calls_back_once {L : Type} (f : Stage L) : Prop :=
  forall (l : L) (w : World), exists err, fst (fst (f l w)) = Calls [err].

(** The records that [_deleteImageV2] is to delete for the image [i]:
    the image and its ancestors down to the first head image, as
    [getImgsToDelete] has them from the walk in [w]. *)
Definition cascade_v2 (fuel : nat) (account_uuid : string) (i : ImageV2.t)
  (w : World) : list Img :=
  match fst (getImageAncestry fuel account_uuid (V2 i) w) with
  | Called None (a0 :: rest, _) => a0 :: DeleteV2.untilHead rest
  | _ => []
  end.

(** From [w] to [w'] no call to [imgapi.deleteImage] was made, and
    Moray, if it had no fault in store, has none and holds the same
    image records. *)
Definition no_blob_call (w w' : World) : Prop :=
  imgapi_deleteImage_calls w' = imgapi_deleteImage_calls w
  /\ (moray_faults w = [] ->
      moray_faults w' = []
      /\ docker_images w' = docker_images w
      /\ docker_images_v2 w' = docker_images_v2 w).

(** From [w] to [w'] no call to [imgapi.deleteImage] was made, and
    Moray, if it had no fault in store, has none. *)
Definition no_deleteImage_call (w w' : World) : Prop :=
  imgapi_deleteImage_calls w' = imgapi_deleteImage_calls w
  /\ (moray_faults w = [] -> moray_faults w' = []).

(* ------------------------------------------------------------------ *)
(** ** Sample data *)

(** A stand-in for the helpers of [docker-registry-client],
    [imgmanifest] and [utils]: [name] or [name:tag], the tag defaulting
    to [latest]. *)
Fixpoint split_at_colon (s : string) : string * option string :=
  match s with
  | EmptyString => (EmptyString, None)
  | String c r =>
      if Ascii.eqb c ":"%char then (EmptyString, Some r)
      else let (a, b) := split_at_colon r in (String c a, b)
  end.

Definition sample_ext : Externals :=
  mkExternals
    (fun s => match split_at_colon s with
              | (EmptyString, _) => inr "invalid repository name"
              | (repo, Some tag) => inl (Rat.mk repo tag None)
              | (repo, None) => inl (Rat.mk repo "latest" None)
              end)
    (fun _ => false)
    (fun d => substr0 12 (String.substring 7 (String.length d - 7) d))
    (fun ds => "uuid-of-" ++ join "+" ds)
    (substr0 12)
    (fun s => if String.eqb s "" then None else Some [s])
    (fun _ => 0%Z).

Definition alice : string := "alice".

Definition empty_world : World :=
  mkWorld [] [] [] [] [] [] [] (fun _ _ => []) [] [] [].


(** A v1 layer that two head images of [alice] are built on. *)
Definition base_layer : Image.t :=
  Image.mk alice "docker.io"
    "511136ea3c5a64f264b78b5433614aec563103b4d4702f3ba7d4d2698e22c158"
    false
    ["ef872312fe1bbc5e05aae626791a47ee9b032efa8f3bda39cc0be7b56bfe59b9";
     "7fa0dcdc88de9c8a856f648c1f8e0cf8141a505bbddb7ecc0c61f1ed5e086852"]
    "" 2 "uuid-base" 0 1400000000 None.

Definition busybox_v1 : Image.t :=
  Image.mk alice "docker.io"
    "ef872312fe1bbc5e05aae626791a47ee9b032efa8f3bda39cc0be7b56bfe59b9"
    true
    ["ef872312fe1bbc5e05aae626791a47ee9b032efa8f3bda39cc0be7b56bfe59b9"]
    "511136ea3c5a64f264b78b5433614aec563103b4d4702f3ba7d4d2698e22c158"
    1 "uuid-busybox" 910 1420000000 (Some ["/bin/sh"; "-c"; "/hello"]).

Definition busybox_v1_tag : ImageTag.t :=
  ImageTag.mk alice "docker.io" "busybox" "latest"
    "ef872312fe1bbc5e05aae626791a47ee9b032efa8f3bda39cc0be7b56bfe59b9".

Definition live (uuid : string) : ImgapiImage.t :=
  ImgapiImage.mk uuid "other" "active".

Definition v1_world : World :=
  mkWorld [busybox_v1; base_layer] [busybox_v1_tag] [] []
    [live "uuid-busybox"; live "uuid-base"] [] [] (fun _ _ => []) [] [] [].

Definition opts_for (name : string) (force : bool) : Opts.t :=
  Opts.mk name alice None false force.

Definition tag_opts (name : string) (digest : option string)
  (img : option Img) : TagOpts.t :=
  TagOpts.mk name alice digest img None.

(** A v2 image of [alice] with two tags. *)
Definition nginx_digest : string :=
  "sha256:aaaaaaaaaaaaaaaaaaaaaaaaaaaaaaaaaaaaaaaaaaaaaaaaaaaaaaaaaaaaaaaa".

Definition nginx_v2 : ImageV2.t :=
  ImageV2.mk nginx_digest true "uuid-nginx" "sha256:manifest-of-nginx"
    "sha256:layer-1" alice "" 1000 1500000000
    [HistoryItem.mk None "2017-07-14T02:40:00Z" "/bin/sh -c #(nop) ADD" None]
    ["sha256:diff-1"] None.

Definition nginx_latest : ImageTagV2.t :=
  ImageTagV2.mk alice "nginx" "latest" nginx_digest.

Definition nginx_stable : ImageTagV2.t :=
  ImageTagV2.mk alice "nginx" "stable" nginx_digest.

Definition v2_world : World :=
  mkWorld [] [] [nginx_v2] [nginx_latest; nginx_stable]
    [live "uuid-nginx"] [] [] (fun _ _ => []) [] [] [].

(** Five v2 records, each the parent of the one before; [layer n] has
    parent [layer (n + 1)]. *)
Definition layer_digest (n : nat) : string :=
  "sha256:layer" ++ String (ascii_of_nat (48 + n)) EmptyString.

Definition layer (n : nat) (parent : string) : ImageV2.t :=
  ImageV2.mk (layer_digest n) (Nat.eqb n 1) "uuid-layer" "sha256:m" "m"
    alice parent 0 0 [] [] None.

(** The third record is not in the bucket. *)
Definition broken_chain_world : World :=
  mkWorld [] []
    [layer 1 (layer_digest 2); layer 2 (layer_digest 3);
     layer 4 (layer_digest 5); layer 5 ""] []
    [live "uuid-layer"] [] [] (fun _ _ => []) [] [] [].

(** Two v1 images whose ids start with [ef87], and one id pulled from two
    registries. *)
Definition other_ef87 : Image.t :=
  Image.mk alice "docker.io"
    "ef87aaaaaaaaaaaaaaaaaaaaaaaaaaaaaaaaaaaaaaaaaaaaaaaaaaaaaaaaaaaaaaaa"
    true [] "" 1 "uuid-other" 0 1420000001 None.

Definition busybox_quay : Image.t :=
  Image.mk alice "quay.io"
    "ef872312fe1bbc5e05aae626791a47ee9b032efa8f3bda39cc0be7b56bfe59b9"
    true [] "" 1 "uuid-busybox-quay" 910 1420000000 None.

Definition two_ids_world : World :=
  mkWorld [busybox_v1; other_ef87] [] [] []
    [live "uuid-busybox"; live "uuid-other"] [] [] (fun _ _ => []) [] [] [].

Definition two_hosts_world : World :=
  mkWorld [busybox_v1; busybox_quay] [] [] []
    [live "uuid-busybox"; live "uuid-busybox-quay"] [] []
    (fun _ _ => []) [] [] [].


Definition nginx_sibling : ImageV2.t :=
  ImageV2.mk
    "sha256:aaaabbbbbbbbbbbbbbbbbbbbbbbbbbbbbbbbbbbbbbbbbbbbbbbbbbbbbbbbbbbbbbbb"
    true "uuid-sibling" "sha256:manifest-of-sibling" "sha256:layer-2" alice ""
    1000 1500000001 [] ["sha256:diff-2"] None.

Definition two_digests_world : World :=
  mkWorld [] [] [nginx_v2; nginx_sibling] []
    [live "uuid-nginx"; live "uuid-sibling"] [] [] (fun _ _ => []) [] [] [].

(** [busybox_v1] without its parent record. *)
Definition orphan_world : World :=
  mkWorld [busybox_v1] [busybox_v1_tag] [] []
    [live "uuid-busybox"] [] [] (fun _ _ => []) [] [] [].

(** A v2 image whose embedded history has one entry although its parent
    record is stored too, and one whose embedded history has three. *)
Definition hist_item (by_ : string) : HistoryItem.t :=
  HistoryItem.mk None "2017-07-14T02:40:00Z" by_ None.

Definition parent_v2 : ImageV2.t :=
  ImageV2.mk "sha256:parent" false "uuid-parent" "sha256:mp" "sha256:l1"
    alice "" 10 1500000000 [hist_item "ADD rootfs"] ["sha256:d1"] None.

Definition child_short_history : ImageV2.t :=
  ImageV2.mk "sha256:child" true "uuid-child" "sha256:mc" "sha256:l2"
    alice "sha256:parent" 20 1500000001 [hist_item "CMD sh"]
    ["sha256:d1"; "sha256:d2"] None.

Definition child_long_history : ImageV2.t :=
  ImageV2.mk "sha256:child" true "uuid-child" "sha256:mc" "sha256:l2"
    alice "sha256:parent" 20 1500000001
    [hist_item "ADD rootfs"; hist_item "ENV a=b"; hist_item "CMD sh"]
    ["sha256:d1"; "sha256:d2"] None.

Definition history_world (child : ImageV2.t) : World :=
  mkWorld [] [] [child; parent_v2] []
    [live "uuid-child"; live "uuid-parent"] [] [] (fun _ _ => []) [] [] [].

(** [busybox_v1] on a base layer that nothing else uses; IMGAPI answers
    the first [deleteImage] with [ImageHasDependentImages]. *)
Definition lone_base : Image.t :=
  Image.mk alice "docker.io"
    "511136ea3c5a64f264b78b5433614aec563103b4d4702f3ba7d4d2698e22c158"
    false
    ["ef872312fe1bbc5e05aae626791a47ee9b032efa8f3bda39cc0be7b56bfe59b9"]
    "" 1 "uuid-base" 0 1400000000 None.

Definition has_dependents : Error :=
  ServiceError "ImageHasDependentImages" 422.

Definition last_refs : list (string * Z) :=
  [("ef872312fe1bbc5e05aae626791a47ee9b032efa8f3bda39cc0be7b56bfe59b9", 1%Z);
   ("511136ea3c5a64f264b78b5433614aec563103b4d4702f3ba7d4d2698e22c158", 1%Z)].

Definition dependent_world : World :=
  mkWorld [busybox_v1; lone_base] [busybox_v1_tag] [] []
    [live "uuid-busybox"; live "uuid-base"] [] []
    (fun _ _ => last_refs) [] [Some has_dependents] [].

(** The same before the name is resolved: the look-up of the resolver in
    IMGAPI goes through. *)
Definition dependent_world_start : World :=
  mkWorld [busybox_v1; lone_base] [busybox_v1_tag] [] []
    [live "uuid-busybox"; live "uuid-base"] [] []
    (fun _ _ => last_refs) [] [None; Some has_dependents] [].

Definition cascade_ctx : DeleteV1.Ctx :=
  DeleteV1.mkCtx busybox_v1 (Some (TagV1 busybox_v1_tag))
    [TagV1 busybox_v1_tag] [V1 busybox_v1; V1 lone_base] last_refs false
    [Untagged "busybox:latest"] false.



Definition cafe_v2 : ImageV2.t :=
  ImageV2.mk
    "sha256:cafe000000000000000000000000000000000000000000000000000000000000"
    true "uuid-cafe-v2" "sha256:manifest-of-cafe" "sha256:layer-c" alice ""
    7 1500000002 [] ["sha256:diff-c"] None.






(** [nginx_v2] with its tag, the blob being gone from IMGAPI. *)
Definition stale_world : World :=
  mkWorld [] [] [nginx_v2] [nginx_latest] [] [] [] (fun _ _ => []) [] [] [].

(** A stale v2 [busybox:latest] next to the live v1 [busybox:latest]. *)
Definition busybox_v2_stale : ImageV2.t :=
  ImageV2.mk
    "sha256:bbbbbbbbbbbbbbbbbbbbbbbbbbbbbbbbbbbbbbbbbbbbbbbbbbbbbbbbbbbbbbbb"
    true "uuid-gone" "sha256:manifest-of-busybox" "sha256:layer-b" alice ""
    9 1500000003 [] ["sha256:diff-b"] None.

Definition busybox_v2_tag : ImageTagV2.t :=
  ImageTagV2.mk alice "busybox" "latest" (ImageV2.digest busybox_v2_stale).

Definition stale_v2_live_v1_world : World :=
  mkWorld [busybox_v1; base_layer] [busybox_v1_tag]
    [busybox_v2_stale] [busybox_v2_tag]
    [live "uuid-busybox"; live "uuid-base"] [] [] (fun _ _ => []) [] [] [].

(** [busybox_v1] with its tag, the blob being gone from IMGAPI. *)
Definition stale_v1_world : World :=
  mkWorld [busybox_v1] [busybox_v1_tag] [] [] [] [] [] (fun _ _ => [])
    [] [] [].

(** The chain of [broken_chain_world] when Moray fails on the second
    look-up instead. *)
Definition moray_down : Error := ServiceError "InternalError" 500.

Definition faulty_chain_world (faults : list (option Error)) : World :=
  mkWorld [] []
    [layer 1 (layer_digest 2); layer 2 (layer_digest 3);
     layer 3 (layer_digest 4); layer 4 (layer_digest 5); layer 5 ""] []
    [live "uuid-layer"] [] [] (fun _ _ => []) faults [] [].

(** A v2 image of one layer, stored in IMGAPI under the uuid derived
    from the digest of the layer; IMGAPI answers the first [deleteImage]
    with [ImageHasDependentImages]. *)
Definition app_v2 : ImageV2.t :=
  ImageV2.mk "sha256:app" true "uuid-of-sha256:layer-app" "sha256:manifest-of-app"
    "sha256:layer-app" alice "" 30 1500000004 [hist_item "ADD app"]
    ["sha256:diff-app"] None.

Definition app_tag : ImageTagV2.t :=
  ImageTagV2.mk alice "app" "latest" "sha256:app".

Definition app_world (imgapi_script : list (option Error)) : World :=
  mkWorld [] [] [app_v2] [app_tag] [live "uuid-of-sha256:layer-app"] [] []
    (fun _ _ => []) [] imgapi_script [].

Definition app_ctx : DeleteV2.Ctx :=
  DeleteV2.mkCtx app_v2 (Some (TagV2 app_tag)) [TagV2 app_tag] [V2 app_v2]
    [Untagged "app:latest"] [("uuid-of-sha256:layer-app", 1%Z)] false.

Definition app_layer : LayerInfo.t :=
  LayerInfo.mk "sha256:layer-app" "sha256:diff-app" "uuid-of-sha256:layer-app".

(* ------------------------------------------------------------------ *)
(** ** Vocabulary of the properties of the walk and of the cascades *)

(** The four buckets of [w'] hold what those of [w] hold. *)
Definition same_records (w w' : World) : Prop :=
  docker_images w' = docker_images w
  /\ docker_image_tags w' = docker_image_tags w
  /\ docker_images_v2 w' = docker_images_v2 w
  /\ docker_image_tags_v2 w' = docker_image_tags_v2 w.

(** [parent] is the one record that the look-up of the parent of [child]
    selects in [w]: a record of the same bucket, under the filter that
    [imgFromImgInfoV1] or [imgFromImgInfoV2] builds. *)
Definition parent_of (account_uuid : string) (w : World)
  (child parent : Img) : Prop :=
  match child, parent with
  | V2 c, V2 p =>
      listObjs (docker_images_v2 w)
        [("owner_uuid", account_uuid); ("digest", ImageV2.parent c)] = [p]
  | V1 c, V1 p =>
      listObjs (docker_images w)
        [("owner_uuid", account_uuid); ("index_name", Image.index_name c);
         ("docker_id", Image.parent c)] = [p]
  | _, _ => False
  end.

(** Every record of the list names a parent, and the next record of the
    list is that parent. *)
Fixpoint chain (account_uuid : string) (w : World) (l : list Img) : Prop :=
  match l with
  | a :: ((b :: _) as r) =>
      img_parent a <> "" /\ parent_of account_uuid w a b
      /\ chain account_uuid w r
  | _ => True
  end.

(* ------------------------------------------------------------------ *)
(** ** More sample data *)

(** A v2 record that names itself as its parent. *)
Definition loop_v2 : ImageV2.t :=
  ImageV2.mk "sha256:loop" true "uuid-loop" "sha256:ml" "m" alice
    "sha256:loop" 0 0 [] [] None.

Definition loop_world : World :=
  mkWorld [] [] [loop_v2] [] [live "uuid-loop"] [] [] (fun _ _ => [])
    [] [] [].

(** The workloads of [owner_uuid] in state [st] that use the blob
    [image_uuid]. *)
Definition vms_using (st image_uuid owner_uuid : string) (w : World)
  : list Vm.t :=
  List.filter
    (fun vm => String.eqb (Vm.state vm) st
               && String.eqb (Vm.image_uuid vm) image_uuid
               && String.eqb (Vm.owner_uuid vm) owner_uuid)
    (vmapi_vms w).

(** The two messages of [verifyNotInUse]. *)
Definition in_use_by_running (ext : Externals) (opts : Opts.t) (vm : Vm.t)
  : Error :=
  DockerError None
    ("Conflict, cannot " ++ (if Opts.force opts then "force " else "")
     ++ "delete " ++ Opts.name opts ++ " because the running container "
     ++ vmUuidToShortDockerId ext (Vm.uuid vm)
     ++ " is using it, stop it and use -f to force").

Definition in_use_by_stopped (ext : Externals) (opts : Opts.t) (vm : Vm.t)
  : Error :=
  DockerError None
    ("Conflict, cannot " ++ (if Opts.force opts then "force " else "")
     ++ "delete " ++ Opts.name opts ++ " because the container "
     ++ vmUuidToShortDockerId ext (Vm.uuid vm)
     ++ " is using it, use -f to force").

(** The first element of [sort_vms l], computed along [l]. *)
Definition first_by_state (h : option Vm.t) (vm : Vm.t) : option Vm.t :=
  match h with
  | None => Some vm
  | Some x =>
      if String.ltb (Vm.state x) (Vm.state vm)
         || String.eqb (Vm.state x) (Vm.state vm)
      then Some x else Some vm
  end.

(** [alice] runs one container on [nginx_v2] and has stopped another;
    [bob] runs one too. *)
Definition vm_stopped : Vm.t :=
  Vm.mk "11111111-aaaa-bbbb-cccc-000000000001" "stopped" "uuid-nginx" alice.

Definition vm_running : Vm.t :=
  Vm.mk "22222222-aaaa-bbbb-cccc-000000000002" "running" "uuid-nginx" alice.

Definition vm_of_bob : Vm.t :=
  Vm.mk "33333333-aaaa-bbbb-cccc-000000000003" "running" "uuid-nginx" "bob".

Definition fleet_world (vms : list Vm.t) : World :=
  mkWorld [] [] [nginx_v2] [nginx_latest] [live "uuid-nginx"] [] vms
    (fun _ _ => []) [] [] [].

(** [busybox_v1] under two tags. *)
Definition busybox_v1_tag_1_0 : ImageTag.t :=
  ImageTag.mk alice "docker.io" "busybox" "1.0"
    "ef872312fe1bbc5e05aae626791a47ee9b032efa8f3bda39cc0be7b56bfe59b9".

Definition v1_two_tags_world : World :=
  mkWorld [busybox_v1; base_layer] [busybox_v1_tag; busybox_v1_tag_1_0] [] []
    [live "uuid-busybox"; live "uuid-base"] [] [vm_running]
    (fun _ _ => []) [] [] [].

(** Under the key [k] the v1 image bucket holds a record that more than
    one head image is built on. *)
Definition shared_record (k : string) (w : World) : Prop :=
  exists r : Image.t,
    In r (docker_images w) /\ key r = k /\ (1 < Image.refcount r)%Z.

(** Under the key [k] the v1 image bucket holds a record. *)
Definition stored_under (k : string) (w : World) : Prop :=
  exists r : Image.t, In r (docker_images w) /\ key r = k.

(** The records handed to the cascade carry the [refcount] of the
    records stored under their keys. *)
Definition refcounts_as_stored (imgs : list Img) (w : World) : Prop :=
  forall (i r : Image.t),
    In (V1 i) imgs -> In r (docker_images w) -> key r = key i ->
    Image.refcount r = Image.refcount i.

(** The buckets of the v1 schema, and those of the v2 schema, hold in
    [w'] what they hold in [w]. *)
Definition v1_untouched (w w' : World) : Prop :=
  docker_images w' = docker_images w
  /\ docker_image_tags w' = docker_image_tags w.

Definition v2_untouched (w w' : World) : Prop :=
  docker_images_v2 w' = docker_images_v2 w
  /\ docker_image_tags_v2 w' = docker_image_tags_v2 w.

(** All but the v2 tag records. *)
Definition images_untouched (w w' : World) : Prop :=
  v1_untouched w w' /\ docker_images_v2 w' = docker_images_v2 w.

(** What [_deleteImageV2] may hand to [deleteOneImg]: the image [i0] it
    was asked to delete, or a record of the bucket of [w] that is not a
    head image (or something that is not a v2 record at all, on which
    [deleteOneImg] stops). *)
Definition may_be_deleted (i0 : ImageV2.t) (w : World) (a : Img) : Prop :=
  a = V2 i0
  \/ (exists i, a = V2 i /\ In i (docker_images_v2 w)
                /\ ImageV2.head i = false)
  \/ (forall i, a <> V2 i).

(** What the stages of [_deleteImageV2] keep, [w] being the world at the
    start and [i0] the image to delete: the v1 buckets; the v2 image
    bucket but for deleted records; and, the keys of the v2 image bucket
    being all different, every head image other than [i0]. *)
Definition DeleteV2_invariant (i0 : ImageV2.t) (w : World)
  (ctx : DeleteV2.Ctx) (w1 : World) : Prop :=
  DeleteV2.img ctx = i0
  /\ v1_untouched w w1
  /\ incl (docker_images_v2 w1) (docker_images_v2 w)
  /\ (NoDup (map key (docker_images_v2 w)) ->
      forall r, In r (docker_images_v2 w) -> ImageV2.head r = true ->
                key r <> key i0 -> In r (docker_images_v2 w1))
  /\ Forall (may_be_deleted i0 w) (DeleteV2.imgsToDelete ctx).

(** [alice] has built [app_child] on [nginx_v2]: the parent of
    [app_child] is a head image too. *)
Definition app_child : ImageV2.t :=
  ImageV2.mk "sha256:appchild" true "uuid-of-sha256:layer-2"
    "sha256:manifest-of-appchild" "sha256:layer-2" alice
    nginx_digest 40 1500000005 [hist_item "ADD nginx"; hist_item "ADD app"]
    ["sha256:diff-2"] None.

Definition app_child_tag : ImageTagV2.t :=
  ImageTagV2.mk alice "appchild" "latest" "sha256:appchild".

Definition built_on_nginx_world : World :=
  mkWorld [] [] [app_child; nginx_v2] [app_child_tag; nginx_latest]
    [live "uuid-nginx"; live "uuid-of-sha256:layer-2"]
    [] [] (fun _ _ => []) [] [] [].

(** [app_child] and a change of its metadata only, [app_relabel], on
    the same layers: the two records carry one blob id. *)
Definition app_relabel : ImageV2.t :=
  ImageV2.mk "sha256:apprelabel" true "uuid-of-sha256:layer-2"
    "sha256:manifest-of-apprelabel" "sha256:layer-2" alice
    "sha256:appchild" 40 1500000006
    [hist_item "ADD nginx"; hist_item "ADD app"; hist_item "LABEL a=b"]
    ["sha256:diff-2"] None.

Definition relabel_world : World :=
  mkWorld [] [] [app_relabel; app_child] []
    [live "uuid-of-sha256:layer-2"] [] [] (fun _ _ => []) [] [] [].

Definition relabel_ctx : DeleteV2.Ctx :=
  DeleteV2.mkCtx app_relabel None [] [V2 app_relabel; V2 app_child] []
    [("uuid-of-sha256:layer-2", 2%Z)] false.

(** [alice] has [nginx_v2], a v2 image whose digest starts with [cafe],
    and a v2 tag [cafe:latest] on the latter. *)
Definition cafe_nginx_world : World :=
  mkWorld [] [] [cafe_v2; nginx_v2]
    [ImageTagV2.mk alice "cafe" "latest" (ImageV2.digest cafe_v2)]
    [live "uuid-cafe-v2"; live "uuid-nginx"] [] [] (fun _ _ => [])
    [] [] [].

(** A SmartOS image in IMGAPI, and helpers that know a UUID by its
    length. *)
Definition smartos_uuid : string := "fd2cc906-8938-11e3-beab-4359c665ac99".

Definition uuid_ext : Externals :=
  mkExternals (parseRepoAndTag sample_ext)
    (fun s => Nat.eqb (String.length s) 36)
    (shortIdFromDigest sample_ext) (imgUuidFromDockerDigests sample_ext)
    (vmUuidToShortDockerId sample_ext) (manifestLayerDigests sample_ext)
    (epochSeconds sample_ext).

(** Moray is down. *)
Definition smartos_world : World :=
  mkWorld [] [] [] []
    [ImgapiImage.mk smartos_uuid "smartos" "active"] [] []
    (fun _ _ => []) [Some moray_down; Some moray_down] [] [].

(* ------------------------------------------------------------------ *)
(** ** Vocabulary and sample data for the model objects *)

(** [s] has no comma. *)
Fixpoint no_comma (s : string) : bool :=
  match s with
  | EmptyString => true
  | String c r => negb (Ascii.eqb c ","%char) && no_comma r
  end.

(** The image JSON of a layer built on [sha256:parentbb], and the
    [opts] that come with it. *)
Definition bb_json : ImageJson.t :=
  ImageJson.mk (Some (ImageConfig.mk None)) "2017-07-14T02:40:00Z"
    [hist_item "ADD rootfs"; hist_item "CMD sh"] "linux"
    ["sha256:diff-p"; "sha256:diff-bb"] (Some "sha256:parentbb") None.

Definition bb_opts (owner_uuid : option string) : ModelOpts.t :=
  ModelOpts.mk "sha256:bb" None "uuid-bb" "manifest of bb" "sha256:mbb"
    owner_uuid 10.

Definition bb_object : ImageV2Params.t :=
  ImageV2Params.mk "sha256:bb" false bb_json "uuid-bb" "sha256:mbb"
    "manifest of bb" (Some "sha256:parentbb") (Some alice) 10 (Some 0%Z).

(* ------------------------------------------------------------------ *)
(** ** Vocabulary and sample data for pulls *)



Definition pull_opts (rat : Rat.t) : PullOpts.t :=
  PullOpts.mk rat "docker.io" ("docker.io/" ++ Rat.localName rat) "req-1".

(** The submission fails, and so does the wait for a job that was never
    created. *)
Definition wfapi_down : PullEnv :=
  mkPullEnv
    (inl (JobError.mk (Some "RemoteSourceError") "getaddrinfo ENOTFOUND"))
    (fun j => match j with
              | Some _ => None
              | None => Some (JobError.mk None "jobUuid (string) is required")
              end)
    (fun _ => None).









(** No [=] in the string. *)
Fixpoint no_equals (s : string) : bool :=
  match s with
  | EmptyString => true
  | String c r => negb (Ascii.eqb c "="%char) && no_equals r
  end.

(** The image carries the label [k] with the value [v]. *)
Definition has_label (labels : list (string * string)) (k v : string)
  : bool :=
  existsb (fun l => String.eqb (fst l) k && String.eqb (snd l) v) labels.

(** An environment for the examples: three texts of filters are known,
    and no record has labels. *)
Definition list_env : ListEnv :=
  mkListEnv
    (fun s =>
       if String.eqb s "{}" then FiltersOf []
       else if String.eqb s "dangling" then FiltersOf [("dangling", ["true"])]
       else if String.eqb s "before"
            then FiltersOf [("dangling", ["false"]); ("before", ["nginx"])]
       else FiltersSyntaxError)
    (fun v => match v with
              | Some s => String.eqb s "true" || String.eqb s "1"
              | None => false
              end)
    (fun _ => None)
    (fun _ => Some None)
    (fun _ => [SmartosImage.mk "d34c301e-10c3-11e4-9b79-5f67ca448df0"
                 None "2014-07-21T10:43:56Z" [42%Z]]).


Definition list_opts (filters : option string) : ListOpts.t :=
  ListOpts.mk alice false filters false false.


(** The row was made for something that belongs to the account: for one
    of the SmartOS images that IMGAPI lists for it, or for a record of
    the account in one of the two buckets of images, with the names of
    tag records of the account. *)
Definition row_of_account (ext : Externals) (env : ListEnv)
  (account_uuid : string) (w : World) (row : DockerImage.t) : Prop :=
  (exists img size,
      In img (smartos_images env account_uuid)
      /\ row = ListImagesAll.smartosRow ext img size)
  \/ (exists r ts,
         In r (docker_images_v2 w)
         /\ ImageV2.owner_uuid r = account_uuid
         /\ Forall (fun t => In t (docker_image_tags_v2 w)
                             /\ ImageTagV2.owner_uuid t = account_uuid) ts
         /\ row = ListImages._addImageV2 r
                    (map repoTag (map TagV2 ts))
                    (map (fun it => imgTag_repo it ++ "@" ++ imgTag_digest it)
                       (map TagV2 ts)))
  \/ (exists r ts,
         In r (docker_images w)
         /\ Image.owner_uuid r = account_uuid
         /\ Forall (fun t => In t (docker_image_tags w)
                             /\ ImageTag.owner_uuid t = account_uuid) ts
         /\ row = ListImages.pushImage r (map repoTag (map TagV1 ts))).

(** A function of [funcs] keeps a property of the world and a property
    of the rows. *)
Definition source_keeps (Pw : World -> Prop)
  (Pr : list DockerImage.t -> Prop) (f : ListImagesAll.Source) : Prop :=
  forall rows w out w',
    Pw w -> Pr rows -> f rows w = (out, w') ->
    Pw w'
    /\ forall err rows', out = ListImagesAll.SourceNext err rows' -> Pr rows'.

(** Records of two accounts, [alice] and [bob]. *)
Definition bob_nginx : ImageV2.t :=
  ImageV2.mk nginx_digest true "uuid-nginx" "sha256:manifest-of-nginx"
    "sha256:layer-1" "bob" "" 1000 1500000000 [] ["sha256:diff-1"] None.

Definition two_accounts_world : World :=
  mkWorld [] [] [nginx_v2; bob_nginx]
    [nginx_latest; ImageTagV2.mk "bob" "nginx" "mine" nginx_digest]
    [live "uuid-nginx"] [] [] (fun _ _ => []) [] [] [].

(** Between [w0] and [w1] nothing was written: the four buckets and the
    images of IMGAPI are the same. *)
Definition nothing_written (w0 w1 : World) : Prop :=
  same_records w0 w1 /\ imgapi_images w1 = imgapi_images w0.

(** What the stages of [_deleteImageV2] keep, [w0] being the world at the
    start: as long as [changes] is empty, nothing was written. *)
Definition DeleteV2_log_invariant (w0 : World) (ctx : DeleteV2.Ctx)
  (w1 : World) : Prop :=
  DeleteV2.changes ctx = [] -> nothing_written w0 w1.

(** No two records of the v2 image bucket are stored under one key. *)
Definition keys_unique (w : World) : Prop :=
  NoDup (map key (docker_images_v2 w)).

(** A v1 chain of three records. *)
Definition v1_grandparent : Image.t :=
  Image.mk alice "docker.io" "1111" false ["ef87"] "" 1 "uuid-1111" 0
    1300000000 None.

Definition v1_chain_world (faults : list (option Error)) : World :=
  mkWorld
    [busybox_v1;
     Image.mk alice "docker.io"
       "511136ea3c5a64f264b78b5433614aec563103b4d4702f3ba7d4d2698e22c158"
       false [] "1111" 1 "uuid-base" 0 1400000000 None;
     v1_grandparent]
    [busybox_v1_tag] [] [] [] [] [] (fun _ _ => []) faults [] [].

(** A parser for the examples that reads [repo@digest]: every name is
    taken to be [nginx@sha256:manifest-of-nginx]. *)
Definition by_digest_ext : Externals :=
  mkExternals
    (fun _ => inl (Rat.mk "nginx" "" (Some "sha256:manifest-of-nginx")))
    (isUUID sample_ext) (shortIdFromDigest sample_ext)
    (imgUuidFromDockerDigests sample_ext) (vmUuidToShortDockerId sample_ext)
    (manifestLayerDigests sample_ext) (epochSeconds sample_ext).
(* ------------------------------------------------------------------ *)
(** ** Properties *)

(** *** Calls that meet no fault *)

Lemma moray_call_quiet (w : World) :
  moray_faults w = [] -> moray_call w = (None, w).
Proof. unfold moray_call. intros ->. reflexivity. Qed.

Lemma imgapi_call_quiet (w : World) :
  imgapi_faults w = [] -> imgapi_call w = (None, w).
Proof. unfold imgapi_call. intros ->. reflexivity. Qed.

(** *** Objects of a bucket *)

Lemma in_delObj {R : Type} `{MorayModel R} (k : string) (bucket : list R)
  (r : R) :
  In r (delObj k bucket) <-> In r bucket /\ key r <> k.
Proof.
  unfold delObj. rewrite filter_In. split; intros [Hin Hk]; split; auto.
  - intros E. rewrite E, String.eqb_refl in Hk. discriminate.
  - destruct (String.eqb_spec (key r) k); [contradiction | reflexivity].
Qed.

(** *** C2 *)

(** C2. A v1 image whose [head] flag is false is never deleted:
    [_deleteImageV1] stops at [ensureIsHeadImage] with the "Conflict ...
    intermediate layer being referenced by <heads>" error, whatever
    [force] is, with an empty changeLog and the world it was given; hence
    [deleteImage], once the name has resolved to such a record, fails
    with that error and leaves the world as resolution left it. *)
Theorem C2_non_head_v1_is_rejected
  (ext : Externals) (fuel : nat) (opts : Opts.t) (i : Image.t)
  (Hhead : Image.head i = false) :
  (forall (t : option ImgTag) (w : World),
      DeleteV1._deleteImageV1 ext fuel opts i t w
      = (Called (Some (DeleteV1.intermediateLayer i)) [], w))
  /\ (forall (t : option ImgTag) (w w1 : World),
         imgFromName ext opts w = (Called None (Some (V1 i), t), w1) ->
         deleteImage ext fuel opts w
         = (Called (Some (DeleteV1.intermediateLayer i)) (Some []), w1)).
Proof.
  assert (Hv1 : forall t w, DeleteV1._deleteImageV1 ext fuel opts i t w
                = (Called (Some (DeleteV1.intermediateLayer i)) [], w)).
  { intros t w. unfold DeleteV1._deleteImageV1. cbn [pipeline].
    unfold DeleteV1.ensureIsHeadImage. cbn [DeleteV1.img].
    rewrite Hhead. reflexivity. }
  split; [exact Hv1 |].
  intros t w w1 Hres. unfold deleteImage. rewrite Hres, Hv1. reflexivity.
Qed.

Lemma C2_witness :
  deleteImage sample_ext 10
    (opts_for "511136ea3c5a" true) v1_world
  = (Called (Some (DockerError None
       "Conflict, 511136ea3c5a wasn't deleted because it is an intermediate layer being referenced by ef872312fe1b, 7fa0dcdc88de"))
       (Some []), v1_world)
  /\ deleteImage sample_ext 10
       (opts_for "511136ea3c5a" false) v1_world
     = (Called (Some (DeleteV1.intermediateLayer base_layer)) (Some []),
        v1_world).
Proof.
  split.
  - apply (proj2 (C2_non_head_v1_is_rejected sample_ext 10
                    (opts_for "511136ea3c5a" true) base_layer eq_refl) None).
    vm_compute. reflexivity.
  - apply (proj2 (C2_non_head_v1_is_rejected sample_ext 10
                    (opts_for "511136ea3c5a" false) base_layer eq_refl) None).
    vm_compute. reflexivity.
Defined.

(** *** C10 *)

Lemma tagImage_cases (ext : Externals) (opts : TagOpts.t) (w : World) :
  (exists r, tagImage ext opts w = (r, w))
  \/ (exists rat digest,
         (truthy (TagOpts.digest opts) = true
          \/ exists i2, TagOpts.img opts = Some (V2 i2))
         /\ tagImage ext opts w
            = match ImageTagV2_create
                      (ImageTagV2.mk (TagOpts.account_uuid opts)
                         (Rat.localName rat) (Rat.tag rat) digest) w with
              | (Failed err, w') => (Called (Some err) None, w')
              | (Got imgTag, w') => (Called None (Some imgTag), w')
              end).
Proof.
  unfold tagImage.
  destruct (match TagOpts.rat opts with
            | Some rat => inl rat
            | None => parseRepoAndTag ext (TagOpts.name opts)
            end) as [rat | msg].
  - destruct (truthy (TagOpts.digest opts)) eqn:Hd.
    + right. eexists rat, _. split; [left; reflexivity | reflexivity].
    + destruct (TagOpts.img opts) as [[i | i | u o] |] eqn:Himg.
      * left. eexists. reflexivity.
      * right. eexists rat, _. split; [right; eexists; reflexivity |].
        reflexivity.
      * left. eexists. reflexivity.
      * left. eexists. reflexivity.
  - left. eexists. reflexivity.
Qed.

Lemma ImageTagV2_create_v1_tags (t : ImageTagV2.t) (w : World) :
  docker_image_tags (snd (ImageTagV2_create t w)) = docker_image_tags w.
Proof.
  unfold ImageTagV2_create, moray_call.
  destruct (moray_faults w) as [| [e |] r]; reflexivity.
Qed.

(** C10. [tagImage] on an image classified as v1 (no [manifest_str]),
    when no [digest] is supplied, calls back with an error and leaves
    the world as it is; whatever the arguments, [tagImage] never touches
    the v1 tag bucket, and it changes the v2 tag bucket only when a
    digest was supplied or the image is a v2 image. *)
Theorem C10_tagImage_rejects_v1
  (ext : Externals) (opts : TagOpts.t) (w : World) :
  (forall i : Img,
      truthy (TagOpts.digest opts) = false ->
      TagOpts.img opts = Some i ->
      isV1Image i = true ->
      exists e : Error, tagImage ext opts w = (Called (Some e) None, w))
  /\ docker_image_tags (snd (tagImage ext opts w)) = docker_image_tags w
  /\ (docker_image_tags_v2 (snd (tagImage ext opts w))
      <> docker_image_tags_v2 w ->
      truthy (TagOpts.digest opts) = true
      \/ exists i2 : ImageV2.t, TagOpts.img opts = Some (V2 i2)).
Proof.
  split; [| split].
  - intros i Hd Himg Hv1. unfold tagImage. rewrite Hd, Himg.
    destruct (match TagOpts.rat opts with
              | Some rat => inl rat
              | None => parseRepoAndTag ext (TagOpts.name opts)
              end) as [rat | msg].
    + destruct i as [i | i | u o]; try discriminate Hv1;
        eexists; reflexivity.
    + eexists; reflexivity.
  - destruct (tagImage_cases ext opts w) as [[r E] | (rat & d & _ & E)].
    + rewrite E. reflexivity.
    + rewrite E.
      pose proof (ImageTagV2_create_v1_tags
                    (ImageTagV2.mk (TagOpts.account_uuid opts)
                       (Rat.localName rat) (Rat.tag rat) d) w) as Hc.
      destruct (ImageTagV2_create _ w) as [[e | t] w']; exact Hc.
  - intros Hch.
    destruct (tagImage_cases ext opts w) as [[r E] | (rat & d & Hwhy & _)].
    + rewrite E in Hch. contradiction Hch. reflexivity.
    + exact Hwhy.
Qed.

Lemma C10_witness :
  (exists e : Error,
      tagImage sample_ext (tag_opts "mybusybox" None (Some (V1 busybox_v1)))
        v1_world = (Called (Some e) None, v1_world))
  /\ docker_image_tags
       (snd (tagImage sample_ext
               (tag_opts "mybusybox" (Some "sha256:0123") (Some (V1 busybox_v1)))
               v1_world))
     = [busybox_v1_tag]
  /\ (truthy (Some "sha256:0123") = true
      \/ exists i2 : ImageV2.t, Some (V1 busybox_v1) = Some (V2 i2)).
Proof.
  split; [| split].
  - apply (proj1 (C10_tagImage_rejects_v1 sample_ext
                    (tag_opts "mybusybox" None (Some (V1 busybox_v1)))
                    v1_world) (V1 busybox_v1)); reflexivity.
  - apply (proj1 (proj2 (C10_tagImage_rejects_v1 sample_ext
                    (tag_opts "mybusybox" (Some "sha256:0123")
                       (Some (V1 busybox_v1))) v1_world))).
  - apply (proj2 (proj2 (C10_tagImage_rejects_v1 sample_ext
                    (tag_opts "mybusybox" (Some "sha256:0123")
                       (Some (V1 busybox_v1))) v1_world))).
    vm_compute. discriminate.
Defined.

(** *** C1 *)

Lemma delObj_absent {R : Type} `{MorayModel R} (k : string) (bucket : list R) :
  ~ In k (map key bucket) -> delObj k bucket = bucket.
Proof.
  induction bucket as [| a r IH]; intros Hk; [reflexivity |].
  cbn [delObj List.filter]. cbn [map In] in Hk.
  destruct (String.eqb_spec (key a) k) as [E | E]; [tauto |].
  cbn [negb]. f_equal. apply IH. tauto.
Qed.

(** In a bucket whose keys are all different, deleting the key of a
    stored object removes exactly one object. *)
Lemma delObj_removes_one {R : Type} `{MorayModel R} (bucket : list R) (t : R) :
  NoDup (map key bucket) -> In t bucket ->
  List.length bucket = S (List.length (delObj (key t) bucket)).
Proof.
  induction bucket as [| a r IH]; intros Hnd Hin; [contradiction |].
  cbn [map] in Hnd. inversion Hnd as [| ? ? Ha Hr]; subst.
  cbn [delObj List.filter].
  destruct (String.eqb_spec (key a) (key t)) as [E | E]; cbn [negb].
  - fold (delObj (key t) r). rewrite delObj_absent; [reflexivity |].
    rewrite <- E. exact Ha.
  - fold (delObj (key t) r). cbn [List.length]. f_equal.
    apply IH; [exact Hr |].
    destruct Hin as [-> | Hin]; [contradiction E; reflexivity | exact Hin].
Qed.

Lemma DeleteV2_getImgTags_quiet (opts : Opts.t) (ctx : DeleteV2.Ctx)
  (w : World) :
  moray_faults w = [] ->
  DeleteV2.getImgTags opts ctx w
  = (Calls [None],
     DeleteV2.set_imgTags
       (map TagV2
          (listObjs (docker_image_tags_v2 w)
             [("owner_uuid", Opts.account_uuid opts);
              ("digest", ImageV2.digest (DeleteV2.img ctx))])) ctx, w).
Proof.
  intros Hq. unfold DeleteV2.getImgTags, tagsForImage, ImageTagV2_list.
  rewrite (moray_call_quiet w Hq). reflexivity.
Qed.

(** C1. A v2 image with more than one tag, [force] being false: when the
    name resolved through a tag record, [deleteImage] deletes the tag
    record stored under the key of that record and nothing else (the
    image bucket is as it was, every tag record under another key is
    still there) and calls back with the changeLog [[Untagged repo:tag]];
    when the name resolved without a tag record (digest, digest prefix),
    it calls back with the "conflict: unable to delete ... (must be
    forced)" error, an empty changeLog, and the world as it was.  The
    keys of the bucket being all different, exactly one tag record is
    deleted in the first case. *)
Theorem C1_v2_untag_by_tag_conflict_by_digest
  (ext : Externals) (fuel : nat) (opts : Opts.t) (i : ImageV2.t)
  (w w1 : World)
  (Hforce : Opts.force opts = false)
  (Hquiet : moray_faults w1 = [])
  (Htags : 1 < List.length
                 (listObjs (docker_image_tags_v2 w1)
                    [("owner_uuid", Opts.account_uuid opts);
                     ("digest", ImageV2.digest i)])) :
  (forall t : ImageTagV2.t,
      imgFromName ext opts w
      = (Called None (Some (V2 i), Some (TagV2 t)), w1) ->
      let w2 := set_docker_image_tags_v2
                  (delObj (key t) (docker_image_tags_v2 w1)) w1 in
      deleteImage ext fuel opts w
      = (Called None
           (Some [Untagged (ImageTagV2.repo t ++ ":" ++ ImageTagV2.tag t)]),
         w2)
      /\ docker_images_v2 w2 = docker_images_v2 w1
      /\ (forall t' : ImageTagV2.t,
             In t' (docker_image_tags_v2 w2)
             <-> In t' (docker_image_tags_v2 w1) /\ key t' <> key t)
      /\ (NoDup (map key (docker_image_tags_v2 w1)) ->
          In t (docker_image_tags_v2 w1) ->
          List.length (docker_image_tags_v2 w1)
          = S (List.length (docker_image_tags_v2 w2))))
  /\ (imgFromName ext opts w = (Called None (Some (V2 i), None), w1) ->
      deleteImage ext fuel opts w
      = (Called (Some (DeleteV2.conflict
                         (shortIdFromDigest ext (ImageV2.digest i))))
                (Some []), w1)).
Proof.
  apply Nat.ltb_lt in Htags.
  split.
  - intros t Hres w2. split; [| split; [| split]].
    + unfold deleteImage. rewrite Hres.
      unfold DeleteV2._deleteImageV2. cbn [pipeline].
      rewrite (DeleteV2_getImgTags_quiet _ _ _ Hquiet).
      unfold DeleteV2.checkTagReferences, DeleteV2.checkJustUntagImage.
      cbn [DeleteV2.img DeleteV2.imgTag DeleteV2.imgTags DeleteV2.set_imgTags].
      rewrite length_map, Htags.
      unfold ImageTagV2_del_obj, ImageTagV2_del.
      rewrite (moray_call_quiet w1 Hquiet). reflexivity.
    + reflexivity.
    + intros t'. subst w2. cbn [docker_image_tags_v2 set_docker_image_tags_v2].
      apply in_delObj.
    + intros Hnd Hin. subst w2.
      cbn [docker_image_tags_v2 set_docker_image_tags_v2].
      apply delObj_removes_one; assumption.
  - intros Hres. unfold deleteImage. rewrite Hres.
    unfold DeleteV2._deleteImageV2. cbn [pipeline].
    rewrite (DeleteV2_getImgTags_quiet _ _ _ Hquiet).
    unfold DeleteV2.checkTagReferences.
    cbn [DeleteV2.img DeleteV2.imgTag DeleteV2.imgTags DeleteV2.set_imgTags].
    rewrite length_map, Htags, Hforce. reflexivity.
Qed.

Lemma C1_witness :
  deleteImage sample_ext 10 (opts_for "nginx:latest" false) v2_world
  = (Called None (Some [Untagged "nginx:latest"]),
     mkWorld [] [] [nginx_v2] [nginx_stable]
       [live "uuid-nginx"] [] [] (fun _ _ => []) [] [] [])
  /\ List.length (docker_image_tags_v2 v2_world)
     = S (List.length
            (delObj (key nginx_latest) (docker_image_tags_v2 v2_world)))
  /\ deleteImage sample_ext 10 (opts_for nginx_digest false) v2_world
     = (Called (Some (DockerError None
          "conflict: unable to delete aaaaaaaaaaaa (must be forced) - image is referenced in one or more repositories"))
          (Some []), v2_world).
Proof.
  assert (Htags : 1 < List.length
                        (listObjs (docker_image_tags_v2 v2_world)
                           [("owner_uuid", alice);
                            ("digest", ImageV2.digest nginx_v2)])).
  { vm_compute. lia. }
  assert (Hres : imgFromName sample_ext (opts_for "nginx:latest" false)
                   v2_world
                 = (Called None (Some (V2 nginx_v2), Some (TagV2 nginx_latest)),
                    v2_world)).
  { vm_compute. reflexivity. }
  split; [| split].
  - apply (proj1 (C1_v2_untag_by_tag_conflict_by_digest sample_ext 10
                    (opts_for "nginx:latest" false) nginx_v2
                    v2_world v2_world eq_refl eq_refl Htags) nginx_latest
             Hres).
  - refine (proj2 (proj2 (proj2
              (proj1 (C1_v2_untag_by_tag_conflict_by_digest sample_ext 10
                        (opts_for "nginx:latest" false) nginx_v2
                        v2_world v2_world eq_refl eq_refl Htags)
                 nginx_latest Hres))) _ _).
    + vm_compute. repeat constructor; cbn; intuition discriminate.
    + left. reflexivity.
  - apply (proj2 (C1_v2_untag_by_tag_conflict_by_digest sample_ext 10
                    (opts_for nginx_digest false) nginx_v2
                    v2_world v2_world eq_refl eq_refl Htags)).
    vm_compute. reflexivity.
Defined.

(** *** C6 *)

Lemma last_cons {A : Type} (rest : list A) (d p : A) :
  last (p :: rest) d = last rest p.
Proof.
  revert d p. induction rest as [| q rest IH]; intros d p; [reflexivity |].
  change (last (p :: q :: rest) d) with (last (q :: rest) d).
  rewrite (IH d q), (IH p q). reflexivity.
Qed.

Lemma addAndGetNextItem_lineage (account_uuid : string)
  (w w' : World) (img : Img) (rest : list Img) :
  Lineage account_uuid w img rest w' ->
  forall (fuel : nat) (acc : list Img) (err : option Error) (w'' : World),
    List.length rest < fuel ->
    img_parent (last rest img) <> "" ->
    lookupParent account_uuid (last rest img) w' = (Called err None, w'') ->
    addAndGetNextItem fuel account_uuid acc img w
    = (checkAndCallback (acc ++ img :: rest) err, w'').
Proof.
  induction 1 as [w img | w w1 w2 img p rest Hpar Hlook Hlin IH];
    intros fuel acc err w'' Hfuel Hlast Hfail.
  - destruct fuel as [| fuel]; [inversion Hfuel |].
    cbn [last] in Hlast, Hfail. cbn [addAndGetNextItem].
    apply String.eqb_neq in Hlast. rewrite Hlast, Hfail.
    destruct err; reflexivity.
  - destruct fuel as [| fuel]; [inversion Hfuel |].
    cbn [List.length] in Hfuel. apply PeanoNat.lt_S_n in Hfuel.
    rewrite last_cons in Hlast, Hfail.
    cbn [addAndGetNextItem].
    apply String.eqb_neq in Hpar. rewrite Hpar, Hlook.
    rewrite (IH fuel (acc ++ [img])%list err w'' Hfuel Hlast Hfail).
    rewrite <- app_assoc. reflexivity.
Qed.

(** C6. The walk starts at [img]; the look-ups of the parents succeed
    and yield the records [rest] (so the chain has [k - 1] records so
    far, [k > 1]); the look-up of the next parent, the [k]-th record,
    fails with [err].  With enough fuel, [getImageAncestry] then calls
    back without error with those [k - 1] records and
    [isPartialAncestry = true] when the [restCode] of [err] is
    [ResourceNotFound], and calls back with [err] itself otherwise. *)
Theorem C6_ancestry_partial_on_not_found
  (account_uuid : string) (fuel : nat) (img : Img) (rest : list Img)
  (w w' w'' : World) (err : Error)
  (Hwalk : Lineage account_uuid w img rest w')
  (Hfuel : List.length rest < fuel)
  (Hparent : img_parent (last rest img) <> "")
  (Hfail : lookupParent account_uuid (last rest img) w'
           = (Called (Some err) None, w'')) :
  (restCode err = "ResourceNotFound" ->
   getImageAncestry fuel account_uuid img w
   = (Called None (img :: rest, true), w''))
  /\ (restCode err <> "ResourceNotFound" ->
      getImageAncestry fuel account_uuid img w
      = (Called (Some err) ([], false), w'')).
Proof.
  unfold getImageAncestry.
  rewrite (addAndGetNextItem_lineage account_uuid w w' img rest Hwalk
             fuel [] (Some err) w'' Hfuel Hparent Hfail).
  cbn [app checkAndCallback List.length Nat.leb].
  split; intros H.
  - rewrite H. reflexivity.
  - apply String.eqb_neq in H. rewrite H. reflexivity.
Qed.

Lemma C6_witness :
  getImageAncestry 5 alice (V2 (layer 1 (layer_digest 2))) broken_chain_world
  = (Called None
       ([V2 (layer 1 (layer_digest 2)); V2 (layer 2 (layer_digest 3))], true),
     broken_chain_world)
  /\ getImageAncestry 5 alice (V2 (layer 1 (layer_digest 2)))
       (faulty_chain_world [None; Some moray_down])
     = (Called (Some moray_down) ([], false), faulty_chain_world []).
Proof.
  split.
  - refine (proj1 (C6_ancestry_partial_on_not_found alice 5
                     (V2 (layer 1 (layer_digest 2)))
                     [V2 (layer 2 (layer_digest 3))]
                     broken_chain_world broken_chain_world broken_chain_world
                     (ResourceNotFoundError "No such image: sha256:layer3")
                     _ _ _ _) eq_refl).
    + eapply Lineage_step; [| | apply Lineage_end].
      * vm_compute. discriminate.
      * vm_compute. reflexivity.
    + vm_compute. lia.
    + vm_compute. discriminate.
    + vm_compute. reflexivity.
  - refine (proj2 (C6_ancestry_partial_on_not_found alice 5
                     (V2 (layer 1 (layer_digest 2)))
                     [V2 (layer 2 (layer_digest 3))]
                     (faulty_chain_world [None; Some moray_down])
                     (faulty_chain_world [Some moray_down])
                     (faulty_chain_world [])
                     moray_down _ _ _ _) _).
    + eapply Lineage_step; [| | apply Lineage_end].
      * vm_compute. discriminate.
      * vm_compute. reflexivity.
    + vm_compute. lia.
    + vm_compute. discriminate.
    + vm_compute. reflexivity.
    + vm_compute. discriminate.
Defined.

(** *** C7 *)

Lemma single_docker_id_false (imgs : list Image.t) (a b : Image.t) :
  In a imgs -> In b imgs -> Image.docker_id a <> Image.docker_id b ->
  ResolveV1.single_docker_id imgs = false.
Proof.
  intros Ha Hb Hab. destruct imgs as [| i r]; [reflexivity |].
  cbn [ResolveV1.single_docker_id].
  destruct (forallb _ r) eqn:Hall; [| reflexivity].
  exfalso. rewrite forallb_forall in Hall.
  assert (Hi : forall x, In x (i :: r) ->
                         Image.docker_id x = Image.docker_id i).
  { intros x [<- | Hx]; [reflexivity |].
    apply String.eqb_eq. apply Hall. exact Hx. }
  apply Hab. rewrite (Hi a Ha), (Hi b Hb). reflexivity.
Qed.

Lemma single_docker_id_true (imgs : list Image.t) :
  imgs <> [] ->
  (forall a b, In a imgs -> In b imgs ->
               Image.docker_id a = Image.docker_id b) ->
  ResolveV1.single_docker_id imgs = true.
Proof.
  intros Hne Hsame. destruct imgs as [| i r]; [contradiction |].
  cbn [ResolveV1.single_docker_id]. apply forallb_forall. intros x Hx.
  apply String.eqb_eq. apply Hsame; [right; exact Hx | left; reflexivity].
Qed.

Lemma ResolveV1_findByName_none (opts : Opts.t) (rat : Rat.t)
  (l : ResolveV1.Vars) (w : World) :
  moray_faults w = [] ->
  listObjs (docker_image_tags w)
    (scoped_to_index (Opts.index_name opts)
       [("repo", Rat.localName rat); ("owner_uuid", Opts.account_uuid opts);
        ("tag", Rat.tag rat)]) = [] ->
  ResolveV1.findByName opts (Rat.localName rat) (Rat.tag rat) l w
  = (Calls [None], l, w).
Proof.
  intros Hq Hnone. unfold ResolveV1.findByName, ImageTag_list.
  rewrite (moray_call_quiet w Hq), Hnone. reflexivity.
Qed.

Lemma ResolveV2_findByName_none (opts : Opts.t) (rat : Rat.t)
  (l : ResolveV2.Vars) (w : World) :
  moray_faults w = [] ->
  listObjs (docker_image_tags_v2 w)
    [("repo", Rat.localName rat); ("owner_uuid", Opts.account_uuid opts);
     ("tag", Rat.tag rat)] = [] ->
  ResolveV2.findByName (Opts.account_uuid opts) (Rat.localName rat)
    (Rat.tag rat) l w
  = (Calls [None], l, w).
Proof.
  intros Hq Hnone. unfold ResolveV2.findByName, ImageTagV2_list.
  rewrite (moray_call_quiet w Hq), Hnone. reflexivity.
Qed.

(** What the two resolvers do with two or more matches of an ID
    prefix. *)
Lemma resolvers_on_ambiguous_prefix
  (opts : Opts.t) (rat : Rat.t) (w : World) (flt : Filter)
  (Hquiet : moray_faults w = []) :
  (listObjs (docker_image_tags w)
     (scoped_to_index (Opts.index_name opts)
        [("repo", Rat.localName rat); ("owner_uuid", Opts.account_uuid opts);
         ("tag", Rat.tag rat)]) = [] ->
   ResolveV1.findImage_filter opts (Rat.localName rat) None = Some flt ->
   2 <= List.length (listObjs (docker_images w) flt) ->
   ((exists a b : Image.t,
        In a (listObjs (docker_images w) flt)
        /\ In b (listObjs (docker_images w) flt)
        /\ Image.docker_id a <> Image.docker_id b) ->
    ResolveV1._imgFromNameV1 opts rat w = (Called None (None, None), w))
   /\ ((forall a b : Image.t,
           In a (listObjs (docker_images w) flt) ->
           In b (listObjs (docker_images w) flt) ->
           Image.docker_id a = Image.docker_id b) ->
       ResolveV1._imgFromNameV1 opts rat w
       = (Called (Some (AmbiguousDockerImageIdError (Rat.localName rat)
                          (map Image.index_name
                             (listObjs (docker_images w) flt))))
                 (None, None), w)))
  /\ (listObjs (docker_image_tags_v2 w)
        [("repo", Rat.localName rat); ("owner_uuid", Opts.account_uuid opts);
         ("tag", Rat.tag rat)] = [] ->
      ResolveV2.findImage_filter (Opts.account_uuid opts) (Rat.localName rat)
        None = Some flt ->
      2 <= List.length (listObjs (docker_images_v2 w) flt) ->
      ResolveV2._imgFromNameV2 opts rat w = (Called None (None, None), w)).
Proof.
  split.
  - intros Hnotag Hflt Hlen.
    assert (Hstart :
      forall out,
        ResolveV1.findImage opts (Rat.localName rat)
          (mkFound None None false) w = (out, mkFound None None false, w) ->
        ResolveV1._imgFromNameV1 opts rat w
        = resolved V1 TagV1
            (match out with
             | Calls [None] =>
                 pipeline [ResolveV1.isImageInImgapi; ResolveV1.delImgRef;
                           ResolveV1.delImgTagRef]
                   (mkFound None None false) w
             | Calls [Some err] =>
                 (Called (Some err) tt, mkFound None None false, w)
             | Calls [] =>
                 (Crashed CallbackNeverInvoked, mkFound None None false, w)
             | Calls (_ :: _ :: _) =>
                 (Crashed CallbackInvokedTwice, mkFound None None false, w)
             | Throw c => (Crashed c, mkFound None None false, w)
             end)).
    { intros out Hout. unfold ResolveV1._imgFromNameV1.
      cbn [pipeline]. rewrite (ResolveV1_findByName_none _ _ _ _ Hquiet Hnotag).
      rewrite Hout. destruct out as [[| [e |] [| ? ?]] | c]; reflexivity. }
    assert (Hfind :
      ResolveV1.findImage opts (Rat.localName rat)
        (mkFound None None false) w
      = (if ResolveV1.single_docker_id (listObjs (docker_images w) flt)
         then Calls [Some (AmbiguousDockerImageIdError (Rat.localName rat)
                             (map Image.index_name
                                (listObjs (docker_images w) flt)))]
         else Calls [None], mkFound None None false, w)).
    { unfold ResolveV1.findImage. cbn [imgTag]. rewrite Hflt.
      unfold Image_list. rewrite (moray_call_quiet w Hquiet).
      destruct (listObjs (docker_images w) flt) as [| a [| b r]];
        cbn [List.length] in Hlen; try lia.
      destruct (ResolveV1.single_docker_id (a :: b :: r)); reflexivity. }
    split.
    + intros (a & b & Ha & Hb & Hab).
      rewrite (single_docker_id_false _ a b Ha Hb Hab) in Hfind.
      rewrite (Hstart _ Hfind). reflexivity.
    + intros Hsame.
      rewrite single_docker_id_true in Hfind.
      * rewrite (Hstart _ Hfind). reflexivity.
      * intros E. rewrite E in Hlen. cbn in Hlen. lia.
      * exact Hsame.
  - intros Hnotag Hflt Hlen.
    unfold ResolveV2._imgFromNameV2. cbn [pipeline].
    rewrite (ResolveV2_findByName_none _ _ _ _ Hquiet Hnotag).
    unfold ResolveV2.findImage. cbn [imgTag]. rewrite Hflt.
    unfold ImageV2_list. rewrite (moray_call_quiet w Hquiet).
    destruct (listObjs (docker_images_v2 w) flt) as [| a [| b r]];
      cbn [List.length] in Hlen; try lia.
    reflexivity.
Qed.

Lemma ResolveV1_nothing (opts : Opts.t) (rat : Rat.t) (w : World) :
  moray_faults w = [] ->
  listObjs (docker_image_tags w)
    (scoped_to_index (Opts.index_name opts)
       [("repo", Rat.localName rat); ("owner_uuid", Opts.account_uuid opts);
        ("tag", Rat.tag rat)]) = [] ->
  (forall flt,
      ResolveV1.findImage_filter opts (Rat.localName rat) None = Some flt ->
      listObjs (docker_images w) flt = []) ->
  ResolveV1._imgFromNameV1 opts rat w = (Called None (None, None), w).
Proof.
  intros Hq Htag Himg.
  unfold ResolveV1._imgFromNameV1. cbn [pipeline].
  rewrite (ResolveV1_findByName_none _ _ _ _ Hq Htag).
  unfold ResolveV1.findImage. cbn [imgTag img imgIsGone].
  destruct (ResolveV1.findImage_filter opts (Rat.localName rat) None)
    as [flt |] eqn:Hflt.
  - unfold Image_list. rewrite (moray_call_quiet w Hq), (Himg flt eq_refl).
    reflexivity.
  - reflexivity.
Qed.


Lemma imgFromName_by_name (ext : Externals) (opts : Opts.t) (rat : Rat.t)
  (w : World) :
  resolved_by_name ext opts rat ->
  imgFromName ext opts w
  = ImgFromName.finish
      (pipeline [ImgFromName.findByNameV2 opts rat;
                 ImgFromName.findByNameV1 opts rat] (None, None) w).
Proof.
  intros (Hparse & Hsmart & Hdig & Hname).
  unfold imgFromName. rewrite Hparse.
  cbn [pipeline].
  unfold ImgFromName.findUuidInImgapi at 1. rewrite Hsmart.
  unfold ImgFromName.findByManifestDigest at 1.
  unfold ImgFromName.findByImageDigest at 1. rewrite Hname.
  destruct (Rat.digest rat) as [[| c r] |]; try discriminate Hdig;
    reflexivity.
Qed.

Lemma imgFromName_v2_found (ext : Externals) (opts : Opts.t) (rat : Rat.t)
  (w w1 : World) (i : Img) (t : option ImgTag) :
  resolved_by_name ext opts rat ->
  ResolveV2._imgFromNameV2 opts rat w = (Called None (Some i, t), w1) ->
  imgFromName ext opts w = (Called None (Some i, t), w1).
Proof.
  intros Hname Hv2. rewrite (imgFromName_by_name _ _ _ _ Hname).
  cbn [pipeline]. unfold ImgFromName.findByNameV2 at 1. rewrite Hv2.
  reflexivity.
Qed.

Lemma imgFromName_v1_after_v2 (ext : Externals) (opts : Opts.t) (rat : Rat.t)
  (w w1 w2 : World) (t0 : option ImgTag) (v : option Img * option ImgTag) :
  resolved_by_name ext opts rat ->
  ResolveV2._imgFromNameV2 opts rat w = (Called None (None, t0), w1) ->
  ResolveV1._imgFromNameV1 opts rat w1 = (Called None v, w2) ->
  imgFromName ext opts w = (Called None v, w2).
Proof.
  intros Hname Hv2 Hv1. rewrite (imgFromName_by_name _ _ _ _ Hname).
  cbn [pipeline]. unfold ImgFromName.findByNameV2 at 1. rewrite Hv2.
  unfold ImgFromName.findByNameV1 at 1. rewrite Hv1.
  destruct v as [vi vt]. reflexivity.
Qed.

Lemma imgFromName_v1_error_after_v2 (ext : Externals) (opts : Opts.t)
  (rat : Rat.t) (w w1 w2 : World) (t0 : option ImgTag) (e : Error)
  (v : option Img * option ImgTag) :
  resolved_by_name ext opts rat ->
  ResolveV2._imgFromNameV2 opts rat w = (Called None (None, t0), w1) ->
  ResolveV1._imgFromNameV1 opts rat w1 = (Called (Some e) v, w2) ->
  is_abort e = false ->
  imgFromName ext opts w = (Called (Some e) (None, None), w2).
Proof.
  intros Hname Hv2 Hv1 He. rewrite (imgFromName_by_name _ _ _ _ Hname).
  cbn [pipeline]. unfold ImgFromName.findByNameV2 at 1. rewrite Hv2.
  unfold ImgFromName.findByNameV1 at 1. rewrite Hv1.
  destruct v as [vi vt]. destruct e; try discriminate He; reflexivity.
Qed.

(** C7. Moray answers and the name matches no tag record, so that the
    resolvers search by ID (prefix) with the filter [flt] of
    [findImage].  (a) v1, two or more records among which two docker_ids
    differ: [_imgFromNameV1] calls back with no record and no error.
    (b) v1, two or more records that all carry the same docker_id (one
    per index host): [AmbiguousDockerImageIdError] naming the index
    hosts.  (c) v2, two or more records match the digest prefix:
    [_imgFromNameV2] calls back with no record and no error.  The world
    is left as it was.  For a name that goes to the by-name resolvers,
    [imgFromName] hands on these answers when the resolver of the other
    schema finds nothing for the name. *)
Theorem C7_ambiguous_prefix_policy
  (ext : Externals) (opts : Opts.t) (rat : Rat.t) (w : World) (flt : Filter)
  (Hquiet : moray_faults w = []) :
  let no_v1_tag :=
    listObjs (docker_image_tags w)
      (scoped_to_index (Opts.index_name opts)
         [("repo", Rat.localName rat); ("owner_uuid", Opts.account_uuid opts);
          ("tag", Rat.tag rat)]) = [] in
  let no_v2_tag :=
    listObjs (docker_image_tags_v2 w)
      [("repo", Rat.localName rat); ("owner_uuid", Opts.account_uuid opts);
       ("tag", Rat.tag rat)] = [] in
  let v1_matches := listObjs (docker_images w) flt in
  let v2_matches := listObjs (docker_images_v2 w) flt in
  let two_ids :=
    exists a b : Image.t,
      In a v1_matches /\ In b v1_matches
      /\ Image.docker_id a <> Image.docker_id b in
  let one_id :=
    forall a b : Image.t,
      In a v1_matches -> In b v1_matches ->
      Image.docker_id a = Image.docker_id b in
  let ambiguous :=
    AmbiguousDockerImageIdError (Rat.localName rat)
      (map Image.index_name v1_matches) in
  (no_v1_tag ->
   ResolveV1.findImage_filter opts (Rat.localName rat) None = Some flt ->
   2 <= List.length v1_matches ->
   (two_ids ->
    ResolveV1._imgFromNameV1 opts rat w = (Called None (None, None), w)
    /\ (resolved_by_name ext opts rat ->
        ResolveV2._imgFromNameV2 opts rat w = (Called None (None, None), w) ->
        imgFromName ext opts w = (Called None (None, None), w)))
   /\ (one_id ->
       ResolveV1._imgFromNameV1 opts rat w
       = (Called (Some ambiguous) (None, None), w)
       /\ (resolved_by_name ext opts rat ->
           ResolveV2._imgFromNameV2 opts rat w
           = (Called None (None, None), w) ->
           imgFromName ext opts w
           = (Called (Some ambiguous) (None, None), w))))
  /\ (no_v2_tag ->
      ResolveV2.findImage_filter (Opts.account_uuid opts) (Rat.localName rat)
        None = Some flt ->
      2 <= List.length v2_matches ->
      ResolveV2._imgFromNameV2 opts rat w = (Called None (None, None), w)
      /\ (resolved_by_name ext opts rat ->
          ResolveV1._imgFromNameV1 opts rat w
          = (Called None (None, None), w) ->
          imgFromName ext opts w = (Called None (None, None), w))).
Proof.
  cbn zeta.
  destruct (resolvers_on_ambiguous_prefix opts rat w flt Hquiet)
    as (Hv1 & Hv2).
  split.
  - intros Hnotag Hflt Hlen.
    destruct (Hv1 Hnotag Hflt Hlen) as (Ha & Hb).
    split.
    + intros Htwo. split; [exact (Ha Htwo) |].
      intros Hname Hnone.
      exact (imgFromName_v1_after_v2 ext opts rat w w w None (None, None)
               Hname Hnone (Ha Htwo)).
    + intros Hone. split; [exact (Hb Hone) |].
      intros Hname Hnone.
      exact (imgFromName_v1_error_after_v2 ext opts rat w w w None _
               (None, None) Hname Hnone (Hb Hone) eq_refl).
  - intros Hnotag Hflt Hlen. split; [exact (Hv2 Hnotag Hflt Hlen) |].
    intros Hname Hnone.
    exact (imgFromName_v1_after_v2 ext opts rat w w w None (None, None)
             Hname (Hv2 Hnotag Hflt Hlen) Hnone).
Qed.

Lemma C7_witness :
  imgFromName sample_ext (opts_for "ef87" false) two_ids_world
  = (Called None (None, None), two_ids_world)
  /\ imgFromName sample_ext (opts_for "ef872312fe1b" false) two_hosts_world
     = (Called (Some (AmbiguousDockerImageIdError "ef872312fe1b"
                        ["docker.io"; "quay.io"])) (None, None),
        two_hosts_world)
  /\ imgFromName sample_ext (opts_for "aaaa" false) two_digests_world
     = (Called None (None, None), two_digests_world).
Proof.
  split; [| split].
  - refine (proj2 (proj1 (proj1 (C7_ambiguous_prefix_policy sample_ext
                     (opts_for "ef87" false)
                     (Rat.mk "ef87" "latest" None) two_ids_world
                     [("docker_id", "ef87*"); ("owner_uuid", alice)]
                     eq_refl) eq_refl eq_refl _) _) _ _).
    + vm_compute. lia.
    + exists busybox_v1, other_ef87. vm_compute.
      split; [left; reflexivity | split; [right; left; reflexivity |]].
      discriminate.
    + repeat split; reflexivity.
    + vm_compute. reflexivity.
  - refine (proj2 (proj2 (proj1 (C7_ambiguous_prefix_policy sample_ext
                     (opts_for "ef872312fe1b" false)
                     (Rat.mk "ef872312fe1b" "latest" None) two_hosts_world
                     [("docker_id", "ef872312fe1b*"); ("owner_uuid", alice)]
                     eq_refl) eq_refl eq_refl _) _) _ _).
    + vm_compute. lia.
    + vm_compute. intros a b [<- | [<- | []]] [<- | [<- | []]]; reflexivity.
    + repeat split; reflexivity.
    + vm_compute. reflexivity.
  - refine (proj2 (proj2 (C7_ambiguous_prefix_policy sample_ext
                     (opts_for "aaaa" false)
                     (Rat.mk "aaaa" "latest" None) two_digests_world
                     [("digest", "sha256:aaaa*"); ("owner_uuid", alice)]
                     eq_refl) eq_refl eq_refl _) _ _).
    + vm_compute. lia.
    + repeat split; reflexivity.
    + vm_compute. reflexivity.
Defined.

(** *** C8 *)

(** C8. After a partial ancestry walk, [getImgsToDelete] of
    [_deleteImageV1] passes no error on, appends one warning entry to
    the changeLog and keeps the ancestors found as the images to delete;
    but it then calls its continuation a second time: the first [cb()]
    is not followed by a [return]. *)
Theorem C8_getImgsToDelete_calls_back_twice
  (fuel : nat) (opts : Opts.t) (ctx : DeleteV1.Ctx) (w w' : World)
  (history : list Img)
  (Hpartial : getImageAncestry fuel (Opts.account_uuid opts)
                (V1 (DeleteV1.img ctx)) w
              = (Called None (history, true), w')) :
  DeleteV1.getImgsToDelete fuel opts ctx w
  = (Calls [None; None],
     DeleteV1.set_imgsToDelete history
       (DeleteV1.push_change
          (Deleted ("warning: " ++ Opts.name opts
                    ++ " missing some history: null")) ctx),
     w').
Proof.
  unfold DeleteV1.getImgsToDelete. rewrite Hpartial. reflexivity.
Qed.

Lemma C8_witness :
  DeleteV1.getImgsToDelete 10 (opts_for "busybox" false)
    (DeleteV1.mkCtx busybox_v1 (Some (TagV1 busybox_v1_tag))
       [TagV1 busybox_v1_tag] [] [] false [] false)
    orphan_world
  = (Calls [None; None],
     DeleteV1.mkCtx busybox_v1 (Some (TagV1 busybox_v1_tag))
       [TagV1 busybox_v1_tag] [V1 busybox_v1] [] false
       [Deleted "warning: busybox missing some history: null"] false,
     orphan_world).
Proof.
  apply (C8_getImgsToDelete_calls_back_twice 10 (opts_for "busybox" false)
           (DeleteV1.mkCtx busybox_v1 (Some (TagV1 busybox_v1_tag))
              [TagV1 busybox_v1_tag] [] [] false [] false)
           orphan_world orphan_world [V1 busybox_v1]).
  vm_compute. reflexivity.
Defined.

(** The run of [deleteImage] on that input stops at that stage. *)
Lemma deleteImage_orphan_stops :
  deleteImage sample_ext 10 (opts_for "busybox" false) orphan_world
  = (Crashed CallbackInvokedTwice, orphan_world).
Proof. vm_compute. reflexivity. Qed.

(** *** C9 *)

Lemma lookupAncestorTags_run (account_uuid : string)
  (index_name : option string) (ancestry : list Img) :
  forall (acc : list HistoryEntry.t) (w : World),
  exists (entries : list HistoryEntry.t) (w' : World),
    forEachPipeline
      (GetImageHistory.lookupAncestorTags account_uuid index_name)
      ancestry acc w
    = (Called None tt, (acc ++ entries)%list, w')
    /\ map HistoryEntry.Id entries = map img_id ancestry.
Proof.
  unfold forEachPipeline.
  induction ancestry as [| a r IH]; intros acc w.
  - exists [], w. cbn. rewrite app_nil_r. split; reflexivity.
  - cbn [map pipeline]. unfold GetImageHistory.lookupAncestorTags at 1.
    destruct (tagsForImage a account_uuid index_name w) as [[e | ts] w1].
    + destruct (IH (acc ++ [HistoryEntry.mk (img_id a) None (img_created a)
                              match img_Cmd a with
                              | Some cmd => join " " cmd
                              | None => ""
                              end (img_size a) TagsUnset])%list w1)
        as (entries & w' & E & Hid).
      eexists (_ :: entries), w'. rewrite E. split.
      * rewrite <- app_assoc. reflexivity.
      * cbn [map HistoryEntry.Id]. rewrite Hid. reflexivity.
    + destruct (IH (acc ++ [HistoryEntry.mk (img_id a) None (img_created a)
                              match img_Cmd a with
                              | Some cmd => join " " cmd
                              | None => ""
                              end (img_size a)
                              (TagsOf (map repoTag ts))])%list w1)
        as (entries & w' & E & Hid).
      eexists (_ :: entries), w'. rewrite E. split.
      * rewrite <- app_assoc. reflexivity.
      * cbn [map HistoryEntry.Id]. rewrite Hid. reflexivity.
Qed.

Lemma addAndGetNextItem_nonempty (account_uuid : string) (fuel : nat) :
  forall (acc : list Img) (img : Img) (w w' : World) (ancestry : list Img)
         (partial : bool),
    addAndGetNextItem fuel account_uuid acc img w
    = (Called None (ancestry, partial), w') ->
    ancestry <> [].
Proof.
  induction fuel as [| fuel IH]; intros acc img w w' ancestry partial H.
  - discriminate H.
  - cbn [addAndGetNextItem] in H.
    assert (Hcb : forall err a p,
               checkAndCallback (acc ++ [img]) err = Called None (a, p) ->
               a <> []).
    { intros err a p Hc. unfold checkAndCallback in Hc.
      destruct err as [e |].
      - destruct (_ && _); inversion Hc; subst.
        destruct acc; discriminate.
      - inversion Hc; subst. destruct acc; discriminate. }
    destruct (String.eqb (img_parent img) "").
    + apply (f_equal fst) in H. cbn [fst] in H. eapply Hcb. exact H.
    + destruct (lookupParent account_uuid img w) as [[err [p |] | c] w1].
      * destruct err as [e |].
        -- apply (f_equal fst) in H. cbn [fst] in H. eapply Hcb. exact H.
        -- eapply IH. exact H.
      * destruct err; apply (f_equal fst) in H; cbn [fst] in H;
          eapply Hcb; exact H.
      * discriminate H.
Qed.

(** C9 (as amended).  Let the ancestry walk of [getImageHistory] succeed
    with the records [ancestry].  For a v2 image whose embedded history
    has at least as many entries as the walk has records,
    [getImageHistory] calls back with one entry per walked record, in
    the order of the walk, followed by a synthetic entry with [Id =
    '<missing>'] for each of the first (oldest) entries of the embedded
    history that the walk does not account for, last of them first: as
    many entries as the embedded history has.  For a v2 image whose walk
    has more records than its embedded history has entries, the call
    stops at the assertion "History length should be equal".  For a v1
    image it calls back with exactly one entry per walked record. *)
Theorem C9_history_length
  (ext : Externals) (fuel : nat) (account_uuid : string)
  (index_name : option string) (img : Img) (w w1 : World)
  (ancestry : list Img) (partial : bool)
  (Hwalk : getImageAncestry fuel account_uuid img w
           = (Called None (ancestry, partial), w1)) :
  exists (walked : list HistoryEntry.t) (w2 : World),
    map HistoryEntry.Id walked = map img_id ancestry
    /\ match img with
       | V2 i =>
           let imgHist := ImageV2.history i in
           if Nat.leb (List.length ancestry) (List.length imgHist)
           then
             let padding :=
               map (GetImageHistory.missing (epochSeconds ext))
                 (rev (firstn (List.length imgHist - List.length ancestry)
                         imgHist)) in
             getImageHistory ext fuel account_uuid index_name img w
             = (Called None (walked ++ padding)%list, w2)
             /\ List.length (walked ++ padding)%list = List.length imgHist
             /\ Forall (fun e => HistoryEntry.Id e = "<missing>") padding
           else
             getImageHistory ext fuel account_uuid index_name img w
             = (Crashed (AssertionError "History length should be equal"),
                w2)
       | _ =>
           getImageHistory ext fuel account_uuid index_name img w
           = (Called None walked, w2)
       end.
Proof.
  pose proof (addAndGetNextItem_nonempty _ _ _ _ _ _ _ _ Hwalk) as Hne.
  destruct (lookupAncestorTags_run account_uuid index_name ancestry [] w1)
    as (walked & w2 & Hrun & Hid).
  cbn [app] in Hrun.
  assert (Hlen : List.length walked = List.length ancestry).
  { rewrite <- (length_map HistoryEntry.Id), Hid, length_map. reflexivity. }
  exists walked, w2. split; [exact Hid |].
  unfold getImageHistory. rewrite Hwalk, Hrun.
  destruct img as [i | i | u o]; try reflexivity.
  unfold GetImageHistory.fillBlanks. cbn zeta. rewrite Hlen.
  assert (Hpos : List.length ancestry <> 0).
  { destruct ancestry; [contradiction | discriminate]. }
  destruct (Nat.leb (List.length ancestry) (List.length (ImageV2.history i)))
    eqn:Hle.
  - apply Nat.leb_le in Hle.
    assert (Hslice :
      slice_0_neg (List.length ancestry) (ImageV2.history i)
      = firstn (List.length (ImageV2.history i) - List.length ancestry)
          (ImageV2.history i)).
    { unfold slice_0_neg. destruct (List.length ancestry);
        [contradiction | reflexivity]. }
    assert (Hpad :
      List.length
        (map (GetImageHistory.missing (epochSeconds ext))
           (rev (firstn (List.length (ImageV2.history i)
                         - List.length ancestry) (ImageV2.history i))))
      = List.length (ImageV2.history i) - List.length ancestry).
    { rewrite length_map, length_rev, firstn_length_le; [reflexivity | lia]. }
    split; [| split].
    + destruct (Nat.ltb (List.length ancestry)
                  (List.length (ImageV2.history i))) eqn:Hlt.
      * rewrite Hslice.
        replace (Nat.eqb _ _) with true; [reflexivity |].
        symmetry. apply Nat.eqb_eq. rewrite length_app, Hpad, Hlen. lia.
      * apply Nat.ltb_ge in Hlt.
        assert (Heq : List.length (ImageV2.history i) = List.length ancestry)
          by lia.
        rewrite Hlen, Heq, Nat.eqb_refl, Nat.sub_diag. cbn [firstn rev map].
        rewrite app_nil_r. reflexivity.
    + rewrite length_app, Hpad, Hlen. lia.
    + apply Forall_forall. intros e He. apply in_map_iff in He.
      destruct He as (h & <- & _). reflexivity.
  - apply Nat.leb_gt in Hle.
    replace (Nat.ltb _ _) with false
      by (symmetry; apply Nat.ltb_ge; lia).
    rewrite Hlen.
    replace (Nat.eqb _ _) with false
      by (symmetry; apply Nat.eqb_neq; lia).
    reflexivity.
Qed.

Lemma C9_witness :
  exists (walked : list HistoryEntry.t) (w2 : World),
    map HistoryEntry.Id walked = ["sha256:child"; "sha256:parent"]
    /\ getImageHistory sample_ext 10 alice None (V2 child_long_history)
         (history_world child_long_history)
       = (Called None
            (walked ++ [HistoryEntry.mk "<missing>" (Some "") 0 "ADD rootfs"
                          0 TagsNull])%list, w2).
Proof.
  assert (Hwalk : getImageAncestry 10 alice (V2 child_long_history)
                    (history_world child_long_history)
                  = (Called None
                       ([V2 child_long_history; V2 parent_v2], false),
                     history_world child_long_history)).
  { vm_compute. reflexivity. }
  destruct (C9_history_length sample_ext 10 alice None
              (V2 child_long_history) (history_world child_long_history)
              (history_world child_long_history)
              [V2 child_long_history; V2 parent_v2] false Hwalk)
    as (walked & w2 & Hid & Hres).
  exists walked, w2. split; [exact Hid |].
  exact (proj1 Hres).
Defined.

(** A v2 image whose walked ancestry (two records) is longer than its
    embedded history (one entry): [getImageHistory] does not call back
    with a list of the length of the embedded history, it stops at its
    assertion. *)
Lemma C9_counterexample :
  getImageHistory sample_ext 10 alice None (V2 child_short_history)
    (history_world child_short_history)
  = (Crashed (AssertionError "History length should be equal"),
     history_world child_short_history)
  /\ ~ (exists (h : list HistoryEntry.t) (w' : World),
          getImageHistory sample_ext 10 alice None (V2 child_short_history)
            (history_world child_short_history)
          = (Called None h, w')
          /\ List.length h
             = List.length (ImageV2.history child_short_history)).
Proof.
  assert (E : getImageHistory sample_ext 10 alice None
                (V2 child_short_history) (history_world child_short_history)
              = (Crashed (AssertionError "History length should be equal"),
                 history_world child_short_history)).
  { vm_compute. reflexivity. }
  split; [exact E |].
  intros (h & w' & H & _). rewrite E in H. discriminate H.
Qed.

(** *** The cascades: what one stage does *)

Section Cascade.

Context {L : Type} (hit : L -> bool).

Lemma cascade_run (funcs : list (Stage L)) :
  Forall (cascade_step hit) funcs ->
  forall (l : L) (w : World) (r : Result unit) (l' : L) (w' : World),
    pipeline funcs l w = (r, l', w') ->
    exists new : list (string * option Error),
      imgapi_deleteImage_calls w'
      = (imgapi_deleteImage_calls w ++ new)%list
      /\ dependent_only_last new = true
      /\ (hit l = true -> new = [] /\ hit l' = true)
      /\ (moray_faults w = [] ->
          moray_faults w' = []
          /\ forall e, r = Called (Some e) tt -> is_dependent e = false).
Proof.
  induction 1 as [| f rest Hf Hrest IH]; intros l w r l' w' Hrun.
  - cbn [pipeline] in Hrun. inversion Hrun; subst.
    exists []. rewrite app_nil_r. repeat split; auto. discriminate.
  - cbn [pipeline] in Hrun.
    destruct (f l w) as [[out l1] w1] eqn:Hstep.
    destruct (Hf _ _ _ _ _ Hstep) as (Hq & Hhit & Hshape).
    assert (Hgo : out = Calls [None] ->
                  exists new2,
                    imgapi_deleteImage_calls w'
                    = (imgapi_deleteImage_calls w1 ++ new2)%list
                    /\ dependent_only_last new2 = true
                    /\ (hit l1 = true -> new2 = [] /\ hit l' = true)
                    /\ (moray_faults w1 = [] ->
                        moray_faults w' = []
                        /\ forall e, r = Called (Some e) tt ->
                                     is_dependent e = false)).
    { intros ->. apply IH. exact Hrun. }
    assert (Hlen : forall (a b : list (string * option Error)) x,
               a = (b ++ [x])%list -> a <> b).
    { intros a b x -> E. apply (f_equal (@List.length _)) in E.
      rewrite length_app in E. cbn in E. lia. }
    destruct Hshape as [(Hsame & Hnoerr)
                       | [(u & Hlog & Hout)
                         | [(u & e & Hlog & Hdep & Hout & Hset)
                           | (u & e & Hlog & Hdep & Hout)]]].
    + (* no call *)
      destruct out as [[| [e |] [| ? ?]] | c].
      * inversion Hrun; subst. exists []. rewrite app_nil_r.
        split; [exact Hsame |]. split; [reflexivity |].
        split; [intros Hh; split; [reflexivity | apply Hhit, Hh] |].
        intros Hquiet. split; [apply Hq, Hquiet | discriminate].
      * inversion Hrun; subst. exists []. rewrite app_nil_r.
        split; [exact Hsame |]. split; [reflexivity |].
        split; [intros Hh; split; [reflexivity | apply Hhit, Hh] |].
        intros Hquiet. exfalso. apply (Hnoerr Hquiet e). reflexivity.
      * inversion Hrun; subst. exists []. rewrite app_nil_r.
        split; [exact Hsame |]. split; [reflexivity |].
        split; [intros Hh; split; [reflexivity | apply Hhit, Hh] |].
        intros Hquiet. split; [apply Hq, Hquiet | discriminate].
      * destruct (Hgo eq_refl) as (new2 & Hlog2 & Hd2 & Hh2 & Hq2).
        exists new2. rewrite Hlog2, Hsame.
        split; [reflexivity |]. split; [exact Hd2 |].
        split; [intros Hh; apply Hh2, Hhit, Hh |].
        intros Hquiet. apply Hq2, Hq, Hquiet.
      * inversion Hrun; subst. exists []. rewrite app_nil_r.
        split; [exact Hsame |]. split; [reflexivity |].
        split; [intros Hh; split; [reflexivity | apply Hhit, Hh] |].
        intros Hquiet. split; [apply Hq, Hquiet | discriminate].
      * inversion Hrun; subst. exists []. rewrite app_nil_r.
        split; [exact Hsame |]. split; [reflexivity |].
        split; [intros Hh; split; [reflexivity | apply Hhit, Hh] |].
        intros Hquiet. split; [apply Hq, Hquiet | discriminate].
    + (* one call, accepted *)
      destruct (Hgo Hout) as (new2 & Hlog2 & Hd2 & Hh2 & Hq2).
      exists ((u, None) :: new2). rewrite Hlog2, Hlog, <- app_assoc.
      split; [reflexivity |]. split; [exact Hd2 |].
      split.
      * intros Hh. exfalso. apply (Hlen _ _ _ Hlog). apply Hhit. exact Hh.
      * intros Hquiet. apply Hq2, Hq, Hquiet.
    + (* one call, answered ImageHasDependentImages *)
      destruct (Hgo Hout) as (new2 & Hlog2 & Hd2 & Hh2 & Hq2).
      destruct (Hh2 Hset) as (-> & Hl').
      exists [(u, Some e)]. rewrite Hlog2, Hlog, app_nil_r.
      split; [reflexivity |].
      split; [cbn; rewrite Hdep; reflexivity |].
      split.
      * intros Hh. exfalso. apply (Hlen _ _ _ Hlog). apply Hhit. exact Hh.
      * intros Hquiet. apply Hq2, Hq, Hquiet.
    + (* one call, another error *)
      subst out. inversion Hrun; subst.
      exists [(u, Some e)].
      split; [exact Hlog |].
      split; [cbn; rewrite Hdep; reflexivity |].
      split.
      * intros Hh. exfalso. apply (Hlen _ _ _ Hlog). apply Hhit. exact Hh.
      * intros Hquiet. split; [apply Hq, Hquiet |].
        intros e' He'. inversion He'; subst. exact Hdep.
Qed.

End Cascade.

Lemma Image_del_facts (i : Image.t) (w : World) :
  imgapi_deleteImage_calls (snd (Image_del i w)) = imgapi_deleteImage_calls w
  /\ (moray_faults w = [] ->
      fst (Image_del i w) = None /\ moray_faults (snd (Image_del i w)) = []).
Proof.
  unfold Image_del, moray_call.
  destruct (moray_faults w) as [| [e |] r] eqn:Hf; cbn;
    (split; [reflexivity | intros Hq; try discriminate Hq]).
  split; [reflexivity | exact Hf].
Qed.

Lemma Image_update_facts (u : ImageUpdate) (w : World) :
  imgapi_deleteImage_calls (snd (Image_update u w))
  = imgapi_deleteImage_calls w
  /\ (moray_faults w = [] ->
      fst (Image_update u w) = None
      /\ moray_faults (snd (Image_update u w)) = []).
Proof.
  unfold Image_update, moray_call.
  destruct (moray_faults w) as [| [e |] r] eqn:Hf; cbn;
    (split; [reflexivity | intros Hq; try discriminate Hq]).
  split; [reflexivity | exact Hf].
Qed.

Lemma ImageV2_list_facts (flt : Filter) (w : World) :
  imgapi_deleteImage_calls (snd (ImageV2_list flt w))
  = imgapi_deleteImage_calls w
  /\ (moray_faults w = [] ->
      ImageV2_list flt w = (Got (listObjs (docker_images_v2 w) flt), w)).
Proof.
  unfold ImageV2_list, moray_call.
  destruct (moray_faults w) as [| [e |] r] eqn:Hf; cbn;
    (split; [reflexivity | intros Hq; try discriminate Hq]).
  reflexivity.
Qed.

Lemma imgapi_deleteImage_facts (uuid : string) (w : World) :
  imgapi_deleteImage_calls (snd (imgapi_deleteImage uuid w))
  = (imgapi_deleteImage_calls w
     ++ [(uuid, fst (imgapi_deleteImage uuid w))])%list
  /\ moray_faults (snd (imgapi_deleteImage uuid w)) = moray_faults w.
Proof.
  unfold imgapi_deleteImage, imgapi_call.
  destruct (imgapi_faults w) as [| f r]; cbn; split; reflexivity.
Qed.

Lemma DeleteV1_deleteOneImg_step (i : Img) :
  cascade_step DeleteV1.hitImageHasDependentImagesError
    (DeleteV1.deleteOneImg i).
Proof.
  intros ctx w out ctx' w' H. unfold DeleteV1.deleteOneImg in H.
  destruct i as [i | i | u o];
    try (inversion H; subst; split; [auto |];
         split; [auto |]; left; split; [reflexivity | discriminate]).
  destruct (Z.ltb 1 (Image.refcount i)).
  - (* drop this chain from [heads] *)
    match type of H with
    | context [Image_update ?u w] =>
        pose proof (Image_update_facts u w) as (Hc & Hq);
        destruct (Image_update u w) as [err w1]
    end.
    cbn [fst snd] in Hc, Hq. inversion H; subst.
    split; [intros Hquiet; apply Hq, Hquiet |].
    split; [intros Hh; split; [exact Hh | exact Hc] |].
    left. split; [exact Hc |].
    intros Hquiet e E. destruct (Hq Hquiet) as (-> & _). discriminate E.
  - pose proof (Image_del_facts i w) as (Hc & Hq).
    destruct (Image_del i w) as [[delErr |] w1]; cbn [fst snd] in Hc, Hq.
    + inversion H; subst.
      split; [intros Hquiet; apply Hq, Hquiet |].
      split; [intros Hh; split; [exact Hh | exact Hc] |].
      left. split; [exact Hc |].
      intros Hquiet e E. destruct (Hq Hquiet) as (E' & _). discriminate E'.
    + destruct (negb (DeleteV1.isLastRef
                        (DeleteV1.push_change (Deleted (Image.docker_id i)) ctx)
                        (Image.docker_id i))
                || DeleteV1.hitImageHasDependentImagesError
                     (DeleteV1.push_change (Deleted (Image.docker_id i)) ctx))
        eqn:Hskip.
      * inversion H; subst.
        split; [intros Hquiet; apply Hq, Hquiet |].
        split; [intros Hh; split; [exact Hh | exact Hc] |].
        left. split; [exact Hc | discriminate].
      * apply orb_false_iff in Hskip. destruct Hskip as (_ & Hnohit).
        cbn [DeleteV1.push_change DeleteV1.hitImageHasDependentImagesError]
          in Hnohit.
        pose proof (imgapi_deleteImage_facts (Image.image_uuid i) w1)
          as (Hlog & Hm).
        destruct (imgapi_deleteImage (Image.image_uuid i) w1)
          as [[err |] w2]; cbn [fst snd] in Hlog, Hm.
        -- destruct (String.eqb (restCode err) "ImageHasDependentImages")
             eqn:Hdep; inversion H; subst.
           ++ split; [intros Hquiet; rewrite Hm; apply Hq, Hquiet |].
              split; [intros Hh; rewrite Hh in Hnohit; discriminate |].
              right. right. left. exists (Image.image_uuid i), err.
              rewrite Hlog, Hc. repeat split; auto.
           ++ split; [intros Hquiet; rewrite Hm; apply Hq, Hquiet |].
              split; [intros Hh; cbn in Hh; rewrite Hh in Hnohit;
                      discriminate |].
              right. right. right. exists (Image.image_uuid i), err.
              rewrite Hlog, Hc. repeat split; auto.
        -- inversion H; subst.
           split; [intros Hquiet; rewrite Hm; apply Hq, Hquiet |].
           split; [intros Hh; cbn in Hh; rewrite Hh in Hnohit;
                   discriminate |].
           right. left. exists (Image.image_uuid i).
           rewrite Hlog, Hc. split; reflexivity.
Qed.

Lemma DeleteV2_deleteLayer_step (layerInfo : LayerInfo.t) :
  cascade_step DeleteV2.hitImageHasDependentImagesError
    (DeleteV2.deleteLayer layerInfo).
Proof.
  intros ctx w out ctx' w' H. unfold DeleteV2.deleteLayer in H.
  destruct (DeleteV2.hitImageHasDependentImagesError ctx) eqn:Hhit.
  - inversion H; subst.
    split; [auto |]. split; [auto |].
    left. split; [reflexivity | discriminate].
  - pose proof (ImageV2_list_facts [("image_uuid", LayerInfo.uuid layerInfo)] w)
      as (Hc & Hq).
    destruct (ImageV2_list [("image_uuid", LayerInfo.uuid layerInfo)] w)
      as [[lookupErr | imgs] w1] eqn:Hlist; cbn [fst snd] in Hc.
    + inversion H; subst.
      split; [intros Hquiet; discriminate (Hq Hquiet) |].
      split; [discriminate |].
      left. split; [exact Hc |].
      intros Hquiet. discriminate (Hq Hquiet).
    + assert (Hq1 : moray_faults w = [] -> moray_faults w1 = []).
      { intros Hquiet. pose proof (Hq Hquiet) as E. inversion E; subst.
        exact Hquiet. }
      cbn zeta in H.
      match type of H with
      | context [if Z.leb 1 ?n then _ else _] => destruct (Z.leb 1 n)
      end.
      * inversion H; subst.
        split; [exact Hq1 |]. split; [discriminate |].
        left. split; [exact Hc | discriminate].
      * pose proof (imgapi_deleteImage_facts (LayerInfo.uuid layerInfo) w1)
          as (Hlog & Hm).
        destruct (imgapi_deleteImage (LayerInfo.uuid layerInfo) w1)
          as [[err |] w2]; cbn [fst snd] in Hlog, Hm.
        -- destruct (String.eqb (restCode err) "ImageHasDependentImages")
             eqn:Hdep; inversion H; subst.
           ++ split; [intros Hquiet; rewrite Hm; apply Hq1, Hquiet |].
              split; [discriminate |].
              right. right. left. exists (LayerInfo.uuid layerInfo), err.
              rewrite Hlog, Hc. repeat split; auto.
           ++ split; [intros Hquiet; rewrite Hm; apply Hq1, Hquiet |].
              split; [discriminate |].
              right. right. right. exists (LayerInfo.uuid layerInfo), err.
              rewrite Hlog, Hc. repeat split; auto.
        -- inversion H; subst.
           split; [intros Hquiet; rewrite Hm; apply Hq1, Hquiet |].
           split; [discriminate |].
           right. left. exists (LayerInfo.uuid layerInfo).
           rewrite Hlog, Hc. split; reflexivity.
Qed.

Lemma Forall_map_step {L I : Type} (hit : L -> bool) (func : I -> Stage L)
  (inputs : list I) :
  (forall x, cascade_step hit (func x)) ->
  Forall (cascade_step hit) (map func inputs).
Proof.
  intros Hall. induction inputs; constructor; auto.
Qed.

(** The stage [deleteDockerImages] of [_deleteImageV2] does not read the
    flag [hitImageHasDependentImagesError]. *)
Lemma DeleteV2_deleteOneImg_ignores_flag (i : Img) (b : bool)
  (ctx : DeleteV2.Ctx) (w : World) :
  DeleteV2.deleteOneImg i (DeleteV2.set_hit b ctx) w
  = (let '(out, ctx', w') := DeleteV2.deleteOneImg i ctx w in
     (out, DeleteV2.set_hit b ctx', w')).
Proof.
  unfold DeleteV2.deleteOneImg. cbn [DeleteV2.img DeleteV2.set_hit].
  destruct (negb _ && img_head i); [reflexivity |].
  destruct i as [i | i | u o]; try reflexivity.
  destruct (ImageV2_del i w) as [[e |] w']; reflexivity.
Qed.

Lemma DeleteV2_records_ignore_flag (imgs : list Img) (b : bool) :
  forall (ctx : DeleteV2.Ctx) (w : World),
    forEachPipeline DeleteV2.deleteOneImg imgs (DeleteV2.set_hit b ctx) w
    = (let '(r, ctx', w') :=
         forEachPipeline DeleteV2.deleteOneImg imgs ctx w in
       (r, DeleteV2.set_hit b ctx', w')).
Proof.
  unfold forEachPipeline.
  induction imgs as [| i rest IH]; intros ctx w; [reflexivity |].
  cbn [map pipeline]. rewrite DeleteV2_deleteOneImg_ignores_flag.
  destruct (DeleteV2.deleteOneImg i ctx w) as [[out ctx1] w1].
  destruct out as [[| [e |] [| ? ?]] | c]; try reflexivity.
  apply IH.
Qed.

(** With Moray answering, [deleteDockerImages] deletes the record of
    every image of the cascade and logs it, whatever the flag is. *)
Lemma DeleteV2_records_deleted (imgs : list ImageV2.t) :
  forall (ctx : DeleteV2.Ctx) (w : World),
    moray_faults w = [] ->
    Forall (fun i => ImageV2.digest i = ImageV2.digest (DeleteV2.img ctx)
                     \/ ImageV2.head i = false) imgs ->
    exists (ctx' : DeleteV2.Ctx) (w' : World),
      forEachPipeline DeleteV2.deleteOneImg (map V2 imgs) ctx w
      = (Called None tt, ctx', w')
      /\ DeleteV2.changes ctx'
         = (DeleteV2.changes ctx
            ++ map (fun i => Deleted (ImageV2.digest i)) imgs)%list
      /\ DeleteV2.hitImageHasDependentImagesError ctx'
         = DeleteV2.hitImageHasDependentImagesError ctx
      /\ (forall i r, In i imgs -> In r (docker_images_v2 w') ->
                      key r <> key i)
      /\ imgapi_deleteImage_calls w' = imgapi_deleteImage_calls w.
Proof.
  unfold forEachPipeline.
  induction imgs as [| i rest IH]; intros ctx w Hquiet Hok.
  - exists ctx, w. cbn. rewrite app_nil_r. repeat split; auto.
  - inversion Hok as [| ? ? Hi Hrest]; subst.
    cbn [map pipeline]. unfold DeleteV2.deleteOneImg at 1.
    cbn [img_id img_head].
    assert (Hguard : negb (String.eqb (ImageV2.digest i)
                             (ImageV2.digest (DeleteV2.img ctx)))
                     && ImageV2.head i = false).
    { destruct Hi as [-> | ->].
      - rewrite String.eqb_refl. reflexivity.
      - apply andb_false_r. }
    rewrite Hguard. unfold ImageV2_del. rewrite (moray_call_quiet w Hquiet).
    destruct (IH (DeleteV2.push_change (Deleted (ImageV2.digest i)) ctx)
                (set_docker_images_v2
                   (delObj (ImageV2.objectKey i) (docker_images_v2 w)) w)
                Hquiet Hrest)
      as (ctx' & w' & Hrun & Hch & Hflag & Hgone & Hcalls).
    exists ctx', w'. split; [exact Hrun |].
    split; [rewrite Hch; cbn [DeleteV2.changes DeleteV2.push_change map];
            rewrite <- app_assoc; reflexivity |].
    split; [exact Hflag |].
    split; [| exact Hcalls].
    intros j r [<- | Hj] Hr; [| exact (Hgone j r Hj Hr)].
    (* the records only shrink along the run *)
    assert (Hshrink :
      forall (l : list ImageV2.t) c x c2 x2,
        pipeline (map DeleteV2.deleteOneImg (map V2 l)) c x
        = (Called None tt, c2, x2) ->
        forall r, In r (docker_images_v2 x2) -> In r (docker_images_v2 x)).
    { clear. induction l as [| a l IHl]; intros c x c2 x2 Hp r Hr.
      - cbn in Hp. inversion Hp; subst. exact Hr.
      - cbn [map pipeline] in Hp. unfold DeleteV2.deleteOneImg at 1 in Hp.
        destruct (negb _ && img_head (V2 a)); [discriminate Hp |].
        unfold ImageV2_del, moray_call in Hp.
        destruct (moray_faults x) as [| [e |] fs].
        + apply (IHl _ _ _ _ Hp) in Hr.
          cbn [docker_images_v2 set_docker_images_v2] in Hr.
          apply in_delObj in Hr. tauto.
        + discriminate Hp.
        + apply (IHl _ _ _ _ Hp) in Hr.
          cbn [docker_images_v2 set_docker_images_v2 set_moray_faults] in Hr.
          apply in_delObj in Hr. tauto. }
    apply (Hshrink _ _ _ _ _ Hrun) in Hr.
    cbn [docker_images_v2 set_docker_images_v2] in Hr.
    apply in_delObj in Hr. tauto.
Qed.

(** *** Resolution by name *)

Lemma imgapi_getImage_present (uuid : string) (w : World) :
  blob_present uuid w ->
  exists i, imgapi_getImage uuid w = (Got i, w).
Proof.
  intros (Hq & Hin). unfold imgapi_getImage.
  rewrite (imgapi_call_quiet w Hq).
  destruct (find _ (imgapi_images w)) as [i |] eqn:Hf.
  - exists i. reflexivity.
  - exfalso. apply existsb_exists in Hin. destruct Hin as (x & Hx & Hu).
    pose proof (find_none _ _ Hf x Hx) as Hn. cbn beta in Hn.
    rewrite Hu in Hn. discriminate Hn.
Qed.

Lemma imgapi_getImage_absent (uuid : string) (w : World) :
  blob_absent uuid w ->
  imgapi_getImage uuid w = (Failed imgapi_not_found, w).
Proof.
  intros (Hq & Hout). unfold imgapi_getImage.
  rewrite (imgapi_call_quiet w Hq).
  destruct (find _ (imgapi_images w)) as [i |] eqn:Hf; [| reflexivity].
  exfalso. apply find_some in Hf. destruct Hf as (Hin & Hu).
  assert (Hex : existsb (fun i => String.eqb (ImgapiImage.uuid i) uuid)
                  (imgapi_images w) = true).
  { apply existsb_exists. exists i. split; assumption. }
  rewrite Hex in Hout. discriminate Hout.
Qed.

Lemma ResolveV2_tag_found (opts : Opts.t) (rat : Rat.t) (w : World)
  (t : ImageTagV2.t) (ts : list ImageTagV2.t) (i : ImageV2.t) :
  moray_faults w = [] ->
  listObjs (docker_image_tags_v2 w)
    [("repo", Rat.localName rat); ("owner_uuid", Opts.account_uuid opts);
     ("tag", Rat.tag rat)] = t :: ts ->
  listObjs (docker_images_v2 w)
    [("digest", ImageTagV2.digest t);
     ("owner_uuid", Opts.account_uuid opts)] = [i] ->
  blob_present (ImageV2.image_uuid i) w ->
  ResolveV2._imgFromNameV2 opts rat w
  = (Called None (Some (V2 i), Some (TagV2 t)), w).
Proof.
  intros Hq Htag Himg Hlive.
  unfold ResolveV2._imgFromNameV2. cbn [pipeline].
  unfold ResolveV2.findByName, ImageTagV2_list.
  rewrite (moray_call_quiet w Hq), Htag.
  unfold ResolveV2.findImage. cbn [imgTag img imgIsGone].
  cbn [ResolveV2.findImage_filter].
  unfold ImageV2_list. rewrite (moray_call_quiet w Hq), Himg.
  unfold ResolveV2.isImageInImgapi. cbn [imgTag img imgIsGone].
  destruct (imgapi_getImage_present _ _ Hlive) as (x & ->).
  reflexivity.
Qed.



(** *** C4 *)





(** *** C3 *)

Lemma ResolveV2_heals (opts : Opts.t) (rat : Rat.t) (w : World)
  (tags : list ImageTagV2.t) (flt : Filter) (i : ImageV2.t) :
  moray_faults w = [] ->
  listObjs (docker_image_tags_v2 w)
    [("repo", Rat.localName rat); ("owner_uuid", Opts.account_uuid opts);
     ("tag", Rat.tag rat)] = tags ->
  ResolveV2.findImage_filter (Opts.account_uuid opts) (Rat.localName rat)
    (hd_error tags) = Some flt ->
  listObjs (docker_images_v2 w) flt = [i] ->
  blob_absent (ImageV2.image_uuid i) w ->
  ResolveV2._imgFromNameV2 opts rat w
  = (Called None (None, None),
     let w1 := set_docker_images_v2
                 (delObj (key i) (docker_images_v2 w)) w in
     match hd_error tags with
     | Some t => set_docker_image_tags_v2
                   (delObj (key t) (docker_image_tags_v2 w1)) w1
     | None => w1
     end).
Proof.
  intros Hq Htags Hflt Himg Hgone.
  unfold ResolveV2._imgFromNameV2. cbn [pipeline].
  unfold ResolveV2.findByName, ImageTagV2_list.
  rewrite (moray_call_quiet w Hq), Htags.
  assert (Hq1 : forall v, moray_call (set_docker_images_v2 v w)
                          = (None, set_docker_images_v2 v w)).
  { intros v. apply moray_call_quiet. exact Hq. }
  destruct tags as [| t ts]; cbn [hd_error] in Hflt |- *.
  - unfold ResolveV2.findImage. cbn [imgTag img imgIsGone]. rewrite Hflt.
    unfold ImageV2_list. rewrite (moray_call_quiet w Hq), Himg.
    unfold ResolveV2.isImageInImgapi. cbn [imgTag img imgIsGone].
    rewrite (imgapi_getImage_absent _ _ Hgone).
    cbn [statusCode imgapi_not_found Z.eqb Pos.eqb].
    unfold ResolveV2.delImgRef. cbn [imgTag img imgIsGone].
    unfold ImageV2_del. rewrite (moray_call_quiet w Hq).
    reflexivity.
  - unfold ResolveV2.findImage. cbn [imgTag img imgIsGone]. rewrite Hflt.
    unfold ImageV2_list. rewrite (moray_call_quiet w Hq), Himg.
    unfold ResolveV2.isImageInImgapi. cbn [imgTag img imgIsGone].
    rewrite (imgapi_getImage_absent _ _ Hgone).
    cbn [statusCode imgapi_not_found Z.eqb Pos.eqb].
    unfold ResolveV2.delImgRef. cbn [imgTag img imgIsGone].
    unfold ImageV2_del. rewrite (moray_call_quiet w Hq).
    unfold ResolveV2.delImgTagRef. cbn [imgTag img imgIsGone].
    unfold ImageTagV2_del. rewrite Hq1.
    reflexivity.
Qed.

Lemma ResolveV1_heals (opts : Opts.t) (rat : Rat.t) (w : World)
  (tags : list ImageTag.t) (flt : Filter) (i : Image.t) :
  moray_faults w = [] ->
  listObjs (docker_image_tags w)
    (scoped_to_index (Opts.index_name opts)
       [("repo", Rat.localName rat); ("owner_uuid", Opts.account_uuid opts);
        ("tag", Rat.tag rat)]) = tags ->
  ResolveV1.findImage_filter opts (Rat.localName rat) (hd_error tags)
  = Some flt ->
  listObjs (docker_images w) flt = [i] ->
  blob_absent (Image.image_uuid i) w ->
  ResolveV1._imgFromNameV1 opts rat w
  = (Called None (None, None),
     let w1 := set_docker_images (delObj (key i) (docker_images w)) w in
     match hd_error tags with
     | Some t => set_docker_image_tags
                   (delObj (key t) (docker_image_tags w1)) w1
     | None => w1
     end).
Proof.
  intros Hq Htags Hflt Himg Hgone.
  unfold ResolveV1._imgFromNameV1. cbn [pipeline].
  unfold ResolveV1.findByName, ImageTag_list.
  rewrite (moray_call_quiet w Hq), Htags.
  assert (Hq1 : forall v, moray_call (set_docker_images v w)
                          = (None, set_docker_images v w)).
  { intros v. apply moray_call_quiet. exact Hq. }
  destruct tags as [| t ts]; cbn [hd_error] in Hflt |- *.
  - unfold ResolveV1.findImage. cbn [imgTag img imgIsGone]. rewrite Hflt.
    unfold Image_list. rewrite (moray_call_quiet w Hq), Himg.
    unfold ResolveV1.isImageInImgapi. cbn [imgTag img imgIsGone].
    rewrite (imgapi_getImage_absent _ _ Hgone).
    cbn [statusCode imgapi_not_found Z.eqb Pos.eqb].
    unfold ResolveV1.delImgRef. cbn [imgTag img imgIsGone].
    unfold Image_del. rewrite (moray_call_quiet w Hq).
    reflexivity.
  - unfold ResolveV1.findImage. cbn [imgTag img imgIsGone]. rewrite Hflt.
    unfold Image_list. rewrite (moray_call_quiet w Hq), Himg.
    unfold ResolveV1.isImageInImgapi. cbn [imgTag img imgIsGone].
    rewrite (imgapi_getImage_absent _ _ Hgone).
    cbn [statusCode imgapi_not_found Z.eqb Pos.eqb].
    unfold ResolveV1.delImgRef. cbn [imgTag img imgIsGone].
    unfold Image_del. rewrite (moray_call_quiet w Hq).
    unfold ResolveV1.delImgTagRef. cbn [imgTag img imgIsGone].
    unfold ImageTag_del. rewrite Hq1.
    reflexivity.
Qed.

Lemma in_forEachParallel_order {A : Type} (head : A -> bool)
  (inputs : list A) (x : A) :
  In x (forEachParallel_order head inputs) -> In x inputs.
Proof.
  unfold forEachParallel_order. intros H. apply in_app_or in H.
  destruct H as [H | H]; apply filter_In in H; exact (proj1 H).
Qed.

(** The rows of a listing are the rows of the records that the bucket
    holds. *)
Lemma getTagsV2_rows (account_uuid : string) (imgs : list ImageV2.t) :
  forall (acc rows : list DockerImage.t) (w w' : World),
    forEachPipeline (ListImages.getTagsV2 account_uuid) imgs acc w
    = (Called None tt, rows, w') ->
    map DockerImage.Id rows
    = (map DockerImage.Id acc ++ map ImageV2.digest imgs)%list.
Proof.
  unfold forEachPipeline.
  induction imgs as [| i rest IH]; intros acc rows w w' Hrun.
  - cbn in Hrun. inversion Hrun; subst. rewrite app_nil_r. reflexivity.
  - cbn [map pipeline] in Hrun. unfold ListImages.getTagsV2 at 1 in Hrun.
    destruct (negb (ImageV2.head i)).
    + apply IH in Hrun. rewrite Hrun, map_app, <- app_assoc. reflexivity.
    + destruct (tagsForImage (V2 i) account_uuid None w) as [[e | ts] w1].
      * discriminate Hrun.
      * apply IH in Hrun. rewrite Hrun, map_app, <- app_assoc. reflexivity.
Qed.

Lemma listDockerImagesV2_rows (all : bool) (account_uuid : string)
  (w w' : World) (rows : list DockerImage.t) :
  ListImages.listDockerImagesV2 all account_uuid w = (Called None rows, w') ->
  map DockerImage.Id rows
  = map ImageV2.digest
      (forEachParallel_order ImageV2.head
         (listObjs (docker_images_v2 w)
            (ListImages.head_filter all account_uuid))).
Proof.
  unfold ListImages.listDockerImagesV2, ImageV2_list, moray_call.
  intros H.
  destruct (moray_faults w) as [| [e |] fs]; try discriminate H.
  - destruct (forEachPipeline _ _ _ _) as [[[[e |] []| c] rows'] w1] eqn:Hrun;
      try discriminate H.
    inversion H; subst. apply getTagsV2_rows in Hrun. exact Hrun.
  - cbn [docker_images_v2 set_moray_faults] in H.
    destruct (forEachPipeline _ _ _ _) as [[[[e |] []| c] rows'] w1] eqn:Hrun;
      try discriminate H.
    inversion H; subst. apply getTagsV2_rows in Hrun. exact Hrun.
Qed.

Lemma getTags_rows (account_uuid : string) (imgs : list Image.t) :
  forall (acc rows : list DockerImage.t) (w w' : World),
    forEachPipeline (ListImages.getTags account_uuid) imgs acc w
    = (Called None tt, rows, w') ->
    map DockerImage.Id rows
    = (map DockerImage.Id acc ++ map Image.docker_id imgs)%list.
Proof.
  unfold forEachPipeline.
  induction imgs as [| i rest IH]; intros acc rows w w' Hrun.
  - cbn in Hrun. inversion Hrun; subst. rewrite app_nil_r. reflexivity.
  - cbn [map pipeline] in Hrun. unfold ListImages.getTags at 1 in Hrun.
    destruct (negb (Image.head i)).
    + apply IH in Hrun. rewrite Hrun, map_app, <- app_assoc. reflexivity.
    + destruct (tagsForImage (V1 i) account_uuid None w) as [[e | ts] w1].
      * discriminate Hrun.
      * apply IH in Hrun. rewrite Hrun, map_app, <- app_assoc. reflexivity.
Qed.

Lemma listDockerImagesV1_rows (all : bool) (account_uuid : string)
  (w w' : World) (rows : list DockerImage.t) :
  ListImages.listDockerImagesV1 all account_uuid w = (Called None rows, w') ->
  map DockerImage.Id rows
  = map Image.docker_id
      (forEachParallel_order Image.head
         (listObjs (docker_images w)
            (ListImages.head_filter all account_uuid))).
Proof.
  unfold ListImages.listDockerImagesV1, Image_list, moray_call.
  intros H.
  destruct (moray_faults w) as [| [e |] fs]; try discriminate H.
  - destruct (forEachPipeline _ _ _ _) as [[[[e |] []| c] rows'] w1] eqn:Hrun;
      try discriminate H.
    inversion H; subst. apply getTags_rows in Hrun. exact Hrun.
  - cbn [docker_images set_moray_faults] in H.
    destruct (forEachPipeline _ _ _ _) as [[[[e |] []| c] rows'] w1] eqn:Hrun;
      try discriminate H.
    inversion H; subst. apply getTags_rows in Hrun. exact Hrun.
Qed.

(** *** What a resolution returns is a stored record *)

Lemma in_listObjs {R : Type} `{MorayModel R} (bucket : list R) (flt : Filter)
  (r : R) :
  In r (listObjs bucket flt) -> In r bucket.
Proof. unfold listObjs. rewrite filter_In. tauto. Qed.

Lemma incl_delObj {R : Type} `{MorayModel R} (k : string) (bucket : list R) :
  incl (delObj k bucket) bucket.
Proof. intros r Hr. apply in_delObj in Hr. tauto. Qed.

Lemma shrinks_refl (w : World) : shrinks w w.
Proof. split; apply incl_refl. Qed.

Lemma shrinks_trans (w0 w1 w2 : World) :
  shrinks w0 w1 -> shrinks w1 w2 -> shrinks w0 w2.
Proof.
  intros (A1 & B1) (A2 & B2).
  split; eapply incl_tran; eassumption.
Qed.

Lemma stored_shrinks (img : Img) (w0 w : World) :
  shrinks w0 w -> stored img w -> stored img w0.
Proof.
  intros (A & B). destruct img as [i | i | u o]; cbn [stored]; auto.
Qed.

Lemma ImageV2_list_stored (flt : Filter) (w : World) :
  shrinks w (snd (ImageV2_list flt w))
  /\ forall imgs i, fst (ImageV2_list flt w) = Got imgs -> In i imgs ->
                    In i (docker_images_v2 w).
Proof.
  unfold ImageV2_list, moray_call.
  destruct (moray_faults w) as [| [e |] fs]; cbn [fst snd];
    (split; [(split; apply incl_refl) |]); intros imgs i E Hin;
    try discriminate E; inversion E; subst;
    apply in_listObjs in Hin; exact Hin.
Qed.

Lemma Image_list_stored (flt : Filter) (w : World) :
  shrinks w (snd (Image_list flt w))
  /\ forall imgs i, fst (Image_list flt w) = Got imgs -> In i imgs ->
                    In i (docker_images w).
Proof.
  unfold Image_list, moray_call.
  destruct (moray_faults w) as [| [e |] fs]; cbn [fst snd];
    (split; [(split; apply incl_refl) |]); intros imgs i E Hin;
    try discriminate E; inversion E; subst;
    apply in_listObjs in Hin; exact Hin.
Qed.

Lemma ImageTagV2_list_shrinks (flt : Filter) (w : World) :
  shrinks w (snd (ImageTagV2_list flt w)).
Proof.
  unfold ImageTagV2_list, moray_call.
  destruct (moray_faults w) as [| [e |] fs]; (split; apply incl_refl).
Qed.

Lemma ImageTag_list_shrinks (flt : Filter) (w : World) :
  shrinks w (snd (ImageTag_list flt w)).
Proof.
  unfold ImageTag_list, moray_call.
  destruct (moray_faults w) as [| [e |] fs]; (split; apply incl_refl).
Qed.

Lemma imgapi_getImage_shrinks (uuid : string) (w : World) :
  shrinks w (snd (imgapi_getImage uuid w)).
Proof.
  unfold imgapi_getImage, imgapi_call.
  destruct (imgapi_faults w) as [| [e |] fs]; cbn [fst snd];
    try (split; apply incl_refl);
    destruct (find _ _); (split; apply incl_refl).
Qed.

Lemma imgapi_getImage_where_shrinks (uuid os state : string) (w : World) :
  shrinks w (snd (imgapi_getImage_where uuid os state w)).
Proof.
  unfold imgapi_getImage_where, imgapi_call.
  destruct (imgapi_faults w) as [| [e |] fs]; cbn [fst snd];
    try (split; apply incl_refl);
    destruct (find _ _); (split; apply incl_refl).
Qed.

Lemma ImageV2_del_shrinks (i : ImageV2.t) (w : World) :
  shrinks w (snd (ImageV2_del i w)).
Proof.
  unfold ImageV2_del, moray_call.
  destruct (moray_faults w) as [| [e |] fs]; cbn [fst snd];
    try (split; apply incl_refl);
    (split; [apply incl_refl | apply incl_delObj]).
Qed.

Lemma Image_del_shrinks (i : Image.t) (w : World) :
  shrinks w (snd (Image_del i w)).
Proof.
  unfold Image_del, moray_call.
  destruct (moray_faults w) as [| [e |] fs]; cbn [fst snd];
    try (split; apply incl_refl);
    (split; [apply incl_delObj | apply incl_refl]).
Qed.

Lemma ImageTagV2_del_shrinks (t : ImageTagV2.t) (w : World) :
  shrinks w (snd (ImageTagV2_del t w)).
Proof.
  unfold ImageTagV2_del, moray_call.
  destruct (moray_faults w) as [| [e |] fs]; (split; apply incl_refl).
Qed.

Lemma ImageTag_del_shrinks (t : ImageTag.t) (w : World) :
  shrinks w (snd (ImageTag_del t w)).
Proof.
  unfold ImageTag_del, moray_call.
  destruct (moray_faults w) as [| [e |] fs]; (split; apply incl_refl).
Qed.

Lemma pipeline_keeps {L : Type} (P : L -> World -> Prop)
  (funcs : list (Stage L)) :
  Forall (keeps P) funcs ->
  forall (l : L) (w : World) (r : Result unit) (l' : L) (w' : World),
    P l w -> pipeline funcs l w = (r, l', w') -> P l' w'.
Proof.
  induction 1 as [| f rest Hf Hrest IH]; intros l w r l' w' HP Hrun.
  - cbn in Hrun. inversion Hrun; subst. exact HP.
  - cbn [pipeline] in Hrun.
    destruct (f l w) as [[out l1] w1] eqn:Hstep.
    pose proof (Hf _ _ _ _ _ HP Hstep) as HP1.
    destruct out as [[| [e |] [| ? ?]] | c];
      try (inversion Hrun; subst; exact HP1).
    eapply IH; eassumption.
Qed.

Ltac keep_img Hi Himg :=
  cbn [img]; let i' := fresh "i" in let E := fresh "E" in
  intros i' E; try rewrite Himg in E;
  first [discriminate E | exact (Hi i' E)].

(** What the stages of [_imgFromNameV2] keep. *)
Lemma ResolveV2_stages_keep (w0 : World) (opts : Opts.t) (rat : Rat.t) :
  Forall (keeps (fun (l : ResolveV2.Vars) (w : World) =>
                   shrinks w0 w
                   /\ forall i, img l = Some i ->
                                In i (docker_images_v2 w0)))
    [ResolveV2.findByName (Opts.account_uuid opts) (Rat.localName rat)
       (Rat.tag rat);
     ResolveV2.findImage (Opts.account_uuid opts) (Rat.localName rat);
     ResolveV2.isImageInImgapi;
     ResolveV2.delImgRef;
     ResolveV2.delImgTagRef].
Proof.
  repeat (apply Forall_cons; [| try apply Forall_nil]);
    intros l w out l' w' (Hs & Hi) H.
  - unfold ResolveV2.findByName in H.
    pose proof (ImageTagV2_list_shrinks
                  [("repo", Rat.localName rat);
                   ("owner_uuid", Opts.account_uuid opts);
                   ("tag", Rat.tag rat)] w) as Hl.
    destruct (ImageTagV2_list _ w) as [[e | [| t ts]] w1];
      cbn [snd] in Hl; inversion H; subst;
      (split; [eapply shrinks_trans; eassumption | exact Hi]).
  - unfold ResolveV2.findImage in H.
    destruct (ResolveV2.findImage_filter _ _ _) as [flt |].
    + pose proof (ImageV2_list_stored flt w) as (Hl & Hin).
      destruct (ImageV2_list flt w) as [[e | [| i [| j r]]] w1];
        cbn [fst snd] in Hl, Hin; inversion H; subst;
        (split; [eapply shrinks_trans; eassumption |]); try exact Hi.
      cbn [img]. intros i' E. inversion E; subst.
      apply (proj2 Hs). apply (Hin [i'] i' eq_refl). left. reflexivity.
    + inversion H; subst. split; assumption.
  - unfold ResolveV2.isImageInImgapi in H.
    destruct (img l) as [i |] eqn:Himg.
    + pose proof (imgapi_getImage_shrinks (ImageV2.image_uuid i) w) as Hl.
      destruct (imgapi_getImage _ w) as [[e | x] w1]; cbn [snd] in Hl.
      * destruct (Z.eqb (statusCode e) 404); inversion H; subst;
          (split; [eapply shrinks_trans; eassumption |]);
          cbn [img]; keep_img Hi Himg.
      * inversion H; subst.
        split; [eapply shrinks_trans; eassumption |].
        keep_img Hi Himg.
    + inversion H; subst. split; [assumption | keep_img Hi Himg].
  - unfold ResolveV2.delImgRef in H.
    destruct (img l) as [i |] eqn:Himg;
      [| inversion H; subst; split; [assumption |];
         keep_img Hi Himg].
    destruct (imgIsGone l);
      [| inversion H; subst; split; [assumption |];
         keep_img Hi Himg].
    pose proof (ImageV2_del_shrinks i w) as Hl.
    destruct (ImageV2_del i w) as [e w1]; cbn [snd] in Hl.
    inversion H; subst.
    split; [eapply shrinks_trans; eassumption |].
    keep_img Hi Himg.
  - unfold ResolveV2.delImgTagRef in H.
    destruct (imgIsGone l); [| inversion H; subst; split; assumption].
    destruct (imgTag l) as [t |]; [| inversion H; subst; split; assumption].
    pose proof (ImageTagV2_del_shrinks t w) as Hl.
    destruct (ImageTagV2_del t w) as [e w1]; cbn [snd] in Hl.
    inversion H; subst.
    split; [eapply shrinks_trans; eassumption | exact Hi].
Qed.

(** What the stages of [_imgFromNameV1] keep. *)
Lemma ResolveV1_stages_keep (w0 : World) (opts : Opts.t) (rat : Rat.t) :
  Forall (keeps (fun (l : ResolveV1.Vars) (w : World) =>
                   shrinks w0 w
                   /\ forall i, img l = Some i -> In i (docker_images w0)))
    [ResolveV1.findByName opts (Rat.localName rat) (Rat.tag rat);
     ResolveV1.findImage opts (Rat.localName rat);
     ResolveV1.isImageInImgapi;
     ResolveV1.delImgRef;
     ResolveV1.delImgTagRef].
Proof.
  repeat (apply Forall_cons; [| try apply Forall_nil]);
    intros l w out l' w' (Hs & Hi) H.
  - unfold ResolveV1.findByName in H.
    pose proof (ImageTag_list_shrinks
                  (scoped_to_index (Opts.index_name opts)
                     [("repo", Rat.localName rat);
                      ("owner_uuid", Opts.account_uuid opts);
                      ("tag", Rat.tag rat)]) w) as Hl.
    destruct (ImageTag_list _ w) as [[e | [| t ts]] w1];
      cbn [snd] in Hl; inversion H; subst;
      (split; [eapply shrinks_trans; eassumption | exact Hi]).
  - unfold ResolveV1.findImage in H.
    destruct (ResolveV1.findImage_filter _ _ _) as [flt |].
    + pose proof (Image_list_stored flt w) as (Hl & Hin).
      destruct (Image_list flt w) as [[e | [| i [| j r]]] w1];
        cbn [fst snd] in Hl, Hin;
        try destruct (ResolveV1.single_docker_id _);
        inversion H; subst;
        (split; [eapply shrinks_trans; eassumption |]); try exact Hi.
      cbn [img]. intros i' E. inversion E; subst.
      apply (proj1 Hs). apply (Hin [i'] i' eq_refl). left. reflexivity.
    + inversion H; subst. split; assumption.
  - unfold ResolveV1.isImageInImgapi in H.
    destruct (img l) as [i |] eqn:Himg.
    + pose proof (imgapi_getImage_shrinks (Image.image_uuid i) w) as Hl.
      destruct (imgapi_getImage _ w) as [[e | x] w1]; cbn [snd] in Hl.
      * destruct (Z.eqb (statusCode e) 404); inversion H; subst;
          (split; [eapply shrinks_trans; eassumption |]);
          cbn [img]; keep_img Hi Himg.
      * inversion H; subst.
        split; [eapply shrinks_trans; eassumption |].
        keep_img Hi Himg.
    + inversion H; subst. split; [assumption | keep_img Hi Himg].
  - unfold ResolveV1.delImgRef in H.
    destruct (img l) as [i |] eqn:Himg;
      [| inversion H; subst; split; [assumption |];
         keep_img Hi Himg].
    destruct (imgIsGone l);
      [| inversion H; subst; split; [assumption |];
         keep_img Hi Himg].
    pose proof (Image_del_shrinks i w) as Hl.
    destruct (Image_del i w) as [e w1]; cbn [snd] in Hl.
    inversion H; subst.
    split; [eapply shrinks_trans; eassumption |].
    keep_img Hi Himg.
  - unfold ResolveV1.delImgTagRef in H.
    destruct (imgIsGone l); [| inversion H; subst; split; assumption].
    destruct (imgTag l) as [t |]; [| inversion H; subst; split; assumption].
    pose proof (ImageTag_del_shrinks t w) as Hl.
    destruct (ImageTag_del t w) as [e w1]; cbn [snd] in Hl.
    inversion H; subst.
    split; [eapply shrinks_trans; eassumption | exact Hi].
Qed.


Lemma ResolveV2_returns_stored (opts : Opts.t) (rat : Rat.t) (w w' : World)
  (res : Result (option Img * option ImgTag)) :
  ResolveV2._imgFromNameV2 opts rat w = (res, w') ->
  shrinks w w'
  /\ forall err found t,
       res = Called err (Some found, t) -> stored found w.
Proof.
  unfold ResolveV2._imgFromNameV2. intros H.
  match type of H with
  | context [pipeline ?fs ?l0 w] =>
      destruct (pipeline fs l0 w) as [[r l] w1] eqn:Hp
  end.
  assert (HP : shrinks w w1
               /\ forall i, img l = Some i -> In i (docker_images_v2 w)).
  { refine (pipeline_keeps _ _ (ResolveV2_stages_keep w opts rat)
              _ _ _ _ _ _ Hp).
    split; [apply shrinks_refl | discriminate]. }
  destruct HP as (Hs & Hi). unfold resolved in H.
  destruct r as [[[] |] [] | c]; try destruct (imgIsGone l);
    inversion H; subst; (split; [exact Hs |]); intros err found t E;
    try discriminate E.
  - inversion E as [[He Hf Ht]].
    destruct (img l) as [i |]; [| discriminate Hf].
    inversion Hf; subst. cbn [stored]. apply Hi. reflexivity.
  - inversion E as [[He Hf Ht]].
    destruct (img l) as [i |]; [| discriminate Hf].
    inversion Hf; subst. cbn [stored]. apply Hi. reflexivity.
Qed.

Lemma ResolveV1_returns_stored (opts : Opts.t) (rat : Rat.t) (w w' : World)
  (res : Result (option Img * option ImgTag)) :
  ResolveV1._imgFromNameV1 opts rat w = (res, w') ->
  shrinks w w'
  /\ forall err found t,
       res = Called err (Some found, t) -> stored found w.
Proof.
  unfold ResolveV1._imgFromNameV1. intros H.
  match type of H with
  | context [pipeline ?fs ?l0 w] =>
      destruct (pipeline fs l0 w) as [[r l] w1] eqn:Hp
  end.
  assert (HP : shrinks w w1
               /\ forall i, img l = Some i -> In i (docker_images w)).
  { refine (pipeline_keeps _ _ (ResolveV1_stages_keep w opts rat)
              _ _ _ _ _ _ Hp).
    split; [apply shrinks_refl | discriminate]. }
  destruct HP as (Hs & Hi). unfold resolved in H.
  destruct r as [[[] |] [] | c]; try destruct (imgIsGone l);
    inversion H; subst; (split; [exact Hs |]); intros err found t E;
    try discriminate E.
  - inversion E as [[He Hf Ht]].
    destruct (img l) as [i |]; [| discriminate Hf].
    inversion Hf; subst. cbn [stored]. apply Hi. reflexivity.
  - inversion E as [[He Hf Ht]].
    destruct (img l) as [i |]; [| discriminate Hf].
    inversion Hf; subst. cbn [stored]. apply Hi. reflexivity.
Qed.

Lemma ByDigest_returns_stored (field value account_uuid notFound multiple
                                 : string) (w w' : World)
  (res : Result (option Img)) :
  ByDigest.finish
    (pipeline [ByDigest.findImage field value account_uuid notFound multiple;
               ByDigest.checkImageInImgapi] None w) = (res, w') ->
  shrinks w w'
  /\ forall found, res = Called None (Some found) -> stored found w.
Proof.
  intros H.
  match type of H with
  | context [pipeline ?fs ?l0 w] =>
      destruct (pipeline fs l0 w) as [[r l] w1] eqn:Hp
  end.
  assert (HP : shrinks w w1
               /\ forall i, l = Some i -> In i (docker_images_v2 w)).
  { refine (pipeline_keeps
              (fun l x => shrinks w x
                          /\ forall i, l = Some i -> In i (docker_images_v2 w))
              _ _ _ _ _ _ _ _ Hp);
      [| split; [apply shrinks_refl | discriminate]].
    repeat (apply Forall_cons; [| try apply Forall_nil]);
      intros l1 x out l1' x' (Hs & Hi) Hst.
    - unfold ByDigest.findImage in Hst.
      pose proof (ImageV2_list_stored
                    [(field, value); ("owner_uuid", account_uuid)] x)
        as (Hl & Hin).
      destruct (ImageV2_list _ x) as [[e | [| i [| j r0]]] x1];
        cbn [fst snd] in Hl, Hin; inversion Hst; subst;
        (split; [eapply shrinks_trans; eassumption |]); try exact Hi.
      intros i' E. inversion E; subst.
      apply (proj2 Hs). apply (Hin [i'] i' eq_refl). left. reflexivity.
    - unfold ByDigest.checkImageInImgapi in Hst.
      destruct l1 as [i |]; [| inversion Hst; subst; split; assumption].
      pose proof (imgapi_getImage_shrinks (ImageV2.image_uuid i) x) as Hl.
      destruct (imgapi_getImage _ x) as [[e | y] x1]; cbn [snd] in Hl;
        try destruct (Z.eqb (statusCode e) 404); inversion Hst; subst;
        (split; [eapply shrinks_trans; eassumption | exact Hi]). }
  destruct HP as (Hs & Hi). unfold ByDigest.finish in H.
  destruct r as [[e |] [] | c]; inversion H; subst;
    (split; [exact Hs |]); intros found E; try discriminate E.
  inversion E as [Hf]. destruct l as [i |]; [| discriminate Hf].
  inversion Hf; subst. cbn [stored]. apply Hi. reflexivity.
Qed.

Lemma imgFromName_returns_stored (ext : Externals) (opts : Opts.t)
  (w w' : World) (res : Result (option Img * option ImgTag)) :
  imgFromName ext opts w = (res, w') ->
  shrinks w w'
  /\ forall found t, res = Called None (Some found, t) -> stored found w.
Proof.
  unfold imgFromName. intros H.
  destruct (parseRepoAndTag ext (Opts.name opts)) as [rat | msg];
    [| inversion H; subst; split; [apply shrinks_refl | discriminate]].
  match type of H with
  | context [pipeline ?fs ?l0 w] =>
      destruct (pipeline fs l0 w) as [[r l] w1] eqn:Hp
  end.
  assert (HP : shrinks w w1
               /\ forall found, fst l = Some found -> stored found w).
  { refine (pipeline_keeps
              (fun (l : ImgFromName.Vars) x =>
                 shrinks w x
                 /\ forall found, fst l = Some found -> stored found w)
              _ _ _ _ _ _ _ _ Hp);
      [| split; [apply shrinks_refl | discriminate]].
    assert (Hcb : forall (l1 l1' : ImgFromName.Vars) x x' out rr,
               shrinks w x ->
               (forall found, fst l1 = Some found -> stored found w) ->
               (shrinks x (snd rr)
                /\ forall found, fst rr = Called None (Some found) ->
                                 stored found x) ->
               ImgFromName._imgFromDigestCb l1 rr = (out, l1', x') ->
               shrinks w x'
               /\ forall found, fst l1' = Some found -> stored found w).
    { intros l1 l1' x x' out [rres rw] Hs Hi (Hs2 & Hst2) Hcb.
      cbn [fst snd] in Hs2, Hst2. unfold ImgFromName._imgFromDigestCb in Hcb.
      destruct rres as [[e |] [f |] | c]; inversion Hcb; subst;
        (split; [eapply shrinks_trans; eassumption |]); try exact Hi.
      cbn [fst]. intros found E. inversion E; subst.
      eapply stored_shrinks; [exact Hs |]. apply Hst2. reflexivity. }
    repeat (apply Forall_cons; [| try apply Forall_nil]);
      intros l1 x out l1' x' (Hs & Hi) Hst.
    - unfold ImgFromName.findUuidInImgapi in Hst.
      destruct (negb (Opts.includeSmartos opts) || _);
        [inversion Hst; subst; split; assumption |].
      pose proof (imgapi_getImage_where_shrinks (Rat.localName rat)
                    "smartos" "active" x) as Hl.
      destruct (imgapi_getImage_where _ _ _ x) as [[e | y] x1];
        cbn [snd] in Hl; try destruct (Z.eqb (statusCode e) 404);
        inversion Hst; subst;
        (split; [eapply shrinks_trans; eassumption |]); try exact Hi.
      cbn [fst]. intros found E. inversion E; subst. exact I.
    - unfold ImgFromName.findByManifestDigest in Hst.
      destruct (Rat.digest rat) as [[| c r0] |];
        try (inversion Hst; subst; split; assumption).
      eapply (Hcb _ _ _ _ _ _ Hs Hi); [| exact Hst].
      destruct (imgFromManifestDigest _ _ x) as [rres rw] eqn:Hd.
      unfold imgFromManifestDigest in Hd.
      apply ByDigest_returns_stored in Hd. exact Hd.
    - unfold ImgFromName.findByImageDigest in Hst.
      destruct (negb _ || negb _);
        try (inversion Hst; subst; split; assumption).
      eapply (Hcb _ _ _ _ _ _ Hs Hi); [| exact Hst].
      destruct (imgFromDigest _ _ x) as [rres rw] eqn:Hd.
      unfold imgFromDigest in Hd.
      apply ByDigest_returns_stored in Hd. exact Hd.
    - unfold ImgFromName.findByNameV2 in Hst.
      destruct (ResolveV2._imgFromNameV2 opts rat x) as [rres rw] eqn:Hr.
      apply ResolveV2_returns_stored in Hr. destruct Hr as (Hs2 & Hst2).
      destruct rres as [err [f t] | c];
        [| inversion Hst; subst;
           split; [eapply shrinks_trans; eassumption | exact Hi]].
      assert (Hf : forall found, f = Some found -> stored found w).
      { intros found ->. eapply stored_shrinks; [exact Hs |].
        eapply Hst2. reflexivity. }
      destruct f as [found |]; destruct err as [e |];
        inversion Hst; subst;
        (split; [eapply shrinks_trans; eassumption |]);
        cbn [fst]; intros g E; try discriminate E; apply Hf; exact E.
    - unfold ImgFromName.findByNameV1 in Hst.
      destruct (ResolveV1._imgFromNameV1 opts rat x) as [rres rw] eqn:Hr.
      apply ResolveV1_returns_stored in Hr. destruct Hr as (Hs2 & Hst2).
      destruct rres as [err [f t] | c];
        inversion Hst; subst;
        (split; [eapply shrinks_trans; eassumption |]); try exact Hi.
      cbn [fst]. intros g E. subst f.
      eapply stored_shrinks; [exact Hs |]. eapply Hst2. reflexivity. }
  destruct HP as (Hs & Hi). unfold ImgFromName.finish in H.
  destruct r as [[[] |] [] | c]; inversion H; subst;
    (split; [exact Hs |]); intros found t E; try discriminate E;
    inversion E as [Hf]; apply Hi; rewrite Hf; reflexivity.
Qed.

Lemma inspectImage_returns_stored (ext : Externals) (opts : Opts.t)
  (w w' : World) (found : Img) (tags : list ImgTag) :
  inspectImage ext opts w = (Called None (Some (found, tags)), w') ->
  stored found w.
Proof.
  unfold inspectImage. intros H.
  destruct (imgFromName ext opts w) as [res w1] eqn:Hr.
  apply imgFromName_returns_stored in Hr. destruct Hr as (_ & Hst).
  destruct res as [[e |] [[f |] t] | c]; try discriminate H.
  destruct (tagsForImage f _ _ w1) as [[e | ts] w2]; try discriminate H.
  inversion H; subst. eapply Hst. reflexivity.
Qed.

Lemma not_shown_v2_intro (i : ImageV2.t) (w : World) :
  (forall r, In r (docker_images_v2 w) -> key r <> key i) ->
  not_shown_v2 i w.
Proof.
  intros Hgone. split; [exact Hgone |]. split.
  - intros ext opts found tags w' H E. subst found.
    apply inspectImage_returns_stored in H. cbn [stored] in H.
    apply (Hgone i H). reflexivity.
  - intros all acct rows w' H.
    exists (forEachParallel_order ImageV2.head
              (listObjs (docker_images_v2 w)
                 (ListImages.head_filter all acct))).
    split; [apply (listDockerImagesV2_rows _ _ _ _ _ H) |].
    intros r Hr. apply in_forEachParallel_order in Hr.
    apply in_listObjs in Hr. split; [exact Hr | exact (Hgone r Hr)].
Qed.

Lemma not_shown_v1_intro (i : Image.t) (w : World) :
  (forall r, In r (docker_images w) -> key r <> key i) ->
  not_shown_v1 i w.
Proof.
  intros Hgone. split; [exact Hgone |]. split.
  - intros ext opts found tags w' H E. subst found.
    apply inspectImage_returns_stored in H. cbn [stored] in H.
    apply (Hgone i H). reflexivity.
  - intros all acct rows w' H.
    exists (forEachParallel_order Image.head
              (listObjs (docker_images w)
                 (ListImages.head_filter all acct))).
    split; [apply (listDockerImagesV1_rows _ _ _ _ _ H) |].
    intros r Hr. apply in_forEachParallel_order in Hr.
    apply in_listObjs in Hr. split; [exact Hr | exact (Hgone r Hr)].
Qed.

Lemma ByDigest_stale (field value account_uuid notFound multiple : string)
  (w : World) (i : ImageV2.t) :
  moray_faults w = [] ->
  listObjs (docker_images_v2 w) [(field, value); ("owner_uuid", account_uuid)]
  = [i] ->
  blob_absent (ImageV2.image_uuid i) w ->
  ByDigest.finish
    (pipeline [ByDigest.findImage field value account_uuid notFound multiple;
               ByDigest.checkImageInImgapi] None w)
  = (Called (Some (ResourceNotFoundError
                     ("No imgapi image with image_uuid: "
                      ++ ImageV2.image_uuid i))) None, w).
Proof.
  intros Hq Himg Hgone. cbn [pipeline].
  unfold ByDigest.findImage, ImageV2_list.
  rewrite (moray_call_quiet w Hq), Himg.
  unfold ByDigest.checkImageInImgapi.
  rewrite (imgapi_getImage_absent _ _ Hgone).
  reflexivity.
Qed.

(** C3 (as amended).  Moray and IMGAPI answer.  When [_imgFromNameV2]
    (resp. [_imgFromNameV1]) finds exactly one image record, through
    the tag record of the name or through an ID prefix, and the blob of
    the record is not in IMGAPI, it deletes the image record, and the
    tag record when it went through one, and calls back with neither
    error nor record; the record is not shown afterwards: no record of
    the bucket has its key, [inspectImage] never returns it, a listing
    has rows of other stored records only.  When both resolvers call
    back with nothing for a name that goes to them, [inspectImage] and
    [deleteImage] call back with [ResourceNotFoundError].  When
    [imgFromDigest] (resp. [imgFromManifestDigest]) finds exactly one
    record and its blob is not in IMGAPI, it calls back with
    [ResourceNotFoundError]. *)
Theorem C3_stale_record_is_healed
  (ext : Externals) (opts : Opts.t) (rat : Rat.t) (w : World)
  (Hquiet : moray_faults w = []) :
  (forall (tags : list ImageTagV2.t) (flt : Filter) (i : ImageV2.t),
      listObjs (docker_image_tags_v2 w)
        [("repo", Rat.localName rat); ("owner_uuid", Opts.account_uuid opts);
         ("tag", Rat.tag rat)] = tags ->
      ResolveV2.findImage_filter (Opts.account_uuid opts) (Rat.localName rat)
        (hd_error tags) = Some flt ->
      listObjs (docker_images_v2 w) flt = [i] ->
      blob_absent (ImageV2.image_uuid i) w ->
      exists w2 : World,
        ResolveV2._imgFromNameV2 opts rat w = (Called None (None, None), w2)
        /\ docker_images_v2 w2 = delObj (key i) (docker_images_v2 w)
        /\ docker_image_tags_v2 w2
           = match hd_error tags with
             | Some t => delObj (key t) (docker_image_tags_v2 w)
             | None => docker_image_tags_v2 w
             end
        /\ not_shown_v2 i w2)
  /\ (forall (tags : list ImageTag.t) (flt : Filter) (i : Image.t),
         listObjs (docker_image_tags w)
           (scoped_to_index (Opts.index_name opts)
              [("repo", Rat.localName rat);
               ("owner_uuid", Opts.account_uuid opts);
               ("tag", Rat.tag rat)]) = tags ->
         ResolveV1.findImage_filter opts (Rat.localName rat) (hd_error tags)
         = Some flt ->
         listObjs (docker_images w) flt = [i] ->
         blob_absent (Image.image_uuid i) w ->
         exists w2 : World,
           ResolveV1._imgFromNameV1 opts rat w
           = (Called None (None, None), w2)
           /\ docker_images w2 = delObj (key i) (docker_images w)
           /\ docker_image_tags w2
              = match hd_error tags with
                | Some t => delObj (key t) (docker_image_tags w)
                | None => docker_image_tags w
                end
           /\ not_shown_v1 i w2)
  /\ (resolved_by_name ext opts rat ->
      forall w1 w2 : World,
        ResolveV2._imgFromNameV2 opts rat w = (Called None (None, None), w1) ->
        ResolveV1._imgFromNameV1 opts rat w1
        = (Called None (None, None), w2) ->
        inspectImage ext opts w
        = (Called (Some (ResourceNotFoundError
                           ("No such image: " ++ Opts.name opts))) None, w2)
        /\ forall fuel : nat,
             deleteImage ext fuel opts w
             = (Called (Some (ResourceNotFoundError
                                ("No such image: " ++ Opts.name opts)))
                       None, w2))
  /\ (forall (digest : string) (i : ImageV2.t),
         blob_absent (ImageV2.image_uuid i) w ->
         (listObjs (docker_images_v2 w)
            [("digest", digest); ("owner_uuid", Opts.account_uuid opts)]
          = [i] ->
          fst (imgFromDigest (Opts.account_uuid opts) digest w)
          = Called (Some (ResourceNotFoundError
                            ("No imgapi image with image_uuid: "
                             ++ ImageV2.image_uuid i))) None)
         /\ (listObjs (docker_images_v2 w)
               [("manifest_digest", digest);
                ("owner_uuid", Opts.account_uuid opts)]
             = [i] ->
             fst (imgFromManifestDigest (Opts.account_uuid opts) digest w)
             = Called (Some (ResourceNotFoundError
                               ("No imgapi image with image_uuid: "
                                ++ ImageV2.image_uuid i))) None)).
Proof.
  split; [| split; [| split]].
  - intros tags flt i Htags Hflt Himg Hgone.
    eexists. split; [apply (ResolveV2_heals opts rat w tags flt i); assumption |].
    cbn zeta.
    destruct (hd_error tags) as [t |];
      cbn [docker_images_v2 docker_image_tags_v2 set_docker_images_v2
             set_docker_image_tags_v2];
      (split; [reflexivity |]); (split; [reflexivity |]);
      apply not_shown_v2_intro;
      cbn [docker_images_v2 set_docker_images_v2 set_docker_image_tags_v2];
      intros r Hr; apply in_delObj in Hr; tauto.
  - intros tags flt i Htags Hflt Himg Hgone.
    eexists. split; [apply (ResolveV1_heals opts rat w tags flt i); assumption |].
    cbn zeta.
    destruct (hd_error tags) as [t |];
      cbn [docker_images docker_image_tags set_docker_images
             set_docker_image_tags];
      (split; [reflexivity |]); (split; [reflexivity |]);
      apply not_shown_v1_intro;
      cbn [docker_images set_docker_images set_docker_image_tags];
      intros r Hr; apply in_delObj in Hr; tauto.
  - intros Hname w1 w2 Hv2 Hv1.
    pose proof (imgFromName_v1_after_v2 ext opts rat w w1 w2 None
                  (None, None) Hname Hv2 Hv1) as Hres.
    split; [| intros fuel].
    + unfold inspectImage. rewrite Hres. reflexivity.
    + unfold deleteImage. rewrite Hres. reflexivity.
  - intros digest i Hgone. split; intros Himg.
    + unfold imgFromDigest.
      rewrite (ByDigest_stale _ _ _ _ _ w i Hquiet Himg Hgone). reflexivity.
    + unfold imgFromManifestDigest.
      rewrite (ByDigest_stale _ _ _ _ _ w i Hquiet Himg Hgone). reflexivity.
Qed.

Lemma C3_witness :
  (exists w2 : World,
      ResolveV2._imgFromNameV2 (opts_for "nginx" false)
        (Rat.mk "nginx" "latest" None) stale_world
      = (Called None (None, None), w2)
      /\ docker_images_v2 w2 = []
      /\ docker_image_tags_v2 w2 = []
      /\ not_shown_v2 nginx_v2 w2)
  /\ (exists w2 : World,
        ResolveV1._imgFromNameV1 (opts_for "ef87" false)
          (Rat.mk "ef87" "latest" None) stale_v1_world
        = (Called None (None, None), w2)
        /\ docker_images w2 = []
        /\ docker_image_tags w2 = [busybox_v1_tag]
        /\ not_shown_v1 busybox_v1 w2)
  /\ inspectImage sample_ext (opts_for "nginx" false) stale_world
     = (Called (Some (ResourceNotFoundError "No such image: nginx")) None,
        empty_world)
  /\ fst (imgFromDigest alice nginx_digest stale_world)
     = Called (Some (ResourceNotFoundError
                       "No imgapi image with image_uuid: uuid-nginx")) None.
Proof.
  split; [| split; [| split]].
  - refine (proj1 (C3_stale_record_is_healed sample_ext
                     (opts_for "nginx" false) (Rat.mk "nginx" "latest" None)
                     stale_world eq_refl)
              [nginx_latest]
              [("digest", nginx_digest); ("owner_uuid", alice)]
              nginx_v2 eq_refl eq_refl eq_refl _).
    split; reflexivity.
  - refine (proj1 (proj2 (C3_stale_record_is_healed sample_ext
                     (opts_for "ef87" false) (Rat.mk "ef87" "latest" None)
                     stale_v1_world eq_refl))
              []
              [("docker_id", "ef87*"); ("owner_uuid", alice)]
              busybox_v1 eq_refl eq_refl eq_refl _).
    split; reflexivity.
  - refine (proj1 (proj1 (proj2 (proj2 (C3_stale_record_is_healed sample_ext
                     (opts_for "nginx" false) (Rat.mk "nginx" "latest" None)
                     stale_world eq_refl))) _ empty_world empty_world _ _)).
    + repeat split; reflexivity.
    + vm_compute. reflexivity.
    + vm_compute. reflexivity.
  - refine (proj1 (proj2 (proj2 (proj2 (C3_stale_record_is_healed sample_ext
                     (opts_for "nginx" false) (Rat.mk "nginx" "latest" None)
                     stale_world eq_refl)))
                    nginx_digest nginx_v2 _) eq_refl).
    split; reflexivity.
Defined.

(** (1) A v2 record whose blob is gone, resolved by its full image
    digest: [imgFromName] calls back with [ResourceNotFoundError] and
    deletes nothing; the record is still stored and a listing still shows
    it.  (2) A stale v2 [busybox:latest] next to a live v1
    [busybox:latest]: the stale record is deleted, and the caller of
    [inspectImage] is handed the v1 image, not [ResourceNotFound]. *)
Lemma C3_counterexample :
  (imgFromName sample_ext (opts_for nginx_digest false) stale_world
   = (Called (Some (ResourceNotFoundError
                      "No imgapi image with image_uuid: uuid-nginx"))
             (None, None), stale_world)
   /\ blob_absent (ImageV2.image_uuid nginx_v2) stale_world
   /\ In nginx_v2 (docker_images_v2 stale_world)
   /\ fst (ListImages.listDockerImagesV2 true alice stale_world)
      = Called None
          [DockerImage.mk nginx_digest "" ["nginx:latest"]
             ["nginx@sha256:aaaaaaaaaaaaaaaaaaaaaaaaaaaaaaaaaaaaaaaaaaaaaaaaaaaaaaaaaaaaaaaa"]
             (Some 1500000000%Z) 1000])
  /\ (blob_absent (ImageV2.image_uuid busybox_v2_stale) stale_v2_live_v1_world
      /\ inspectImage sample_ext (opts_for "busybox" false)
           stale_v2_live_v1_world
         = (Called None (Some (V1 busybox_v1, [TagV1 busybox_v1_tag])),
            mkWorld [busybox_v1; base_layer] [busybox_v1_tag] [] []
              [live "uuid-busybox"; live "uuid-base"] [] []
              (fun _ _ => []) [] [] [])).
Proof.
  split; [split; [| split; [| split]] | split].
  - vm_compute. reflexivity.
  - split; reflexivity.
  - left. reflexivity.
  - vm_compute. reflexivity.
  - split; reflexivity.
  - vm_compute. reflexivity.
Qed.

(* ------------------------------------------------------------------ *)
(** ** Further properties *)

(** *** The ancestry walk *)

Lemma moray_call_same_records (w : World) :
  same_records w (snd (moray_call w)).
Proof.
  unfold moray_call. destruct (moray_faults w); repeat split; reflexivity.
Qed.

Lemma same_records_refl (w : World) : same_records w w.
Proof. repeat split; reflexivity. Qed.

Lemma same_records_trans (w0 w1 w2 : World) :
  same_records w0 w1 -> same_records w1 w2 -> same_records w0 w2.
Proof.
  intros (A & B & C & D) (A' & B' & C' & D').
  repeat split; congruence.
Qed.

Lemma Image_list_reads (flt : Filter) (w : World) :
  same_records w (snd (Image_list flt w))
  /\ forall l, fst (Image_list flt w) = Got l ->
               l = listObjs (docker_images w) flt.
Proof.
  unfold Image_list.
  pose proof (moray_call_same_records w) as Hs.
  destruct (moray_call w) as [[e |] w']; cbn [fst snd] in *;
    (split; [exact Hs |]); intros l E; inversion E.
  destruct Hs as (-> & _). reflexivity.
Qed.

Lemma ImageV2_list_reads (flt : Filter) (w : World) :
  same_records w (snd (ImageV2_list flt w))
  /\ forall l, fst (ImageV2_list flt w) = Got l ->
               l = listObjs (docker_images_v2 w) flt.
Proof.
  unfold ImageV2_list.
  pose proof (moray_call_same_records w) as Hs.
  destruct (moray_call w) as [[e |] w']; cbn [fst snd] in *;
    (split; [exact Hs |]); intros l E; inversion E.
  destruct Hs as (_ & _ & -> & _). reflexivity.
Qed.

Lemma ImageTag_list_reads (flt : Filter) (w : World) :
  same_records w (snd (ImageTag_list flt w))
  /\ forall l, fst (ImageTag_list flt w) = Got l ->
               l = listObjs (docker_image_tags w) flt.
Proof.
  unfold ImageTag_list.
  pose proof (moray_call_same_records w) as Hs.
  destruct (moray_call w) as [[e |] w']; cbn [fst snd] in *;
    (split; [exact Hs |]); intros l E; inversion E.
  destruct Hs as (_ & -> & _). reflexivity.
Qed.

Lemma ImageTagV2_list_reads (flt : Filter) (w : World) :
  same_records w (snd (ImageTagV2_list flt w))
  /\ forall l, fst (ImageTagV2_list flt w) = Got l ->
               l = listObjs (docker_image_tags_v2 w) flt.
Proof.
  unfold ImageTagV2_list.
  pose proof (moray_call_same_records w) as Hs.
  destruct (moray_call w) as [[e |] w']; cbn [fst snd] in *;
    (split; [exact Hs |]); intros l E; inversion E.
  destruct Hs as (_ & _ & _ & ->). reflexivity.
Qed.

(** A look-up of the parent reads the bucket of the child; when it
    succeeds, the record it returns is the one record that its filter
    selects. *)
Lemma lookupParent_reads (account_uuid : string) (img : Img) (w : World) :
  same_records w (snd (lookupParent account_uuid img w))
  /\ forall p, fst (lookupParent account_uuid img w) = Called None (Some p) ->
               img_parent img <> "" -> parent_of account_uuid w img p.
Proof.
  destruct img as [i | i | u o]; cbn [lookupParent img_parent].
  - unfold imgFromImgInfoV1.
    destruct (Image_list_reads
                [("owner_uuid", account_uuid);
                 ("index_name", Image.index_name i);
                 ("docker_id", Image.parent i)] w) as (Hs & Hl).
    destruct (Image_list _ w) as [[e | l] w']; cbn [fst snd] in *.
    + split; [exact Hs | intros p E; discriminate E].
    + specialize (Hl l eq_refl).
      destruct l as [| a [| b r]]; cbn [fst snd];
        (split; [exact Hs |]); intros p E _; inversion E; subst.
      cbn [parent_of]. symmetry. exact Hl.
  - unfold imgFromImgInfoV2.
    destruct (ImageV2_list_reads
                [("owner_uuid", account_uuid); ("digest", ImageV2.parent i)] w)
      as (Hs & Hl).
    destruct (ImageV2_list _ w) as [[e | l] w']; cbn [fst snd] in *.
    + split; [exact Hs | intros p E; discriminate E].
    + specialize (Hl l eq_refl).
      destruct l as [| a [| b r]]; cbn [fst snd];
        (split; [exact Hs |]); intros p E _; inversion E; subst.
      cbn [parent_of]. symmetry. exact Hl.
  - split; [| intros p _ H; contradiction H; reflexivity].
    unfold imgFromImgInfoV1.
    destruct (Image_list_reads
                [("owner_uuid", account_uuid); ("index_name", "undefined");
                 ("docker_id", "")] w) as (Hs & _).
    destruct (Image_list _ w) as [[e | [| a [| b r]]] w']; exact Hs.
Qed.

Lemma parent_of_same_records (account_uuid : string) (w w' : World)
  (a b : Img) :
  same_records w w' -> parent_of account_uuid w' a b ->
  parent_of account_uuid w a b.
Proof.
  intros (E1 & _ & E2 & _). unfold parent_of.
  rewrite E1, E2. exact (fun H => H).
Qed.

Lemma chain_same_records (account_uuid : string) (w w' : World)
  (l : list Img) :
  same_records w w' -> chain account_uuid w' l -> chain account_uuid w l.
Proof.
  intros Hs. induction l as [| a [| b r] IH]; cbn [chain]; auto.
  intros (Hp & Hl & Hc). split; [exact Hp |]. split.
  - eapply parent_of_same_records; eassumption.
  - apply IH. exact Hc.
Qed.

Lemma checkAndCallback_shape (ancestry : list Img) (err : option Error) :
  ancestry <> [] ->
  match checkAndCallback ancestry err with
  | Called None (anc, partial) =>
      anc = ancestry /\ (partial = false <-> err = None)
  | Called (Some e) (anc, partial) =>
      err = Some e /\ restCode e <> "ResourceNotFound"
      /\ anc = [] /\ partial = false
  | Crashed _ => False
  end.
Proof.
  intros Hne. unfold checkAndCallback. destruct err as [e |].
  - destruct (String.eqb_spec (restCode e) "ResourceNotFound") as [E | E];
      cbn [andb].
    + destruct ancestry; [contradiction |]. cbn [List.length Nat.leb].
      split; [reflexivity |]. split; discriminate.
    + repeat split; assumption.
  - split; [reflexivity |]. split; reflexivity.
Qed.

(** A look-up of the parent calls back with a record and no error, or
    with an error and no record, or stops at its assertion. *)
Lemma lookupParent_outcomes (account_uuid : string) (img : Img) (w : World) :
  match fst (lookupParent account_uuid img w) with
  | Called None (Some _) | Called (Some _) None => True
  | Called _ _ => False
  | Crashed c => c = AssertionError "imgs.length == 1"
  end.
Proof.
  destruct img as [i | i | u o]; cbn [lookupParent];
    unfold imgFromImgInfoV1, imgFromImgInfoV2.
  - destruct (Image_list _ w) as [[e | [| a [| b r]]] w']; cbn; auto.
  - destruct (ImageV2_list _ w) as [[e | [| a [| b r]]] w']; cbn; auto.
  - destruct (Image_list _ w) as [[e | [| a [| b r]]] w']; cbn; auto.
Qed.

Lemma addAndGetNextItem_walk (account_uuid : string) (fuel : nat) :
  forall (acc : list Img) (img : Img) (w : World),
    same_records w (snd (addAndGetNextItem fuel account_uuid acc img w))
    /\ match fst (addAndGetNextItem fuel account_uuid acc img w) with
       | Called None (ancestry, partial) =>
           exists rest : list Img,
             ancestry = (acc ++ img :: rest)%list
             /\ chain account_uuid w (img :: rest)
             /\ (partial = false -> img_parent (last rest img) = "")
             /\ (partial = true -> img_parent (last rest img) <> "")
       | Called (Some e) (ancestry, partial) =>
           restCode e <> "ResourceNotFound"
           /\ ancestry = [] /\ partial = false
       | Crashed c =>
           c = OutOfFuel \/ c = AssertionError "imgs.length == 1"
       end.
Proof.
  induction fuel as [| fuel IH]; intros acc img w.
  - cbn. split; [apply same_records_refl | left; reflexivity].
  - cbn [addAndGetNextItem].
    assert (Hne : (acc ++ [img])%list <> []) by (destruct acc; discriminate).
    destruct (String.eqb_spec (img_parent img) "") as [Hroot | Hpar].
    + cbn [fst snd]. split; [apply same_records_refl |].
      cbn [checkAndCallback]. exists []. cbn [last chain].
      repeat split; auto. discriminate.
    + destruct (lookupParent_reads account_uuid img w) as (Hs & Hp).
      pose proof (lookupParent_outcomes account_uuid img w) as Hout.
      assert (Hfail : forall e,
                 same_records w w ->
                 match checkAndCallback (acc ++ [img]) (Some e) with
                 | Called None (ancestry, partial) =>
                     exists rest : list Img,
                       ancestry = (acc ++ img :: rest)%list
                       /\ chain account_uuid w (img :: rest)
                       /\ (partial = false -> img_parent (last rest img) = "")
                       /\ (partial = true
                           -> img_parent (last rest img) <> "")
                 | Called (Some e) (ancestry, partial) =>
                     restCode e <> "ResourceNotFound"
                     /\ ancestry = [] /\ partial = false
                 | Crashed c =>
                     c = OutOfFuel \/ c = AssertionError "imgs.length == 1"
                 end).
      { intros e _.
        pose proof (checkAndCallback_shape (acc ++ [img]) (Some e) Hne) as Hc.
        destruct (checkAndCallback _ _) as [[e' |] [anc partial] | c];
          [| | contradiction].
        - destruct Hc as (_ & ? & ? & ?). auto.
        - destruct Hc as (-> & Hpartial). exists [].
          cbn [last chain]. repeat split; auto.
          intros ->. destruct Hpartial as [Hpartial _].
          discriminate (Hpartial eq_refl). }
      destruct (lookupParent account_uuid img w) as [[err [p |] | c] w1]
        eqn:Hlook; cbn [fst snd] in *.
      * destruct err as [e |]; [contradiction |].
        specialize (IH (acc ++ [img])%list p w1).
        destruct IH as (Hs1 & IH). split.
        -- eapply same_records_trans; eassumption.
        -- destruct (fst (addAndGetNextItem fuel account_uuid
                            (acc ++ [img]) p w1))
             as [[e |] [anc partial] | c]; [exact IH | | exact IH].
           destruct IH as (rest & -> & Hchain & Hend & Hmid).
           exists (p :: rest). rewrite <- app_assoc. cbn [app].
           rewrite last_cons.
           split; [reflexivity |]. split; [| split; assumption].
           split; [exact Hpar |]. split.
           ++ apply Hp; [reflexivity | exact Hpar].
           ++ eapply chain_same_records; eassumption.
      * destruct err as [e |]; [| contradiction].
        cbn [fst snd]. split; [exact Hs |].
        apply Hfail. apply same_records_refl.
      * cbn [fst snd]. split; [exact Hs |]. right. exact Hout.
Qed.

Lemma getImageAncestry_walk
  (fuel : nat) (account_uuid : string) (img : Img) (w : World) :
  same_records w (snd (getImageAncestry fuel account_uuid img w))
  /\ match fst (getImageAncestry fuel account_uuid img w) with
     | Called None (ancestry, partial) =>
         exists rest : list Img,
           ancestry = img :: rest
           /\ chain account_uuid w (img :: rest)
           /\ (partial = false -> img_parent (last rest img) = "")
           /\ (partial = true -> img_parent (last rest img) <> "")
     | Called (Some e) (ancestry, partial) =>
         restCode e <> "ResourceNotFound"
         /\ ancestry = [] /\ partial = false
     | Crashed c =>
         c = OutOfFuel \/ c = AssertionError "imgs.length == 1"
     end.
Proof.
  unfold getImageAncestry.
  exact (addAndGetNextItem_walk account_uuid fuel [] img w).
Qed.

(** X1.  [getImageAncestry] only reads the buckets.  When it calls back
    without error, the ancestry is the image it was given followed by a
    chain of stored records: each record names a parent, and the next
    record is the one record of the same bucket that the owner has under
    that parent id; a walk that is not partial ends at a record without
    parent, a partial one at a record whose parent was not found.  When
    it calls back with an error, the error is never a
    [ResourceNotFound] (a parent that is not found makes the ancestry
    partial, the ancestry holding the image itself at least), and no
    ancestry comes with it.  The only assertion on its way is that of
    the look-ups, on a parent id that selects several records. *)
Theorem getImageAncestry_is_a_chain_of_stored_records
  (fuel : nat) (account_uuid : string) (img : Img) (w : World) :
  same_records w (snd (getImageAncestry fuel account_uuid img w))
  /\ match fst (getImageAncestry fuel account_uuid img w) with
     | Called None (ancestry, partial) =>
         exists rest : list Img,
           ancestry = img :: rest
           /\ chain account_uuid w (img :: rest)
           /\ (partial = false -> img_parent (last rest img) = "")
           /\ (partial = true -> img_parent (last rest img) <> "")
     | Called (Some e) (ancestry, partial) =>
         restCode e <> "ResourceNotFound"
         /\ ancestry = [] /\ partial = false
     | Crashed c =>
         c = OutOfFuel \/ c = AssertionError "imgs.length == 1"
     end.
Proof. exact (getImageAncestry_walk fuel account_uuid img w). Qed.

Lemma addAndGetNextItem_short_of_fuel (account_uuid : string)
  (w w' : World) (img : Img) (rest : list Img) :
  Lineage account_uuid w img rest w' ->
  forall (fuel : nat) (acc : list Img),
    fuel <= List.length rest ->
    fst (addAndGetNextItem fuel account_uuid acc img w) = Crashed OutOfFuel.
Proof.
  induction 1 as [w img | w w1 w2 img p rest Hpar Hlook Hlin IH];
    intros fuel acc Hfuel.
  - destruct fuel; [reflexivity | inversion Hfuel].
  - destruct fuel as [| fuel]; [reflexivity |].
    cbn [addAndGetNextItem]. apply String.eqb_neq in Hpar.
    rewrite Hpar, Hlook. apply IH. cbn [List.length] in Hfuel. lia.
Qed.

Lemma addAndGetNextItem_along (account_uuid : string)
  (w w' : World) (img : Img) (rest : list Img) :
  Lineage account_uuid w img rest w' ->
  forall (fuel : nat) (acc : list Img),
    addAndGetNextItem (List.length rest + fuel) account_uuid acc img w
    = addAndGetNextItem fuel account_uuid
        (acc ++ removelast (img :: rest)) (last rest img) w'.
Proof.
  induction 1 as [w img | w w1 w2 img p rest Hpar Hlook Hlin IH];
    intros fuel acc.
  - cbn [List.length Nat.add removelast last]. rewrite app_nil_r.
    reflexivity.
  - cbn [List.length Nat.add addAndGetNextItem].
    apply String.eqb_neq in Hpar. rewrite Hpar, Hlook, IH.
    rewrite last_cons, <- app_assoc. reflexivity.
Qed.

(** X2.  The walk does not notice a cycle.  If the look-ups of the parents,
    started at [img], come back to [img] (the chain of [parent] ids is
    circular, and Moray answers), [getImageAncestry] never calls back:
    whatever the number of steps it is given, it is still walking. *)
Theorem getImageAncestry_never_returns_on_a_cycle
  (account_uuid : string) (img : Img) (rest : list Img) (w : World)
  (Hcycle : Lineage account_uuid w img (rest ++ [img]) w) :
  forall fuel : nat,
    fst (getImageAncestry fuel account_uuid img w) = Crashed OutOfFuel.
Proof.
  unfold getImageAncestry. intros fuel. generalize (@nil Img) as acc.
  induction fuel as [fuel IH] using (well_founded_induction lt_wf).
  intros acc.
  destruct (Nat.le_gt_cases fuel (List.length (rest ++ [img]))) as [Hle | Hgt].
  - exact (addAndGetNextItem_short_of_fuel _ _ _ _ _ Hcycle fuel acc Hle).
  - replace fuel
      with (List.length (rest ++ [img]) + (fuel - List.length (rest ++ [img])))
      by lia.
    rewrite (addAndGetNextItem_along _ _ _ _ _ Hcycle).
    rewrite last_last. apply IH.
    rewrite length_app in *. cbn [List.length] in *. lia.
Qed.

Lemma getImageAncestry_never_returns_on_a_cycle_witness :
  Lineage alice loop_world (V2 loop_v2) ([] ++ [V2 loop_v2]) loop_world
  /\ fst (getImageAncestry 1000 alice (V2 loop_v2) loop_world)
     = Crashed OutOfFuel.
Proof.
  assert (H : Lineage alice loop_world (V2 loop_v2) ([] ++ [V2 loop_v2])
                loop_world).
  { eapply Lineage_step; [| | apply Lineage_end].
    - vm_compute. discriminate.
    - vm_compute. reflexivity. }
  split; [exact H |].
  exact (getImageAncestry_never_returns_on_a_cycle alice (V2 loop_v2) []
           loop_world H 1000).
Defined.

(** *** The live-use check *)

Lemma vmapi_call_quiet (w : World) :
  vmapi_faults w = [] -> vmapi_call w = (None, w).
Proof. unfold vmapi_call. intros ->. reflexivity. Qed.

Lemma filter_nil_iff {A : Type} (f : A -> bool) (l : list A) :
  List.filter f l = [] <-> forall x, In x l -> f x = false.
Proof.
  induction l as [| a r IH]; cbn [List.filter].
  - split; [intros _ x [] | reflexivity].
  - destruct (f a) eqn:Ha; split.
    + discriminate.
    + intros H. specialize (H a (or_introl eq_refl)). congruence.
    + intros H x [<- | Hx]; [exact Ha | apply IH; assumption].
    + intros H. apply IH. intros x Hx. apply H. right. exact Hx.
Qed.

Lemma hd_error_insert_vm (vm : Vm.t) (l : list Vm.t) :
  hd_error (insert_vm vm l) = first_by_state (hd_error l) vm.
Proof.
  destruct l as [| x r]; cbn [insert_vm hd_error first_by_state];
    [reflexivity |].
  destruct (_ || _); reflexivity.
Qed.

Lemma hd_error_sort_vms (l acc : list Vm.t) :
  hd_error (fold_left (fun acc vm => insert_vm vm acc) l acc)
  = fold_left first_by_state l (hd_error acc).
Proof.
  revert acc. induction l as [| a r IH]; intros acc; cbn [fold_left];
    [reflexivity |].
  rewrite IH, hd_error_insert_vm. reflexivity.
Qed.

(** Among workloads that are running or stopped, a running one comes
    first if there is one. *)
Lemma first_by_state_running (l : list Vm.t) (h : option Vm.t) :
  (forall vm, In vm l ->
              Vm.state vm = "running" \/ Vm.state vm = "stopped") ->
  (forall x, h = Some x ->
             Vm.state x = "running" \/ Vm.state x = "stopped") ->
  (h = None -> l <> []) ->
  exists vm,
    fold_left first_by_state l h = Some vm
    /\ (In vm l \/ h = Some vm)
    /\ (((exists r, In r l /\ Vm.state r = "running")
         \/ (exists x, h = Some x /\ Vm.state x = "running")) ->
        Vm.state vm = "running").
Proof.
  revert h. induction l as [| a r IH]; intros h Hl Hh Hne.
  - destruct h as [x |]; [| contradiction (Hne eq_refl); reflexivity].
    exists x. cbn [fold_left]. split; [reflexivity |]. split; [auto |].
    intros [(r & [] & _) | (y & E & Hy)]. inversion E; subst. exact Hy.
  - cbn [fold_left].
    assert (Ha : Vm.state a = "running" \/ Vm.state a = "stopped")
      by (apply Hl; left; reflexivity).
    destruct (IH (first_by_state h a)) as (vm & E & Hin & Hrun).
    + intros vm Hvm. apply Hl. right. exact Hvm.
    + intros x Hx. destruct h as [y |]; cbn [first_by_state] in Hx.
      * destruct (_ || _); inversion Hx; subst; [apply Hh; reflexivity |].
        exact Ha.
      * inversion Hx; subst. exact Ha.
    + intros Hnone. destruct h as [y |]; cbn [first_by_state] in Hnone;
        [destruct (_ || _) |]; discriminate Hnone.
    + exists vm. split; [exact E |]. split.
      * destruct Hin as [Hin | Hin]; [left; right; exact Hin |].
        destruct h as [y |]; cbn [first_by_state] in Hin.
        -- destruct (_ || _); inversion Hin; subst;
             [right; reflexivity | left; left; reflexivity].
        -- inversion Hin; subst. left. left. reflexivity.
      * intros Hsome. apply Hrun.
        destruct Hsome as [(x & [<- | Hx] & Hst) | (x & -> & Hst)].
        -- right. destruct h as [y |]; cbn [first_by_state].
           ++ destruct (Hh y eq_refl) as [Hy | Hy]; rewrite Hy, Hst.
              ** exists y. split; [reflexivity | exact Hy].
              ** exists a. split; [reflexivity | exact Hst].
           ++ exists a. split; [reflexivity | exact Hst].
        -- left. exists x. split; assumption.
        -- right. cbn [first_by_state]. rewrite Hst.
           destruct Ha as [Ha | Ha]; rewrite Ha.
           ++ exists x. split; [reflexivity | exact Hst].
           ++ exists x. split; [reflexivity | exact Hst].
Qed.

Lemma vmapi_listVms_quiet (st image_uuid owner_uuid : string) (w : World) :
  vmapi_faults w = [] ->
  vmapi_listVms st image_uuid owner_uuid w
  = (Got (List.filter
            (fun vm => vm_in_state st vm
                       && String.eqb (Vm.image_uuid vm) image_uuid
                       && String.eqb (Vm.owner_uuid vm) owner_uuid)
            (vmapi_vms w)), w).
Proof.
  intros Hq. unfold vmapi_listVms. rewrite (vmapi_call_quiet w Hq).
  reflexivity.
Qed.

(** What [vmsUsingImage] answers when VMAPI hands it workloads that are
    running or stopped. *)
Lemma conflict_of_sorted (ext : Externals) (opts : Opts.t)
  (image_uuid : string) (vms : list Vm.t) (w : World) :
  vmapi_listVms (if Opts.force opts then "running" else "active")
    image_uuid (Opts.account_uuid opts) w = (Got vms, w) ->
  vms <> [] ->
  (forall vm, In vm vms ->
              Vm.state vm = "running" \/ Vm.state vm = "stopped") ->
  exists vm,
    In vm vms
    /\ ((exists r, In r vms /\ Vm.state r = "running") ->
        Vm.state vm = "running")
    /\ vmsUsingImage ext opts image_uuid w
       = (Some (if String.eqb (Vm.state vm) "running"
                then in_use_by_running ext opts vm
                else in_use_by_stopped ext opts vm), w).
Proof.
  intros Hlist Hne Hst.
  destruct (first_by_state_running vms None Hst) as (vm & E & Hin & Hrun).
  - discriminate.
  - intros _. exact Hne.
  - exists vm. split; [destruct Hin as [H | H]; [exact H | discriminate H] |].
    split; [intros H; apply Hrun; left; exact H |].
    unfold vmsUsingImage. rewrite Hlist.
    destruct vms as [| v0 r]; [contradiction |].
    pose proof (hd_error_sort_vms (v0 :: r) []) as Hhd.
    fold (sort_vms (v0 :: r)) in Hhd. cbn [hd_error] in Hhd.
    rewrite E in Hhd.
    destruct (sort_vms (v0 :: r)) as [| x r']; [discriminate Hhd |].
    inversion Hhd; subst. cbn zeta.
    unfold in_use_by_running, in_use_by_stopped.
    destruct (String.eqb (Vm.state vm) "running"); reflexivity.
Qed.

(** X3.  A running workload of the owner that uses the blob of the image
    always blocks the deletion, with or without [force], and it is a
    running one that the error names; a stopped one blocks it only when
    [force] is not given; workloads of other owners, or in other states,
    do not count.  VMAPI answering, [verifyNotInUse] leaves the world as
    it is.  When [_deleteImageV1] only untags, it does not ask VMAPI. *)
Theorem verifyNotInUse_running_always_stopped_unless_forced
  (ext : Externals) (opts : Opts.t) (image_uuid : string) (w : World)
  (Hquiet : vmapi_faults w = []) :
  let running := vms_using "running" image_uuid (Opts.account_uuid opts) w in
  let stopped := vms_using "stopped" image_uuid (Opts.account_uuid opts) w in
  (running <> [] ->
   exists vm, In vm running
              /\ vmsUsingImage ext opts image_uuid w
                 = (Some (in_use_by_running ext opts vm), w))
  /\ (running = [] -> Opts.force opts = true ->
      vmsUsingImage ext opts image_uuid w = (None, w))
  /\ (running = [] -> Opts.force opts = false -> stopped <> [] ->
      exists vm, In vm stopped
                 /\ vmsUsingImage ext opts image_uuid w
                    = (Some (in_use_by_stopped ext opts vm), w))
  /\ (running = [] -> stopped = [] ->
      vmsUsingImage ext opts image_uuid w = (None, w))
  /\ (forall ctx : DeleteV1.Ctx,
         DeleteV1.dontDeleteImages ctx = true ->
         DeleteV1.verifyNotInUse ext opts ctx w = (Calls [None], ctx, w)).
Proof.
  intros running stopped.
  set (acct := Opts.account_uuid opts) in *.
  (* the answer of VMAPI to each of the two queries *)
  set (active := List.filter
                   (fun vm => vm_in_state "active" vm
                              && String.eqb (Vm.image_uuid vm) image_uuid
                              && String.eqb (Vm.owner_uuid vm) acct)
                   (vmapi_vms w)).
  assert (Hlist : vmapi_listVms
                    (if Opts.force opts then "running" else "active")
                    image_uuid acct w
                  = (Got (if Opts.force opts then running else active), w)).
  { rewrite (vmapi_listVms_quiet _ _ _ w Hquiet).
    destruct (Opts.force opts); reflexivity. }
  assert (Hactive : forall vm,
             In vm active <-> In vm running \/ In vm stopped).
  { intros vm. unfold active, running, stopped, vms_using.
    rewrite !filter_In. unfold vm_in_state. cbn [String.eqb Ascii.eqb].
    destruct (String.eqb (Vm.state vm) "running"),
             (String.eqb (Vm.state vm) "stopped");
      cbn [orb andb]; intuition discriminate. }
  assert (Hstate_running : forall vm, In vm running ->
                                      Vm.state vm = "running").
  { intros vm H. unfold running, vms_using in H. apply filter_In in H.
    destruct H as (_ & H). apply andb_prop in H. destruct H as (H & _).
    apply andb_prop in H. destruct H as (H & _).
    apply String.eqb_eq. exact H. }
  assert (Hstate_stopped : forall vm, In vm stopped ->
                                      Vm.state vm = "stopped").
  { intros vm H. unfold stopped, vms_using in H. apply filter_In in H.
    destruct H as (_ & H). apply andb_prop in H. destruct H as (H & _).
    apply andb_prop in H. destruct H as (H & _).
    apply String.eqb_eq. exact H. }
  assert (Hstates : forall vm,
             In vm (if Opts.force opts then running else active) ->
             Vm.state vm = "running" \/ Vm.state vm = "stopped").
  { intros vm H. destruct (Opts.force opts).
    - left. apply Hstate_running. exact H.
    - apply Hactive in H. destruct H; auto. }
  assert (Hnone : (if Opts.force opts then running else active) = [] ->
                  vmsUsingImage ext opts image_uuid w = (None, w)).
  { intros E. unfold vmsUsingImage. fold acct. rewrite Hlist, E.
    reflexivity. }
  split; [| split; [| split; [| split]]].
  - intros Hne.
    assert (Hr : exists r, In r (if Opts.force opts then running else active)
                           /\ Vm.state r = "running").
    { destruct running as [| r0 rr] eqn:Er; [contradiction |].
      exists r0. split.
      - destruct (Opts.force opts); [left; reflexivity |].
        apply Hactive. left. left. reflexivity.
      - apply Hstate_running. left. reflexivity. }
    destruct (conflict_of_sorted ext opts image_uuid _ w Hlist)
      as (vm & Hin & Hfirst & E).
    + destruct Hr as (r & Hin & _). intros E. rewrite E in Hin.
      contradiction.
    + exact Hstates.
    + specialize (Hfirst Hr). exists vm. split.
      * destruct (Opts.force opts); [exact Hin |].
        apply Hactive in Hin. destruct Hin as [Hin | Hin]; [exact Hin |].
        apply Hstate_stopped in Hin. rewrite Hin in Hfirst.
        discriminate Hfirst.
      * rewrite E, Hfirst. reflexivity.
  - intros Hnone' Hf. apply Hnone. rewrite Hf. exact Hnone'.
  - intros Hnone' Hf Hne.
    destruct (conflict_of_sorted ext opts image_uuid _ w Hlist)
      as (vm & Hin & _ & E).
    + rewrite Hf. destruct stopped as [| s0 ss] eqn:Es; [contradiction |].
      intros Ha. assert (Hin : In s0 active).
      { apply Hactive. right. left. reflexivity. }
      rewrite Ha in Hin. contradiction.
    + exact Hstates.
    + rewrite Hf in Hin. apply Hactive in Hin. rewrite Hnone' in Hin.
      destruct Hin as [[] | Hin].
      exists vm. split; [exact Hin |].
      rewrite E, (Hstate_stopped vm Hin). reflexivity.
  - intros Hnone' Hnone''. apply Hnone.
    assert (Ha : active = []).
    { destruct active as [| a0 aa] eqn:Ea; [reflexivity |].
      assert (Hin : In a0 (a0 :: aa)) by (left; reflexivity).
      apply Hactive in Hin. rewrite Hnone', Hnone'' in Hin.
      destruct Hin; contradiction. }
    rewrite Ha, Hnone'. destruct (Opts.force opts); reflexivity.
  - intros ctx Hdont. unfold DeleteV1.verifyNotInUse. rewrite Hdont.
    reflexivity.
Qed.

Lemma verifyNotInUse_running_always_stopped_unless_forced_witness :
  (exists vm,
      In vm [vm_running]
      /\ vmsUsingImage sample_ext (opts_for "nginx" true) "uuid-nginx"
           (fleet_world [vm_stopped; vm_of_bob; vm_running])
         = (Some (in_use_by_running sample_ext (opts_for "nginx" true) vm),
            fleet_world [vm_stopped; vm_of_bob; vm_running]))
  /\ vmsUsingImage sample_ext (opts_for "nginx" true) "uuid-nginx"
       (fleet_world [vm_stopped; vm_of_bob])
     = (None, fleet_world [vm_stopped; vm_of_bob])
  /\ (exists vm,
         In vm [vm_stopped]
         /\ vmsUsingImage sample_ext (opts_for "nginx" false) "uuid-nginx"
              (fleet_world [vm_stopped; vm_of_bob])
            = (Some (in_use_by_stopped sample_ext (opts_for "nginx" false) vm),
               fleet_world [vm_stopped; vm_of_bob])).
Proof.
  split; [| split].
  - exact (proj1 (verifyNotInUse_running_always_stopped_unless_forced
                    sample_ext (opts_for "nginx" true) "uuid-nginx"
                    (fleet_world [vm_stopped; vm_of_bob; vm_running])
                    eq_refl)
             ltac:(discriminate)).
  - exact (proj1 (proj2 (verifyNotInUse_running_always_stopped_unless_forced
                    sample_ext (opts_for "nginx" true) "uuid-nginx"
                    (fleet_world [vm_stopped; vm_of_bob]) eq_refl))
             eq_refl eq_refl).
  - exact (proj1 (proj2 (proj2
             (verifyNotInUse_running_always_stopped_unless_forced
                sample_ext (opts_for "nginx" false) "uuid-nginx"
                (fleet_world [vm_stopped; vm_of_bob]) eq_refl)))
             eq_refl eq_refl ltac:(discriminate)).
Defined.

(** *** Untagging a v1 image *)

Lemma getImageAncestry_quiet (fuel : nat) (account_uuid : string) :
  forall (acc : list Img) (img : Img) (w : World),
    moray_faults w = [] ->
    snd (addAndGetNextItem fuel account_uuid acc img w) = w.
Proof.
  induction fuel as [| fuel IH]; intros acc img w Hq; [reflexivity |].
  cbn [addAndGetNextItem].
  destruct (String.eqb (img_parent img) ""); [reflexivity |].
  assert (Hl : snd (lookupParent account_uuid img w) = w).
  { destruct img as [i | i | u o]; cbn [lookupParent];
      unfold imgFromImgInfoV1, imgFromImgInfoV2, Image_list, ImageV2_list;
      rewrite (moray_call_quiet w Hq).
    - destruct (listObjs _ _) as [| a [| b r]]; reflexivity.
    - destruct (listObjs _ _) as [| a [| b r]]; reflexivity.
    - destruct (listObjs _ _) as [| a [| b r]]; reflexivity. }
  destruct (lookupParent account_uuid img w) as [[err [p |] | c] w1];
    cbn [snd] in Hl; subst w1.
  - destruct err; [reflexivity | apply IH; exact Hq].
  - destruct err; reflexivity.
  - reflexivity.
Qed.

(** X4.  A v1 head image that carries several tags, named by one of its tags
    (the name is not a prefix of its id): Moray answering and the
    ancestry being whole, [_deleteImageV1] deletes the tag record that
    the name resolved to and nothing else, and calls back with the one
    entry [Untagged repo:tag], with or without [force].  The image
    record, the other tag records, IMGAPI and the workloads are as they
    were, and VMAPI is not asked: a running container on the image does
    not stand in the way. *)
Theorem deleteImageV1_by_tag_only_untags
  (ext : Externals) (fuel : nat) (opts : Opts.t) (i : Image.t)
  (t : ImageTag.t) (ancestry : list Img) (w : World)
  (Hhead : Image.head i = true)
  (Hquiet : moray_faults w = [])
  (Hname : substr0 (String.length (Opts.name opts)) (Image.docker_id i)
           <> Opts.name opts)
  (Htags : 1 < List.length
                 (listObjs (docker_image_tags w)
                    [("owner_uuid", Opts.account_uuid opts);
                     ("docker_id", Image.docker_id i)]))
  (Hwalk : fst (getImageAncestry fuel (Opts.account_uuid opts) (V1 i) w)
           = Called None (ancestry, false)) :
  let w' := set_docker_image_tags
              (delObj (key t) (docker_image_tags w)) w in
  DeleteV1._deleteImageV1 ext fuel opts i (Some (TagV1 t)) w
  = (Called None [Untagged (ImageTag.repo t ++ ":" ++ ImageTag.tag t)], w')
  /\ docker_images w' = docker_images w
  /\ (forall t' : ImageTag.t,
         In t' (docker_image_tags w')
         <-> In t' (docker_image_tags w) /\ key t' <> key t)
  /\ vmapi_faults w' = vmapi_faults w
  /\ imgapi_deleteImage_calls w' = imgapi_deleteImage_calls w.
Proof.
  intros w'. split; [| split; [| split; [| split]]]; try reflexivity.
  - unfold DeleteV1._deleteImageV1. cbn [pipeline].
    unfold DeleteV1.ensureIsHeadImage at 1. cbn [DeleteV1.img].
    rewrite Hhead. cbn [negb].
    unfold DeleteV1.getImgTags at 1, tagsForImage, ImageTag_list.
    cbn [DeleteV1.img scoped_to_index].
    rewrite (moray_call_quiet w Hquiet).
    unfold DeleteV1.checkTagReferences at 1.
    cbn [DeleteV1.img DeleteV1.imgTag DeleteV1.imgTags DeleteV1.set_imgTags].
    apply String.eqb_neq in Hname. rewrite Hname.
    apply Nat.ltb_lt in Htags. rewrite length_map, Htags.
    unfold DeleteV1.verifyNotInUse at 1.
    cbn [DeleteV1.dontDeleteImages DeleteV1.set_imgTags
           DeleteV1.set_dontDeleteImages].
    unfold DeleteV1.getImgsToDelete at 1.
    cbn [DeleteV1.img DeleteV1.set_imgTags DeleteV1.set_dontDeleteImages].
    pose proof (getImageAncestry_quiet fuel (Opts.account_uuid opts) []
                  (V1 i) w Hquiet) as Hw.
    fold (getImageAncestry fuel (Opts.account_uuid opts) (V1 i) w) in Hw.
    destruct (getImageAncestry fuel (Opts.account_uuid opts) (V1 i) w)
      as [r w1]. cbn [fst snd] in Hwalk, Hw. subst r w1.
    unfold DeleteV1.getDatacenterRefcount at 1, Image_datacenterRefcount.
    rewrite (moray_call_quiet w Hquiet).
    unfold DeleteV1.untagHeads at 1, forEachPipeline.
    cbn [DeleteV1.imgTags DeleteV1.set_imgsToDelete DeleteV1.set_imgTags
           DeleteV1.set_dontDeleteImages DeleteV1.set_dcRefcount map pipeline].
    unfold DeleteV1.untagOne at 1, ImageTag_del_obj, ImageTag_del.
    rewrite (moray_call_quiet w Hquiet).
    unfold DeleteV1.deleteImgs. reflexivity.
  - intros t'. subst w'. cbn [docker_image_tags set_docker_image_tags].
    apply in_delObj.
Qed.

Lemma deleteImageV1_by_tag_only_untags_witness :
  deleteImage sample_ext 10 (opts_for "busybox:latest" false)
    v1_two_tags_world
  = (Called None (Some [Untagged "busybox:latest"]),
     mkWorld [busybox_v1; base_layer] [busybox_v1_tag_1_0] [] []
       [live "uuid-busybox"; live "uuid-base"] [] [vm_running]
       (fun _ _ => []) [] [] []).
Proof.
  unfold deleteImage.
  replace (imgFromName sample_ext (opts_for "busybox:latest" false)
             v1_two_tags_world)
    with (Called (A := option Img * option ImgTag) None
            (Some (V1 busybox_v1), Some (TagV1 busybox_v1_tag)),
          v1_two_tags_world)
    by (vm_compute; reflexivity).
  rewrite (proj1 (deleteImageV1_by_tag_only_untags sample_ext 10
                    (opts_for "busybox:latest" false) busybox_v1
                    busybox_v1_tag [V1 busybox_v1; V1 base_layer]
                    v1_two_tags_world eq_refl eq_refl
                    ltac:(vm_compute; discriminate)
                    ltac:(vm_compute; lia) eq_refl)).
  reflexivity.
Defined.

(** *** Records that several head images share *)

Lemma apply_update_key (u : ImageUpdate) (r : Image.t) :
  key (apply_update u r) = key r.
Proof. unfold apply_update. destruct (String.eqb _ _); reflexivity. Qed.

Lemma DeleteV1_deleteOneImg_keeps_shared (w0 : World) (i : Img) :
  (forall (i1 r : Image.t),
      i = V1 i1 -> In r (docker_images w0) -> key r = key i1 ->
      Image.refcount r = Image.refcount i1) ->
  keeps (fun (_ : DeleteV1.Ctx) (w : World) =>
           forall k, shared_record k w0 -> stored_under k w)
    (DeleteV1.deleteOneImg i).
Proof.
  intros Hcons ctx w out ctx' w' Hshared Hstep.
  unfold DeleteV1.deleteOneImg in Hstep.
  destruct i as [i | i | u o];
    [| inversion Hstep; subst; assumption
     | inversion Hstep; subst; assumption].
  destruct (Z.ltb 1 (Image.refcount i)) eqn:Hrc.
  - (* the record stays, its [heads] are rewritten *)
    assert (Hupd : forall (u : ImageUpdate) (wd : World),
               docker_images wd = map (apply_update u) (docker_images w) ->
               forall k, shared_record k w0 -> stored_under k wd).
    { intros u wd Ed k Hk. destruct (Hshared k Hk) as (r & Hin & Hkey).
      exists (apply_update u r).
      split; [rewrite Ed; apply in_map; exact Hin |].
      rewrite apply_update_key. exact Hkey. }
    unfold Image_update, moray_call in Hstep.
    destruct (moray_faults w) as [| [e |] fs];
      cbn in Hstep; inversion Hstep; subst; clear Hstep;
      first [eapply Hupd; reflexivity | assumption].
  - (* the record is deleted: it is not a shared one *)
    apply Z.ltb_ge in Hrc.
    assert (Hdel : forall wd : World,
               docker_images wd = delObj (key i) (docker_images w) ->
               forall k, shared_record k w0 -> stored_under k wd).
    { intros wd Ed k Hk. destruct (Hshared k Hk) as (r & Hin & Hkey).
      exists r. split; [| exact Hkey].
      rewrite Ed. apply in_delObj. split; [exact Hin |].
      intros Eki. destruct Hk as (r0 & Hin0 & Hk0 & Hc0).
      assert (Image.refcount r0 = Image.refcount i).
      { apply (Hcons i r0 eq_refl Hin0). congruence. }
      lia. }
    unfold Image_del, moray_call in Hstep.
    destruct (moray_faults w) as [| [e |] fs]; cbn [fst snd] in Hstep;
      try (inversion Hstep; subst; assumption);
      (destruct (negb _ || _);
       [inversion Hstep; subst; apply Hdel; reflexivity |]);
      unfold imgapi_deleteImage, imgapi_call in Hstep;
      (destruct (imgapi_faults _) as [| [e |] gs]; cbn in Hstep;
       repeat match type of Hstep with
              | context [if ?c then _ else _] => destruct c; cbn in Hstep
              end;
       inversion Hstep; subst; apply Hdel; reflexivity).
Qed.

(** X5.  [deleteImgs] of [_deleteImageV1] never deletes a record that more
    than one head image is built on ([refcount > 1]): whatever Moray and
    IMGAPI answer, after the cascade the bucket still holds a record
    under the key of such a record.  (The cascade rewrites the [heads]
    of such a record instead, and its [refcount] goes down with them.)
    The records of the cascade are those that the walk has read: they
    carry the [refcount] of the records stored under their keys. *)
Theorem deleteImgsV1_keeps_the_records_that_are_shared
  (ctx : DeleteV1.Ctx) (w : World)
  (Hread : refcounts_as_stored (DeleteV1.imgsToDelete ctx) w) :
  forall k : string,
    shared_record k w ->
    stored_under k (snd (DeleteV1.deleteImgs ctx w)).
Proof.
  intros k Hk.
  assert (Hk0 : stored_under k w).
  { destruct Hk as (r & Hin & Hkey & _). exists r. split; assumption. }
  unfold DeleteV1.deleteImgs.
  destruct (DeleteV1.dontDeleteImages ctx); [exact Hk0 |].
  unfold forEachPipeline.
  destruct (pipeline (map DeleteV1.deleteOneImg (DeleteV1.imgsToDelete ctx))
              ctx w) as [[r ctx'] w'] eqn:Hrun.
  assert (HP : forall k, shared_record k w -> stored_under k w').
  { refine (pipeline_keeps
              (fun (_ : DeleteV1.Ctx) (w1 : World) =>
                 forall k, shared_record k w -> stored_under k w1)
              _ _ ctx w r ctx' w' _ Hrun).
    - apply Forall_forall. intros f Hf. apply in_map_iff in Hf.
      destruct Hf as (i & <- & Hi).
      apply DeleteV1_deleteOneImg_keeps_shared.
      intros i1 r1 -> Hin Hkey. exact (Hread i1 r1 Hi Hin Hkey).
    - intros k1 (r1 & Hin & Hkey & _). exists r1. split; assumption. }
  destruct r as [[e |] [] | c]; cbn [snd]; apply HP; exact Hk.
Qed.

Lemma deleteImgsV1_keeps_the_records_that_are_shared_witness :
  shared_record (key base_layer) v1_world
  /\ stored_under (key base_layer)
       (snd (DeleteV1.deleteImgs
               (DeleteV1.mkCtx busybox_v1 (Some (TagV1 busybox_v1_tag))
                  [TagV1 busybox_v1_tag] [V1 busybox_v1; V1 base_layer]
                  [] false [] false) v1_world))
  /\ map (fun r => (Image.docker_id r, Image.heads r, Image.refcount r))
       (docker_images
          (snd (DeleteV1.deleteImgs
                  (DeleteV1.mkCtx busybox_v1 (Some (TagV1 busybox_v1_tag))
                     [TagV1 busybox_v1_tag] [V1 busybox_v1; V1 base_layer]
                     [] false [] false) v1_world)))
     = [(Image.docker_id base_layer,
         ["7fa0dcdc88de9c8a856f648c1f8e0cf8141a505bbddb7ecc0c61f1ed5e086852"],
         1%Z)].
Proof.
  assert (Hs : shared_record (key base_layer) v1_world).
  { exists base_layer. split; [right; left; reflexivity |].
    split; [reflexivity | reflexivity]. }
  split; [exact Hs |]. split; [| reflexivity].
  refine (deleteImgsV1_keeps_the_records_that_are_shared _ v1_world _ _ Hs).
  intros i r Hi Hr Hk. cbn [DeleteV1.imgsToDelete] in Hi.
  destruct Hi as [Hi | [Hi | []]]; inversion Hi; subst;
    (destruct Hr as [<- | [<- | []]];
     [first [reflexivity | discriminate Hk]
     | first [reflexivity | discriminate Hk]]).
Defined.

(** *** What a deletion leaves alone *)

(** Unfolds a call to Moray, IMGAPI or VMAPI in [H] and goes through
    the scripts of faults. *)
Ltac service_cases H :=
  unfold tagsForImage, ImageTagV2_del_obj, ImageTag_del_obj,
    ImageTag_list, ImageTagV2_list, Image_list, ImageV2_list,
    ImageTag_del, ImageTagV2_del, Image_del, ImageV2_del, Image_update,
    Image_datacenterRefcount, vmsUsingImage, vmapi_listVms,
    imgapi_deleteImage, moray_call, imgapi_call, vmapi_call in H;
  repeat match type of H with
         | context [match moray_faults ?w with _ => _ end] =>
             destruct (moray_faults w) as [| [?e |] ?fs]; cbn in H
         | context [match imgapi_faults ?w with _ => _ end] =>
             destruct (imgapi_faults w) as [| [?e |] ?fs]; cbn in H
         | context [match vmapi_faults ?w with _ => _ end] =>
             destruct (vmapi_faults w) as [| [?e |] ?fs]; cbn in H
         | context [match ?x with _ => _ end] =>
             destruct x; cbn in H
         end.

Lemma DeleteV2_getImgTags_frame (opts : Opts.t) (ctx ctx' : DeleteV2.Ctx)
  (w w' : World) (out : StageOut) :
  DeleteV2.getImgTags opts ctx w = (out, ctx', w') ->
  same_records w w'
  /\ DeleteV2.img ctx' = DeleteV2.img ctx
  /\ DeleteV2.imgsToDelete ctx' = DeleteV2.imgsToDelete ctx.
Proof.
  intros H. unfold DeleteV2.getImgTags in H. service_cases H;
    inversion H; subst; repeat split; reflexivity.
Qed.

Lemma DeleteV2_invariant_frame (i0 : ImageV2.t) (w : World)
  (ctx ctx' : DeleteV2.Ctx) (w1 w1' : World) :
  DeleteV2_invariant i0 w ctx w1 ->
  images_untouched w1 w1' ->
  DeleteV2.img ctx' = DeleteV2.img ctx ->
  DeleteV2.imgsToDelete ctx' = DeleteV2.imgsToDelete ctx ->
  DeleteV2_invariant i0 w ctx' w1'.
Proof.
  intros (Hi & (Ha & Hb) & Hincl & Hspared & Hok) ((Ea & Eb) & Ec) Ei Ed.
  unfold DeleteV2_invariant, v1_untouched.
  rewrite Ei, Ed, Ea, Eb, Ec. repeat split; assumption.
Qed.

Lemma same_records_images_untouched (w w' : World) :
  same_records w w' -> images_untouched w w'.
Proof. intros (A & B & C & D). repeat split; assumption. Qed.

Lemma DeleteV2_checkTagReferences_frame (ext : Externals) (opts : Opts.t)
  (ctx ctx' : DeleteV2.Ctx) (w w' : World) (out : StageOut) :
  DeleteV2.checkTagReferences ext opts ctx w = (out, ctx', w') ->
  ctx' = ctx /\ w' = w.
Proof.
  intros H. unfold DeleteV2.checkTagReferences in H.
  destruct (DeleteV2.imgTag ctx); [| destruct (_ && _)];
    inversion H; subst; split; reflexivity.
Qed.

Lemma DeleteV2_checkJustUntagImage_frame (ctx ctx' : DeleteV2.Ctx)
  (w w' : World) (out : StageOut) :
  DeleteV2.checkJustUntagImage ctx w = (out, ctx', w') ->
  images_untouched w w'
  /\ DeleteV2.img ctx' = DeleteV2.img ctx
  /\ DeleteV2.imgsToDelete ctx' = DeleteV2.imgsToDelete ctx.
Proof.
  intros H. unfold DeleteV2.checkJustUntagImage in H.
  destruct (DeleteV2.imgTag ctx) as [t |];
    [destruct (Nat.ltb 1 _); [destruct t |] |];
    service_cases H; inversion H; subst; repeat split; reflexivity.
Qed.

Lemma DeleteV2_verifyNotInUse_frame (ext : Externals) (opts : Opts.t)
  (ctx ctx' : DeleteV2.Ctx) (w w' : World) (out : StageOut) :
  DeleteV2.verifyNotInUse ext opts ctx w = (out, ctx', w') ->
  same_records w w' /\ ctx' = ctx.
Proof.
  intros H. unfold DeleteV2.verifyNotInUse in H.
  destruct (vmsUsingImage ext opts (ImageV2.image_uuid (DeleteV2.img ctx)) w)
    as [err w1] eqn:Hv.
  inversion H; subst. split; [| reflexivity].
  service_cases Hv; inversion Hv; subst; repeat split; reflexivity.
Qed.

Lemma untilHead_prefix (l : list Img) :
  Forall (fun a => img_head a = false) (DeleteV2.untilHead l)
  /\ exists tail,
       l = (DeleteV2.untilHead l ++ tail)%list
       /\ match tail with
          | [] => True
          | a :: _ => img_head a = true
          end.
Proof.
  induction l as [| a r (IHa & tail & IHb & IHc)]; cbn [DeleteV2.untilHead].
  - split; [constructor | exists []; split; [reflexivity | exact I]].
  - destruct (img_head a) eqn:Ha.
    + split; [constructor |]. exists (a :: r).
      split; [reflexivity | exact Ha].
    + split; [constructor; assumption |]. exists tail. split; [| exact IHc].
      cbn [app]. f_equal. exact IHb.
Qed.

Lemma chain_stored (account_uuid : string) (w : World) (a : Img)
  (rest : list Img) :
  chain account_uuid w (a :: rest) ->
  Forall (fun b => stored b w) rest.
Proof.
  revert a. induction rest as [| b r IH]; intros a Hc; constructor.
  - cbn [chain] in Hc. destruct Hc as (_ & Hp & _).
    destruct a as [c | c | u o], b as [p | p | u' o'];
      cbn [parent_of] in Hp; try contradiction; cbn [stored].
    + assert (Hin : In p [p]) by (left; reflexivity).
      rewrite <- Hp in Hin. apply filter_In in Hin. exact (proj1 Hin).
    + assert (Hin : In p [p]) by (left; reflexivity).
      rewrite <- Hp in Hin. apply filter_In in Hin. exact (proj1 Hin).
  - apply (IH b). cbn [chain] in Hc. exact (proj2 (proj2 Hc)).
Qed.

Lemma DeleteV2_getImgsToDelete_keeps (i0 : ImageV2.t) (w : World)
  (fuel : nat) (opts : Opts.t) :
  keeps (DeleteV2_invariant i0 w) (DeleteV2.getImgsToDelete fuel opts).
Proof.
  intros ctx w1 out ctx' w1' HP H.
  unfold DeleteV2.getImgsToDelete in H.
  destruct (getImageAncestry_walk fuel
              (Opts.account_uuid opts) (V2 (DeleteV2.img ctx)) w1)
    as (Hs & Hwalk).
  destruct (getImageAncestry fuel (Opts.account_uuid opts)
              (V2 (DeleteV2.img ctx)) w1) as [r w2].
  cbn [fst snd] in Hs, Hwalk.
  apply same_records_images_untouched in Hs.
  destruct r as [[e |] [anc partial] | c].
  - inversion H; subst.
    apply (DeleteV2_invariant_frame i0 w ctx' ctx' w1 w1' HP Hs);
      reflexivity.
  - destruct Hwalk as (rest & -> & Hchain & _).
    inversion H; subst. clear H.
    pose proof (DeleteV2_invariant_frame i0 w ctx ctx w1 w1' HP Hs
                  eq_refl eq_refl) as (Hi & Hv1 & Hincl & Hspared & _).
    split; [exact Hi |]. split; [exact Hv1 |]. split; [exact Hincl |].
    split; [exact Hspared |].
    cbn [DeleteV2.imgsToDelete DeleteV2.set_imgsToDelete].
    constructor; [left; rewrite Hi; reflexivity |].
    destruct (untilHead_prefix rest) as (Hnh & tail & Hrest & _).
    pose proof (chain_stored _ _ _ _ Hchain) as Hst.
    rewrite Hrest in Hst. apply Forall_app in Hst. destruct Hst as (Hst & _).
    apply Forall_forall. intros a Ha.
    rewrite Forall_forall in Hnh, Hst.
    specialize (Hnh a Ha). specialize (Hst a Ha).
    destruct a as [i | i | u o].
    + right. right. intros i1 E. discriminate E.
    + right. left. exists i. split; [reflexivity |].
      split; [| exact Hnh].
      destruct HP as (_ & _ & Hincl0 & _). apply Hincl0. exact Hst.
    + right. right. intros i1 E. discriminate E.
  - inversion H; subst.
    apply (DeleteV2_invariant_frame i0 w ctx' ctx' w1 w1' HP Hs);
      reflexivity.
Qed.

Lemma DeleteV2_untagOne_keeps (i0 : ImageV2.t) (w : World) (t : ImgTag) :
  keeps (DeleteV2_invariant i0 w) (DeleteV2.untagOne t).
Proof.
  intros ctx w1 out ctx' w1' HP H. unfold DeleteV2.untagOne in H.
  destruct t; service_cases H; inversion H; subst;
    apply (DeleteV2_invariant_frame i0 w _ _ _ _ HP);
    repeat split; reflexivity.
Qed.

Lemma DeleteV2_deleteLayer_keeps (i0 : ImageV2.t) (w : World)
  (layerInfo : LayerInfo.t) :
  keeps (DeleteV2_invariant i0 w) (DeleteV2.deleteLayer layerInfo).
Proof.
  intros ctx w1 out ctx' w1' HP H. unfold DeleteV2.deleteLayer in H.
  destruct (DeleteV2.hitImageHasDependentImagesError ctx);
    [inversion H; subst; exact HP |].
  unfold ImageV2_list, moray_call in H.
  destruct (moray_faults w1) as [| [e |] fs]; cbn [fst snd] in H;
    try (inversion H; subst;
         apply (DeleteV2_invariant_frame i0 w _ _ _ _ HP);
         repeat split; reflexivity);
    (destruct (Z.eqb _ 0); cbn zeta in H;
     destruct (Z.leb 1 _);
     try (inversion H; subst;
          apply (DeleteV2_invariant_frame i0 w _ _ _ _ HP);
          repeat split; reflexivity);
     unfold imgapi_deleteImage, imgapi_call in H;
     cbn [imgapi_faults set_moray_faults imgapi_images
            imgapi_deleteImage_calls] in H;
     destruct (imgapi_faults w1) as [| [e' |] gs]; cbn [fst snd] in H;
     repeat match type of H with
            | context [if ?c then _ else _] => destruct c; cbn in H
            end;
     inversion H; subst;
     apply (DeleteV2_invariant_frame i0 w _ _ _ _ HP);
     repeat split; reflexivity).
Qed.

Lemma NoDup_key_inj {R : Type} `{MorayModel R} (l : list R) (a b : R) :
  NoDup (map key l) -> In a l -> In b l -> key a = key b -> a = b.
Proof.
  induction l as [| x l IH]; intros Hnd Ha Hb E; [contradiction |].
  cbn [map] in Hnd. inversion Hnd as [| ? ? Hx Hl]; subst.
  destruct Ha as [Ha | Ha], Hb as [Hb | Hb].
  - congruence.
  - exfalso. apply Hx. subst x. rewrite E. apply in_map. exact Hb.
  - exfalso. apply Hx. subst x. rewrite <- E. apply in_map. exact Ha.
  - apply IH; assumption.
Qed.

Lemma DeleteV2_deleteOneImg_keeps (i0 : ImageV2.t) (w : World) (a : Img) :
  may_be_deleted i0 w a ->
  keeps (DeleteV2_invariant i0 w) (DeleteV2.deleteOneImg a).
Proof.
  intros Hok ctx w1 out ctx' w1' HP H. unfold DeleteV2.deleteOneImg in H.
  destruct (negb _ && img_head a); [inversion H; subst; exact HP |].
  destruct a as [i | i | u o];
    [inversion H; subst; exact HP | | inversion H; subst; exact HP].
  assert (Hdel : forall (c : DeleteV2.Ctx) (wd : World),
             DeleteV2.img c = DeleteV2.img ctx ->
             DeleteV2.imgsToDelete c = DeleteV2.imgsToDelete ctx ->
             docker_images wd = docker_images w1 ->
             docker_image_tags wd = docker_image_tags w1 ->
             docker_images_v2 wd = delObj (key i) (docker_images_v2 w1) ->
             DeleteV2_invariant i0 w c wd).
  { intros c wd Ei Ed Ea Eb Ec.
    destruct HP as (Hi & (Ha & Hb) & Hincl & Hspared & Hall).
    unfold DeleteV2_invariant, v1_untouched. rewrite Ei, Ed, Ea, Eb, Ec.
    split; [exact Hi |]. split; [split; assumption |]. split.
    - intros r Hr. apply in_delObj in Hr. apply Hincl. exact (proj1 Hr).
    - split; [| exact Hall].
      intros Hnd r Hr Hhead Hkey. apply in_delObj.
      split; [apply Hspared; assumption |].
      intros E. destruct Hok as [Hok | [(i1 & Hok & Hin & Hnh) | Hok]].
      + inversion Hok; subst. contradiction.
      + inversion Hok; subst i1.
        assert (r = i) by exact (NoDup_key_inj _ r i Hnd Hr Hin E).
        subst r. rewrite Hnh in Hhead. discriminate Hhead.
      + exact (Hok i eq_refl). }
  unfold ImageV2_del, moray_call in H.
  destruct (moray_faults w1) as [| [e |] fs]; cbn [fst snd] in H;
    inversion H; subst;
    first [apply Hdel; reflexivity
          | apply (DeleteV2_invariant_frame i0 w _ _ _ _ HP);
            repeat split; reflexivity].
Qed.

Lemma forEachPipeline_keeps {L I : Type} (P : L -> World -> Prop)
  (func : I -> Stage L) (inputs : list I) :
  (forall i, In i inputs -> keeps P (func i)) ->
  forall (l : L) (w : World),
    P l w ->
    P (snd (fst (forEachPipeline func inputs l w)))
      (snd (forEachPipeline func inputs l w)).
Proof.
  intros Hall l w HP. unfold forEachPipeline.
  destruct (pipeline (map func inputs) l w) as [[r l'] w'] eqn:Hrun.
  cbn [fst snd].
  refine (pipeline_keeps P (map func inputs) _ l w r l' w' HP Hrun).
  apply Forall_forall. intros f Hf. apply in_map_iff in Hf.
  destruct Hf as (i & <- & Hi). apply Hall. exact Hi.
Qed.

Lemma DeleteV2_stages_keep (i0 : ImageV2.t) (w : World) (ext : Externals)
  (fuel : nat) (opts : Opts.t) :
  Forall (keeps (DeleteV2_invariant i0 w))
    [DeleteV2.getImgTags opts;
     DeleteV2.checkTagReferences ext opts;
     DeleteV2.checkJustUntagImage;
     DeleteV2.verifyNotInUse ext opts;
     DeleteV2.getImgsToDelete fuel opts;
     DeleteV2.deleteDockerTags;
     DeleteV2.deleteImgapiLayers ext;
     DeleteV2.deleteDockerImages].
Proof.
  repeat (apply Forall_cons; [| try apply Forall_nil]).
  - intros ctx w1 out ctx' w1' HP H.
    destruct (DeleteV2_getImgTags_frame _ _ _ _ _ _ H) as (Hs & Ei & Ed).
    apply (DeleteV2_invariant_frame i0 w ctx ctx' w1 w1' HP); auto.
    apply same_records_images_untouched. exact Hs.
  - intros ctx w1 out ctx' w1' HP H.
    destruct (DeleteV2_checkTagReferences_frame _ _ _ _ _ _ _ H)
      as (-> & ->). exact HP.
  - intros ctx w1 out ctx' w1' HP H.
    destruct (DeleteV2_checkJustUntagImage_frame _ _ _ _ _ H)
      as (Hs & Ei & Ed).
    apply (DeleteV2_invariant_frame i0 w ctx ctx' w1 w1' HP); auto.
  - intros ctx w1 out ctx' w1' HP H.
    destruct (DeleteV2_verifyNotInUse_frame _ _ _ _ _ _ _ H) as (Hs & ->).
    apply (DeleteV2_invariant_frame i0 w ctx ctx w1 w1' HP); auto.
    apply same_records_images_untouched. exact Hs.
  - apply DeleteV2_getImgsToDelete_keeps.
  - intros ctx w1 out ctx' w1' HP H. unfold DeleteV2.deleteDockerTags in H.
    pose proof (forEachPipeline_keeps (DeleteV2_invariant i0 w)
                  DeleteV2.untagOne (DeleteV2.imgTags ctx)
                  (fun t _ => DeleteV2_untagOne_keeps i0 w t) ctx w1 HP)
      as HP'.
    destruct (forEachPipeline DeleteV2.untagOne (DeleteV2.imgTags ctx) ctx w1)
      as [[r c1] w2]. cbn [fst snd] in HP'.
    destruct r; inversion H; subst; exact HP'.
  - intros ctx w1 out ctx' w1' HP H. unfold DeleteV2.deleteImgapiLayers in H.
    destruct (manifestLayerDigests ext _) as [layers |];
      [| inversion H; subst; exact HP].
    destruct (negb _).
    + inversion H; subst.
      apply (DeleteV2_invariant_frame i0 w _ _ _ _ HP);
        repeat split; reflexivity.
    + match type of H with
      | context [forEachPipeline ?f ?ins ?c ?wx] =>
          pose proof (forEachPipeline_keeps (DeleteV2_invariant i0 w)
                        f ins
                        (fun li _ => DeleteV2_deleteLayer_keeps i0 w li)
                        c wx) as HP';
          destruct (forEachPipeline f ins c wx) as [[r c1] w2]
      end.
      cbn [fst snd] in HP'.
      assert (HP1 : DeleteV2_invariant i0 w c1 w2).
      { apply HP'.
        apply (DeleteV2_invariant_frame i0 w _ _ _ _ HP);
          repeat split; reflexivity. }
      destruct r; inversion H; subst; exact HP1.
  - intros ctx w1 out ctx' w1' HP H.
    unfold DeleteV2.deleteDockerImages in H.
    assert (Hall : forall a, In a (DeleteV2.imgsToDelete ctx) ->
                             keeps (DeleteV2_invariant i0 w)
                               (DeleteV2.deleteOneImg a)).
    { intros a Ha. apply DeleteV2_deleteOneImg_keeps.
      destruct HP as (_ & _ & _ & _ & Hok).
      rewrite Forall_forall in Hok. apply Hok. exact Ha. }
    pose proof (forEachPipeline_keeps (DeleteV2_invariant i0 w)
                  DeleteV2.deleteOneImg (DeleteV2.imgsToDelete ctx)
                  Hall ctx w1 HP) as HP'.
    destruct (forEachPipeline DeleteV2.deleteOneImg
                (DeleteV2.imgsToDelete ctx) ctx w1) as [[r c1] w2].
    cbn [fst snd] in HP'.
    destruct r as [[[] |] [] | c]; inversion H; subst; exact HP'.
Qed.

Lemma DeleteV2_run_keeps (ext : Externals) (fuel : nat) (opts : Opts.t)
  (i0 : ImageV2.t) (t : option ImgTag) (w : World) :
  exists ctx : DeleteV2.Ctx,
    DeleteV2_invariant i0 w ctx
      (snd (DeleteV2._deleteImageV2 ext fuel opts i0 t w)).
Proof.
  unfold DeleteV2._deleteImageV2.
  match goal with
  | |- context [pipeline ?fs ?c w] =>
      destruct (pipeline fs c w) as [[r ctx] w'] eqn:Hrun;
      pose proof (pipeline_keeps (DeleteV2_invariant i0 w) fs
                    (DeleteV2_stages_keep i0 w ext fuel opts)
                    c w r ctx w') as HP
  end.
  exists ctx.
  assert (H : DeleteV2_invariant i0 w ctx w').
  { apply HP; [| exact Hrun].
    repeat split; try reflexivity.
    - apply incl_refl.
    - intros _ r0 Hr _ _. exact Hr.
    - constructor. }
  destruct r as [[[] |] [] | c]; exact H.
Qed.

(** X6.  [_deleteImageV2] deletes no head image but the one it was asked to
    delete: the keys of the v2 image bucket being all different,
    whatever Moray, IMGAPI and VMAPI answer, every other record of the
    bucket whose [head] flag is set is still in the bucket afterwards
    (the cascade stops at the first ancestor that is a head image).  It
    adds no record to the bucket either. *)
Theorem deleteImageV2_spares_the_other_head_images
  (ext : Externals) (fuel : nat) (opts : Opts.t) (i0 : ImageV2.t)
  (t : option ImgTag) (w : World)
  (Hkeys : NoDup (map key (docker_images_v2 w))) :
  (forall r : ImageV2.t,
      In r (docker_images_v2 w) -> ImageV2.head r = true ->
      key r <> key i0 ->
      In r (docker_images_v2
              (snd (DeleteV2._deleteImageV2 ext fuel opts i0 t w))))
  /\ incl (docker_images_v2
             (snd (DeleteV2._deleteImageV2 ext fuel opts i0 t w)))
          (docker_images_v2 w).
Proof.
  destruct (DeleteV2_run_keeps ext fuel opts i0 t w)
    as (ctx & _ & _ & Hincl & Hspared & _).
  split; [| exact Hincl].
  intros r Hr Hhead Hkey. exact (Hspared Hkeys r Hr Hhead Hkey).
Qed.

Lemma deleteImageV2_spares_the_other_head_images_witness :
  In nginx_v2
    (docker_images_v2
       (snd (DeleteV2._deleteImageV2 sample_ext 10
               (opts_for "appchild" true) app_child
               (Some (TagV2 app_child_tag)) built_on_nginx_world)))
  /\ docker_images_v2
       (snd (DeleteV2._deleteImageV2 sample_ext 10
               (opts_for "appchild" true) app_child
               (Some (TagV2 app_child_tag)) built_on_nginx_world))
     = [nginx_v2].
Proof.
  split; [| vm_compute; reflexivity].
  refine (proj1 (deleteImageV2_spares_the_other_head_images sample_ext 10
                   (opts_for "appchild" true) app_child
                   (Some (TagV2 app_child_tag)) built_on_nginx_world _)
            nginx_v2 _ eq_refl _).
  - vm_compute. repeat constructor; cbn; intuition discriminate.
  - right. left. reflexivity.
  - vm_compute. discriminate.
Defined.

Lemma v2_untouched_trans (w0 w1 w2 : World) :
  v2_untouched w0 w1 -> v2_untouched w1 w2 -> v2_untouched w0 w2.
Proof. intros (A & B) (C & D). split; congruence. Qed.

Lemma same_records_v2_untouched (w w' : World) :
  same_records w w' -> v2_untouched w w'.
Proof. intros (A & B & C & D). split; assumption. Qed.

(** A stage that leaves the v2 buckets as they are keeps them as they
    were at the start. *)
Lemma keeps_v2_untouched {L : Type} (w : World) (f : Stage L) :
  (forall l w1, v2_untouched w1 (snd (f l w1))) ->
  keeps (fun (_ : L) (w1 : World) => v2_untouched w w1) f.
Proof.
  intros Hf l w1 out l' w1' HP H. specialize (Hf l w1). rewrite H in Hf.
  eapply v2_untouched_trans; eassumption.
Qed.

Lemma DeleteV1_untagOne_v2 (t : ImgTag) (ctx : DeleteV1.Ctx) (w : World) :
  v2_untouched w (snd (DeleteV1.untagOne t ctx w)).
Proof.
  destruct (DeleteV1.untagOne t ctx w) as [[out ctx'] w'] eqn:H.
  unfold DeleteV1.untagOne in H.
  destruct t; service_cases H; inversion H; subst; split; reflexivity.
Qed.

Lemma DeleteV1_deleteOneImg_v2 (i : Img) (ctx : DeleteV1.Ctx) (w : World) :
  v2_untouched w (snd (DeleteV1.deleteOneImg i ctx w)).
Proof.
  destruct (DeleteV1.deleteOneImg i ctx w) as [[out ctx'] w'] eqn:H.
  unfold DeleteV1.deleteOneImg in H.
  destruct i as [i | i | u o];
    [| inversion H; subst; split; reflexivity
     | inversion H; subst; split; reflexivity].
  destruct (Z.ltb 1 (Image.refcount i)).
  - unfold Image_update, moray_call in H.
    destruct (moray_faults w) as [| [e |] fs]; cbn in H;
      inversion H; subst; split; reflexivity.
  - unfold Image_del, moray_call in H.
    destruct (moray_faults w) as [| [e |] fs]; cbn [fst snd] in H;
      try (inversion H; subst; split; reflexivity);
      (destruct (negb _ || _);
       [inversion H; subst; split; reflexivity |]);
      unfold imgapi_deleteImage, imgapi_call in H;
      (destruct (imgapi_faults _) as [| [e' |] gs]; cbn in H;
       repeat match type of H with
              | context [if ?c then _ else _] => destruct c; cbn in H
              end;
       inversion H; subst; split; reflexivity).
Qed.

Lemma DeleteV1_stages_keep_v2 (w : World) (ext : Externals) (fuel : nat)
  (opts : Opts.t) :
  Forall (keeps (fun (_ : DeleteV1.Ctx) (w1 : World) => v2_untouched w w1))
    [DeleteV1.ensureIsHeadImage;
     DeleteV1.getImgTags opts;
     DeleteV1.checkTagReferences opts;
     DeleteV1.verifyNotInUse ext opts;
     DeleteV1.getImgsToDelete fuel opts;
     DeleteV1.getDatacenterRefcount;
     DeleteV1.untagHeads;
     DeleteV1.deleteImgs].
Proof.
  repeat (apply Forall_cons; [| try apply Forall_nil]);
    apply keeps_v2_untouched; intros ctx w1.
  - unfold DeleteV1.ensureIsHeadImage. destruct (negb _); split; reflexivity.
  - destruct (DeleteV1.getImgTags opts ctx w1) as [[out ctx'] w'] eqn:H.
    unfold DeleteV1.getImgTags in H.
    service_cases H; inversion H; subst; split; reflexivity.
  - unfold DeleteV1.checkTagReferences.
    destruct (String.eqb _ _);
      [destruct (_ && _)
      | destruct (Nat.ltb _ _); [destruct (DeleteV1.imgTag ctx) |]];
      split; reflexivity.
  - unfold DeleteV1.verifyNotInUse.
    destruct (DeleteV1.dontDeleteImages ctx); [split; reflexivity |].
    destruct (vmsUsingImage ext opts _ w1) as [err w'] eqn:H.
    service_cases H; inversion H; subst; split; reflexivity.
  - unfold DeleteV1.getImgsToDelete.
    destruct (getImageAncestry_walk fuel
                (Opts.account_uuid opts) (V1 (DeleteV1.img ctx)) w1)
      as (Hs & _).
    apply same_records_v2_untouched in Hs.
    destruct (getImageAncestry fuel (Opts.account_uuid opts)
                (V1 (DeleteV1.img ctx)) w1) as [[[e |] [anc partial] | c] w'];
      cbn [snd] in Hs; [exact Hs | | exact Hs].
    destruct partial; exact Hs.
  - destruct (DeleteV1.getDatacenterRefcount ctx w1) as [[out ctx'] w'] eqn:H.
    unfold DeleteV1.getDatacenterRefcount in H.
    service_cases H; inversion H; subst; split; reflexivity.
  - unfold DeleteV1.untagHeads.
    pose proof (forEachPipeline_keeps
                  (fun (_ : DeleteV1.Ctx) (w2 : World) => v2_untouched w1 w2)
                  DeleteV1.untagOne (DeleteV1.imgTags ctx)
                  (fun t _ => keeps_v2_untouched w1 _
                                (DeleteV1_untagOne_v2 t))
                  ctx w1 (conj eq_refl eq_refl)) as HP.
    destruct (forEachPipeline DeleteV1.untagOne (DeleteV1.imgTags ctx) ctx w1)
      as [[[err [] | c] c1] w2]; exact HP.
  - unfold DeleteV1.deleteImgs.
    destruct (DeleteV1.dontDeleteImages ctx); [split; reflexivity |].
    pose proof (forEachPipeline_keeps
                  (fun (_ : DeleteV1.Ctx) (w2 : World) => v2_untouched w1 w2)
                  DeleteV1.deleteOneImg (DeleteV1.imgsToDelete ctx)
                  (fun i _ => keeps_v2_untouched w1 _
                                (DeleteV1_deleteOneImg_v2 i))
                  ctx w1 (conj eq_refl eq_refl)) as HP.
    destruct (forEachPipeline DeleteV1.deleteOneImg
                (DeleteV1.imgsToDelete ctx) ctx w1)
      as [[[[e |] [] | c] c1] w2]; exact HP.
Qed.

(** X7.  The two schemas are deleted from apart: whatever the services
    answer, [_deleteImageV1] leaves the two v2 buckets as they are, and
    [_deleteImageV2] the two v1 buckets. *)
Theorem deleteImage_of_one_schema_leaves_the_other
  (ext : Externals) (fuel : nat) (opts : Opts.t) (t : option ImgTag)
  (w : World) :
  (forall i : Image.t,
      v2_untouched w (snd (DeleteV1._deleteImageV1 ext fuel opts i t w)))
  /\ (forall i : ImageV2.t,
         v1_untouched w (snd (DeleteV2._deleteImageV2 ext fuel opts i t w))).
Proof.
  split; intros i.
  - unfold DeleteV1._deleteImageV1.
    match goal with
    | |- context [pipeline ?fs ?c w] =>
        destruct (pipeline fs c w) as [[r ctx] w'] eqn:Hrun;
        pose proof (pipeline_keeps
                      (fun (_ : DeleteV1.Ctx) (w1 : World) =>
                         v2_untouched w w1) fs
                      (DeleteV1_stages_keep_v2 w ext fuel opts)
                      c w r ctx w' (conj eq_refl eq_refl) Hrun) as HP
    end.
    destruct r; exact HP.
  - destruct (DeleteV2_run_keeps ext fuel opts i t w) as (ctx & _ & H & _).
    exact H.
Qed.

(** *** Blobs that several records use *)

(** X8.  [deleteLayer] takes one reference off the count of the records that
    carry the blob id of the layer, whatever the number of records of
    the cascade that carry it.  Moray answering: when two or more v2
    records (of any owner) carry the blob id, or one does that the
    cascade has no record for, it makes no call to IMGAPI, reports no
    change and no error, and sets the flag that stops the reclamation of
    the layers below.  This holds too when all these records are
    records of the cascade itself. *)
Theorem deleteLayer_keeps_a_blob_that_two_records_carry
  (layerInfo : LayerInfo.t) (ctx : DeleteV2.Ctx) (w : World)
  (Hhit : DeleteV2.hitImageHasDependentImagesError ctx = false)
  (Hquiet : moray_faults w = [])
  (Hrefs : let n := List.length
                      (listObjs (docker_images_v2 w)
                         [("image_uuid", LayerInfo.uuid layerInfo)]) in
           2 <= n
           \/ (1 <= n
               /\ DeleteV2.refCount (DeleteV2.ownUuidRefCount ctx)
                    (LayerInfo.uuid layerInfo) = 0%Z)) :
  exists ctx' : DeleteV2.Ctx,
    DeleteV2.deleteLayer layerInfo ctx w = (Calls [None], ctx', w)
    /\ DeleteV2.hitImageHasDependentImagesError ctx' = true
    /\ DeleteV2.changes ctx' = DeleteV2.changes ctx
    /\ DeleteV2.imgsToDelete ctx' = DeleteV2.imgsToDelete ctx.
Proof.
  cbn zeta in Hrefs. unfold DeleteV2.deleteLayer. rewrite Hhit.
  rewrite (proj2 (ImageV2_list_facts _ w) Hquiet).
  set (n := List.length
              (listObjs (docker_images_v2 w)
                 [("image_uuid", LayerInfo.uuid layerInfo)])) in *.
  destruct (Z.eqb_spec
              (DeleteV2.refCount (DeleteV2.ownUuidRefCount ctx)
                 (LayerInfo.uuid layerInfo)) 0) as [Hown | Hown].
  - replace (Z.leb 1 (Z.of_nat n)) with true
      by (symmetry; apply Z.leb_le; lia).
    eexists. split; [reflexivity |]. repeat split; reflexivity.
  - replace (Z.leb 1 (Z.of_nat n - 1)) with true
      by (symmetry; apply Z.leb_le; lia).
    eexists. split; [reflexivity |]. repeat split; reflexivity.
Qed.

Lemma deleteLayer_keeps_a_blob_that_two_records_carry_witness :
  exists ctx' : DeleteV2.Ctx,
    DeleteV2.deleteLayer
      (LayerInfo.mk "sha256:layer-2" "sha256:diff-2" "uuid-of-sha256:layer-2")
      relabel_ctx relabel_world
    = (Calls [None], ctx', relabel_world)
    /\ DeleteV2.hitImageHasDependentImagesError ctx' = true
    /\ DeleteV2.changes ctx' = []
    /\ DeleteV2.imgsToDelete ctx' = [V2 app_relabel; V2 app_child].
Proof.
  refine (deleteLayer_keeps_a_blob_that_two_records_carry
            (LayerInfo.mk "sha256:layer-2" "sha256:diff-2"
               "uuid-of-sha256:layer-2")
            relabel_ctx relabel_world eq_refl eq_refl _).
  left. vm_compute. lia.
Defined.

(** *** Tagging, then resolving *)

Lemma ldap_match_exact (pattern value : string) :
  strip_star pattern = None ->
  ldap_match pattern value = String.eqb pattern value.
Proof. unfold ldap_match. intros ->. reflexivity. Qed.

(** After [put], a search by the three fields of the key of a v2 tag
    record finds that record and no other. *)
Lemma listObjs_putObject_tag (t : ImageTagV2.t) (bucket : list ImageTagV2.t) :
  strip_star (ImageTagV2.repo t) = None ->
  strip_star (ImageTagV2.owner_uuid t) = None ->
  strip_star (ImageTagV2.tag t) = None ->
  listObjs (putObject t bucket)
    [("repo", ImageTagV2.repo t); ("owner_uuid", ImageTagV2.owner_uuid t);
     ("tag", ImageTagV2.tag t)] = [t].
Proof.
  intros Hr Ho Ht. unfold putObject, listObjs.
  rewrite filter_app.
  assert (Hsat : forall r : ImageTagV2.t,
             satisfies
               [("repo", ImageTagV2.repo t);
                ("owner_uuid", ImageTagV2.owner_uuid t);
                ("tag", ImageTagV2.tag t)] r
             = String.eqb (ImageTagV2.repo t) (ImageTagV2.repo r)
               && (String.eqb (ImageTagV2.owner_uuid t)
                     (ImageTagV2.owner_uuid r)
                   && (String.eqb (ImageTagV2.tag t) (ImageTagV2.tag r)
                       && true))).
  { intros r. unfold satisfies. cbn.
    rewrite !ldap_match_exact by assumption. reflexivity. }
  replace (List.filter _ (delObj (key t) bucket)) with (@nil ImageTagV2.t).
  - cbn [app List.filter]. rewrite Hsat, !String.eqb_refl. reflexivity.
  - symmetry. apply filter_nil_iff. intros r Hin.
    apply in_delObj in Hin. destruct Hin as (_ & Hk).
    rewrite Hsat.
    destruct (String.eqb_spec (ImageTagV2.repo t) (ImageTagV2.repo r));
      [| reflexivity].
    destruct (String.eqb_spec (ImageTagV2.owner_uuid t)
                (ImageTagV2.owner_uuid r)); [| reflexivity].
    destruct (String.eqb_spec (ImageTagV2.tag t) (ImageTagV2.tag r));
      [| reflexivity].
    exfalso. apply Hk. cbn [key ImageTagV2_model]. congruence.
Qed.

(** X9.  A tag that [tagImage] has put on a stored v2 image resolves to that
    image: Moray answering, after [tagImage] has called back with the
    tag record, [imgFromName] on the same name calls back with the image
    and that tag record, whatever image the name was a tag of before,
    and whatever ids or digests the name is a prefix of.  The name goes
    to the by-name resolvers, and neither name, tag nor account ends in
    a star. *)
Theorem tagImage_then_imgFromName
  (ext : Externals) (opts : Opts.t) (rat : Rat.t) (i : ImageV2.t) (w : World)
  (Hquiet : moray_faults w = [])
  (Hname : resolved_by_name ext opts rat)
  (Hrepo : strip_star (Rat.localName rat) = None)
  (Htag : strip_star (Rat.tag rat) = None)
  (Hacct : strip_star (Opts.account_uuid opts) = None)
  (Himg : listObjs (docker_images_v2 w)
            [("digest", ImageV2.digest i);
             ("owner_uuid", Opts.account_uuid opts)] = [i])
  (Hlive : blob_present (ImageV2.image_uuid i) w) :
  let t := ImageTagV2.mk (Opts.account_uuid opts) (Rat.localName rat)
             (Rat.tag rat) (ImageV2.digest i) in
  let w' := set_docker_image_tags_v2
              (putObject t (docker_image_tags_v2 w)) w in
  tagImage ext
    (TagOpts.mk (Opts.name opts) (Opts.account_uuid opts) None
       (Some (V2 i)) None) w
  = (Called None (Some t), w')
  /\ imgFromName ext opts w' = (Called None (Some (V2 i), Some (TagV2 t)), w').
Proof.
  intros t w'. split.
  - unfold tagImage. cbn [TagOpts.rat TagOpts.name TagOpts.digest truthy
                            TagOpts.img TagOpts.account_uuid].
    rewrite (proj1 Hname). unfold ImageTagV2_create.
    rewrite (moray_call_quiet w Hquiet). reflexivity.
  - apply (imgFromName_v2_found ext opts rat w' w' _ _ Hname).
    apply (ResolveV2_tag_found opts rat w' t [] i).
    + exact Hquiet.
    + subst w'. cbn [docker_image_tags_v2 set_docker_image_tags_v2].
      exact (listObjs_putObject_tag t (docker_image_tags_v2 w)
               Hrepo Hacct Htag).
    + exact Himg.
    + exact Hlive.
Qed.

Lemma tagImage_then_imgFromName_witness :
  tagImage sample_ext
    (TagOpts.mk "cafe:latest" alice None (Some (V2 nginx_v2)) None) cafe_nginx_world
  = (Called None (Some (ImageTagV2.mk alice "cafe" "latest" nginx_digest)),
     set_docker_image_tags_v2
       [ImageTagV2.mk alice "cafe" "latest" nginx_digest] cafe_nginx_world)
  /\ imgFromName sample_ext (opts_for "cafe:latest" false)
       (set_docker_image_tags_v2
          [ImageTagV2.mk alice "cafe" "latest" nginx_digest] cafe_nginx_world)
     = (Called None
          (Some (V2 nginx_v2),
           Some (TagV2 (ImageTagV2.mk alice "cafe" "latest" nginx_digest))),
        set_docker_image_tags_v2
          [ImageTagV2.mk alice "cafe" "latest" nginx_digest] cafe_nginx_world).
Proof.
  refine (tagImage_then_imgFromName sample_ext
            (opts_for "cafe:latest" false) (Rat.mk "cafe" "latest" None)
            nginx_v2 cafe_nginx_world eq_refl _ eq_refl eq_refl eq_refl
            eq_refl _).
  - repeat split; reflexivity.
  - split; reflexivity.
Defined.

(** *** The UUID of a SmartOS image *)

(** X10.  With [includeSmartos], a name that is the UUID of an active SmartOS
    image of IMGAPI resolves to the faux image [{image_uuid, os}] of
    that image, before any docker name, id or digest is looked for:
    Moray is not asked (it may be down).  [deleteImage] on such a name
    does not call back: [_deleteImageV1] takes the faux image for a v1
    image that is not a head image and reads its [heads]. *)
Theorem imgFromName_of_a_smartos_uuid
  (ext : Externals) (opts : Opts.t) (rat : Rat.t) (w : World)
  (Hparse : parseRepoAndTag ext (Opts.name opts) = inl rat)
  (Hincl : Opts.includeSmartos opts = true)
  (Huuid : isUUID ext (Rat.localName rat) = true)
  (Hquiet : imgapi_faults w = [])
  (Hthere : existsb
              (fun i => String.eqb (ImgapiImage.uuid i) (Rat.localName rat)
                        && String.eqb (ImgapiImage.os i) "smartos"
                        && String.eqb (ImgapiImage.state i) "active")
              (imgapi_images w) = true) :
  imgFromName ext opts w
  = (Called None (Some (Faux (Rat.localName rat) "smartos"), None), w)
  /\ forall fuel : nat,
       deleteImage ext fuel opts w
       = (Crashed (TypeError "Cannot read property 'map' of undefined"), w).
Proof.
  assert (Hres : imgFromName ext opts w
                 = (Called None (Some (Faux (Rat.localName rat) "smartos"),
                                 None), w)).
  { unfold imgFromName. rewrite Hparse. cbn [pipeline].
    unfold ImgFromName.findUuidInImgapi at 1. rewrite Hincl, Huuid.
    cbn [negb orb]. unfold imgapi_getImage_where.
    rewrite (imgapi_call_quiet w Hquiet).
    destruct (find _ (imgapi_images w)) as [x |] eqn:Hf.
    - apply find_some in Hf. destruct Hf as (_ & Hx).
      apply andb_prop in Hx. destruct Hx as (Hx & _).
      apply andb_prop in Hx. destruct Hx as (Hu & Ho).
      apply String.eqb_eq in Hu, Ho. rewrite Hu, Ho. reflexivity.
    - exfalso. apply existsb_exists in Hthere.
      destruct Hthere as (x & Hin & Hx).
      pose proof (find_none _ _ Hf x Hin) as Hn. cbn beta in Hn.
      rewrite Hx in Hn. discriminate Hn. }
  split; [exact Hres |].
  intros fuel. unfold deleteImage. rewrite Hres. reflexivity.
Qed.

Lemma imgFromName_of_a_smartos_uuid_witness :
  imgFromName uuid_ext (Opts.mk smartos_uuid alice None true false)
    smartos_world
  = (Called None (Some (Faux smartos_uuid "smartos"), None), smartos_world)
  /\ forall fuel : nat,
       deleteImage uuid_ext fuel (Opts.mk smartos_uuid alice None true false)
         smartos_world
       = (Crashed (TypeError "Cannot read property 'map' of undefined"),
          smartos_world).
Proof.
  exact (imgFromName_of_a_smartos_uuid uuid_ext
           (Opts.mk smartos_uuid alice None true false)
           (Rat.mk smartos_uuid "latest" None) smartos_world
           eq_refl eq_refl eq_refl eq_refl eq_refl).
Defined.

(** *** Objects of the ImageV2 model *)

Lemma ImageV2_raw_eq (this : ImageV2Params.t) : ImageV2_raw this = this.
Proof. destruct this. reflexivity. Qed.

(** X11.  What the constructor has built: an owner, an image JSON with a
    [config], a digest with a colon, and for [params.parent] the parent
    of the image JSON, or the empty string when the image JSON names
    none (never [undefined], so that a search on an empty parent finds
    the object).  The raw form of the object is accepted by the
    constructor in its turn, which builds the same object from it: what
    [createImage] has written is read back as it was. *)
Theorem ImageV2_new_normalises_and_reads_back
  (ext : Externals) (params this : ImageV2Params.t)
  (Hnew : ImageV2_new ext params = inr this) :
  ImageV2Params.parent this
  = Some (if truthy (ImageJson.parent (ImageV2Params.image params))
          then or_empty (ImageJson.parent (ImageV2Params.image params))
          else "")
  /\ ImageV2Params.owner_uuid this <> None
  /\ ImageJson.config (ImageV2Params.image this) <> None
  /\ has_colon (ImageV2Params.digest this) = true
  /\ ImageV2_new ext (ImageV2_raw this) = inr this.
Proof.
  unfold ImageV2_new in Hnew.
  destruct (ImageV2Params.owner_uuid params) as [o |] eqn:Ho;
    [| discriminate Hnew].
  destruct (ImageJson.config (ImageV2Params.image params)) as [c |] eqn:Hc;
    [| discriminate Hnew].
  destruct (ImageV2_parent params) as [cr | parent] eqn:Hp;
    [discriminate Hnew |].
  destruct (has_colon (ImageV2Params.digest params)) eqn:Hd;
    [| discriminate Hnew].
  cbn [negb] in Hnew. inversion Hnew; subst this; clear Hnew.
  cbn [ImageV2Params.parent ImageV2Params.owner_uuid ImageV2Params.image
         ImageV2Params.digest].
  assert (Hpar : (if truthy parent then or_empty parent else "")
                 = (if truthy (ImageJson.parent (ImageV2Params.image params))
                    then or_empty
                           (ImageJson.parent (ImageV2Params.image params))
                    else "")).
  { unfold ImageV2_parent in Hp.
    destruct (ImageV2Params.parent params) as [[| a p] |];
      destruct (ImageJson.parent (ImageV2Params.image params))
        as [[| b ip] |];
      cbn [truthy negb andb or_empty] in Hp;
      try (inversion Hp; subst; reflexivity).
    destruct (String.eqb_spec (String a p) (String b ip)) as [E | E];
      inversion Hp; subst. inversion E; subst. reflexivity. }
  split; [rewrite Hpar; reflexivity |].
  split; [discriminate |].
  split; [rewrite Hc; discriminate |].
  split; [exact Hd |].
  rewrite ImageV2_raw_eq. unfold ImageV2_new.
  cbn [ImageV2Params.parent ImageV2Params.owner_uuid ImageV2Params.image
         ImageV2Params.digest ImageV2Params.head ImageV2Params.image_uuid
         ImageV2Params.manifest_digest ImageV2Params.manifest_str
         ImageV2Params.size].
  rewrite Hc, Hd. cbn [negb].
  unfold ImageV2_parent.
  cbn [ImageV2Params.parent ImageV2Params.image].
  rewrite Hpar.
  destruct (ImageJson.parent (ImageV2Params.image params)) as [[| b ip] |];
    cbn [truthy negb andb or_empty]; try reflexivity.
  rewrite String.eqb_refl. reflexivity.
Qed.

Lemma ImageV2_new_normalises_and_reads_back_witness :
  ImageV2_new sample_ext (dockerImageJsonToModel bb_json (bb_opts (Some alice)))
  = inr bb_object
  /\ ImageV2Params.parent bb_object = Some "sha256:parentbb"
  /\ ImageV2_new sample_ext (ImageV2_raw bb_object) = inr bb_object.
Proof.
  assert (H : ImageV2_new sample_ext
                (dockerImageJsonToModel bb_json (bb_opts (Some alice)))
              = inr bb_object) by reflexivity.
  split; [exact H |].
  pose proof (ImageV2_new_normalises_and_reads_back sample_ext _ _ H) as Hn.
  split; [exact (proj1 Hn) | exact (proj2 (proj2 (proj2 (proj2 Hn))))].
Defined.



Lemma append_comma_inj (a b c d : string) :
  no_comma a = true -> no_comma c = true ->
  a ++ "," ++ b = c ++ "," ++ d -> a = c /\ b = d.
Proof.
  revert c. induction a as [| x a IH]; intros [| y c] Ha Hc E; cbn in *.
  - inversion E. split; reflexivity.
  - inversion E; subst. rewrite Ascii.eqb_refl in Hc. discriminate Hc.
  - inversion E; subst. rewrite Ascii.eqb_refl in Ha. discriminate Ha.
  - inversion E; subst.
    apply andb_prop in Ha, Hc. destruct Ha as (_ & Ha), Hc as (_ & Hc).
    destruct (IH c Ha Hc H1) as (-> & ->). split; reflexivity.
Qed.

(** X13.  [objectKey] tells the records of the v2 image bucket apart by owner
    and digest: for owners without a comma (UUIDs), two records have the
    same key if and only if they have the same owner and the same
    digest. *)
Theorem objectKey_is_one_to_one (p q : ImageV2.t)
  (Hp : no_comma (ImageV2.owner_uuid p) = true)
  (Hq : no_comma (ImageV2.owner_uuid q) = true) :
  ImageV2.objectKey p = ImageV2.objectKey q
  <-> ImageV2.owner_uuid p = ImageV2.owner_uuid q
      /\ ImageV2.digest p = ImageV2.digest q.
Proof.
  unfold ImageV2.objectKey. split.
  - apply append_comma_inj; assumption.
  - intros (-> & ->). reflexivity.
Qed.

Lemma objectKey_is_one_to_one_witness :
  (ImageV2.objectKey nginx_v2 = ImageV2.objectKey cafe_v2
   <-> ImageV2.owner_uuid nginx_v2 = ImageV2.owner_uuid cafe_v2
       /\ ImageV2.digest nginx_v2 = ImageV2.digest cafe_v2)
  /\ ImageV2.objectKey nginx_v2 <> ImageV2.objectKey cafe_v2.
Proof.
  split.
  - exact (objectKey_is_one_to_one nginx_v2 cafe_v2 eq_refl eq_refl).
  - vm_compute. discriminate.
Defined.

(** *** Writing an object, then looking it up *)

Lemma listObjs_putObject_image (r : ImageV2.t) (bucket : list ImageV2.t) :
  strip_star (ImageV2.owner_uuid r) = None ->
  strip_star (ImageV2.digest r) = None ->
  listObjs (putObject r bucket)
    [("owner_uuid", ImageV2.owner_uuid r); ("digest", ImageV2.digest r)]
  = [r].
Proof.
  intros Ho Hd. unfold putObject, listObjs.
  rewrite filter_app.
  assert (Hsat : forall x : ImageV2.t,
             satisfies
               [("owner_uuid", ImageV2.owner_uuid r);
                ("digest", ImageV2.digest r)] x
             = String.eqb (ImageV2.owner_uuid r) (ImageV2.owner_uuid x)
               && (String.eqb (ImageV2.digest r) (ImageV2.digest x)
                   && true)).
  { intros x. unfold satisfies. cbn.
    rewrite !ldap_match_exact by assumption. reflexivity. }
  replace (List.filter _ (delObj (key r) bucket)) with (@nil ImageV2.t).
  - cbn [app List.filter]. rewrite Hsat, !String.eqb_refl. reflexivity.
  - symmetry. apply filter_nil_iff. intros x Hin.
    apply in_delObj in Hin. destruct Hin as (_ & Hk).
    rewrite Hsat.
    destruct (String.eqb_spec (ImageV2.owner_uuid r) (ImageV2.owner_uuid x));
      [| reflexivity].
    destruct (String.eqb_spec (ImageV2.digest r) (ImageV2.digest x));
      [| reflexivity].
    exfalso. apply Hk. cbn [key ImageV2_model]. unfold ImageV2.objectKey.
    congruence.
Qed.

(** X14.  [createImage] of the model, then a look-up by owner and digest:
    Moray answering, the object that the constructor accepts is put
    under its key, [imgFromImgInfoV2] finds it and nothing else under
    its owner and digest (a record that was there is replaced), and the
    records under the other keys are as they were.  When the constructor
    stops at an assertion, nothing is written.  Neither owner nor digest
    ends in a star. *)
Theorem ImageV2_create_then_imgFromImgInfoV2
  (ext : Externals) (params : ImageV2Params.t) (w : World)
  (Hquiet : moray_faults w = []) :
  (forall c : Crash,
      ImageV2_new ext params = inl c ->
      ImageV2_create ext params w = (Crashed c, w))
  /\ (forall this : ImageV2Params.t,
         ImageV2_new ext params = inr this ->
         strip_star (or_empty (ImageV2Params.owner_uuid this)) = None ->
         strip_star (ImageV2Params.digest this) = None ->
         let r := ImageV2_record this in
         let w' := set_docker_images_v2
                     (putObject r (docker_images_v2 w)) w in
         ImageV2_create ext params w = (Called None (Some r), w')
         /\ imgFromImgInfoV2 (ImageV2.owner_uuid r) (ImageV2.digest r) w'
            = (Called None (Some (V2 r)), w')
         /\ forall x : ImageV2.t,
              key x <> key r ->
              (In x (docker_images_v2 w') <-> In x (docker_images_v2 w))).
Proof.
  split.
  - intros c Hnew. unfold ImageV2_create. rewrite Hnew. reflexivity.
  - intros this Hnew Ho Hd r w'. split; [| split].
    + unfold ImageV2_create. rewrite Hnew, (moray_call_quiet w Hquiet).
      reflexivity.
    + unfold imgFromImgInfoV2, ImageV2_list.
      rewrite (moray_call_quiet w' Hquiet).
      subst w'. cbn [docker_images_v2 set_docker_images_v2].
      rewrite (listObjs_putObject_image r (docker_images_v2 w) Ho Hd).
      reflexivity.
    + intros x Hx. subst w'. cbn [docker_images_v2 set_docker_images_v2].
      unfold putObject. rewrite in_app_iff, in_delObj. split.
      * intros [(Hin & _) | [<- | []]]; [exact Hin |].
        contradiction Hx. reflexivity.
      * intros Hin. left. split; assumption.
Qed.

Lemma ImageV2_create_then_imgFromImgInfoV2_witness :
  ImageV2_create sample_ext
    (dockerImageJsonToModel bb_json (bb_opts None)) v2_world
  = (Crashed (AssertionError "params.owner_uuid (string) is required"),
     v2_world)
  /\ imgFromImgInfoV2 alice "sha256:bb"
       (snd (ImageV2_create sample_ext
               (dockerImageJsonToModel bb_json (bb_opts (Some alice)))
               v2_world))
     = (Called None (Some (V2 (ImageV2_record bb_object))),
        mkWorld [] [] [nginx_v2; ImageV2_record bb_object]
          [nginx_latest; nginx_stable] [live "uuid-nginx"] [] []
          (fun _ _ => []) [] [] []).
Proof.
  split.
  - exact (proj1 (ImageV2_create_then_imgFromImgInfoV2 sample_ext
                    (dockerImageJsonToModel bb_json (bb_opts None))
                    v2_world eq_refl) _ eq_refl).
  - pose proof (proj2 (ImageV2_create_then_imgFromImgInfoV2 sample_ext
                         (dockerImageJsonToModel bb_json
                            (bb_opts (Some alice)))
                         v2_world eq_refl) bb_object eq_refl eq_refl eq_refl)
      as (Hc & Hl & _).
    rewrite Hc. exact Hl.
Defined.

(** *** Pulling *)



Lemma code_is_eq (err : JobError.t) (s : string) :
  code_is err s = true <-> JobError.code err = Some s.
Proof.
  unfold code_is. destruct (JobError.code err) as [c |].
  - rewrite String.eqb_eq. split; [intros ->; reflexivity |].
    intros E. inversion E. reflexivity.
  - split; discriminate.
Qed.

(** X16.  An error of code [RemoteSourceError] is always reported as a host
    that was not found: the later test of [errorAndEnd] that would
    report it as a timeout is never reached.  The text "Timeout
    connecting to host" is written for the code [ConnectTimeoutError]
    and for no other error. *)
Theorem errorAndEnd_reports_a_timeout_for_ConnectTimeoutError_only
  (env : PullEnv) (opts : PullOpts.t) (err : JobError.t) :
  (JobError.code err = Some "RemoteSourceError" ->
   ErrorAndEnd.errorAndEnd env opts err
   = [ResWrite (("Error pulling image: (RemoteSourceError) "
                 ++ PullOpts.index_name opts ++ " host not found")
                ++ " (" ++ PullOpts.req_id opts ++ ")");
      ResEnd])
  /\ (String.prefix "Timeout connecting to host "
        (fst (ErrorAndEnd.errmsg env opts err)) = true
      <-> JobError.code err = Some "ConnectTimeoutError").
Proof.
  split.
  - intros Hc. unfold ErrorAndEnd.errorAndEnd, ErrorAndEnd.errmsg, code_is.
    rewrite Hc. reflexivity.
  - unfold ErrorAndEnd.errmsg.
    destruct (code_is err "RemoteSourceError") eqn:Hrs.
    { cbn [orb fst]. split; [discriminate |].
      intros Hc. apply code_is_eq in Hrs. rewrite Hrs in Hc.
      discriminate Hc. }
    destruct (code_is err "ENOTFOUND") eqn:H1.
    { cbn [orb fst]. split; [discriminate |].
      intros Hc. apply code_is_eq in H1. rewrite H1 in Hc. discriminate Hc. }
    cbn [orb].
    destruct (code_is err "UnauthorizedError") eqn:H2.
    { cbn [orb fst]. split; [discriminate |].
      intros Hc. apply code_is_eq in H2. rewrite H2 in Hc. discriminate Hc. }
    destruct (code_is err "UNAUTHORIZED") eqn:H3.
    { cbn [orb fst]. split; [discriminate |].
      intros Hc. apply code_is_eq in H3. rewrite H3 in Hc. discriminate Hc. }
    destruct (code_is err "ResourceNotFound") eqn:H4.
    { cbn [orb fst]. split; [discriminate |].
      intros Hc. apply code_is_eq in H4. rewrite H4 in Hc. discriminate Hc. }
    destruct (code_is err "NotFoundError") eqn:H5.
    { cbn [orb fst]. split; [discriminate |].
      intros Hc. apply code_is_eq in H5. rewrite H5 in Hc. discriminate Hc. }
    cbn [orb].
    destruct (code_is err "Download") eqn:H6.
    { cbn [orb fst]. split; [discriminate |].
      intros Hc. apply code_is_eq in H6. rewrite H6 in Hc. discriminate Hc. }
    destruct (code_is err "DownloadError") eqn:H7.
    { cbn [orb fst]. split; [discriminate |].
      intros Hc. apply code_is_eq in H7. rewrite H7 in Hc. discriminate Hc. }
    cbn [orb].
    destruct (code_is err "ConnectTimeoutError") eqn:H8.
    { cbn [orb fst]. split; [intros _; apply code_is_eq; exact H8 |].
      intros _.
      change (String.prefix "Timeout connecting to host "
                ("Timeout connecting to host " ++ PullOpts.index_name opts)
              = true).
      generalize (PullOpts.index_name opts). intros s.
      cbn. repeat rewrite Ascii.eqb_refl.
      destruct s; reflexivity. }
    cbn [orb].
    assert (Hno : JobError.code err <> Some "ConnectTimeoutError").
    { intros Hc. apply code_is_eq in Hc. rewrite Hc in H8. discriminate H8. }
    destruct (code_is err "NotImplemented").
    { cbn [fst]. split; [discriminate | intros Hc; contradiction]. }
    destruct (registryErrors env (JobError.message err))
      as [[| [c m] [| e2 r]] |]; cbn [fst].
    + split; [discriminate | intros Hc; contradiction].
    + destruct (String.eqb c "MANIFEST_UNKNOWN"); cbn [fst];
        (split; [discriminate | intros Hc; contradiction]).
    + split; [discriminate | intros Hc; contradiction].
    + split; [discriminate | intros Hc; contradiction].
Qed.

Lemma errorAndEnd_reports_a_timeout_for_ConnectTimeoutError_only_witness :
  ErrorAndEnd.errorAndEnd wfapi_down
    (pull_opts (Rat.mk "nope" "latest" None))
    (JobError.mk (Some "RemoteSourceError") "connect ETIMEDOUT")
  = [ResWrite "Error pulling image: (RemoteSourceError) docker.io host not found (req-1)";
     ResEnd]
  /\ fst (ErrorAndEnd.errmsg wfapi_down
            (pull_opts (Rat.mk "nope" "latest" None))
            (JobError.mk (Some "ConnectTimeoutError") "timeout"))
     = "Timeout connecting to host docker.io".
Proof.
  split.
  - exact (proj1 (errorAndEnd_reports_a_timeout_for_ConnectTimeoutError_only
                    wfapi_down (pull_opts (Rat.mk "nope" "latest" None))
                    (JobError.mk (Some "RemoteSourceError")
                       "connect ETIMEDOUT")) eq_refl).
  - pose proof (proj2 (proj2
                  (errorAndEnd_reports_a_timeout_for_ConnectTimeoutError_only
                     wfapi_down (pull_opts (Rat.mk "nope" "latest" None))
                     (JobError.mk (Some "ConnectTimeoutError") "timeout")))
                  eq_refl) as H.
    reflexivity.
Defined.




(* ------------------------------------------------------------------ *)
(** ** The listing as a whole *)

Lemma imageFilter_from_false (env : ListEnv)
  (fs : list (string * list string))
  (config : option (option (list (string * string)))) (b : bool) :
  ListImagesAll.imageFilter_from env fs config false = inr b -> b = false.
Proof.
  induction fs as [| [field val] rest IH]; cbn; intros H.
  - congruence.
  - destruct (String.eqb field "dangling").
    + destruct (boolFromQueryParam env _); auto.
    + destruct (String.eqb field "label"); [| discriminate].
      destruct config as [Labels |]; [| discriminate].
      destruct (negb _); auto.
Qed.

Lemma imageFilter_dangling (env : ListEnv)
  (fs : list (string * list string)) (vals : list string)
  (config : option (option (list (string * string)))) (isMatch b : bool) :
  In ("dangling", vals) fs ->
  boolFromQueryParam env (List.last (map Some vals) None) = true ->
  ListImagesAll.imageFilter_from env fs config isMatch = inr b ->
  b = false.
Proof.
  intros Hin Htrue. revert isMatch.
  induction fs as [| [field val] rest IH]; [destruct Hin |].
  intros isMatch H. cbn in H. destruct Hin as [E | Hin].
  - inversion E; subst. cbn in H. rewrite Htrue in H.
    eapply imageFilter_from_false; eassumption.
  - destruct (String.eqb field "dangling").
    + eapply IH; eassumption.
    + destruct (String.eqb field "label"); [| discriminate].
      destruct config as [Labels |]; [| discriminate].
      eapply IH; eassumption.
Qed.

Lemma filtered_none {A : Type} (test : A -> Thrown + bool) (imgs kept : list A) :
  (forall img b, test img = inr b -> b = false) ->
  ListImagesAll.filtered test imgs = inr kept -> kept = [].
Proof.
  intros Hno. revert kept.
  induction imgs as [| img rest IH]; cbn; intros kept H.
  - congruence.
  - destruct (test img) as [e | keep] eqn:Ht; [discriminate |].
    destruct (ListImagesAll.filtered test rest) as [e | kept']; [discriminate |].
    rewrite (Hno _ _ Ht) in H. inversion H; subst. apply IH. reflexivity.
Qed.

Lemma parallel_errors (funcs : list ListImagesAll.Source) :
  forall (errors : list Thrown) (rows : list DockerImage.t) (w : World)
         (errors' : list Thrown) (rows' : list DockerImage.t) (w' : World),
    ListImagesAll.parallel funcs errors rows w = (inr (errors', rows'), w') ->
    length errors <= length errors'.
Proof.
  induction funcs as [| f rest IH]; cbn; intros errors rows w errors' rows' w' H.
  - inversion H; subst. lia.
  - destruct (f rows w) as [[c | [err |] rows1] w1]; [discriminate | |].
    + apply IH in H. rewrite length_app in H. cbn in H. lia.
    + apply IH in H. exact H.
Qed.

Lemma parallel_cons (f : ListImagesAll.Source)
  (rest : list ListImagesAll.Source) (errors : list Thrown)
  (rows : list DockerImage.t) (w : World) :
  ListImagesAll.parallel (f :: rest) errors rows w
  = match f rows w with
    | (ListImagesAll.SourceCrashed c, w') => (inl c, w')
    | (ListImagesAll.SourceNext (Some err) rows', w') =>
        ListImagesAll.parallel rest (errors ++ [err]) rows' w'
    | (ListImagesAll.SourceNext None rows', w') =>
        ListImagesAll.parallel rest errors rows' w'
    end.
Proof. reflexivity. Qed.

Lemma listDockerImagesV2_all_filtered (env : ListEnv)
  (fs : list (string * list string)) (opts : ListOpts.t)
  (rows rows' : list DockerImage.t) (w w' : World) :
  fs <> [] ->
  (forall config b, ListImagesAll.imageFilter env fs config = inr b ->
                    b = false) ->
  ListImagesAll.listDockerImagesV2 env fs opts rows w
  = (ListImagesAll.SourceNext None rows', w') ->
  rows' = rows.
Proof.
  intros Hne Hno H. unfold ListImagesAll.listDockerImagesV2 in H.
  destruct (ImageV2_list _ w) as [[e | imgs] w1]; [discriminate |].
  destruct fs as [| f fs']; [congruence |].
  destruct (ListImagesAll.filtered _ imgs) as [e | kept] eqn:Hf;
    [discriminate |].
  apply filtered_none in Hf; [| intros img b; apply Hno]. subst kept.
  cbn in H. inversion H; subst. apply app_nil_r.
Qed.

Lemma listDockerImagesV1_all_filtered (env : ListEnv)
  (fs : list (string * list string)) (opts : ListOpts.t)
  (rows rows' : list DockerImage.t) (w w' : World) :
  fs <> [] ->
  (forall config b, ListImagesAll.imageFilter env fs config = inr b ->
                    b = false) ->
  ListImagesAll.listDockerImagesV1 env fs opts rows w
  = (ListImagesAll.SourceNext None rows', w') ->
  rows' = rows.
Proof.
  intros Hne Hno H. unfold ListImagesAll.listDockerImagesV1 in H.
  destruct (Image_list _ w) as [[e | imgs] w1]; [discriminate |].
  destruct fs as [| f fs']; [congruence |].
  destruct (ListImagesAll.filtered _ imgs) as [e | kept] eqn:Hf;
    [discriminate |].
  apply filtered_none in Hf; [| intros img b; apply Hno]. subst kept.
  cbn in H. inversion H; subst. apply app_nil_r.
Qed.

Lemma listSmartOSImages_rows (ext : Externals) (env : ListEnv)
  (opts : ListOpts.t) (rows rows' : list DockerImage.t) (w w' : World) :
  ListImagesAll.listSmartOSImages ext env opts rows w
  = (ListImagesAll.SourceNext None rows', w') ->
  exists sm,
    ListImagesAll.smartosRows ext
      (smartos_images env (ListOpts.account_uuid opts)) = inr sm
    /\ rows' = (rows ++ sm)%list.
Proof.
  unfold ListImagesAll.listSmartOSImages. intros H.
  destruct (imgapi_call w) as [[e |] w1]; [discriminate |].
  destruct (ListImagesAll.smartosRows _ _) as [c | sm]; [discriminate |].
  inversion H; subst. exists sm. split; reflexivity.
Qed.

(** X18.  With a filter [dangling] whose last value is read as true, no Docker
    image is listed, whatever the other filters are: a listing that
    succeeds holds the rows of the SmartOS images, newest first, and
    nothing else; it is empty when the SmartOS images are skipped. *)
Theorem listImages_dangling_lists_no_docker_image (ext : Externals)
  (env : ListEnv) (opts : ListOpts.t) (w w' : World)
  (fs : list (string * list string)) (vals : list string)
  (rows : list DockerImage.t) :
  normalizedFilters env (ListImagesAll.filters_or_default opts)
  = FiltersOf fs ->
  In ("dangling", vals) fs ->
  boolFromQueryParam env (List.last (map Some vals) None) = true ->
  listImages ext env opts w = (ListCalled None rows, w') ->
  if ListOpts.skip_smartos opts then rows = []
  else exists sm,
      ListImagesAll.smartosRows ext
        (smartos_images env (ListOpts.account_uuid opts)) = inr sm
      /\ rows = ListImagesAll.sort_rows sm.
Proof.
  intros Hfs Hin Htrue H.
  assert (Hne : fs <> []) by (intros E; subst; destruct Hin).
  assert (Hno : forall config b,
             ListImagesAll.imageFilter env fs config = inr b -> b = false).
  { intros config b Hb. eapply imageFilter_dangling; eassumption. }
  unfold listImages in H. rewrite Hfs in H.
  destruct (ListImagesAll.parallel _ [] [] w) as [[c | [errors rows0]] w0]
    eqn:Hp; [discriminate |].
  destruct errors as [| err errors]; [| discriminate].
  inversion H; subst; clear H.
  assert (Hdocker : forall rows1 w1,
             ListImagesAll.parallel
               (ListImagesAll.listDockerImagesV2 env fs opts
                :: (if ListOpts.skip_v1_images opts then []
                    else [ListImagesAll.listDockerImagesV1 env fs opts]))
               [] rows1 w1 = (inr ([], rows0), w') ->
             rows0 = rows1).
  { intros rows1 w1 Hd. rewrite parallel_cons in Hd.
    destruct (ListImagesAll.listDockerImagesV2 env fs opts rows1 w1)
      as [[c | [err |] rows2] w2] eqn:H2; [discriminate | |].
    - apply parallel_errors in Hd. cbn in Hd. lia.
    - apply listDockerImagesV2_all_filtered in H2; [| assumption ..].
      subst rows2.
      destruct (ListOpts.skip_v1_images opts);
        cbn [ListImagesAll.parallel] in Hd.
      + inversion Hd; subst. reflexivity.
      + destruct (ListImagesAll.listDockerImagesV1 env fs opts rows1 w2)
          as [[c | [err |] rows3] w3] eqn:H3; [discriminate | |].
        * inversion Hd.
        * apply listDockerImagesV1_all_filtered in H3; [| assumption ..].
          inversion Hd; subst. reflexivity. }
  destruct (ListOpts.skip_smartos opts).
  - cbn [app] in Hp. apply Hdocker in Hp. subst rows0. reflexivity.
  - cbn [app] in Hp. rewrite parallel_cons in Hp.
    destruct (ListImagesAll.listSmartOSImages ext env opts [] w)
      as [[c | [err |] rows1] w1] eqn:H1; [discriminate | |].
    + apply parallel_errors in Hp. cbn in Hp. lia.
    + apply listSmartOSImages_rows in H1. destruct H1 as [sm [Hsm E]].
      cbn in E. subst rows1.
      apply Hdocker in Hp. subst rows0. exists sm. split; [assumption |].
      reflexivity.
Qed.

Lemma listImages_dangling_lists_no_docker_image_witness :
  exists rows,
    listImages sample_ext list_env (list_opts (Some "dangling")) v2_world
    = (ListCalled None rows, v2_world)
    /\ length rows = 1
    /\ length (docker_images_v2 v2_world) = 1.
Proof.
  eexists. split; [reflexivity |].
  pose proof (listImages_dangling_lists_no_docker_image sample_ext list_env
                (list_opts (Some "dangling")) v2_world v2_world
                [("dangling", ["true"])] ["true"] _
                eq_refl (or_introl eq_refl) eq_refl eq_refl) as H.
  cbn in H. destruct H as [sm [Hsm E]]. split; reflexivity.
Defined.






Lemma until_equals_no_equals (s : string) :
  no_equals s = true -> until_equals s = (s, None).
Proof.
  induction s as [| c r IH]; cbn; [reflexivity |].
  destruct (Ascii.eqb c "="); cbn; [discriminate |].
  intros H. rewrite (IH H). reflexivity.
Qed.

Lemma until_equals_at_equals (k rest : string) :
  no_equals k = true -> until_equals (k ++ "=" ++ rest) = (k, Some rest).
Proof.
  induction k as [| c r IH]; cbn; [reflexivity |].
  destruct (Ascii.eqb c "="); cbn; [discriminate |].
  intros H. cbn in IH. rewrite (IH H). reflexivity.
Qed.

Lemma until_equals_fst_at_equals (v rest : string) :
  no_equals v = true -> fst (until_equals (v ++ "=" ++ rest)) = v.
Proof. intros H. rewrite until_equals_at_equals by assumption. reflexivity. Qed.

Lemma labelWanted_pair (labels : list (string * string)) (k v : string) :
  no_equals k = true -> no_equals v = true ->
  ListImagesAll.labelWanted labels (k ++ "=" ++ v) = has_label labels k v.
Proof.
  intros Hk Hv. unfold ListImagesAll.labelWanted, split_equals_2.
  rewrite until_equals_at_equals by assumption. cbn [option_map].
  rewrite until_equals_no_equals by assumption. reflexivity.
Qed.

Lemma labelWanted_bare (labels : list (string * string)) (k : string) :
  no_equals k = true -> ListImagesAll.labelWanted labels k = false.
Proof.
  intros Hk. unfold ListImagesAll.labelWanted, split_equals_2.
  rewrite until_equals_no_equals by assumption. cbn [option_map].
  induction labels as [| l ls IH]; cbn; [reflexivity |].
  rewrite IH. rewrite andb_false_r. reflexivity.
Qed.

Lemma imageFilter_label_only (env : ListEnv)
  (Labels : option (list (string * string))) (val : list string) :
  ListImagesAll.imageFilter env [("label", val)] (Some Labels)
  = inr (forallb
           (ListImagesAll.labelWanted
              match Labels with Some l => l | None => [] end) val).
Proof.
  unfold ListImagesAll.imageFilter.
  cbn -[ListImagesAll.labelWanted forallb].
  destruct (forallb _ val); reflexivity.
Qed.

(** X20.  The filter [label] on a record whose [config] is there: a wanted
    label [k=v] keeps the record exactly when the record carries the
    label [k] with the value [v]; what follows a second [=] is not
    compared, so [k=v=more] is the same filter as [k=v]; a wanted label
    without [=] keeps no record, not even one that carries the label;
    and of several wanted labels each one has to be carried. *)
Theorem imageFilter_label (env : ListEnv)
  (Labels : option (list (string * string))) (k v more : string)
  (wanted : list string) :
  no_equals k = true -> no_equals v = true ->
  let labels := match Labels with Some l => l | None => [] end in
  let filter_on := fun val =>
    ListImagesAll.imageFilter env [("label", val)] (Some Labels) in
  filter_on [k ++ "=" ++ v] = inr (has_label labels k v)
  /\ filter_on [k ++ "=" ++ v ++ "=" ++ more] = filter_on [k ++ "=" ++ v]
  /\ filter_on [k] = inr false
  /\ (filter_on wanted = inr true <->
      forall one, In one wanted -> filter_on [one] = inr true).
Proof.
  intros Hk Hv labels filter_on. subst filter_on. cbv beta.
  repeat rewrite imageFilter_label_only. fold labels.
  assert (Hmore : ListImagesAll.labelWanted labels
                    (k ++ "=" ++ v ++ "=" ++ more)
                  = has_label labels k v).
  { unfold ListImagesAll.labelWanted, split_equals_2.
    rewrite until_equals_at_equals by assumption. cbn [option_map].
    rewrite until_equals_fst_at_equals by assumption. reflexivity. }
  assert (Hbare := labelWanted_bare labels k Hk).
  assert (Hpair := labelWanted_pair labels k v Hk Hv).
  cbn [forallb]. rewrite Hmore, Hpair, Hbare.
  repeat split.
  - rewrite andb_true_r. reflexivity.
  - intros H one Hin. rewrite imageFilter_label_only. fold labels.
    cbn [forallb]. rewrite andb_true_r.
    injection H as H. rewrite forallb_forall in H. rewrite (H one Hin).
    reflexivity.
  - intros H. f_equal. apply forallb_forall. intros one Hin.
    specialize (H one Hin). rewrite imageFilter_label_only in H.
    fold labels in H. cbn [forallb] in H. rewrite andb_true_r in H.
    injection H as H. exact H.
Qed.

Lemma imageFilter_label_witness :
  ListImagesAll.imageFilter list_env
    [("label", ["maintainer=ops=eu"])]
    (Some (Some [("maintainer", "ops")])) = inr true
  /\ ListImagesAll.imageFilter list_env
       [("label", ["maintainer"])]
       (Some (Some [("maintainer", "ops")])) = inr false.
Proof.
  destruct (imageFilter_label list_env (Some [("maintainer", "ops")])
              "maintainer" "ops" "eu" [] eq_refl eq_refl)
    as [H1 [H2 [H3 _]]].
  split; [exact (eq_trans H2 H1) | exact H3].
Defined.

Lemma insert_row_Forall (P : DockerImage.t -> Prop) (r : DockerImage.t)
  (rows : list DockerImage.t) :
  P r -> Forall P rows -> Forall P (ListImagesAll.insert_row r rows).
Proof.
  intros Hr. induction rows as [| x t IH]; cbn; intros HP.
  - constructor; [assumption | constructor].
  - destruct (ListImagesAll.newer r x).
    + constructor; assumption.
    + inversion HP; subst. constructor; [assumption | apply IH; assumption].
Qed.

Lemma sort_rows_Forall (P : DockerImage.t -> Prop)
  (rows : list DockerImage.t) :
  Forall P rows -> Forall P (ListImagesAll.sort_rows rows).
Proof.
  unfold ListImagesAll.sort_rows.
  assert (H : forall acc,
             Forall P rows -> Forall P acc ->
             Forall P
               (fold_left (fun acc r => ListImagesAll.insert_row r acc)
                  rows acc)).
  { induction rows as [| r rest IH]; cbn; intros acc Hrows Hacc;
      [assumption |].
    inversion Hrows; subst.
    apply IH; [assumption | apply insert_row_Forall; assumption]. }
  intros Hrows. apply H; [assumption | constructor].
Qed.

(* ------------------------------------------------------------------ *)
(** ** The listing of an account *)

Lemma listObjs_owner {R : Type} `{MorayModel R} (bucket : list R)
  (flt : Filter) (account_uuid : string) (r : R) :
  In ("owner_uuid", account_uuid) flt ->
  strip_star account_uuid = None ->
  In r (listObjs bucket flt) ->
  In r bucket /\ indexed r "owner_uuid" = Some account_uuid.
Proof.
  intros Hin Hstar Hr. unfold listObjs in Hr. apply filter_In in Hr.
  destruct Hr as [Hb Hs]. split; [exact Hb |].
  unfold satisfies in Hs. rewrite forallb_forall in Hs.
  specialize (Hs _ Hin). cbn [fst snd] in Hs.
  destruct (indexed r "owner_uuid") as [v |]; [| discriminate].
  rewrite ldap_match_exact in Hs by assumption.
  apply String.eqb_eq in Hs. congruence.
Qed.

Lemma filtered_incl {A : Type} (test : A -> Thrown + bool) (imgs : list A) :
  forall kept, ListImagesAll.filtered test imgs = inr kept ->
               incl kept imgs.
Proof.
  induction imgs as [| img rest IH]; cbn; intros kept H.
  - inversion H; subst. apply incl_refl.
  - destruct (test img) as [e | keep]; [discriminate |].
    destruct (ListImagesAll.filtered test rest) as [e | kept'];
      [discriminate |].
    specialize (IH kept' eq_refl). inversion H; subst.
    destruct keep.
    + apply incl_cons; [left; reflexivity | apply incl_tl; exact IH].
    + apply incl_tl. exact IH.
Qed.

Lemma parallel_keeps (Pw : World -> Prop) (Pr : list DockerImage.t -> Prop)
  (funcs : list ListImagesAll.Source) :
  (forall f, In f funcs -> source_keeps Pw Pr f) ->
  forall errors rows w res w',
    Pw w -> Pr rows ->
    ListImagesAll.parallel funcs errors rows w = (res, w') ->
    Pw w' /\ forall errors' rows', res = inr (errors', rows') -> Pr rows'.
Proof.
  induction funcs as [| f rest IH]; intros Hall errors rows w res w' Hw Hr H.
  - cbn in H. inversion H; subst. split; [assumption |].
    intros errors' rows' E. inversion E; subst. assumption.
  - rewrite parallel_cons in H.
    destruct (f rows w) as [out w1] eqn:Hf.
    destruct (Hall f (or_introl eq_refl) rows w out w1 Hw Hr Hf) as [Hw1 Hr1].
    assert (Hrest : forall g, In g rest -> source_keeps Pw Pr g).
    { intros g Hg. apply Hall. right. exact Hg. }
    destruct out as [c | [err |] rows1].
    + inversion H; subst. split; [assumption | discriminate].
    + eapply (IH Hrest); [exact Hw1 | eapply Hr1; reflexivity | exact H].
    + eapply (IH Hrest); [exact Hw1 | eapply Hr1; reflexivity | exact H].
Qed.

Lemma getTagsV2_keeps_account (ext : Externals) (env : ListEnv)
  (account_uuid : string) (w0 : World) (img : ImageV2.t) :
  strip_star account_uuid = None ->
  In img (docker_images_v2 w0) ->
  ImageV2.owner_uuid img = account_uuid ->
  keeps (fun results w =>
           same_records w0 w
           /\ Forall (row_of_account ext env account_uuid w0) results)
    (ListImages.getTagsV2 account_uuid img).
Proof.
  intros Hstar Hin Hown. subst account_uuid.
  intros results w out results' w' [Hs HP] H.
  unfold ListImages.getTagsV2 in H.
  destruct (negb (ImageV2.head img)).
  - inversion H; subst. split; [assumption |].
    apply Forall_app. split; [assumption |].
    constructor; [| constructor]. right. left.
    exists img, []. repeat split; try assumption. constructor.
  - unfold tagsForImage in H.
    pose proof (ImageTagV2_list_reads
                  [("owner_uuid", ImageV2.owner_uuid img);
                   ("digest", ImageV2.digest img)] w) as [Hs1 Hl].
    destruct (ImageTagV2_list _ w) as [[e | ts] w1]; cbn [fst snd] in *;
      inversion H; subst.
    + split; [eapply same_records_trans; eassumption | assumption].
    + split; [eapply same_records_trans; eassumption |].
      apply Forall_app. split; [assumption |].
      constructor; [| constructor]. right. left.
      exists img, ts. repeat split; try assumption.
      apply Forall_forall. intros t Ht.
      rewrite (Hl ts eq_refl) in Ht.
      apply (listObjs_owner _ _ (ImageV2.owner_uuid img)) in Ht;
        [| left; reflexivity | assumption].
      destruct Ht as [Hb Ho]. cbn in Ho.
      destruct Hs as (_ & _ & _ & E). rewrite E in Hb.
      split; [exact Hb | congruence].
Qed.

Lemma getTags_keeps_account (ext : Externals) (env : ListEnv)
  (account_uuid : string) (w0 : World) (img : Image.t) :
  strip_star account_uuid = None ->
  In img (docker_images w0) ->
  Image.owner_uuid img = account_uuid ->
  keeps (fun results w =>
           same_records w0 w
           /\ Forall (row_of_account ext env account_uuid w0) results)
    (ListImages.getTags account_uuid img).
Proof.
  intros Hstar Hin Hown. subst account_uuid.
  intros results w out results' w' [Hs HP] H.
  unfold ListImages.getTags in H.
  destruct (negb (Image.head img)).
  - inversion H; subst. split; [assumption |].
    apply Forall_app. split; [assumption |].
    constructor; [| constructor]. right. right.
    exists img, []. repeat split; try assumption. constructor.
  - unfold tagsForImage, scoped_to_index in H.
    pose proof (ImageTag_list_reads
                  [("owner_uuid", Image.owner_uuid img);
                   ("docker_id", Image.docker_id img)] w) as [Hs1 Hl].
    destruct (ImageTag_list _ w) as [[e | ts] w1]; cbn [fst snd] in *;
      inversion H; subst.
    + split; [eapply same_records_trans; eassumption | assumption].
    + split; [eapply same_records_trans; eassumption |].
      apply Forall_app. split; [assumption |].
      constructor; [| constructor]. right. right.
      exists img, ts. repeat split; try assumption.
      apply Forall_forall. intros t Ht.
      rewrite (Hl ts eq_refl) in Ht.
      apply (listObjs_owner _ _ (Image.owner_uuid img)) in Ht;
        [| left; reflexivity | assumption].
      destruct Ht as [Hb Ho]. cbn in Ho.
      destruct Hs as (_ & E & _). rewrite E in Hb.
      split; [exact Hb | congruence].
Qed.

Lemma head_filter_owner (all : bool) (account_uuid : string) :
  In ("owner_uuid", account_uuid) (ListImages.head_filter all account_uuid).
Proof. unfold ListImages.head_filter. destruct all; left; reflexivity. Qed.

Lemma sources_keep_account (ext : Externals) (env : ListEnv)
  (fs : list (string * list string)) (opts : ListOpts.t) (w0 : World)
  (f : ListImagesAll.Source) :
  strip_star (ListOpts.account_uuid opts) = None ->
  In f [ListImagesAll.listSmartOSImages ext env opts;
        ListImagesAll.listDockerImagesV2 env fs opts;
        ListImagesAll.listDockerImagesV1 env fs opts] ->
  source_keeps (same_records w0)
    (Forall (row_of_account ext env (ListOpts.account_uuid opts) w0)) f.
Proof.
  intros Hstar Hf rows w out w' Hs HP H.
  destruct Hf as [<- | [<- | [<- | []]]].
  - unfold ListImagesAll.listSmartOSImages, imgapi_call in H.
    assert (Hrows : forall images sm,
               incl images (smartos_images env (ListOpts.account_uuid opts)) ->
               ListImagesAll.smartosRows ext images = inr sm ->
               Forall (row_of_account ext env (ListOpts.account_uuid opts) w0)
                 sm).
    { induction images as [| img rest IH]; cbn; intros sm Hi E.
      - inversion E; subst. constructor.
      - destruct (SmartosImage.files img) as [| size files]; [discriminate |].
        destruct (ListImagesAll.smartosRows ext rest) as [c | rows1];
          [discriminate |].
        inversion E; subst. constructor.
        + left. exists img, size. split; [| reflexivity].
          apply Hi. left. reflexivity.
        + apply IH; [| reflexivity]. intros x Hx. apply Hi. right. exact Hx. }
    destruct (imgapi_faults w) as [| [e |] fs'];
      try (inversion H; subst; split;
           [destruct Hs as (A & B & C & D); repeat split; assumption
           | intros err rows' E; inversion E; subst; assumption]);
      destruct (ListImagesAll.smartosRows _ _) as [c | sm] eqn:Hsm;
      inversion H; subst;
      (split; [destruct Hs as (A & B & C & D); repeat split; assumption |]);
      intros err rows' E; inversion E; subst;
      apply Forall_app; (split; [assumption |]);
      eapply Hrows; [apply incl_refl | eassumption
                    | apply incl_refl | eassumption].
  - unfold ListImagesAll.listDockerImagesV2 in H.
    pose proof (ImageV2_list_reads
                  (ListImages.head_filter (ListOpts.all opts)
                     (ListOpts.account_uuid opts)) w) as [Hs1 Hl].
    destruct (ImageV2_list _ w) as [[e | imgs] w1]; cbn [fst snd] in *.
    { inversion H; subst.
      split; [eapply same_records_trans; eassumption | discriminate]. }
    specialize (Hl imgs eq_refl).
    assert (Hs01 : same_records w0 w1)
      by (eapply same_records_trans; eassumption).
    match type of H with
    | context [match ?x with inl _ => _ | inr _ => _ end] =>
        destruct x as [e | kept] eqn:Hkept
    end.
    { inversion H; subst. split; [assumption |].
      intros err rows' E. inversion E; subst. assumption. }
    assert (Hincl : incl kept imgs).
    { destruct fs; [inversion Hkept; subst; apply incl_refl |].
      eapply filtered_incl. eassumption. }
    pose proof (forEachPipeline_keeps
                  (fun results w =>
                     same_records w0 w
                     /\ Forall (row_of_account ext env
                                  (ListOpts.account_uuid opts) w0) results)
                  (ListImages.getTagsV2 (ListOpts.account_uuid opts))
                  (forEachParallel_order ImageV2.head kept))
      as Hk.
    specialize (Hk ltac:(
      intros i Hi; apply in_forEachParallel_order in Hi;
      apply Hincl in Hi; rewrite Hl in Hi;
      apply (listObjs_owner _ _ (ListOpts.account_uuid opts)) in Hi;
      [| apply head_filter_owner | assumption];
      destruct Hi as [Hb Ho]; cbn in Ho;
      destruct Hs as (_ & _ & E & _); rewrite E in Hb;
      apply getTagsV2_keeps_account; [assumption | exact Hb | congruence])
      [] w1 (conj Hs01 (Forall_nil _))).
    destruct (forEachPipeline _ _ [] w1) as [[[[e |] u | c] results] w2];
      cbn [fst snd] in Hk; destruct Hk as [Hs2 HP2];
      inversion H; subst; (split; [assumption |]);
      intros err rows' E; inversion E; subst; try assumption.
    apply Forall_app. split; assumption.
  - unfold ListImagesAll.listDockerImagesV1 in H.
    pose proof (Image_list_reads
                  (ListImages.head_filter (ListOpts.all opts)
                     (ListOpts.account_uuid opts)) w) as [Hs1 Hl].
    destruct (Image_list _ w) as [[e | imgs] w1]; cbn [fst snd] in *.
    { inversion H; subst.
      split; [eapply same_records_trans; eassumption |].
      intros err rows' E. inversion E; subst. assumption. }
    specialize (Hl imgs eq_refl).
    assert (Hs01 : same_records w0 w1)
      by (eapply same_records_trans; eassumption).
    match type of H with
    | context [match ?x with inl _ => _ | inr _ => _ end] =>
        destruct x as [e | kept] eqn:Hkept
    end.
    { inversion H; subst. split; [assumption |].
      intros err rows' E. inversion E; subst. assumption. }
    assert (Hincl : incl kept imgs).
    { destruct fs; [inversion Hkept; subst; apply incl_refl |].
      eapply filtered_incl. eassumption. }
    pose proof (forEachPipeline_keeps
                  (fun results w =>
                     same_records w0 w
                     /\ Forall (row_of_account ext env
                                  (ListOpts.account_uuid opts) w0) results)
                  (ListImages.getTags (ListOpts.account_uuid opts))
                  (forEachParallel_order Image.head kept))
      as Hk.
    specialize (Hk ltac:(
      intros i Hi; apply in_forEachParallel_order in Hi;
      apply Hincl in Hi; rewrite Hl in Hi;
      apply (listObjs_owner _ _ (ListOpts.account_uuid opts)) in Hi;
      [| apply head_filter_owner | assumption];
      destruct Hi as [Hb Ho]; cbn in Ho;
      destruct Hs as (E & _); rewrite E in Hb;
      apply getTags_keeps_account; [assumption | exact Hb | congruence])
      [] w1 (conj Hs01 (Forall_nil _))).
    destruct (forEachPipeline _ _ [] w1) as [[[[e |] u | c] results] w2];
      cbn [fst snd] in Hk; destruct Hk as [Hs2 HP2];
      inversion H; subst; (split; [assumption |]);
      intros err rows' E; inversion E; subst; try assumption.
    apply Forall_app. split; assumption.
Qed.

(** X22.  A listing shows what belongs to the account and nothing of another
    account: each row is the row of a SmartOS image that IMGAPI lists
    for the account, or the row of a record that the account owns with
    the names of tag records that the account owns.  And a listing,
    whatever its outcome, leaves the four buckets as they are. *)
Theorem listImages_shows_the_account_only (ext : Externals) (env : ListEnv)
  (opts : ListOpts.t) (w w' : World) (out : Listing) :
  strip_star (ListOpts.account_uuid opts) = None ->
  listImages ext env opts w = (out, w') ->
  same_records w w'
  /\ forall rows,
      out = ListCalled None rows ->
      Forall (row_of_account ext env (ListOpts.account_uuid opts) w) rows.
Proof.
  intros Hstar H. unfold listImages in H.
  destruct (normalizedFilters env _) as [| text | fs].
  - inversion H; subst. split; [apply same_records_refl | discriminate].
  - inversion H; subst. split; [apply same_records_refl | discriminate].
  - destruct (ListImagesAll.parallel _ [] [] w) as [res w1] eqn:Hp.
    eapply (parallel_keeps (same_records w)
              (Forall (row_of_account ext env
                         (ListOpts.account_uuid opts) w))) in Hp;
      [| | apply same_records_refl | apply Forall_nil].
    + destruct Hp as [Hs Hrows].
      destruct res as [c | [[| err errors] rows0]];
        inversion H; subst; (split; [assumption |]); try discriminate.
      intros rows E. inversion E; subst.
      apply sort_rows_Forall. eapply Hrows. reflexivity.
    + intros f Hf. apply (sources_keep_account ext env fs opts w);
        [assumption |].
      destruct (ListOpts.skip_smartos opts), (ListOpts.skip_v1_images opts);
        cbn in Hf; cbn; tauto.
Qed.

Lemma listImages_shows_the_account_only_witness :
  exists rows,
    listImages sample_ext list_env (list_opts None) two_accounts_world
    = (ListCalled None rows, two_accounts_world)
    /\ map DockerImage.RepoTags rows
       = [["nginx:latest"]; ["d34c301e-10c3-11e4-9b79-5f67ca448df0"]]
    /\ Forall (row_of_account sample_ext list_env alice two_accounts_world)
         rows.
Proof.
  eexists. split; [reflexivity |]. split; [reflexivity |].
  apply (listImages_shows_the_account_only sample_ext list_env
           (list_opts None) two_accounts_world two_accounts_world _
           eq_refl eq_refl).
  reflexivity.
Defined.

(* ------------------------------------------------------------------ *)
(** ** The order of the listing *)








(* ------------------------------------------------------------------ *)
(** ** The change log of the v2 cascade *)

Lemma nothing_written_refl (w : World) : nothing_written w w.
Proof. split; [apply same_records_refl | reflexivity]. Qed.

Lemma nothing_written_trans (w0 w1 w2 : World) :
  nothing_written w0 w1 -> nothing_written w1 w2 -> nothing_written w0 w2.
Proof.
  intros [Hs E] [Hs' E']. split.
  - eapply same_records_trans; eassumption.
  - congruence.
Qed.

Lemma moray_call_nothing_written (w : World) :
  nothing_written w (snd (moray_call w)).
Proof.
  unfold moray_call. destruct (moray_faults w); repeat split; reflexivity.
Qed.

Lemma lookupParent_nothing_written (account_uuid : string) (img : Img)
  (w : World) :
  nothing_written w (snd (lookupParent account_uuid img w)).
Proof.
  pose proof (moray_call_nothing_written w) as Hm.
  destruct img as [i | i | u o]; cbn [lookupParent];
    unfold imgFromImgInfoV1, imgFromImgInfoV2, Image_list, ImageV2_list;
    destruct (moray_call w) as [[e |] w1]; cbn [snd] in *; try exact Hm;
    destruct (listObjs _ _) as [| a [| b r]]; exact Hm.
Qed.

Lemma getImageAncestry_nothing_written (fuel : nat) (account_uuid : string) :
  forall (acc : list Img) (img : Img) (w : World),
    nothing_written w (snd (addAndGetNextItem fuel account_uuid acc img w)).
Proof.
  induction fuel as [| fuel IH]; intros acc img w;
    [apply nothing_written_refl |].
  cbn [addAndGetNextItem].
  destruct (String.eqb (img_parent img) ""); [apply nothing_written_refl |].
  pose proof (lookupParent_nothing_written account_uuid img w) as Hl.
  destruct (lookupParent account_uuid img w) as [[[e |] [p |] | c] w1];
    cbn [snd] in *; try exact Hl.
  eapply nothing_written_trans; [exact Hl | apply IH].
Qed.

Ltac log_step HI H :=
  service_cases H; inversion H; subst; intros Hch; cbn in Hch;
  try (apply app_eq_nil in Hch; destruct Hch; discriminate);
  specialize (HI Hch); destruct HI as ((?A & ?B & ?C & ?D) & ?E);
  repeat split; cbn; assumption.

Lemma DeleteV2_untagOne_logs (w0 : World) (t : ImgTag) :
  keeps (DeleteV2_log_invariant w0) (DeleteV2.untagOne t).
Proof.
  intros ctx w out ctx' w' HI H. unfold DeleteV2.untagOne in H.
  destruct t; log_step HI H.
Qed.

Lemma DeleteV2_deleteLayer_logs (w0 : World) (layerInfo : LayerInfo.t) :
  keeps (DeleteV2_log_invariant w0) (DeleteV2.deleteLayer layerInfo).
Proof.
  intros ctx w out ctx' w' HI H. unfold DeleteV2.deleteLayer in H.
  destruct (DeleteV2.hitImageHasDependentImagesError ctx);
    [inversion H; subst; exact HI |].
  unfold ImageV2_list, moray_call in H.
  destruct (moray_faults w) as [| [e |] fs]; cbn [fst snd] in H;
    try (inversion H; subst; intros Hch; specialize (HI Hch);
         destruct HI as ((A & B & C & D) & E);
         repeat split; cbn; assumption);
    (destruct (Z.eqb _ 0); cbn zeta in H;
     destruct (Z.leb 1 _);
     try (inversion H; subst; intros Hch; specialize (HI Hch);
          destruct HI as ((A & B & C & D) & E);
          repeat split; cbn; assumption);
     unfold imgapi_deleteImage, imgapi_call in H; cbn in H;
     repeat match type of H with
            | context [match imgapi_faults ?w with _ => _ end] =>
                destruct (imgapi_faults w) as [| [?e |] ?fs]; cbn in H
            | context [if ?b then _ else _] => destruct b; cbn in H
            end;
     inversion H; subst; intros Hch; cbn in Hch;
     try (apply app_eq_nil in Hch; destruct Hch; discriminate);
     specialize (HI Hch); destruct HI as ((A & B & C & D) & E);
     repeat split; cbn; assumption).
Qed.

Lemma DeleteV2_deleteOneImg_logs (w0 : World) (a : Img) :
  keeps (DeleteV2_log_invariant w0) (DeleteV2.deleteOneImg a).
Proof.
  intros ctx w out ctx' w' HI H. unfold DeleteV2.deleteOneImg in H.
  destruct (negb _ && img_head a); [inversion H; subst; exact HI |].
  destruct a as [i | i | u o]; try (inversion H; subst; exact HI).
  log_step HI H.
Qed.

Lemma DeleteV2_stages_log (w0 : World) (ext : Externals) (fuel : nat)
  (opts : Opts.t) :
  Forall (keeps (DeleteV2_log_invariant w0))
    [DeleteV2.getImgTags opts;
     DeleteV2.checkTagReferences ext opts;
     DeleteV2.checkJustUntagImage;
     DeleteV2.verifyNotInUse ext opts;
     DeleteV2.getImgsToDelete fuel opts;
     DeleteV2.deleteDockerTags;
     DeleteV2.deleteImgapiLayers ext;
     DeleteV2.deleteDockerImages].
Proof.
  repeat (apply Forall_cons; [| try apply Forall_nil]);
    intros ctx w out ctx' w' HI H.
  - unfold DeleteV2.getImgTags in H. log_step HI H.
  - apply DeleteV2_checkTagReferences_frame in H. destruct H; subst.
    exact HI.
  - unfold DeleteV2.checkJustUntagImage in H.
    destruct (DeleteV2.imgTag ctx) as [t |];
      [| inversion H; subst; exact HI].
    destruct (Nat.ltb 1 _); [| inversion H; subst; exact HI].
    destruct t; log_step HI H.
  - unfold DeleteV2.verifyNotInUse in H.
    destruct (vmsUsingImage ext opts _ w) as [err w1] eqn:Hv.
    inversion H; subst. intros Hch. specialize (HI Hch).
    eapply nothing_written_trans; [exact HI |].
    service_cases Hv; inversion Hv; subst; repeat split; reflexivity.
  - unfold DeleteV2.getImgsToDelete in H.
    pose proof (getImageAncestry_nothing_written fuel
                  (Opts.account_uuid opts) [] (V2 (DeleteV2.img ctx)) w)
      as Hw.
    fold (getImageAncestry fuel (Opts.account_uuid opts)
            (V2 (DeleteV2.img ctx)) w) in Hw.
    destruct (getImageAncestry fuel _ _ w)
      as [[[e |] [ancestry partial] | c] w1]; cbn [snd] in Hw;
      try (inversion H; subst; intros Hch; specialize (HI Hch);
           eapply nothing_written_trans; eassumption).
    destruct ancestry as [| a0 rest]; inversion H; subst;
      intros Hch; specialize (HI Hch);
      eapply nothing_written_trans; eassumption.
  - unfold DeleteV2.deleteDockerTags in H.
    pose proof (forEachPipeline_keeps (DeleteV2_log_invariant w0)
                  DeleteV2.untagOne (DeleteV2.imgTags ctx)
                  (fun t _ => DeleteV2_untagOne_logs w0 t) ctx w HI) as Hk.
    destruct (forEachPipeline _ _ ctx w) as [[[err u | c] ctx1] w1];
      cbn [fst snd] in Hk; inversion H; subst; exact Hk.
  - unfold DeleteV2.deleteImgapiLayers in H.
    destruct (manifestLayerDigests ext _) as [layers |];
      [| inversion H; subst; exact HI].
    destruct (negb _); [inversion H; subst; exact HI |].
    match type of H with
    | context [forEachPipeline ?f ?l ?c ?w1] =>
        pose proof (forEachPipeline_keeps (DeleteV2_log_invariant w0)
                      f l (fun x _ => DeleteV2_deleteLayer_logs w0 x) c w1 HI)
          as Hk;
        destruct (forEachPipeline f l c w1) as [[[err u | c1] ctx1] w2]
    end; cbn [fst snd] in Hk; inversion H; subst; exact Hk.
  - unfold DeleteV2.deleteDockerImages in H.
    pose proof (forEachPipeline_keeps (DeleteV2_log_invariant w0)
                  DeleteV2.deleteOneImg (DeleteV2.imgsToDelete ctx)
                  (fun a _ => DeleteV2_deleteOneImg_logs w0 a) ctx w HI) as Hk.
    destruct (forEachPipeline _ _ ctx w) as [[[[[] |] u | c] ctx1] w1];
      cbn [fst snd] in Hk; inversion H; subst; exact Hk.
Qed.

(** X23.  Every write of the v2 cascade is in its change log: when
    [_deleteImageV2] calls back with an empty list of changes, whether
    with an error or not, the four buckets and the images of IMGAPI are
    as they were.  So a delete that is refused, because of the other
    tags or of a container that uses the image, has removed nothing. *)
Theorem deleteImageV2_without_changes_wrote_nothing (ext : Externals)
  (fuel : nat) (opts : Opts.t) (i : ImageV2.t) (t : option ImgTag)
  (w w' : World) (err : option Error) :
  DeleteV2._deleteImageV2 ext fuel opts i t w = (Called err [], w') ->
  nothing_written w w'.
Proof.
  intros H. unfold DeleteV2._deleteImageV2 in H.
  destruct (pipeline _ _ w) as [[r ctx] w1] eqn:Hrun.
  pose proof (pipeline_keeps (DeleteV2_log_invariant w) _
                (DeleteV2_stages_log w ext fuel opts) _ _ _ _ _
                (fun _ => nothing_written_refl w) Hrun) as HI.
  destruct r as [[[] |] u | c]; inversion H; subst; apply HI; assumption.
Qed.

Lemma deleteImageV2_without_changes_wrote_nothing_witness :
  exists err w',
    DeleteV2._deleteImageV2 sample_ext 10 (opts_for nginx_digest false)
      nginx_v2 None v2_world = (Called (Some err) [], w')
    /\ nothing_written v2_world w'.
Proof.
  eexists. eexists. split; [reflexivity |].
  eapply (deleteImageV2_without_changes_wrote_nothing sample_ext 10
            (opts_for nginx_digest false) nginx_v2 None v2_world).
  reflexivity.
Defined.

(* ------------------------------------------------------------------ *)
(** ** The history of a v1 image *)

Lemma lookupAncestorTags_entries (account_uuid : string)
  (index_name : option string) (ancestry : list Img) :
  forall (history : list HistoryEntry.t) (w : World),
  exists entries w',
    forEachPipeline
      (GetImageHistory.lookupAncestorTags account_uuid index_name)
      ancestry history w
    = (Called None tt, (history ++ entries)%list, w')
    /\ map HistoryEntry.Id entries = map img_id ancestry
    /\ map HistoryEntry.Created entries = map img_created ancestry
    /\ map HistoryEntry.Size entries = map img_size ancestry
    /\ same_records w w'.
Proof.
  unfold forEachPipeline.
  induction ancestry as [| img rest IH]; intros history w.
  - exists [], w. cbn. rewrite app_nil_r.
    repeat split; reflexivity.
  - cbn [map pipeline]. unfold GetImageHistory.lookupAncestorTags at 1.
    assert (Hs : same_records w
                   (snd (tagsForImage img account_uuid index_name w))).
    { unfold tagsForImage.
      destruct img as [i | i | u o];
        match goal with
        | |- context [ImageTag_list ?f w] =>
            pose proof (proj1 (ImageTag_list_reads f w)) as Hr;
            destruct (ImageTag_list f w) as [[e | ts] w1]
        | |- context [ImageTagV2_list ?f w] =>
            pose proof (proj1 (ImageTagV2_list_reads f w)) as Hr;
            destruct (ImageTagV2_list f w) as [[e | ts] w1]
        end; exact Hr. }
    destruct (tagsForImage img account_uuid index_name w) as [[e | ts] w1];
      cbn [snd] in Hs.
    + destruct (IH (history ++ [HistoryEntry.mk (img_id img) None
                                  (img_created img)
                                  match img_Cmd img with
                                  | Some cmd => join " " cmd
                                  | None => ""
                                  end (img_size img) TagsUnset])%list w1)
        as (entries & w' & E & H1 & H2 & H3 & Hs').
      eexists (_ :: entries), w'. rewrite E. rewrite <- app_assoc.
      cbn. rewrite H1, H2, H3.
      repeat split; try reflexivity.
      all: try (eapply same_records_trans; [exact Hs | exact Hs']).
      all: destruct Hs as (A & B & C & D), Hs' as (A' & B' & C' & D');
        congruence.
    + destruct (IH (history ++ [HistoryEntry.mk (img_id img) None
                                  (img_created img)
                                  match img_Cmd img with
                                  | Some cmd => join " " cmd
                                  | None => ""
                                  end (img_size img)
                                  (TagsOf (map repoTag ts))])%list w1)
        as (entries & w' & E & H1 & H2 & H3 & Hs').
      eexists (_ :: entries), w'. rewrite E. rewrite <- app_assoc.
      cbn. rewrite H1, H2, H3.
      repeat split; try reflexivity.
      all: destruct Hs as (A & B & C & D), Hs' as (A' & B' & C' & D');
        congruence.
Qed.

(** X24.  The history of an image that is not a v2 image follows the walk of
    its ancestry: once the walk has called back without an error, the
    history has one entry for each record of the ancestry, in the order
    of the walk and with the id, the date and the size of the record,
    and it is handed over without an error even when look-ups of tags
    fail: the entry is then left without tags. *)
Theorem getImageHistory_of_a_v1_image_follows_the_walk (ext : Externals)
  (fuel : nat) (account_uuid : string) (index_name : option string)
  (img : Img) (w w1 : World) (ancestry : list Img) (partial : bool) :
  isV1Image img = true ->
  getImageAncestry fuel account_uuid img w
  = (Called None (ancestry, partial), w1) ->
  exists history w',
    getImageHistory ext fuel account_uuid index_name img w
    = (Called None history, w')
    /\ map HistoryEntry.Id history = map img_id ancestry
    /\ map HistoryEntry.Created history = map img_created ancestry
    /\ map HistoryEntry.Size history = map img_size ancestry
    /\ same_records w w'.
Proof.
  intros Hv1 Hwalk. unfold getImageHistory. rewrite Hwalk.
  destruct (lookupAncestorTags_entries account_uuid index_name ancestry [] w1)
    as (entries & w' & E & H1 & H2 & H3 & Hs).
  rewrite E. cbn [app].
  pose proof (proj1 (getImageAncestry_walk fuel account_uuid img w)) as Hs0.
  rewrite Hwalk in Hs0. cbn [snd] in Hs0.
  exists entries, w'.
  destruct img as [i | i | u o]; try discriminate; cbn;
    (repeat split; try assumption);
    destruct Hs0 as (A & B & C & D), Hs as (A' & B' & C' & D'); congruence.
Qed.

Lemma getImageHistory_of_a_v1_image_follows_the_walk_witness :
  exists history w',
    getImageHistory sample_ext 10 alice None (V1 busybox_v1)
      (v1_chain_world [None; None; Some (ServiceError "InternalError" 500)])
    = (Called None history, w')
    /\ map HistoryEntry.Id history
       = ["ef872312fe1bbc5e05aae626791a47ee9b032efa8f3bda39cc0be7b56bfe59b9";
          "511136ea3c5a64f264b78b5433614aec563103b4d4702f3ba7d4d2698e22c158";
          "1111"]
    /\ map HistoryEntry.Tags history
       = [TagsUnset; TagsOf []; TagsOf []].
Proof.
  destruct (getImageHistory_of_a_v1_image_follows_the_walk sample_ext 10
              alice None (V1 busybox_v1)
              (v1_chain_world
                 [None; None; Some (ServiceError "InternalError" 500)])
              _ _ _ eq_refl eq_refl)
    as (history & w' & E & H1 & _).
  exists history, w'. split; [exact E |].
  vm_compute in E. inversion E; subst. split; reflexivity.
Defined.

(* ------------------------------------------------------------------ *)
(** ** One record under a key *)

Lemma NoDup_map_filter {A B : Type} (g : A -> B) (f : A -> bool)
  (l : list A) :
  NoDup (map g l) -> NoDup (map g (List.filter f l)).
Proof.
  induction l as [| a r IH]; cbn; intros H; [constructor |].
  inversion H as [| ? ? Ha Hr]; subst.
  destruct (f a); cbn; [constructor |]; auto.
  intros Hin. apply Ha. apply in_map_iff in Hin.
  destruct Hin as (x & E & Hx). apply filter_In in Hx.
  apply in_map_iff. exists x. tauto.
Qed.

Lemma putObject_keys_unique {R : Type} `{MorayModel R} (r : R)
  (bucket : list R) :
  NoDup (map key bucket) -> NoDup (map key (putObject r bucket)).
Proof.
  intros Hnd. unfold putObject, delObj. rewrite map_app. cbn [map].
  apply NoDup_app.
  - apply NoDup_map_filter. exact Hnd.
  - constructor; [intros [] | constructor].
  - intros k Hk [E | []]. subst k.
    apply in_map_iff in Hk. destruct Hk as (x & E & Hx).
    apply filter_In in Hx. destruct Hx as [_ Hx].
    rewrite E, String.eqb_refl in Hx. discriminate.
Qed.

Lemma filter_one_key {R : Type} `{MorayModel R} (f : R -> bool) (k : string)
  (l : list R) :
  NoDup (map key l) ->
  (forall x, In x l -> f x = true -> key x = k) ->
  List.length (List.filter f l) <= 1.
Proof.
  induction l as [| a r IH]; cbn; intros Hnd Hk; [lia |].
  inversion Hnd as [| ? ? Ha Hr]; subst.
  assert (IHr := IH Hr (fun x Hx => Hk x (or_intror Hx))).
  destruct (f a) eqn:Hfa; [| exact IHr].
  destruct (List.filter f r) as [| y ys] eqn:Hf; [cbn; lia |].
  exfalso. apply Ha.
  assert (Hy : In y (List.filter f r)) by (rewrite Hf; left; reflexivity).
  apply filter_In in Hy. destruct Hy as [Hy Hfy].
  rewrite (Hk a (or_introl eq_refl) Hfa).
  rewrite <- (Hk y (or_intror Hy) Hfy). apply in_map. exact Hy.
Qed.

(** X25.  The records of the v2 image bucket stay one to a key, and that is
    what the look-up by owner and digest relies on: [createImage] and
    [deleteImage] of the model keep the keys of the bucket all
    different; and on a bucket whose keys are all different,
    [imgFromImgInfoV2] calls back, with the one record or with an error:
    its assertion that a single record is found never fails.  Neither
    the owner nor the digest ends in a star. *)
Theorem keys_unique_is_kept_and_makes_the_look_up_safe (ext : Externals)
  (w : World) :
  keys_unique w ->
  (forall params, keys_unique (snd (ImageV2_create ext params w)))
  /\ (forall img, keys_unique (snd (ImageV2_del img w)))
  /\ (forall account_uuid digest,
         strip_star account_uuid = None ->
         strip_star digest = None ->
         exists err img,
           fst (imgFromImgInfoV2 account_uuid digest w) = Called err img
           /\ same_records w (snd (imgFromImgInfoV2 account_uuid digest w))).
Proof.
  intros Hu. unfold keys_unique in *. split; [| split].
  - intros params. unfold ImageV2_create, moray_call.
    destruct (ImageV2_new ext params) as [c | image]; [exact Hu |].
    destruct (moray_faults w) as [| [e |] fs]; cbn; try exact Hu;
      exact (putObject_keys_unique _ _ Hu).
  - intros img. unfold ImageV2_del, moray_call.
    destruct (moray_faults w) as [| [e |] fs]; cbn; try exact Hu;
      exact (NoDup_map_filter key _ _ Hu).
  - intros account_uuid digest Ha Hd.
    pose proof (ImageV2_list_reads
                  [("owner_uuid", account_uuid); ("digest", digest)] w)
      as [Hs Hl].
    unfold imgFromImgInfoV2.
    destruct (ImageV2_list _ w) as [[e | imgs] w1]; cbn [fst snd] in *;
      [eexists; eexists; split; [reflexivity | exact Hs] |].
    specialize (Hl imgs eq_refl).
    assert (Hlen : List.length imgs <= 1).
    { rewrite Hl. unfold listObjs.
      apply (filter_one_key _ (account_uuid ++ "," ++ digest));
        [exact Hu |].
      intros x _ Hx. unfold satisfies in Hx. cbn in Hx.
      rewrite !ldap_match_exact in Hx by assumption.
      rewrite andb_true_r in Hx. apply andb_prop in Hx.
      destruct Hx as [Hx1 Hx2].
      apply String.eqb_eq in Hx1, Hx2.
      cbn [key ImageV2_model]. unfold ImageV2.objectKey. congruence. }
    destruct imgs as [| a [| b r]]; cbn in Hlen; try lia;
      eexists; eexists; split; try reflexivity; exact Hs.
Qed.

Lemma keys_unique_is_kept_and_makes_the_look_up_safe_witness :
  keys_unique v2_world
  /\ exists err img,
      fst (imgFromImgInfoV2 alice nginx_digest v2_world) = Called err img.
Proof.
  assert (Hu : keys_unique v2_world).
  { unfold keys_unique. cbn. constructor; [intros [] | constructor]. }
  split; [exact Hu |].
  destruct (proj2 (proj2 (keys_unique_is_kept_and_makes_the_look_up_safe
                            sample_ext v2_world Hu))
              alice nginx_digest eq_refl eq_refl)
    as (err & img & E & _).
  exists err, img. exact E.
Defined.

(* ------------------------------------------------------------------ *)
(** ** A name with a digest *)

(** X26.  A name with a digest ([repo@sha256:..]) is resolved by the manifest
    digest and by nothing else, the services answering and SmartOS
    images left out.  When no v2 record of the account has the manifest
    digest, the answer is the error [No image with manifest digest: ..]:
    the name is not looked up, whatever tags there are.  When one record
    has it and its image is in IMGAPI, the answer is that record, with
    no tag. *)
Theorem imgFromName_with_a_digest_is_by_the_digest_only (ext : Externals)
  (opts : Opts.t) (w : World) (rat : Rat.t) (d : string) :
  parseRepoAndTag ext (Opts.name opts) = inl rat ->
  Rat.digest rat = Some d -> d <> "" ->
  Opts.includeSmartos opts = false ->
  moray_faults w = [] -> imgapi_faults w = [] ->
  let found :=
    listObjs (docker_images_v2 w)
      [("manifest_digest", d); ("owner_uuid", Opts.account_uuid opts)] in
  (found = [] ->
   imgFromName ext opts w
   = (Called (Some (ResourceNotFoundError
                      ("No image with manifest digest: " ++ d)))
        (None, None), w))
  /\ (forall i,
         found = [i] ->
         existsb (fun x => String.eqb (ImgapiImage.uuid x)
                             (ImageV2.image_uuid i))
           (imgapi_images w) = true ->
         imgFromName ext opts w = (Called None (Some (V2 i), None), w)).
Proof.
  intros Hparse Hd Hne Hsm Hm Hi found.
  assert (Hstage : ImgFromName.findByManifestDigest opts rat
                   = fun l w =>
                       ImgFromName._imgFromDigestCb l
                         (imgFromManifestDigest (Opts.account_uuid opts) d w)).
  { unfold ImgFromName.findByManifestDigest. rewrite Hd.
    destruct d; [congruence | reflexivity]. }
  subst found.
  split; [intros E | intros i E Hx];
    unfold imgFromName; rewrite Hparse; cbn [pipeline];
    unfold ImgFromName.findUuidInImgapi at 1; rewrite Hsm; cbn [negb orb];
    rewrite Hstage;
    unfold imgFromManifestDigest; cbn [pipeline];
    unfold ByDigest.findImage at 1, ImageV2_list;
    rewrite (moray_call_quiet w Hm); rewrite E.
  - reflexivity.
  - 
    unfold ByDigest.checkImageInImgapi at 1.
    destruct (imgapi_getImage_present _ w (conj Hi Hx)) as (x & Hg).
    rewrite Hg.
    reflexivity.
Qed.

Lemma imgFromName_with_a_digest_is_by_the_digest_only_witness :
  imgFromName by_digest_ext (opts_for "nginx@sha256:manifest-of-nginx" false)
    v2_world
  = (Called None (Some (V2 nginx_v2), None), v2_world)
  /\ imgFromName by_digest_ext
       (opts_for "nginx@sha256:manifest-of-nginx" false)
       (set_docker_images_v2 [] v2_world)
     = (Called (Some (ResourceNotFoundError
                        "No image with manifest digest: sha256:manifest-of-nginx"))
          (None, None), set_docker_images_v2 [] v2_world).
Proof.
  split.
  - apply (proj2 (imgFromName_with_a_digest_is_by_the_digest_only
                    by_digest_ext
                    (opts_for "nginx@sha256:manifest-of-nginx" false)
                    v2_world _ "sha256:manifest-of-nginx"
                    eq_refl eq_refl ltac:(discriminate) eq_refl eq_refl
                    eq_refl));
      reflexivity.
  - apply (proj1 (imgFromName_with_a_digest_is_by_the_digest_only
                    by_digest_ext
                    (opts_for "nginx@sha256:manifest-of-nginx" false)
                    (set_docker_images_v2 [] v2_world) _
                    "sha256:manifest-of-nginx"
                    eq_refl eq_refl ltac:(discriminate) eq_refl eq_refl
                    eq_refl)).
    reflexivity.
Defined.

(** X27.  [deleteImage] of the model, then a look-up by owner and digest:
    Moray answering, no record is left under the owner and the digest of
    the deleted record, so [imgFromImgInfoV2] answers [No such image],
    and the records under the other keys are as they were.  Neither
    owner nor digest ends in a star. *)
Theorem ImageV2_del_then_imgFromImgInfoV2 (img : ImageV2.t) (w : World) :
  moray_faults w = [] ->
  strip_star (ImageV2.owner_uuid img) = None ->
  strip_star (ImageV2.digest img) = None ->
  let w' := set_docker_images_v2
              (delObj (ImageV2.objectKey img) (docker_images_v2 w)) w in
  ImageV2_del img w = (None, w')
  /\ imgFromImgInfoV2 (ImageV2.owner_uuid img) (ImageV2.digest img) w'
     = (Called (Some (ResourceNotFoundError
                        ("No such image: " ++ ImageV2.digest img))) None, w')
  /\ forall x : ImageV2.t,
       key x <> key img ->
       (In x (docker_images_v2 w') <-> In x (docker_images_v2 w)).
Proof.
  intros Hq Ho Hd w'. split; [| split].
  - unfold ImageV2_del. rewrite (moray_call_quiet w Hq). reflexivity.
  - unfold imgFromImgInfoV2, ImageV2_list.
    rewrite (moray_call_quiet w' Hq).
    assert (E : listObjs (docker_images_v2 w')
                  [("owner_uuid", ImageV2.owner_uuid img);
                   ("digest", ImageV2.digest img)] = []).
    { unfold listObjs. apply filter_nil_iff. intros x Hx.
      cbn [w' docker_images_v2 set_docker_images_v2] in Hx.
      unfold delObj in Hx. apply filter_In in Hx. destruct Hx as [_ Hx].
      destruct (satisfies _ x) eqn:Hs; [| reflexivity].
      unfold satisfies in Hs. cbn in Hs.
      rewrite !ldap_match_exact in Hs by assumption.
      rewrite andb_true_r in Hs. apply andb_prop in Hs.
      destruct Hs as [H1 H2]. apply String.eqb_eq in H1, H2.
      cbn [key ImageV2_model] in Hx. unfold ImageV2.objectKey in Hx.
      rewrite <- H1, <- H2, String.eqb_refl in Hx. discriminate. }
    rewrite E. reflexivity.
  - intros x Hk. cbn [w' docker_images_v2 set_docker_images_v2].
    unfold delObj. rewrite filter_In. split; [tauto |].
    intros Hx. split; [exact Hx |].
    apply negb_true_iff. apply String.eqb_neq. exact Hk.
Qed.

Lemma ImageV2_del_then_imgFromImgInfoV2_witness :
  imgFromImgInfoV2 alice nginx_digest v2_world
  = (Called None (Some (V2 nginx_v2)), v2_world)
  /\ imgFromImgInfoV2 alice nginx_digest
       (snd (ImageV2_del nginx_v2 v2_world))
     = (Called (Some (ResourceNotFoundError ("No such image: " ++ nginx_digest)))
          None, snd (ImageV2_del nginx_v2 v2_world)).
Proof.
  split; [reflexivity |].
  exact (proj1 (proj2 (ImageV2_del_then_imgFromImgInfoV2 nginx_v2 v2_world
                         eq_refl eq_refl eq_refl))).
Defined.
(* ------------------------------------------------------------------ *)
(** ** The cascades and [ImageHasDependentImages] *)

Lemma pipeline_app {L : Type} (fs gs : list (Stage L)) :
  forall (l : L) (w : World),
    pipeline (fs ++ gs) l w
    = match pipeline fs l w with
      | (Called None _, l1, w1) => pipeline gs l1 w1
      | other => other
      end.
Proof.
  induction fs as [| f fs IH]; intros l w; [reflexivity |].
  cbn [app pipeline].
  destruct (f l w) as [[out l1] w1].
  destruct out as [[| [e |] [| ? ?]] | c]; try reflexivity.
  apply IH.
Qed.

Lemma not_answered_nil : ~ answered_dependent [].
Proof. intros (u & e & [] & _). Qed.

Lemma calls_grow_nil (a new : list (string * option Error)) :
  a = (a ++ new)%list -> new = [].
Proof.
  intros E. apply (app_inv_head a). rewrite app_nil_r. symmetry. exact E.
Qed.

Lemma calls_grow_not_same (a b : list (string * option Error))
  (x : string * option Error) :
  a = (b ++ [x])%list -> a <> b.
Proof.
  intros -> E. apply (f_equal (@List.length _)) in E.
  rewrite length_app in E. cbn in E. lia.
Qed.

Section CascadeEnd.

Context {L : Type} (hit : L -> bool).

(** Once the flag is set, and Moray answering, the cascade runs to its
    end. *)
Lemma cascade_after_hit (funcs : list (Stage L)) :
  Forall (cascade_step hit) funcs ->
  Forall calls_back_once funcs ->
  forall (l : L) (w : World) (r : Result unit) (l' : L) (w' : World),
    hit l = true -> moray_faults w = [] ->
    pipeline funcs l w = (r, l', w') ->
    r = Called None tt.
Proof.
  induction funcs as [| f rest IH]; intros Hsteps Honce l w r l' w' Hh Hq Hrun.
  - cbn in Hrun. inversion Hrun; subst. reflexivity.
  - inversion Hsteps as [| ? ? Hf Hrest]; subst.
    inversion Honce as [| ? ? Hf1 Hrest1]; subst.
    cbn [pipeline] in Hrun.
    destruct (Hf1 l w) as (err & Hout).
    destruct (f l w) as [[out l1] w1] eqn:Hstep. cbn [fst] in Hout. subst out.
    destruct (Hf _ _ _ _ _ Hstep) as (Hq1 & Hhit & Hshape).
    destruct (Hhit Hh) as (Hh1 & Hsame).
    destruct Hshape as [(_ & Hnoerr)
                       | [(u & Hlog & _)
                         | [(u & e & Hlog & _)
                           | (u & e & Hlog & _)]]];
      try (exfalso; exact (calls_grow_not_same _ _ _ Hlog Hsame)).
    destruct err as [e |]; [exfalso; exact (Hnoerr Hq e eq_refl) |].
    exact (IH Hrest Hrest1 _ _ _ _ _ Hh1 (Hq1 Hq) Hrun).
Qed.

(** Moray answering, a cascade in which a call was answered
    [ImageHasDependentImages] runs to its end. *)
Lemma cascade_run_swallows (funcs : list (Stage L)) :
  Forall (cascade_step hit) funcs ->
  Forall calls_back_once funcs ->
  forall (l : L) (w : World) (r : Result unit) (l' : L) (w' : World)
         (new : list (string * option Error)),
    moray_faults w = [] ->
    pipeline funcs l w = (r, l', w') ->
    imgapi_deleteImage_calls w' = (imgapi_deleteImage_calls w ++ new)%list ->
    answered_dependent new ->
    r = Called None tt.
Proof.
  induction funcs as [| f rest IH];
    intros Hsteps Honce l w r l' w' new Hq Hrun Hnew Hdep.
  - cbn in Hrun. inversion Hrun; subst. reflexivity.
  - inversion Hsteps as [| ? ? Hf Hrest]; subst.
    inversion Honce as [| ? ? Hf1 Hrest1]; subst.
    cbn [pipeline] in Hrun.
    destruct (Hf1 l w) as (err & Hout).
    destruct (f l w) as [[out l1] w1] eqn:Hstep. cbn [fst] in Hout. subst out.
    destruct (Hf _ _ _ _ _ Hstep) as (Hq1 & _ & Hshape).
    destruct Hshape as [(Hsame & Hnoerr)
                       | [(u & Hlog & Hout)
                         | [(u & e & Hlog & Hd & Hout & Hset)
                           | (u & e & Hlog & Hd & Hout)]]].
    + destruct err as [e |]; [exfalso; exact (Hnoerr Hq e eq_refl) |].
      apply (IH Hrest Hrest1 _ _ _ _ _ new (Hq1 Hq) Hrun); [| exact Hdep].
      rewrite Hsame. exact Hnew.
    + inversion Hout; subst err.
      destruct (cascade_run hit rest Hrest _ _ _ _ _ Hrun)
        as (new2 & Hlog2 & _).
      apply (IH Hrest Hrest1 _ _ _ _ _ new2 (Hq1 Hq) Hrun Hlog2).
      rewrite Hlog2, Hlog, <- app_assoc in Hnew.
      apply app_inv_head in Hnew. subst new.
      destruct Hdep as (u' & e' & [E | Hin] & He'); [discriminate E |].
      exists u', e'. split; assumption.
    + inversion Hout; subst err.
      exact (cascade_after_hit rest Hrest Hrest1 _ _ _ _ _ Hset (Hq1 Hq) Hrun).
    + inversion Hout; subst err. inversion Hrun; subst.
      rewrite Hlog in Hnew. apply app_inv_head in Hnew. subst new.
      destruct Hdep as (u' & e' & [E | []] & He').
      inversion E; subst. rewrite Hd in He'. discriminate He'.
Qed.

End CascadeEnd.

Lemma no_blob_call_refl (w : World) : no_blob_call w w.
Proof. split; [reflexivity | intros Hq; repeat split; assumption]. Qed.

Lemma no_blob_call_trans (w0 w1 w2 : World) :
  no_blob_call w0 w1 -> no_blob_call w1 w2 -> no_blob_call w0 w2.
Proof.
  intros (A & B) (C & D). split; [congruence |].
  intros Hq. destruct (B Hq) as (Hq1 & E1 & E2).
  destruct (D Hq1) as (Hq2 & E3 & E4). repeat split; congruence.
Qed.

(** Unfolds a call to Moray, IMGAPI or VMAPI in [H] and goes through
    the scripts of faults, keeping what the scripts were. *)
Ltac service_run H :=
  unfold tagsForImage, ImageTagV2_del_obj, ImageTag_del_obj,
    ImageTag_list, ImageTagV2_list, Image_list, ImageV2_list,
    ImageTag_del, ImageTagV2_del, Image_del, ImageV2_del, Image_update,
    Image_datacenterRefcount, vmsUsingImage, vmapi_listVms,
    moray_call, vmapi_call in H;
  repeat match type of H with
         | context [match moray_faults ?w with _ => _ end] =>
             let E := fresh "Hmoray" in
             destruct (moray_faults w) as [| [?e |] ?fs] eqn:E; cbn in H
         | context [match vmapi_faults ?w with _ => _ end] =>
             destruct (vmapi_faults w) as [| [?e |] ?fs]; cbn in H
         | context [match ?x with _ => _ end] =>
             destruct x; cbn in H
         end.

(** Closes [no_blob_call w w'] once [w'] is known. *)
Ltac no_blob_call_done :=
  cbn; split;
  [reflexivity
  | let Hq := fresh "Hq" in
    intros Hq;
    first [congruence
          | repeat split; first [reflexivity | assumption | congruence]]].

Lemma lookupParent_no_blob_call (account_uuid : string) (img : Img)
  (w : World) :
  no_blob_call w (snd (lookupParent account_uuid img w)).
Proof.
  destruct (lookupParent account_uuid img w) as [r w'] eqn:H. cbn [snd].
  unfold no_blob_call.
  destruct img as [i | i | u o]; cbn [lookupParent] in H;
    unfold imgFromImgInfoV1, imgFromImgInfoV2 in H;
    service_run H; inversion H; subst; no_blob_call_done.
Qed.

Lemma addAndGetNextItem_no_blob_call (account_uuid : string) (fuel : nat) :
  forall (acc : list Img) (img : Img) (w : World),
    no_blob_call w (snd (addAndGetNextItem fuel account_uuid acc img w)).
Proof.
  induction fuel as [| fuel IH]; intros acc img w;
    [apply no_blob_call_refl |].
  cbn [addAndGetNextItem].
  destruct (String.eqb (img_parent img) ""); [apply no_blob_call_refl |].
  pose proof (lookupParent_no_blob_call account_uuid img w) as Hl.
  destruct (lookupParent account_uuid img w) as [[[e |] [p |] | c] w1];
    cbn [snd] in *; try exact Hl.
  eapply no_blob_call_trans; [exact Hl | apply IH].
Qed.

Lemma chain_v1 (account_uuid : string) (w : World) (rest : list Img) :
  forall i : Image.t,
    chain account_uuid w (V1 i :: rest) ->
    Forall (fun a => exists j : Image.t, a = V1 j) rest.
Proof.
  induction rest as [| b r IH]; intros i Hc; constructor.
  - cbn [chain] in Hc. destruct Hc as (_ & Hp & _).
    destruct b as [p | p | u o]; cbn [parent_of] in Hp; try contradiction.
    exists p. reflexivity.
  - cbn [chain] in Hc. destruct Hc as (_ & Hp & Hc).
    destruct b as [p | p | u o]; cbn [parent_of] in Hp; try contradiction.
    exact (IH p Hc).
Qed.

Lemma chain_v2 (account_uuid : string) (w : World) (rest : list Img) :
  forall i : ImageV2.t,
    chain account_uuid w (V2 i :: rest) ->
    Forall (fun a => exists j : ImageV2.t, a = V2 j) rest.
Proof.
  induction rest as [| b r IH]; intros i Hc; constructor.
  - cbn [chain] in Hc. destruct Hc as (_ & Hp & _).
    destruct b as [p | p | u o]; cbn [parent_of] in Hp; try contradiction.
    exists p. reflexivity.
  - cbn [chain] in Hc. destruct Hc as (_ & Hp & Hc).
    destruct b as [p | p | u o]; cbn [parent_of] in Hp; try contradiction.
    exact (IH p Hc).
Qed.

(** A stage of [_deleteImageV1] that makes no call to
    [imgapi.deleteImage] and leaves [imgsToDelete] as it is. *)
Lemma DeleteV1_keeps_no_blob_call (w : World) (f : Stage DeleteV1.Ctx) :
  (forall ctx w1,
      no_blob_call w1 (snd (f ctx w1))
      /\ DeleteV1.imgsToDelete (snd (fst (f ctx w1)))
         = DeleteV1.imgsToDelete ctx) ->
  keeps (fun (ctx : DeleteV1.Ctx) (w1 : World) =>
           no_blob_call w w1
           /\ Forall (fun a => exists j : Image.t, a = V1 j)
                (DeleteV1.imgsToDelete ctx)) f.
Proof.
  intros Hf ctx w1 out ctx' w1' (HP & Hv1) H.
  destruct (Hf ctx w1) as (Hn & Hi). rewrite H in Hn, Hi.
  cbn [fst snd] in Hn, Hi. rewrite Hi.
  split; [eapply no_blob_call_trans; eassumption | exact Hv1].
Qed.

Lemma DeleteV1_untagOne_no_blob_call (t : ImgTag) (ctx : DeleteV1.Ctx)
  (w : World) :
  no_blob_call w (snd (DeleteV1.untagOne t ctx w))
  /\ DeleteV1.imgsToDelete (snd (fst (DeleteV1.untagOne t ctx w)))
     = DeleteV1.imgsToDelete ctx.
Proof.
  destruct (DeleteV1.untagOne t ctx w) as [[out ctx'] w'] eqn:H.
  cbn [fst snd]. unfold no_blob_call.
  unfold DeleteV1.untagOne in H.
  destruct t; service_run H; inversion H; subst;
    (split; [no_blob_call_done | reflexivity]).
Qed.

Lemma DeleteV1_quiet_stages_keep (w : World) (ext : Externals) (fuel : nat)
  (opts : Opts.t) :
  Forall (keeps (fun (ctx : DeleteV1.Ctx) (w1 : World) =>
                   no_blob_call w w1
                   /\ Forall (fun a => exists j : Image.t, a = V1 j)
                        (DeleteV1.imgsToDelete ctx)))
    [DeleteV1.ensureIsHeadImage;
     DeleteV1.getImgTags opts;
     DeleteV1.checkTagReferences opts;
     DeleteV1.verifyNotInUse ext opts;
     DeleteV1.getImgsToDelete fuel opts;
     DeleteV1.getDatacenterRefcount;
     DeleteV1.untagHeads].
Proof.
  repeat (apply Forall_cons; [| try apply Forall_nil]).
  - apply DeleteV1_keeps_no_blob_call. intros ctx w1.
    unfold DeleteV1.ensureIsHeadImage.
    destruct (negb _); (split; [apply no_blob_call_refl | reflexivity]).
  - apply DeleteV1_keeps_no_blob_call. intros ctx w1.
    destruct (DeleteV1.getImgTags opts ctx w1) as [[out ctx'] w'] eqn:H.
    cbn [fst snd]. unfold no_blob_call.
    unfold DeleteV1.getImgTags in H.
    service_run H; inversion H; subst;
      (split; [no_blob_call_done | reflexivity]).
  - apply DeleteV1_keeps_no_blob_call. intros ctx w1.
    unfold DeleteV1.checkTagReferences.
    destruct (String.eqb _ _);
      [destruct (_ && _)
      | destruct (Nat.ltb _ _); [destruct (DeleteV1.imgTag ctx) |]];
      (split; [apply no_blob_call_refl | reflexivity]).
  - apply DeleteV1_keeps_no_blob_call. intros ctx w1.
    unfold DeleteV1.verifyNotInUse.
    destruct (DeleteV1.dontDeleteImages ctx);
      [split; [apply no_blob_call_refl | reflexivity] |].
    destruct (vmsUsingImage ext opts _ w1) as [err w'] eqn:H.
    cbn [fst snd]. split; [| reflexivity]. unfold no_blob_call.
    service_run H; inversion H; subst; no_blob_call_done.
  - intros ctx w1 out ctx' w1' (HP & Hv1) H.
    unfold DeleteV1.getImgsToDelete in H.
    pose proof (addAndGetNextItem_no_blob_call (Opts.account_uuid opts) fuel
                  [] (V1 (DeleteV1.img ctx)) w1) as Hn.
    destruct (getImageAncestry_walk fuel
                (Opts.account_uuid opts) (V1 (DeleteV1.img ctx)) w1)
      as (_ & Hwalk).
    unfold getImageAncestry in H, Hwalk.
    destruct (addAndGetNextItem fuel (Opts.account_uuid opts) []
                (V1 (DeleteV1.img ctx)) w1) as [[[e |] [anc partial] | c] w'];
      cbn [fst snd] in Hn, Hwalk.
    + inversion H; subst.
      split; [eapply no_blob_call_trans; eassumption | exact Hv1].
    + destruct Hwalk as (rest & -> & Hchain & _).
      assert (Hall : Forall (fun a => exists j : Image.t, a = V1 j)
                       (V1 (DeleteV1.img ctx) :: rest)).
      { constructor; [eexists; reflexivity |].
        exact (chain_v1 _ _ _ _ Hchain). }
      destruct partial; inversion H; subst;
        (split; [eapply no_blob_call_trans; eassumption | exact Hall]).
    + inversion H; subst.
      split; [eapply no_blob_call_trans; eassumption | exact Hv1].
  - apply DeleteV1_keeps_no_blob_call. intros ctx w1.
    destruct (DeleteV1.getDatacenterRefcount ctx w1) as [[out ctx'] w'] eqn:H.
    cbn [fst snd]. unfold no_blob_call.
    unfold DeleteV1.getDatacenterRefcount in H.
    service_run H; inversion H; subst;
      (split; [no_blob_call_done | reflexivity]).
  - apply DeleteV1_keeps_no_blob_call. intros ctx w1.
    unfold DeleteV1.untagHeads.
    pose proof (forEachPipeline_keeps
                  (fun (c : DeleteV1.Ctx) (w2 : World) =>
                     no_blob_call w1 w2
                     /\ DeleteV1.imgsToDelete c = DeleteV1.imgsToDelete ctx)
                  DeleteV1.untagOne (DeleteV1.imgTags ctx)) as HP.
    specialize (HP ltac:(
      intros t _ c w2 out c' w2' (Hn & Hi) H;
      destruct (DeleteV1_untagOne_no_blob_call t c w2) as (Hn' & Hi');
      rewrite H in Hn', Hi'; cbn [fst snd] in Hn', Hi';
      split; [eapply no_blob_call_trans; eassumption | congruence])
      ctx w1 (conj (no_blob_call_refl w1) eq_refl)).
    destruct (forEachPipeline DeleteV1.untagOne (DeleteV1.imgTags ctx) ctx w1)
      as [[[err [] | c] c1] w2]; exact HP.
Qed.

Lemma DeleteV1_deleteOneImg_once (i : Image.t) :
  calls_back_once (DeleteV1.deleteOneImg (V1 i)).
Proof.
  intros ctx w. unfold DeleteV1.deleteOneImg.
  destruct (Z.ltb 1 (Image.refcount i)).
  - destruct (Image_update _ w) as [err w1]. eexists. reflexivity.
  - destruct (Image_del i w) as [[e |] w1]; [eexists; reflexivity |].
    destruct (negb _ || _); [eexists; reflexivity |].
    destruct (imgapi_deleteImage _ w1) as [[err |] w2];
      [destruct (String.eqb _ _) |]; eexists; reflexivity.
Qed.

Lemma DeleteV1_deleteOneImg_all_once (imgs : list Img) :
  Forall (fun a => exists j : Image.t, a = V1 j) imgs ->
  Forall calls_back_once (map DeleteV1.deleteOneImg imgs).
Proof.
  induction 1 as [| a rest (j & ->) Hrest IH]; constructor;
    [apply DeleteV1_deleteOneImg_once | exact IH].
Qed.

(** The cascade of [_deleteImageV1]. *)
Lemma DeleteV1_cascade (ext : Externals) (fuel : nat) (opts : Opts.t)
  (i : Image.t) (t : option ImgTag) (w w' : World)
  (r : Result (list Change)) :
  DeleteV1._deleteImageV1 ext fuel opts i t w = (r, w') ->
  exists new : list (string * option Error),
    imgapi_deleteImage_calls w'
    = (imgapi_deleteImage_calls w ++ new)%list
    /\ dependent_only_last new = true
    /\ (moray_faults w = [] -> answered_dependent new ->
        exists changes, r = Called None changes).
Proof.
  intros H. unfold DeleteV1._deleteImageV1 in H.
  match type of H with
  | context [pipeline _ ?c w] =>
      pose proof (pipeline_app
                    [DeleteV1.ensureIsHeadImage;
                     DeleteV1.getImgTags opts;
                     DeleteV1.checkTagReferences opts;
                     DeleteV1.verifyNotInUse ext opts;
                     DeleteV1.getImgsToDelete fuel opts;
                     DeleteV1.getDatacenterRefcount;
                     DeleteV1.untagHeads]
                    [DeleteV1.deleteImgs] c w) as Happ;
      cbn [app] in Happ; rewrite Happ in H; clear Happ;
      destruct (pipeline
                  [DeleteV1.ensureIsHeadImage;
                   DeleteV1.getImgTags opts;
                   DeleteV1.checkTagReferences opts;
                   DeleteV1.verifyNotInUse ext opts;
                   DeleteV1.getImgsToDelete fuel opts;
                   DeleteV1.getDatacenterRefcount;
                   DeleteV1.untagHeads] c w) as [[r1 c1] w1] eqn:Hpre;
      pose proof (pipeline_keeps _ _
                    (DeleteV1_quiet_stages_keep w ext fuel opts)
                    c w r1 c1 w1
                    (conj (no_blob_call_refl w) (Forall_nil _)) Hpre)
        as ((Hcalls & Hquiet) & Hv1)
  end.
  assert (Hnone : w' = w1 ->
            exists new : list (string * option Error),
              imgapi_deleteImage_calls w'
              = (imgapi_deleteImage_calls w ++ new)%list
              /\ dependent_only_last new = true
              /\ (moray_faults w = [] -> answered_dependent new ->
                  exists changes, r = Called None changes)).
  { intros ->. exists []. rewrite app_nil_r.
    split; [exact Hcalls |]. split; [reflexivity |].
    intros _ Hd. destruct (not_answered_nil Hd). }
  destruct r1 as [[e |] [] | c'];
    [inversion H; subst; apply Hnone; reflexivity
    | | inversion H; subst; apply Hnone; reflexivity].
  cbn [pipeline] in H. unfold DeleteV1.deleteImgs in H.
  destruct (DeleteV1.dontDeleteImages c1);
    [inversion H; subst; apply Hnone; reflexivity |].
  destruct (forEachPipeline DeleteV1.deleteOneImg
              (DeleteV1.imgsToDelete c1) c1 w1) as [[r2 c2] w2] eqn:Hloop.
  unfold forEachPipeline in Hloop.
  destruct (cascade_run DeleteV1.hitImageHasDependentImagesError
              (map DeleteV1.deleteOneImg (DeleteV1.imgsToDelete c1))
              (Forall_map_step _ _ _ DeleteV1_deleteOneImg_step)
              c1 w1 r2 c2 w2 Hloop) as (new & Hlog & Hlast & _).
  assert (Hend : moray_faults w = [] -> answered_dependent new ->
                 r2 = Called None tt).
  { intros Hq Hd.
    exact (cascade_run_swallows DeleteV1.hitImageHasDependentImagesError
             (map DeleteV1.deleteOneImg (DeleteV1.imgsToDelete c1))
             (Forall_map_step _ _ _ DeleteV1_deleteOneImg_step)
             (DeleteV1_deleteOneImg_all_once _ Hv1)
             c1 w1 r2 c2 w2 new (proj1 (Hquiet Hq)) Hloop Hlog Hd). }
  exists new.
  destruct r2 as [[e |] [] | c']; cbn in H; inversion H; subst;
    (split; [rewrite Hlog, Hcalls; reflexivity |]);
    (split; [exact Hlast |]); intros Hq Hd;
    first [discriminate (Hend Hq Hd) | eexists; reflexivity].
Qed.

(** A stage of [_deleteImageV2] that makes no call to
    [imgapi.deleteImage] and leaves [img] and [imgsToDelete] as they
    are. *)
Lemma DeleteV2_keeps_no_blob_call (w : World) (i : ImageV2.t)
  (imgs : list Img) (f : Stage DeleteV2.Ctx) :
  (forall ctx w1,
      no_blob_call w1 (snd (f ctx w1))
      /\ DeleteV2.img (snd (fst (f ctx w1))) = DeleteV2.img ctx
      /\ DeleteV2.imgsToDelete (snd (fst (f ctx w1)))
         = DeleteV2.imgsToDelete ctx) ->
  keeps (fun (ctx : DeleteV2.Ctx) (w1 : World) =>
           no_blob_call w w1
           /\ DeleteV2.img ctx = i
           /\ DeleteV2.imgsToDelete ctx = imgs) f.
Proof.
  intros Hf ctx w1 out ctx' w1' (HP & Hi & Hl) H.
  destruct (Hf ctx w1) as (Hn & Ei & El). rewrite H in Hn, Ei, El.
  cbn [fst snd] in Hn, Ei, El.
  split; [eapply no_blob_call_trans; eassumption |].
  split; congruence.
Qed.

Lemma DeleteV2_untagOne_no_blob_call (t : ImgTag) (ctx : DeleteV2.Ctx)
  (w : World) :
  no_blob_call w (snd (DeleteV2.untagOne t ctx w))
  /\ DeleteV2.img (snd (fst (DeleteV2.untagOne t ctx w))) = DeleteV2.img ctx
  /\ DeleteV2.imgsToDelete (snd (fst (DeleteV2.untagOne t ctx w)))
     = DeleteV2.imgsToDelete ctx.
Proof.
  destruct (DeleteV2.untagOne t ctx w) as [[out ctx'] w'] eqn:H.
  cbn [fst snd]. unfold no_blob_call.
  unfold DeleteV2.untagOne in H.
  destruct t; service_run H; inversion H; subst;
    (split; [no_blob_call_done | split; reflexivity]).
Qed.

Lemma DeleteV2_quiet_stages_keep (w : World) (i : ImageV2.t)
  (imgs : list Img) (ext : Externals) (opts : Opts.t) :
  Forall (keeps (fun (ctx : DeleteV2.Ctx) (w1 : World) =>
                   no_blob_call w w1
                   /\ DeleteV2.img ctx = i
                   /\ DeleteV2.imgsToDelete ctx = imgs))
    [DeleteV2.getImgTags opts;
     DeleteV2.checkTagReferences ext opts;
     DeleteV2.checkJustUntagImage;
     DeleteV2.verifyNotInUse ext opts;
     DeleteV2.deleteDockerTags].
Proof.
  repeat (apply Forall_cons; [| try apply Forall_nil]);
    apply DeleteV2_keeps_no_blob_call; intros ctx w1.
  - destruct (DeleteV2.getImgTags opts ctx w1) as [[out ctx'] w'] eqn:H.
    cbn [fst snd]. unfold no_blob_call.
    unfold DeleteV2.getImgTags in H.
    service_run H; inversion H; subst;
      (split; [no_blob_call_done | split; reflexivity]).
  - unfold DeleteV2.checkTagReferences.
    destruct (DeleteV2.imgTag ctx); [| destruct (_ && _)];
      (split; [apply no_blob_call_refl | split; reflexivity]).
  - destruct (DeleteV2.checkJustUntagImage ctx w1) as [[out ctx'] w'] eqn:H.
    cbn [fst snd]. unfold no_blob_call.
    unfold DeleteV2.checkJustUntagImage in H.
    destruct (DeleteV2.imgTag ctx) as [t |];
      [destruct (Nat.ltb 1 _); [destruct t |] |];
      service_run H; inversion H; subst;
      (split; [no_blob_call_done | split; reflexivity]).
  - unfold DeleteV2.verifyNotInUse.
    destruct (vmsUsingImage ext opts _ w1) as [err w'] eqn:H.
    cbn [fst snd]. split; [| split; reflexivity]. unfold no_blob_call.
    service_run H; inversion H; subst; no_blob_call_done.
  - unfold DeleteV2.deleteDockerTags.
    pose proof (forEachPipeline_keeps
                  (fun (c : DeleteV2.Ctx) (w2 : World) =>
                     no_blob_call w1 w2
                     /\ DeleteV2.img c = DeleteV2.img ctx
                     /\ DeleteV2.imgsToDelete c = DeleteV2.imgsToDelete ctx)
                  DeleteV2.untagOne (DeleteV2.imgTags ctx)) as HP.
    specialize (HP ltac:(
      intros t _;
      apply (DeleteV2_keeps_no_blob_call w1 (DeleteV2.img ctx)
               (DeleteV2.imgsToDelete ctx));
      intros c w2; apply DeleteV2_untagOne_no_blob_call)
      ctx w1 (conj (no_blob_call_refl w1) (conj eq_refl eq_refl))).
    destruct (forEachPipeline DeleteV2.untagOne (DeleteV2.imgTags ctx) ctx w1)
      as [[[err [] | c] c1] w2]; exact HP.
Qed.

(** Moray answering, the walk from a v2 image depends on the world
    through the bucket of the v2 images only. *)
Lemma walk_v2_reads_the_bucket (account_uuid : string) (fuel : nat) :
  forall (acc : list Img) (i : ImageV2.t) (w w1 : World),
    moray_faults w = [] -> moray_faults w1 = [] ->
    docker_images_v2 w1 = docker_images_v2 w ->
    fst (addAndGetNextItem fuel account_uuid acc (V2 i) w1)
    = fst (addAndGetNextItem fuel account_uuid acc (V2 i) w).
Proof.
  induction fuel as [| fuel IH]; intros acc i w w1 Hq Hq1 Hb;
    [reflexivity |].
  cbn [addAndGetNextItem img_parent].
  destruct (String.eqb (ImageV2.parent i) ""); [reflexivity |].
  cbn [lookupParent img_parent]. unfold imgFromImgInfoV2, ImageV2_list.
  rewrite (moray_call_quiet w Hq), (moray_call_quiet w1 Hq1), Hb.
  destruct (listObjs (docker_images_v2 w) _) as [| a [| b r]];
    try reflexivity.
  apply IH; assumption.
Qed.

Lemma DeleteV2_getImgsToDelete_cascade (w : World) (fuel : nat)
  (opts : Opts.t) (ctx ctx' : DeleteV2.Ctx) (w1 w1' : World)
  (out : StageOut) :
  no_blob_call w w1 ->
  DeleteV2.getImgsToDelete fuel opts ctx w1 = (out, ctx', w1') ->
  no_blob_call w w1'
  /\ DeleteV2.img ctx' = DeleteV2.img ctx
  /\ (out = Calls [None] -> moray_faults w = [] ->
      DeleteV2.imgsToDelete ctx'
      = cascade_v2 fuel (Opts.account_uuid opts) (DeleteV2.img ctx) w).
Proof.
  intros HP H. unfold DeleteV2.getImgsToDelete in H.
  pose proof (addAndGetNextItem_no_blob_call (Opts.account_uuid opts) fuel
                [] (V2 (DeleteV2.img ctx)) w1) as Hn.
  assert (Hsame : moray_faults w = [] ->
                  fst (getImageAncestry fuel (Opts.account_uuid opts)
                         (V2 (DeleteV2.img ctx)) w1)
                  = fst (getImageAncestry fuel (Opts.account_uuid opts)
                           (V2 (DeleteV2.img ctx)) w)).
  { intros Hq. destruct HP as (_ & HP). destruct (HP Hq) as (Hq1 & _ & Hb).
    apply walk_v2_reads_the_bucket; assumption. }
  unfold cascade_v2.
  unfold getImageAncestry in *.
  destruct (addAndGetNextItem fuel (Opts.account_uuid opts) []
              (V2 (DeleteV2.img ctx)) w1) as [[[e |] [anc partial] | c] w2];
    cbn [fst snd] in Hn, Hsame.
  - inversion H; subst.
    split; [eapply no_blob_call_trans; eassumption |].
    split; [reflexivity | discriminate].
  - destruct anc as [| a0 rest]; inversion H; subst;
      (split; [eapply no_blob_call_trans; eassumption |]);
      (split; [reflexivity |]); [discriminate |].
    intros _ Hq. rewrite <- (Hsame Hq). reflexivity.
  - inversion H; subst.
    split; [eapply no_blob_call_trans; eassumption |].
    split; [reflexivity | discriminate].
Qed.

Lemma all_v2_records (Q : ImageV2.t -> Prop) (l : list Img) :
  Forall (fun a => exists x : ImageV2.t, a = V2 x /\ Q x) l ->
  exists imgs : list ImageV2.t, l = map V2 imgs /\ Forall Q imgs.
Proof.
  induction 1 as [| a rest (x & -> & Hx) Hrest (imgs & -> & IH)].
  - exists []. split; [reflexivity | constructor].
  - exists (x :: imgs). split; [reflexivity | constructor; assumption].
Qed.

(** The records of the cascade of a v2 image are v2 records: the image,
    and records that are no head images. *)
Lemma cascade_v2_records (fuel : nat) (account_uuid : string)
  (i : ImageV2.t) (w : World) :
  exists imgs : list ImageV2.t,
    cascade_v2 fuel account_uuid i w = map V2 imgs
    /\ Forall (fun x => ImageV2.digest x = ImageV2.digest i
                        \/ ImageV2.head x = false) imgs.
Proof.
  apply all_v2_records. unfold cascade_v2.
  destruct (getImageAncestry_walk fuel account_uuid (V2 i) w) as (_ & Hwalk).
  destruct (fst (getImageAncestry fuel account_uuid (V2 i) w))
    as [[e |] [anc partial] | c]; try constructor.
  destruct Hwalk as (rest & -> & Hchain & _).
  constructor; [exists i; split; [reflexivity | left; reflexivity] |].
  pose proof (chain_v2 _ _ _ _ Hchain) as Hv2.
  destruct (untilHead_prefix rest) as (Hnh & tail & Hrest & _).
  rewrite Hrest in Hv2. apply Forall_app in Hv2. destruct Hv2 as (Hv2 & _).
  apply Forall_forall. intros a Ha.
  rewrite Forall_forall in Hnh, Hv2.
  destruct (Hv2 a Ha) as (x & ->). exists x.
  split; [reflexivity |]. right. exact (Hnh _ Ha).
Qed.

Lemma DeleteV2_deleteLayer_once (layerInfo : LayerInfo.t) :
  calls_back_once (DeleteV2.deleteLayer layerInfo).
Proof.
  intros ctx w. unfold DeleteV2.deleteLayer.
  destruct (DeleteV2.hitImageHasDependentImagesError ctx);
    [eexists; reflexivity |].
  destruct (ImageV2_list _ w) as [[lookupErr | imgs] w1];
    [eexists; reflexivity |].
  cbn zeta.
  match goal with
  | |- context [if Z.leb 1 ?n then _ else _] => destruct (Z.leb 1 n)
  end; [eexists; reflexivity |].
  destruct (imgapi_deleteImage _ w1) as [[err |] w2];
    [destruct (String.eqb _ _) |]; eexists; reflexivity.
Qed.

Lemma DeleteV2_deleteLayer_frame (layerInfo : LayerInfo.t)
  (ctx ctx' : DeleteV2.Ctx) (w w' : World) (out : StageOut) :
  DeleteV2.deleteLayer layerInfo ctx w = (out, ctx', w') ->
  DeleteV2.img ctx' = DeleteV2.img ctx
  /\ DeleteV2.imgsToDelete ctx' = DeleteV2.imgsToDelete ctx
  /\ docker_images_v2 w' = docker_images_v2 w.
Proof.
  intros H. unfold DeleteV2.deleteLayer in H.
  destruct (DeleteV2.hitImageHasDependentImagesError ctx);
    [inversion H; subst; repeat split; reflexivity |].
  unfold ImageV2_list, moray_call in H.
  destruct (moray_faults w) as [| [e |] fs]; cbn [fst snd] in H;
    try (inversion H; subst; repeat split; reflexivity);
    (destruct (Z.eqb _ 0); cbn zeta in H;
     destruct (Z.leb 1 _);
     try (inversion H; subst; repeat split; reflexivity);
     unfold imgapi_deleteImage, imgapi_call in H;
     cbn [imgapi_faults set_moray_faults imgapi_images
            imgapi_deleteImage_calls] in H;
     destruct (imgapi_faults w) as [| [e' |] gs]; cbn [fst snd] in H;
     repeat match type of H with
            | context [if ?c then _ else _] => destruct c; cbn in H
            end;
     inversion H; subst; repeat split; reflexivity).
Qed.

(** The stage [deleteImgapiLayers] of [_deleteImageV2]. *)
Lemma DeleteV2_deleteImgapiLayers_cascade (ext : Externals)
  (ctx ctx' : DeleteV2.Ctx) (w w' : World) (out : StageOut) :
  DeleteV2.deleteImgapiLayers ext ctx w = (out, ctx', w') ->
  DeleteV2.img ctx' = DeleteV2.img ctx
  /\ DeleteV2.imgsToDelete ctx' = DeleteV2.imgsToDelete ctx
  /\ docker_images_v2 w' = docker_images_v2 w
  /\ exists new : list (string * option Error),
       imgapi_deleteImage_calls w'
       = (imgapi_deleteImage_calls w ++ new)%list
       /\ dependent_only_last new = true
       /\ (moray_faults w = [] ->
           moray_faults w' = []
           /\ (answered_dependent new -> out = Calls [None])).
Proof.
  intros H. unfold DeleteV2.deleteImgapiLayers in H.
  assert (Hnone : forall c,
            DeleteV2.img c = DeleteV2.img ctx ->
            DeleteV2.imgsToDelete c = DeleteV2.imgsToDelete ctx ->
            DeleteV2.img c = DeleteV2.img ctx
            /\ DeleteV2.imgsToDelete c = DeleteV2.imgsToDelete ctx
            /\ docker_images_v2 w = docker_images_v2 w
            /\ exists new : list (string * option Error),
                 imgapi_deleteImage_calls w
                 = (imgapi_deleteImage_calls w ++ new)%list
                 /\ dependent_only_last new = true
                 /\ (moray_faults w = [] ->
                     moray_faults w = []
                     /\ (answered_dependent new -> out = Calls [None]))).
  { intros c Ei El. repeat split; try assumption.
    exists []. rewrite app_nil_r. repeat split; auto.
    intros Hd. destruct (not_answered_nil Hd). }
  destruct (manifestLayerDigests ext _) as [layers |];
    [| inversion H; subst; apply Hnone; reflexivity].
  destruct (negb _);
    [inversion H; subst; apply Hnone; reflexivity |].
  clear Hnone.
  match type of H with
  | context [forEachPipeline ?f ?ins ?c ?wx] =>
      pose proof (forEachPipeline_keeps
                    (fun (c1 : DeleteV2.Ctx) (w1 : World) =>
                       DeleteV2.img c1 = DeleteV2.img ctx
                       /\ DeleteV2.imgsToDelete c1 = DeleteV2.imgsToDelete ctx
                       /\ docker_images_v2 w1 = docker_images_v2 w)
                    f ins) as HP;
      specialize (HP ltac:(
        intros li _ c1 w1 out1 c1' w1' (Ei & El & Eb) H1;
        destruct (DeleteV2_deleteLayer_frame _ _ _ _ _ _ H1)
          as (Ei' & El' & Eb');
        repeat split; congruence)
        c wx (conj eq_refl (conj eq_refl eq_refl)));
      destruct (forEachPipeline f ins c wx) as [[r2 c2] w2] eqn:Hloop;
      unfold forEachPipeline in Hloop;
      destruct (cascade_run DeleteV2.hitImageHasDependentImagesError
                  (map f ins)
                  (Forall_map_step _ _ _ DeleteV2_deleteLayer_step)
                  c wx r2 c2 w2 Hloop) as (new & Hlog & Hlast & _ & Hq2);
      assert (Hend : moray_faults w = [] -> answered_dependent new ->
                     r2 = Called None tt)
        by (intros Hq Hd;
            refine (cascade_run_swallows
                      DeleteV2.hitImageHasDependentImagesError
                      (map f ins)
                      (Forall_map_step _ _ _ DeleteV2_deleteLayer_step)
                      _ c wx r2 c2 w2 new Hq Hloop Hlog Hd);
            clear; induction ins; constructor;
            [apply DeleteV2_deleteLayer_once | assumption])
  end.
  cbn [fst snd] in HP. destruct HP as (Ei & El & Eb).
  destruct r2 as [err [] | c']; inversion H; subst;
    (split; [exact Ei |]); (split; [exact El |]); (split; [exact Eb |]);
    exists new; (split; [exact Hlog |]); (split; [exact Hlast |]);
    intros Hq; (split; [exact (proj1 (Hq2 Hq)) |]); intros Hd;
    pose proof (Hend Hq Hd) as E; inversion E; subst; reflexivity.
Qed.

Lemma DeleteV2_deleteOneImg_calls (a : Img) (ctx ctx' : DeleteV2.Ctx)
  (w w' : World) (out : StageOut) :
  DeleteV2.deleteOneImg a ctx w = (out, ctx', w') ->
  imgapi_deleteImage_calls w' = imgapi_deleteImage_calls w.
Proof.
  intros H. unfold DeleteV2.deleteOneImg in H.
  destruct (negb _ && img_head a); [inversion H; subst; reflexivity |].
  destruct a as [i | i | u o]; try (inversion H; subst; reflexivity).
  service_run H; inversion H; subst; reflexivity.
Qed.

(** The stage [deleteDockerImages] of [_deleteImageV2] makes no call to
    [imgapi.deleteImage]. *)
Lemma DeleteV2_deleteDockerImages_calls (ctx ctx' : DeleteV2.Ctx)
  (w w' : World) (out : StageOut) :
  DeleteV2.deleteDockerImages ctx w = (out, ctx', w') ->
  imgapi_deleteImage_calls w' = imgapi_deleteImage_calls w.
Proof.
  intros H. unfold DeleteV2.deleteDockerImages in H.
  pose proof (forEachPipeline_keeps
                (fun (_ : DeleteV2.Ctx) (w1 : World) =>
                   imgapi_deleteImage_calls w1 = imgapi_deleteImage_calls w)
                DeleteV2.deleteOneImg (DeleteV2.imgsToDelete ctx)) as HP.
  specialize (HP ltac:(
    intros a _ c1 w1 out1 c1' w1' E H1;
    rewrite (DeleteV2_deleteOneImg_calls _ _ _ _ _ _ H1); exact E)
    ctx w eq_refl).
  destruct (forEachPipeline DeleteV2.deleteOneImg
              (DeleteV2.imgsToDelete ctx) ctx w) as [[r c1] w2].
  cbn [fst snd] in HP.
  destruct r as [[[] |] [] | c]; inversion H; subst; exact HP.
Qed.

(** Moray answering, the stage [deleteDockerImages] deletes the record
    of every image of the cascade, and logs it. *)
Lemma DeleteV2_deleteDockerImages_deletes (ctx : DeleteV2.Ctx) (w : World)
  (imgs : list ImageV2.t) :
  moray_faults w = [] ->
  DeleteV2.imgsToDelete ctx = map V2 imgs ->
  Forall (fun x => ImageV2.digest x = ImageV2.digest (DeleteV2.img ctx)
                   \/ ImageV2.head x = false) imgs ->
  exists (ctx' : DeleteV2.Ctx) (w' : World),
    DeleteV2.deleteDockerImages ctx w = (Calls [None], ctx', w')
    /\ forall x, In x imgs ->
                 In (Deleted (ImageV2.digest x)) (DeleteV2.changes ctx')
                 /\ forall r, In r (docker_images_v2 w') -> key r <> key x.
Proof.
  intros Hq Himgs Hok.
  destruct (DeleteV2_records_deleted imgs ctx w Hq Hok)
    as (ctx' & w' & Hrun & Hch & _ & Hgone & _).
  exists ctx', w'. unfold DeleteV2.deleteDockerImages.
  rewrite Himgs, Hrun. split; [reflexivity |].
  intros x Hx. split; [| intros r Hr; exact (Hgone x r Hx Hr)].
  rewrite Hch. apply in_or_app. right.
  apply in_map_iff. exists x. split; [reflexivity | exact Hx].
Qed.

(** The cascade of [_deleteImageV2]. *)
Lemma DeleteV2_cascade (ext : Externals) (fuel : nat) (opts : Opts.t)
  (i : ImageV2.t) (t : option ImgTag) (w w' : World)
  (r : Result (list Change)) :
  DeleteV2._deleteImageV2 ext fuel opts i t w = (r, w') ->
  exists new : list (string * option Error),
    imgapi_deleteImage_calls w'
    = (imgapi_deleteImage_calls w ++ new)%list
    /\ dependent_only_last new = true
    /\ (moray_faults w = [] -> answered_dependent new ->
        exists changes,
          r = Called None changes
          /\ forall x : ImageV2.t,
               In (V2 x) (cascade_v2 fuel (Opts.account_uuid opts) i w) ->
               In (Deleted (ImageV2.digest x)) changes
               /\ forall rec, In rec (docker_images_v2 w') ->
                              key rec <> key x).
Proof.
  intros H. unfold DeleteV2._deleteImageV2 in H.
  match type of H with
  | context [pipeline ?fs ?c w] =>
      destruct (pipeline fs c w) as [[rp cp] wp] eqn:Hrun;
      pose proof (pipeline_app
                    [DeleteV2.getImgTags opts;
                     DeleteV2.checkTagReferences ext opts;
                     DeleteV2.checkJustUntagImage;
                     DeleteV2.verifyNotInUse ext opts]
                    [DeleteV2.getImgsToDelete fuel opts;
                     DeleteV2.deleteDockerTags;
                     DeleteV2.deleteImgapiLayers ext;
                     DeleteV2.deleteDockerImages] c w) as Happ;
      cbn [app] in Happ; rewrite Happ in Hrun; clear Happ;
      destruct (pipeline
                  [DeleteV2.getImgTags opts;
                   DeleteV2.checkTagReferences ext opts;
                   DeleteV2.checkJustUntagImage;
                   DeleteV2.verifyNotInUse ext opts] c w)
        as [[r1 c1] w1] eqn:Hpre;
      assert (HP1 : no_blob_call w w1
                    /\ DeleteV2.img c1 = i
                    /\ DeleteV2.imgsToDelete c1 = [])
        by (refine (pipeline_keeps
                      (fun (ctx : DeleteV2.Ctx) (w1 : World) =>
                         no_blob_call w w1
                         /\ DeleteV2.img ctx = i
                         /\ DeleteV2.imgsToDelete ctx = [])
                      _ _ c w r1 c1 w1
                      (conj (no_blob_call_refl w) (conj eq_refl eq_refl))
                      Hpre);
            apply Forall_forall; intros f Hf;
            apply (proj1 (Forall_forall _ _)
                     (DeleteV2_quiet_stages_keep w i [] ext opts));
            cbn in Hf |- *; tauto)
  end.
  assert (Hw : w' = wp)
    by (destruct rp as [[[] |] [] | c]; inversion H; reflexivity).
  subst w'.
  assert (Hmain :
    exists new : list (string * option Error),
      imgapi_deleteImage_calls wp
      = (imgapi_deleteImage_calls w ++ new)%list
      /\ dependent_only_last new = true
      /\ (moray_faults w = [] -> answered_dependent new ->
          rp = Called None tt
          /\ forall x : ImageV2.t,
               In (V2 x) (cascade_v2 fuel (Opts.account_uuid opts) i w) ->
               In (Deleted (ImageV2.digest x)) (DeleteV2.changes cp)
               /\ forall rec, In rec (docker_images_v2 wp) ->
                              key rec <> key x)).
  { assert (Hnone : no_blob_call w wp ->
      exists new : list (string * option Error),
        imgapi_deleteImage_calls wp
        = (imgapi_deleteImage_calls w ++ new)%list
        /\ dependent_only_last new = true
        /\ (moray_faults w = [] -> answered_dependent new ->
            rp = Called None tt
            /\ forall x : ImageV2.t,
                 In (V2 x) (cascade_v2 fuel (Opts.account_uuid opts) i w) ->
                 In (Deleted (ImageV2.digest x)) (DeleteV2.changes cp)
                 /\ forall rec, In rec (docker_images_v2 wp) ->
                                key rec <> key x)).
    { intros (Hcalls & _). exists []. rewrite app_nil_r.
      split; [exact Hcalls |]. split; [reflexivity |].
      intros _ Hd. destruct (not_answered_nil Hd). }
    destruct HP1 as (Hn1 & Ei1 & El1).
    destruct r1 as [[e |] [] | c];
      [inversion Hrun; subst; apply Hnone; exact Hn1
      | | inversion Hrun; subst; apply Hnone; exact Hn1].
    (* getImgsToDelete *)
    cbn [pipeline] in Hrun.
    destruct (DeleteV2.getImgsToDelete fuel opts c1 w1)
      as [[out c2] w2] eqn:H5.
    destruct (DeleteV2_getImgsToDelete_cascade w fuel opts _ _ _ _ _ Hn1 H5)
      as (Hn2 & Ei2 & El2).
    rewrite Ei1 in Ei2, El2.
    destruct out as [[| [e |] [| ? ?]] | c];
      try (inversion Hrun; subst; apply Hnone; exact Hn2).
    specialize (El2 eq_refl).
    (* deleteDockerTags *)
    destruct (DeleteV2.deleteDockerTags c2 w2) as [[out c3] w3] eqn:H6.
    assert (HP3 : no_blob_call w w3
                  /\ DeleteV2.img c3 = i
                  /\ DeleteV2.imgsToDelete c3 = DeleteV2.imgsToDelete c2).
    { refine (proj1 (Forall_forall _ _)
                (DeleteV2_quiet_stages_keep w i (DeleteV2.imgsToDelete c2)
                   ext opts)
                DeleteV2.deleteDockerTags _ c2 w2 out c3 w3
                (conj Hn2 (conj Ei2 eq_refl)) H6).
      cbn. tauto. }
    destruct HP3 as (Hn3 & Ei3 & El3).
    destruct out as [[| [e |] [| ? ?]] | c];
      try (inversion Hrun; subst; apply Hnone; exact Hn3).
    clear Hnone.
    (* deleteImgapiLayers *)
    destruct (DeleteV2.deleteImgapiLayers ext c3 w3) as [[out c4] w4] eqn:H7.
    destruct (DeleteV2_deleteImgapiLayers_cascade ext _ _ _ _ _ H7)
      as (Ei4 & El4 & Eb4 & new & Hlog & Hlast & Hq4).
    destruct Hn3 as (Hcalls3 & Hq3).
    exists new.
    destruct out as [[| [e |] [| ? ?]] | c];
      try (inversion Hrun; subst;
           (split; [rewrite Hlog, Hcalls3; reflexivity |]);
           (split; [exact Hlast |]); intros Hq Hd;
           destruct (Hq4 (proj1 (Hq3 Hq))) as (_ & Hout);
           discriminate (Hout Hd)).
    (* deleteDockerImages *)
    destruct (DeleteV2.deleteDockerImages c4 w4) as [[out c5] w5] eqn:H8.
    pose proof (DeleteV2_deleteDockerImages_calls _ _ _ _ _ H8) as Hcalls5.
    assert (Hdel : moray_faults w = [] ->
              out = Calls [None]
              /\ forall x : ImageV2.t,
                   In (V2 x) (cascade_v2 fuel (Opts.account_uuid opts) i w) ->
                   In (Deleted (ImageV2.digest x)) (DeleteV2.changes c5)
                   /\ forall rec, In rec (docker_images_v2 w5) ->
                                  key rec <> key x).
    { intros Hq.
      destruct (cascade_v2_records fuel (Opts.account_uuid opts) i w)
        as (imgs & Hc & Hok).
      destruct (DeleteV2_deleteDockerImages_deletes c4 w4 imgs)
        as (c5' & w5' & Heq & Hx).
      - exact (proj1 (Hq4 (proj1 (Hq3 Hq)))).
      - rewrite El4, El3, (El2 Hq). exact Hc.
      - rewrite Ei4, Ei3. exact Hok.
      - rewrite Heq in H8. inversion H8; subst.
        split; [reflexivity |]. intros x Hin. rewrite Hc in Hin.
        apply in_map_iff in Hin. destruct Hin as (x' & E & Hin).
        inversion E; subst. exact (Hx x Hin). }
    destruct out as [[| [e |] [| ? ?]] | c]; cbn [pipeline] in Hrun;
      inversion Hrun; subst;
      (split; [rewrite Hcalls5, Hlog, Hcalls3; reflexivity |]);
      (split; [exact Hlast |]); intros Hq Hd;
      destruct (Hdel Hq) as (Hout & Hx);
      try discriminate Hout.
    split; [reflexivity | exact Hx]. }
  destruct Hmain as (new & Hlog & Hlast & Hend).
  exists new. split; [exact Hlog |]. split; [exact Hlast |].
  intros Hq Hd. destruct (Hend Hq Hd) as (-> & Hx).
  cbn in H. inversion H; subst.
  eexists. split; [reflexivity | exact Hx].
Qed.

(** *** The resolver makes no call to [imgapi.deleteImage] *)

Lemma no_deleteImage_call_refl (w : World) : no_deleteImage_call w w.
Proof. split; [reflexivity | exact (fun H => H)]. Qed.

Lemma no_deleteImage_call_trans (w0 w1 w2 : World) :
  no_deleteImage_call w0 w1 -> no_deleteImage_call w1 w2 ->
  no_deleteImage_call w0 w2.
Proof. intros (A & B) (C & D). split; [congruence | auto]. Qed.

Lemma keeps_no_deleteImage_call {L : Type} (w : World) (f : Stage L) :
  (forall l w1, no_deleteImage_call w1 (snd (f l w1))) ->
  keeps (fun (_ : L) (w1 : World) => no_deleteImage_call w w1) f.
Proof.
  intros Hf l w1 out l' w1' HP H. specialize (Hf l w1). rewrite H in Hf.
  eapply no_deleteImage_call_trans; eassumption.
Qed.

(** Unfolds a look-up in IMGAPI in [H] and goes through the script of
    faults. *)
Ltac imgapi_run H :=
  unfold imgapi_getImage, imgapi_getImage_where, imgapi_call in H;
  repeat match type of H with
         | context [match imgapi_faults ?w with _ => _ end] =>
             destruct (imgapi_faults w) as [| [?e |] ?fs]; cbn in H
         | context [find ?f ?l] =>
             destruct (find f l); cbn in H
         | context [match ?x with _ => _ end] =>
             destruct x; cbn in H
         end.

(** Closes [no_deleteImage_call w w'] once [w'] is known. *)
Ltac no_deleteImage_call_done :=
  cbn; split;
  [reflexivity
  | let Hq := fresh "Hq" in
    intros Hq; first [congruence | assumption | reflexivity]].

Lemma ResolveV2_no_deleteImage_call (opts : Opts.t) (rat : Rat.t)
  (w : World) :
  no_deleteImage_call w (snd (ResolveV2._imgFromNameV2 opts rat w)).
Proof.
  unfold ResolveV2._imgFromNameV2.
  match goal with
  | |- context [pipeline ?fs ?c w] =>
      destruct (pipeline fs c w) as [[r l] w'] eqn:Hrun;
      assert (HP : no_deleteImage_call w w')
  end.
  { refine (pipeline_keeps
              (fun (_ : ResolveV2.Vars) (w1 : World) =>
                 no_deleteImage_call w w1)
              _ _ _ w r l w' (no_deleteImage_call_refl w) Hrun).
    repeat (apply Forall_cons; [| try apply Forall_nil]);
      apply keeps_no_deleteImage_call; intros l1 w1;
      match goal with
      | |- no_deleteImage_call _ (snd ?x) =>
          destruct x as [[out l2] w2] eqn:H
      end; cbn [snd]; unfold no_deleteImage_call.
    - unfold ResolveV2.findByName in H.
      service_run H; inversion H; subst; no_deleteImage_call_done.
    - unfold ResolveV2.findImage in H.
      destruct (ResolveV2.findImage_filter _ _ _);
        service_run H; inversion H; subst; no_deleteImage_call_done.
    - unfold ResolveV2.isImageInImgapi in H.
      destruct (img l1); imgapi_run H; inversion H; subst;
        no_deleteImage_call_done.
    - unfold ResolveV2.delImgRef in H.
      destruct (img l1), (imgIsGone l1);
        service_run H; inversion H; subst; no_deleteImage_call_done.
    - unfold ResolveV2.delImgTagRef in H.
      destruct (imgIsGone l1); [destruct (imgTag l1) |];
        service_run H; inversion H; subst; no_deleteImage_call_done. }
  unfold resolved.
  destruct r as [[[] |] [] | c]; try exact HP;
    destruct (imgIsGone l); exact HP.
Qed.

Lemma ResolveV1_no_deleteImage_call (opts : Opts.t) (rat : Rat.t)
  (w : World) :
  no_deleteImage_call w (snd (ResolveV1._imgFromNameV1 opts rat w)).
Proof.
  unfold ResolveV1._imgFromNameV1.
  match goal with
  | |- context [pipeline ?fs ?c w] =>
      destruct (pipeline fs c w) as [[r l] w'] eqn:Hrun;
      assert (HP : no_deleteImage_call w w')
  end.
  { refine (pipeline_keeps
              (fun (_ : ResolveV1.Vars) (w1 : World) =>
                 no_deleteImage_call w w1)
              _ _ _ w r l w' (no_deleteImage_call_refl w) Hrun).
    repeat (apply Forall_cons; [| try apply Forall_nil]);
      apply keeps_no_deleteImage_call; intros l1 w1;
      match goal with
      | |- no_deleteImage_call _ (snd ?x) =>
          destruct x as [[out l2] w2] eqn:H
      end; cbn [snd]; unfold no_deleteImage_call.
    - unfold ResolveV1.findByName in H.
      service_run H; inversion H; subst; no_deleteImage_call_done.
    - unfold ResolveV1.findImage in H.
      destruct (ResolveV1.findImage_filter _ _ _);
        service_run H; inversion H; subst; no_deleteImage_call_done.
    - unfold ResolveV1.isImageInImgapi in H.
      destruct (img l1); imgapi_run H; inversion H; subst;
        no_deleteImage_call_done.
    - unfold ResolveV1.delImgRef in H.
      destruct (img l1), (imgIsGone l1);
        service_run H; inversion H; subst; no_deleteImage_call_done.
    - unfold ResolveV1.delImgTagRef in H.
      destruct (imgIsGone l1); [destruct (imgTag l1) |];
        service_run H; inversion H; subst; no_deleteImage_call_done. }
  unfold resolved.
  destruct r as [[[] |] [] | c]; try exact HP;
    destruct (imgIsGone l); exact HP.
Qed.

Lemma ByDigest_no_deleteImage_call (field value account_uuid : string)
  (notFound multiple : string) (w : World) :
  no_deleteImage_call w
    (snd (ByDigest.finish
            (pipeline
               [ByDigest.findImage field value account_uuid notFound multiple;
                ByDigest.checkImageInImgapi] None w))).
Proof.
  match goal with
  | |- context [pipeline ?fs ?c w] =>
      destruct (pipeline fs c w) as [[r l] w'] eqn:Hrun;
      assert (HP : no_deleteImage_call w w')
  end.
  { refine (pipeline_keeps
              (fun (_ : option ImageV2.t) (w1 : World) =>
                 no_deleteImage_call w w1)
              _ _ _ w r l w' (no_deleteImage_call_refl w) Hrun).
    repeat (apply Forall_cons; [| try apply Forall_nil]);
      apply keeps_no_deleteImage_call; intros l1 w1;
      match goal with
      | |- no_deleteImage_call _ (snd ?x) =>
          destruct x as [[out l2] w2] eqn:H
      end; cbn [snd]; unfold no_deleteImage_call.
    - unfold ByDigest.findImage in H.
      service_run H; inversion H; subst; no_deleteImage_call_done.
    - unfold ByDigest.checkImageInImgapi in H.
      destruct l1; imgapi_run H; inversion H; subst;
        no_deleteImage_call_done. }
  unfold ByDigest.finish. destruct r as [[e |] [] | c]; exact HP.
Qed.

Lemma imgFromName_no_deleteImage_call (ext : Externals) (opts : Opts.t)
  (w : World) :
  no_deleteImage_call w (snd (imgFromName ext opts w)).
Proof.
  unfold imgFromName.
  destruct (parseRepoAndTag ext (Opts.name opts)) as [rat | msg];
    [| apply no_deleteImage_call_refl].
  match goal with
  | |- context [pipeline ?fs ?c w] =>
      destruct (pipeline fs c w) as [[r l] w'] eqn:Hrun;
      assert (HP : no_deleteImage_call w w')
  end.
  { refine (pipeline_keeps
              (fun (_ : ImgFromName.Vars) (w1 : World) =>
                 no_deleteImage_call w w1)
              _ _ _ w r l w' (no_deleteImage_call_refl w) Hrun).
    repeat (apply Forall_cons; [| try apply Forall_nil]);
      apply keeps_no_deleteImage_call; intros l1 w1.
    - destruct (ImgFromName.findUuidInImgapi opts (isUUID ext)
                  (Rat.localName rat) l1 w1) as [[out l2] w2] eqn:H.
      cbn [snd]. unfold no_deleteImage_call.
      unfold ImgFromName.findUuidInImgapi in H.
      destruct (negb _ || negb _);
        imgapi_run H; inversion H; subst; no_deleteImage_call_done.
    - unfold ImgFromName.findByManifestDigest.
      destruct (Rat.digest rat) as [[| c d] |];
        try apply no_deleteImage_call_refl.
      unfold imgFromManifestDigest.
      match goal with
      | |- context [ByDigest.finish (pipeline [ByDigest.findImage ?a ?b ?c ?d ?e; _] None w1)] =>
          pose proof (ByDigest_no_deleteImage_call a b c d e w1) as Hb;
          destruct (ByDigest.finish
                      (pipeline [ByDigest.findImage a b c d e;
                                 ByDigest.checkImageInImgapi] None w1))
            as [[[e1 |] [x |] | c1] w2]
      end; exact Hb.
    - unfold ImgFromName.findByImageDigest.
      destruct (negb _ || negb _); [apply no_deleteImage_call_refl |].
      unfold imgFromDigest.
      match goal with
      | |- context [ByDigest.finish (pipeline [ByDigest.findImage ?a ?b ?c ?d ?e; _] None w1)] =>
          pose proof (ByDigest_no_deleteImage_call a b c d e w1) as Hb;
          destruct (ByDigest.finish
                      (pipeline [ByDigest.findImage a b c d e;
                                 ByDigest.checkImageInImgapi] None w1))
            as [[[e1 |] [x |] | c1] w2]
      end; exact Hb.
    - unfold ImgFromName.findByNameV2.
      pose proof (ResolveV2_no_deleteImage_call opts rat w1) as Hb.
      destruct (ResolveV2._imgFromNameV2 opts rat w1)
        as [[[e1 |] [[x |] y] | c1] w2]; exact Hb.
    - unfold ImgFromName.findByNameV1.
      pose proof (ResolveV1_no_deleteImage_call opts rat w1) as Hb.
      destruct (ResolveV1._imgFromNameV1 opts rat w1)
        as [[[e1 |] [[x |] y] | c1] w2]; exact Hb. }
  unfold ImgFromName.finish. destruct r as [[[] |] [] | c]; exact HP.
Qed.

(** The whole call: the resolver, then the cascade of the schema of the
    image. *)
Lemma deleteImage_cascade (ext : Externals) (fuel : nat) (opts : Opts.t)
  (w w' : World) (r : Result (option (list Change))) :
  deleteImage ext fuel opts w = (r, w') ->
  exists new : list (string * option Error),
    imgapi_deleteImage_calls w'
    = (imgapi_deleteImage_calls w ++ new)%list
    /\ dependent_only_last new = true
    /\ (moray_faults w = [] -> answered_dependent new ->
        exists changes, r = Called None (Some changes)).
Proof.
  intros H. unfold deleteImage in H.
  pose proof (imgFromName_no_deleteImage_call ext opts w) as (Hc & Hq).
  destruct (imgFromName ext opts w) as [rn w1]. cbn [snd] in Hc, Hq.
  assert (Hnone : w' = w1 ->
            exists new : list (string * option Error),
              imgapi_deleteImage_calls w'
              = (imgapi_deleteImage_calls w ++ new)%list
              /\ dependent_only_last new = true
              /\ (moray_faults w = [] -> answered_dependent new ->
                  exists changes, r = Called None (Some changes))).
  { intros ->. exists []. rewrite app_nil_r.
    split; [exact Hc |]. split; [reflexivity |].
    intros _ Hd. destruct (not_answered_nil Hd). }
  destruct rn as [[e |] [[im |] tg] | c];
    try (inversion H; subst; apply Hnone; reflexivity).
  destruct im as [i | i | u o];
    [| | inversion H; subst; apply Hnone; reflexivity].
  - destruct (DeleteV1._deleteImageV1 ext fuel opts i tg w1)
      as [rd w2] eqn:Hd.
    destruct (DeleteV1_cascade _ _ _ _ _ _ _ _ Hd)
      as (new & Hlog & Hlast & Hend).
    exists new.
    destruct rd as [err ch | c]; inversion H; subst;
      (split; [rewrite Hlog, Hc; reflexivity |]);
      (split; [exact Hlast |]); intros Hq0 Hdep;
      destruct (Hend (Hq Hq0) Hdep) as (changes & E);
      inversion E; subst; eexists; reflexivity.
  - destruct (DeleteV2._deleteImageV2 ext fuel opts i tg w1)
      as [rd w2] eqn:Hd.
    destruct (DeleteV2_cascade _ _ _ _ _ _ _ _ Hd)
      as (new & Hlog & Hlast & Hend).
    exists new.
    destruct rd as [err ch | c]; inversion H; subst;
      (split; [rewrite Hlog, Hc; reflexivity |]);
      (split; [exact Hlast |]); intros Hq0 Hdep;
      destruct (Hend (Hq Hq0) Hdep) as (changes & E & _);
      inversion E; subst; eexists; reflexivity.
Qed.

(** C5.  In one call of [deleteImage], and in the cascade that it runs,
    [_deleteImageV1] or [_deleteImageV2]: among the calls to
    [imgapi.deleteImage] that the call adds, only the last one can have
    been answered [ImageHasDependentImages], so that no blob is asked
    for after that answer; and, Moray answering, a call in which IMGAPI
    gave that answer succeeds: it calls back without error, with its
    list of changes.  In the v2 cascade the records are deleted all the
    same: the record of every image of the cascade (the image and its
    ancestors down to the first head image) is then logged as [Deleted]
    and is gone from the bucket. *)
Theorem C5_dependent_blob_halts_reclamation (ext : Externals) (fuel : nat)
  (opts : Opts.t) :
  (forall (i : Image.t) (t : option ImgTag) (w w' : World)
          (r : Result (list Change)),
      DeleteV1._deleteImageV1 ext fuel opts i t w = (r, w') ->
      exists new : list (string * option Error),
        imgapi_deleteImage_calls w'
        = (imgapi_deleteImage_calls w ++ new)%list
        /\ dependent_only_last new = true
        /\ (moray_faults w = [] -> answered_dependent new ->
            exists changes, r = Called None changes))
  /\ (forall (i : ImageV2.t) (t : option ImgTag) (w w' : World)
             (r : Result (list Change)),
         DeleteV2._deleteImageV2 ext fuel opts i t w = (r, w') ->
         exists new : list (string * option Error),
           imgapi_deleteImage_calls w'
           = (imgapi_deleteImage_calls w ++ new)%list
           /\ dependent_only_last new = true
           /\ (moray_faults w = [] -> answered_dependent new ->
               exists changes,
                 r = Called None changes
                 /\ forall x : ImageV2.t,
                      In (V2 x)
                        (cascade_v2 fuel (Opts.account_uuid opts) i w) ->
                      In (Deleted (ImageV2.digest x)) changes
                      /\ forall rec, In rec (docker_images_v2 w') ->
                                     key rec <> key x))
  /\ (forall (w w' : World) (r : Result (option (list Change))),
         deleteImage ext fuel opts w = (r, w') ->
         exists new : list (string * option Error),
           imgapi_deleteImage_calls w'
           = (imgapi_deleteImage_calls w ++ new)%list
           /\ dependent_only_last new = true
           /\ (moray_faults w = [] -> answered_dependent new ->
               exists changes, r = Called None (Some changes))).
Proof.
  split; [| split].
  - intros i t w w' r. apply DeleteV1_cascade.
  - intros i t w w' r. apply DeleteV2_cascade.
  - intros w w' r. apply deleteImage_cascade.
Qed.

Lemma C5_witness :
  (let out := DeleteV1._deleteImageV1 sample_ext 10
                (opts_for "busybox" false) busybox_v1
                (Some (TagV1 busybox_v1_tag)) dependent_world in
   imgapi_deleteImage_calls (snd out)
   = [("uuid-busybox", Some has_dependents)]
   /\ exists changes, fst out = Called None changes)
  /\ (let out := DeleteV2._deleteImageV2 sample_ext 10
                   (opts_for "app" false) app_v2 (Some (TagV2 app_tag))
                   (app_world [Some has_dependents]) in
      imgapi_deleteImage_calls (snd out)
      = [("uuid-of-sha256:layer-app", Some has_dependents)]
      /\ exists changes,
           fst out = Called None changes
           /\ In (Deleted "sha256:app") changes
           /\ forall rec, In rec (docker_images_v2 (snd out)) ->
                          key rec <> key app_v2)
  /\ (let out := deleteImage sample_ext 10 (opts_for "busybox" false)
                   dependent_world_start in
      imgapi_deleteImage_calls (snd out)
      = [("uuid-busybox", Some has_dependents)]
      /\ exists changes, fst out = Called None (Some changes)).
Proof.
  split; [| split]; cbv zeta.
  - destruct (DeleteV1._deleteImageV1 sample_ext 10
                (opts_for "busybox" false) busybox_v1
                (Some (TagV1 busybox_v1_tag)) dependent_world)
      as [r w'] eqn:Hrun.
    pose proof Hrun as Hval. vm_compute in Hval.
    inversion Hval; subst r w'. clear Hval.
    split; [reflexivity |].
    destruct (proj1 (C5_dependent_blob_halts_reclamation sample_ext 10
                       (opts_for "busybox" false))
                busybox_v1 _ dependent_world _ _ Hrun)
      as (new & Hlog & _ & Hend).
    cbn [fst].
    apply Hend; [reflexivity |].
    cbn in Hlog. subst new.
    exists "uuid-busybox", has_dependents.
    split; [left; reflexivity | reflexivity].
  - destruct (DeleteV2._deleteImageV2 sample_ext 10
                (opts_for "app" false) app_v2 (Some (TagV2 app_tag))
                (app_world [Some has_dependents]))
      as [r w'] eqn:Hrun.
    pose proof Hrun as Hval. vm_compute in Hval.
    inversion Hval; subst r w'. clear Hval.
    split; [reflexivity |].
    destruct (proj1 (proj2 (C5_dependent_blob_halts_reclamation sample_ext 10
                              (opts_for "app" false)))
                app_v2 _ (app_world [Some has_dependents]) _ _ Hrun)
      as (new & Hlog & _ & Hend).
    cbn [fst snd].
    destruct Hend as (changes & E & Hx); [reflexivity | |].
    + cbn in Hlog. subst new.
      exists "uuid-of-sha256:layer-app", has_dependents.
      split; [left; reflexivity | reflexivity].
    + exists changes. split; [exact E |].
      apply (Hx app_v2). left. reflexivity.
  - destruct (deleteImage sample_ext 10 (opts_for "busybox" false)
                dependent_world_start) as [r w'] eqn:Hrun.
    pose proof Hrun as Hval. vm_compute in Hval.
    inversion Hval; subst r w'. clear Hval.
    split; [reflexivity |].
    destruct (proj2 (proj2 (C5_dependent_blob_halts_reclamation sample_ext 10
                              (opts_for "busybox" false)))
                dependent_world_start _ _ Hrun)
      as (new & Hlog & _ & Hend).
    cbn [fst].
    apply Hend; [reflexivity |].
    cbn in Hlog. subst new.
    exists "uuid-busybox", has_dependents.
    split; [left; reflexivity | reflexivity].
Defined.

(** The whole call on a v2 image of one layer: the layer is not
    reclaimed, the record is deleted all the same. *)
Lemma deleteImage_app_dependent :
  deleteImage sample_ext 10 (opts_for "app" false)
    (app_world [None; Some has_dependents])
  = (Called None (Some [Untagged "app:latest"; Deleted "sha256:app"]),
     mkWorld [] [] [] [] [live "uuid-of-sha256:layer-app"]
       [("uuid-of-sha256:layer-app", Some has_dependents)] []
       (fun _ _ => []) [] [] []).
Proof. vm_compute. reflexivity. Qed.

(** The whole call on a v1 image and its base layer: the answer of
    IMGAPI is not passed on, both records are deleted, and the blob of
    the base layer is not asked for. *)
Lemma deleteImage_dependent_world :
  deleteImage sample_ext 10 (opts_for "busybox" false) dependent_world_start
  = (Called None
       (Some [Untagged "busybox:latest";
              Deleted (Image.docker_id busybox_v1);
              Deleted (Image.docker_id lone_base)]),
     mkWorld [] [] [] [] [live "uuid-busybox"; live "uuid-base"]
       [("uuid-busybox", Some has_dependents)] []
       (fun _ _ => last_refs) [] [] []).
Proof. vm_compute. reflexivity. Qed.
